(** * A shallow embedding of the CPI index engine

    The development follows [src/dashboard/cpi_engine.py] (class [CPIEngine])
    and [src/analysis/cpi_wizard.py] (class [CPIWizard]).

    Numbers.  The two calculators that take numbers from the caller
    ([calculate_core_with_manual_exclusions], [calculate_custom_index] and
    its validator) decide between a result, a failing dict and an exception
    by comparing float sums and by testing a float quotient for zero, so
    their floats are IEEE 754 binary64 values with every operation rounded
    to nearest even, [inf], [nan], signed zeros and the [OverflowError] of
    [float(int)], see [Module Binary64].  The table calculations (engine
    and wizard) are modelled over exact rationals ([Q]), without rounding
    and without overflow, with the special values that the source creates
    out of finite data (a numpy division by zero gives [inf] or [nan]), see
    [Module Float]; their input tables hold finite numbers and signed zeros
    are not distinguished.

    Tables.  A pandas [DataFrame] is a list of rows (the price table, which
    is read column by column, is kept by columns), a [Series] a list of
    (label, value) pairs in row order, a Python [set] a [gset], a Python
    [dict] that is only iterated and looked up an association list.  Item
    codes label the rows of the weight and price tables; a code may label
    several rows, and a statement that needs the codes to be unique says so
    ([Engine.unique_codes]). *)

From Stdlib Require Import ZArith QArith Qabs Qpower Lqa Lia List String Bool Permutation Sorted OrdersEx.
From Stdlib Require Import Floats.SpecFloat.
From stdpp Require Import base list strings gmap sets.

#[local] Open Scope Q_scope.
#[local] Open Scope string_scope.
#[local] Open Scope list_scope.

(** ** Outcomes of a Python call *)

Inductive exn : Set :=
| ZeroDivisionError
| TypeError
| KeyError
| ValueError
| OverflowError.

Inductive outcome (A : Type) : Type :=
| Return (a : A)
| Raise (e : exn).

Arguments Return {A} a.
Arguments Raise {A} e.

Definition bind {A B : Type} (m : outcome A) (k : A -> outcome B) : outcome B :=
  match m with
  | Return a => k a
  | Raise e => Raise e
  end.

Notation "'let*' x ':=' m 'in' k" := (bind m (fun x => k))
  (at level 10, x name, m at level 100, k at level 200).

(** [a > b] on rationals, as a boolean. *)
Definition Qgtb (a b : Q) : bool := negb (Qle_bool a b).

(** ** Exact numbers with the special values

    [Fin q] is the finite number [q]; the other three are [inf], [-inf] and
    [nan].  The operations follow IEEE 754 on exact values. *)

Module Float.

Inductive float64 : Type :=
| Fin (q : Q)
| PosInf
| NegInf
| NaN.

Definition inf (positive : bool) : float64 :=
  if positive then PosInf else NegInf.

Definition neg (x : float64) : float64 :=
  match x with
  | Fin a => Fin (- a)
  | PosInf => NegInf
  | NegInf => PosInf
  | NaN => NaN
  end.

Definition add (x y : float64) : float64 :=
  match x, y with
  | NaN, _ | _, NaN => NaN
  | Fin a, Fin b => Fin (a + b)
  | PosInf, NegInf | NegInf, PosInf => NaN
  | PosInf, _ | _, PosInf => PosInf
  | NegInf, _ | _, NegInf => NegInf
  end.

Definition sub (x y : float64) : float64 := add x (neg y).

Definition mul (x y : float64) : float64 :=
  match x, y with
  | NaN, _ | _, NaN => NaN
  | Fin a, Fin b => Fin (a * b)
  | Fin a, PosInf | PosInf, Fin a =>
      if Qeq_bool a 0 then NaN else inf (Qgtb a 0)
  | Fin a, NegInf | NegInf, Fin a =>
      if Qeq_bool a 0 then NaN else inf (Qle_bool a 0)
  | PosInf, PosInf | NegInf, NegInf => PosInf
  | PosInf, NegInf | NegInf, PosInf => NegInf
  end.

(** numpy's [x / y]: a zero divisor gives [inf], [-inf] or [nan] (with a
    warning), never an exception. *)
Definition div (x y : float64) : float64 :=
  match x, y with
  | NaN, _ | _, NaN => NaN
  | Fin a, Fin b =>
      if Qeq_bool b 0
      then (if Qeq_bool a 0 then NaN else inf (Qgtb a 0))
      else Fin (a / b)
  | Fin _, (PosInf | NegInf) => Fin 0
  | PosInf, Fin b => inf (Qle_bool 0 b)
  | NegInf, Fin b => inf (Qgtb 0 b)
  | (PosInf | NegInf), (PosInf | NegInf) => NaN
  end.

(** Python's [x / y] on two floats: a zero divisor raises. *)
Definition truediv (x y : float64) : outcome float64 :=
  match y with
  | Fin b => if Qeq_bool b 0 then Raise ZeroDivisionError else Return (div x y)
  | _ => Return (div x y)
  end.

(** [x > y]; every comparison with [nan] is false. *)
Definition gtb (x y : float64) : bool :=
  match x, y with
  | NaN, _ | _, NaN => false
  | Fin a, Fin b => Qgtb a b
  | PosInf, (Fin _ | NegInf) => true
  | Fin _, NegInf => true
  | _, _ => false
  end.

Definition is_nan (x : float64) : bool :=
  match x with
  | NaN => true
  | _ => false
  end.

(** pandas' [Series.sum()] ([skipna=True]): [nan] entries are left out, the
    sum of nothing is [0.0]. *)
Definition nansum (l : list float64) : float64 :=
  fold_left add (List.filter (fun x => negb (is_nan x)) l) (Fin 0).

(** The sum of a column of finite numbers. *)
Definition Qsum (l : list Q) : Q := fold_left Qplus l 0.

End Float.

(** ** Python floats: IEEE 754 binary64

    A Python [float] is a binary64 value: a signed zero, an infinity, [nan]
    or [(-1)^s * m * 2^e] with a mantissa of at most 53 bits.  The
    operations are those of the Standard Library's specification of
    floating-point arithmetic at precision 53 and maximal exponent 1024:
    every result is rounded to nearest, ties to even, and overflows to an
    infinity. *)

Module Binary64.

Definition binary64 : Type := spec_float.

Definition prec : Z := 53.
Definition emax : Z := 1024.

Definition zero : binary64 := S754_zero false.
Definition nan : binary64 := S754_nan.

Definition add : binary64 -> binary64 -> binary64 := SFadd prec emax.
Definition sub : binary64 -> binary64 -> binary64 := SFsub prec emax.
Definition mul : binary64 -> binary64 -> binary64 := SFmul prec emax.

(** IEEE division: a zero divisor gives an infinity or [nan]. *)
Definition div : binary64 -> binary64 -> binary64 := SFdiv prec emax.

(** [x == y], [x < y], [x <= y], [x >= y] and [x > y]; every comparison
    with [nan] is false, and the two zeros are equal. *)
Definition eqb (x y : binary64) : bool := SFeqb x y.
Definition ltb (x y : binary64) : bool := SFltb x y.
Definition leb (x y : binary64) : bool := SFleb x y.
Definition geb (x y : binary64) : bool := SFleb y x.
Definition gtb (x y : binary64) : bool := SFltb y x.

Definition is_nan (x : binary64) : bool :=
  match x with
  | S754_nan => true
  | _ => false
  end.

(** The values that a Python float can take: the mantissa has at most 53
    bits and the exponent is in range. *)
Definition valid (x : binary64) : bool := valid_binary prec emax x.

(** The float nearest to the integer [z]; an infinity when [z] is beyond
    the largest float. *)
Definition of_Z (z : Z) : binary64 := binary_normalize prec emax z 0 false.

(** Python's [float(z)] on an [int]: "int too large to convert to float". *)
Definition of_int (z : Z) : outcome binary64 :=
  match of_Z z with
  | S754_infinity _ => Raise OverflowError
  | f => Return f
  end.

(** Python's [x / y] on two floats: a zero divisor raises. *)
Definition truediv (x y : binary64) : outcome binary64 :=
  if eqb y zero then Raise ZeroDivisionError else Return (div x y).

(** The float that the decimal literal [n/d] denotes, for integers [n] and
    [d] that are floats themselves (below [2^53]): 115.45 is
    [decimal 11545 100].  The division is correctly rounded, so this is the
    float nearest to the quotient. *)
Definition decimal (n d : Z) : binary64 := div (of_Z n) (of_Z d).

(** The rational number that a finite float stands for. *)
Definition value (x : binary64) : option Q :=
  match x with
  | S754_zero _ => Some 0
  | S754_finite s m e =>
      Some ((if s then - inject_Z (Zpos m) else inject_Z (Zpos m)) * 2 ^ e)
  | S754_infinity _ | S754_nan => None
  end.

(** A float operation that does not round on [x] and [y]: the arguments and
    the result are finite and the result stands for the exact result. *)
Definition exact (op : binary64 -> binary64 -> binary64) (qop : Q -> Q -> Q)
    (x y : binary64) : Prop :=
  match value x, value y, value (op x y) with
  | Some a, Some b, Some c => c == qop a b
  | _, _, _ => False
  end.

End Binary64.

(** ** The algebraic core-index calculator
    [CPIEngine.calculate_core_with_manual_exclusions] *)

Module Core.
Import Binary64.

(** A value handed to [float(...)]: something that [float] converts to the
    float [f] (a float, or text such as ['1.5'], ['nan'] or ['1e400'] that
    [float] reads as [f]), an [int], text that is not a number (on which
    [float] raises [ValueError]), or [None], a list or a dict (on which it
    raises [TypeError]). *)
Inductive pyval : Type :=
| PyFloat (f : binary64)
| PyInt (z : Z)
| PyStr
| PyNone.

Definition float (v : pyval) : outcome binary64 :=
  match v with
  | PyFloat f => Return f
  | PyInt z => of_int z
  | PyStr => Raise ValueError
  | PyNone => Raise TypeError
  end.

(** [except (ValueError, TypeError)]: every other exception passes through. *)
Definition caught (e : exn) : bool :=
  match e with
  | ValueError | TypeError => true
  | _ => false
  end.

(** One entry of the [exclusions] argument: a dict whose keys may be absent
    ([None] below), read with [excl.get(key, default)]. *)
Record exclusion : Type := {
  name : option string;
  old_index : option pyval;
  old_weight : option pyval;
  new_index : option pyval;
  new_weight : option pyval
}.

Definition get {A : Type} (field : option A) (dflt : A) : A :=
  match field with
  | Some v => v
  | None => dflt
  end.

(** An entry of [valid_exclusions]. *)
Record valid_exclusion : Type := {
  v_name : string;
  v_old_index : binary64;
  v_old_weight : binary64;
  v_new_index : binary64;
  v_new_weight : binary64
}.

(** The messages appended to [errors]; the two weight messages carry the
    numbers that the source formats into the text. *)
Inductive error : Type :=
| InvalidHeadline
| HeadlineIndexNotPositive
| HeadlineWeightNotPositive
| InvalidExclusion (excl_name : string)
| NoValidExclusions
| ExcludedOldWeightTooLarge (total headline : binary64)
| ExcludedNewWeightTooLarge (total headline : binary64).

(** The local variables that the loop over [exclusions] updates. *)
Record loop_state : Type := {
  errors : list error;
  total_excluded_old_weight : binary64;
  total_excluded_new_weight : binary64;
  weighted_sum_old_exclusions : binary64;
  weighted_sum_new_exclusions : binary64;
  valid_exclusions : list valid_exclusion
}.

(** The four [float(excl.get(...))] conversions of the [try] block, in the
    order of the source; the default of a missing key is the [int] 0. *)
Definition parse (excl : exclusion)
  : outcome (binary64 * binary64 * binary64 * binary64) :=
  let* old_idx := float (get (old_index excl) (PyInt 0)) in
  let* old_wt := float (get (old_weight excl) (PyInt 0)) in
  let* new_idx := float (get (new_index excl) (PyInt 0)) in
  let* new_wt := float (get (new_weight excl) (PyInt 0)) in
  Return (old_idx, old_wt, new_idx, new_wt).

(** [if old_wt <= 0 and new_wt <= 0: continue] *)
Definition skipped (old_wt new_wt : binary64) : bool :=
  leb old_wt zero && leb new_wt zero.

(** One round of the loop.  Only the conversions can raise, before anything
    is accumulated; [ValueError] and [TypeError] are caught and reported,
    an [OverflowError] leaves the method. *)
Definition loop_body (st : loop_state) (excl : exclusion) : outcome loop_state :=
  match parse excl with
  | Return (old_idx, old_wt, new_idx, new_wt) =>
      Return (
        if skipped old_wt new_wt then st
        else {|
          errors := errors st;
          total_excluded_old_weight := add (total_excluded_old_weight st) old_wt;
          total_excluded_new_weight := add (total_excluded_new_weight st) new_wt;
          weighted_sum_old_exclusions :=
            add (weighted_sum_old_exclusions st) (mul old_idx old_wt);
          weighted_sum_new_exclusions :=
            add (weighted_sum_new_exclusions st) (mul new_idx new_wt);
          valid_exclusions :=
            valid_exclusions st ++
            [ {| v_name := get (name excl) "Unknown";
                 v_old_index := old_idx; v_old_weight := old_wt;
                 v_new_index := new_idx; v_new_weight := new_wt |} ]
        |})
  | Raise e =>
      if caught e then
        Return {|
          errors := errors st ++ [InvalidExclusion (get (name excl) "Unknown")];
          total_excluded_old_weight := total_excluded_old_weight st;
          total_excluded_new_weight := total_excluded_new_weight st;
          weighted_sum_old_exclusions := weighted_sum_old_exclusions st;
          weighted_sum_new_exclusions := weighted_sum_new_exclusions st;
          valid_exclusions := valid_exclusions st
        |}
      else Raise e
  end.

Fixpoint run_loop (st : loop_state) (exclusions : list exclusion)
  : outcome loop_state :=
  match exclusions with
  | [] => Return st
  | excl :: rest =>
      let* st' := loop_body st excl in
      run_loop st' rest
  end.

(** [errors.append(msg)] under [if cond:]. *)
Definition append_if (cond : bool) (msg : error) (errs : list error) : list error :=
  if cond then errs ++ [msg] else errs.

(** An entry of the returned ['exclusions'] list: the validated entry with
    its ['inflation_rate']. *)
Record exclusion_report : Type := {
  entry : valid_exclusion;
  x_inflation_rate : binary64
}.

(** The dict returned on success. *)
Record core_result : Type := {
  scenario_name : string;
  headline_old_index : binary64;
  headline_new_index : binary64;
  headline_old_weight : binary64;
  headline_new_weight : binary64;
  headline_inflation : binary64;
  r_old_index : binary64;
  r_new_index : binary64;
  r_old_weight : binary64;
  r_new_weight : binary64;
  inflation_rate : binary64;
  difference_from_headline : binary64;
  r_total_excluded_old_weight : binary64;
  r_total_excluded_new_weight : binary64;
  remaining_old_weight : binary64;
  remaining_new_weight : binary64;
  excluded_items_count : nat;
  remaining_items_count : nat;
  exclusions : list exclusion_report
}.

(** The two shapes of the returned dict: ['success': False] with its
    ['errors'], or ['success': True]. *)
Inductive response : Type :=
| Failure (errs : list error) (scenario : string)
| Success (r : core_result).

(** [scenario_name or dflt]: [None] and the empty string are falsy. *)
Definition name_or (scenario : option string) (dflt : string) : string :=
  match scenario with
  | Some s => if String.eqb s "" then dflt else s
  | None => dflt
  end.

(** The [int] 100 of [... * 100], as the float it is converted to. *)
Definition hundred : binary64 := of_Z 100.

(** [((new - old) / old) * 100] *)
Definition percent_change (old new : binary64) : outcome binary64 :=
  let* d := truediv (sub new old) old in
  Return (mul d hundred).

(** The loop that adds ['inflation_rate'] to each validated entry. *)
Definition exclusion_inflation (excl : valid_exclusion) : outcome exclusion_report :=
  if gtb (v_old_index excl) zero then
    let* rate := percent_change (v_old_index excl) (v_new_index excl) in
    Return {| entry := excl; x_inflation_rate := rate |}
  else Return {| entry := excl; x_inflation_rate := zero |}.

Fixpoint exclusion_inflations (l : list valid_exclusion)
  : outcome (list exclusion_report) :=
  match l with
  | [] => Return []
  | excl :: rest =>
      let* r := exclusion_inflation excl in
      let* rs := exclusion_inflations rest in
      Return (r :: rs)
  end.

(** The locals as they stand when the loop over [exclusions] starts: the
    accumulators are [0.0] and [errors] holds the headline messages. *)
Definition initial_state (errs : list error) : loop_state := {|
  errors := errs;
  total_excluded_old_weight := zero;
  total_excluded_new_weight := zero;
  weighted_sum_old_exclusions := zero;
  weighted_sum_new_exclusions := zero;
  valid_exclusions := []
|}.

(** The four conversions of the first [try] block, in the order of the
    source: old index, new index, old weight, new weight. *)
Definition headline_floats (headline_old_index headline_old_weight
                            headline_new_index headline_new_weight : pyval)
  : outcome (binary64 * binary64 * binary64 * binary64) :=
  let* ho := float headline_old_index in
  let* hn := float headline_new_index in
  let* how := float headline_old_weight in
  let* hnw := float headline_new_weight in
  Return (ho, how, hn, hnw).

(** Everything from [errors = []] to the test [if errors:], in the source's
    order: the two headline checks, the loop, the three checks after it.
    Returns the locals after the loop and the final [errors]. *)
Definition validate (ho how hn hnw : binary64) (exclusions : list exclusion)
  : outcome (loop_state * list error) :=
  let errs0 := append_if (leb ho zero || leb hn zero) HeadlineIndexNotPositive [] in
  let errs1 := append_if (leb how zero || leb hnw zero) HeadlineWeightNotPositive errs0 in
  let* st := run_loop (initial_state errs1) exclusions in
  let errs2 := append_if (match valid_exclusions st with [] => true | _ => false end)
                 NoValidExclusions (errors st) in
  let errs3 := append_if (geb (total_excluded_old_weight st) how)
                 (ExcludedOldWeightTooLarge (total_excluded_old_weight st) how) errs2 in
  let errs4 := append_if (geb (total_excluded_new_weight st) hnw)
                 (ExcludedNewWeightTooLarge (total_excluded_new_weight st) hnw) errs3 in
  Return (st, errs4).

(** The part of the method after [if errors:], on the locals [st] that the
    loop has left. *)
Definition calculate (items_count : nat) (ho how hn hnw : binary64)
    (st : loop_state) (scenario : option string) : outcome response :=
  let weighted_headline_old := mul ho how in
  let remaining_old := sub how (total_excluded_old_weight st) in
  let* cpi_ex_old_index :=
    truediv (sub weighted_headline_old (weighted_sum_old_exclusions st)) remaining_old in
  let weighted_headline_new := mul hn hnw in
  let remaining_new := sub hnw (total_excluded_new_weight st) in
  let* cpi_ex_new_index :=
    truediv (sub weighted_headline_new (weighted_sum_new_exclusions st)) remaining_new in
  let* headline_infl := percent_change ho hn in
  let* cpi_ex_inflation := percent_change cpi_ex_old_index cpi_ex_new_index in
  let diff_from_headline := sub cpi_ex_inflation headline_infl in
  let* reports := exclusion_inflations (valid_exclusions st) in
  Return (Success {|
    scenario_name := name_or scenario "CPI Ex. Items";
    headline_old_index := ho;
    headline_new_index := hn;
    headline_old_weight := how;
    headline_new_weight := hnw;
    headline_inflation := headline_infl;
    r_old_index := cpi_ex_old_index;
    r_new_index := cpi_ex_new_index;
    r_old_weight := remaining_old;
    r_new_weight := remaining_new;
    inflation_rate := cpi_ex_inflation;
    difference_from_headline := diff_from_headline;
    r_total_excluded_old_weight := total_excluded_old_weight st;
    r_total_excluded_new_weight := total_excluded_new_weight st;
    remaining_old_weight := remaining_old;
    remaining_new_weight := remaining_new;
    excluded_items_count := List.length (valid_exclusions st);
    remaining_items_count := items_count;
    exclusions := reports
  |}).

(** [items_count] is [len(self.items_df)] (0 when the table is [None]): the
    only part of the engine that the method reads. *)
Definition calculate_core_with_manual_exclusions
    (items_count : nat)
    (headline_old_index headline_old_weight
     headline_new_index headline_new_weight : pyval)
    (exclusions : list exclusion) (scenario : option string)
  : outcome response :=
  match headline_floats headline_old_index headline_old_weight
          headline_new_index headline_new_weight with
  | Raise e =>
      if caught e
      then Return (Failure [InvalidHeadline] (name_or scenario "Unknown"))
      else Raise e
  | Return (ho, how, hn, hnw) =>
      let* checked := validate ho how hn hnw exclusions in
      match snd checked with
      | _ :: _ => Return (Failure (snd checked) (name_or scenario "Unknown"))
      | [] => calculate items_count ho how hn hnw (fst checked) scenario
      end
  end.

(** A fully numeric exclusion entry, as the dashboard form supplies it. *)
Definition numeric (n : string) (oi ow ni nw : binary64) : exclusion := {|
  name := Some n;
  old_index := Some (PyFloat oi);
  old_weight := Some (PyFloat ow);
  new_index := Some (PyFloat ni);
  new_weight := Some (PyFloat nw)
|}.

(** The dict that carries the numbers of [v]. *)
Definition of_valid (v : valid_exclusion) : exclusion :=
  numeric (v_name v) (v_old_index v) (v_old_weight v) (v_new_index v) (v_new_weight v).

(** The entries that the loop validates, as a function of the argument: an
    entry is left out when a [float(...)] fails and when both its weights are
    [<= 0]. *)
Definition keep (excl : exclusion) : list valid_exclusion :=
  match parse excl with
  | Return (old_idx, old_wt, new_idx, new_wt) =>
      if skipped old_wt new_wt then []
      else [ {| v_name := get (name excl) "Unknown";
                v_old_index := old_idx; v_old_weight := old_wt;
                v_new_index := new_idx; v_new_weight := new_wt |} ]
  | Raise _ => []
  end.

Definition kept (exclusions : list exclusion) : list valid_exclusion :=
  flat_map keep exclusions.

(** The messages that the [except] branch of the loop appends. *)
Definition parse_error (excl : exclusion) : list error :=
  match parse excl with
  | Return _ => []
  | Raise _ => [InvalidExclusion (get (name excl) "Unknown")]
  end.

Definition parse_errors (exclusions : list exclusion) : list error :=
  flat_map parse_error exclusions.

(** No entry holds an [int] too large for a float where the loop would
    convert it: the loop runs to its end. *)
Definition convertible (excl : exclusion) : Prop :=
  forall e, parse excl = Raise e -> caught e = true.

(** Every entry converts: the loop reports no entry. *)
Definition numbers (excl : exclusion) : Prop :=
  exists t, parse excl = Return t.

(** The accumulation [acc += x] from [0.0], in the order of the list. *)
Definition sum (l : list binary64) : binary64 := fold_left add l zero.

(** The sums of the formula, over a list of validated entries. *)
Definition old_product (e : valid_exclusion) : binary64 :=
  mul (v_old_index e) (v_old_weight e).
Definition new_product (e : valid_exclusion) : binary64 :=
  mul (v_new_index e) (v_new_weight e).

Definition sum_old_weight (l : list valid_exclusion) : binary64 :=
  sum (List.map v_old_weight l).
Definition sum_new_weight (l : list valid_exclusion) : binary64 :=
  sum (List.map v_new_weight l).
Definition sum_old_weighted (l : list valid_exclusion) : binary64 :=
  sum (List.map old_product l).
Definition sum_new_weighted (l : list valid_exclusion) : binary64 :=
  sum (List.map new_product l).

(** The invariant of the loop: the four accumulators are the sums over the
    validated entries. *)
Definition sums_agree (st : loop_state) : Prop :=
  total_excluded_old_weight st = sum_old_weight (valid_exclusions st) /\
  total_excluded_new_weight st = sum_new_weight (valid_exclusions st) /\
  weighted_sum_old_exclusions st = sum_old_weighted (valid_exclusions st) /\
  weighted_sum_new_exclusions st = sum_new_weighted (valid_exclusions st).

(** The error list of the specification: one message for each violated
    condition, in the order of the checks. *)
Definition validation_errors (ho how hn hnw : binary64) (xs : list exclusion)
  : list error :=
  (if leb ho zero || leb hn zero then [HeadlineIndexNotPositive] else []) ++
  (if leb how zero || leb hnw zero then [HeadlineWeightNotPositive] else []) ++
  parse_errors xs ++
  (match kept xs with [] => [NoValidExclusions] | _ => [] end) ++
  (if geb (sum_old_weight (kept xs)) how
   then [ExcludedOldWeightTooLarge (sum_old_weight (kept xs)) how] else []) ++
  (if geb (sum_new_weight (kept xs)) hnw
   then [ExcludedNewWeightTooLarge (sum_new_weight (kept xs)) hnw] else []).

(** The formula of the docstring, in floats:
    [(index * weight - sum of products) / (weight - sum of weights)]. *)
Definition ex_index (index weight products weights : binary64) : binary64 :=
  div (sub (mul index weight) products) (sub weight weights).

(** The values that Python can hand over: a float is a valid binary64. *)
Definition is_float (v : pyval) : bool :=
  match v with
  | PyFloat f => valid f
  | _ => true
  end.

Definition floats (excl : exclusion) : bool :=
  is_float (get (old_index excl) (PyInt 0)) &&
  is_float (get (old_weight excl) (PyInt 0)) &&
  is_float (get (new_index excl) (PyInt 0)) &&
  is_float (get (new_weight excl) (PyInt 0)).

(** A running float sum in which no addition rounds. *)
Fixpoint exact_sum (acc : binary64) (l : list binary64) : Prop :=
  match l with
  | [] => True
  | x :: rest => exact add Qplus acc x /\ exact_sum (add acc x) rest
  end.

(** The (index, weight) pairs of the validated entries, by period. *)
Definition old_entries (l : list valid_exclusion) : list (binary64 * binary64) :=
  List.map (fun e => (v_old_index e, v_old_weight e)) l.
Definition new_entries (l : list valid_exclusion) : list (binary64 * binary64) :=
  List.map (fun e => (v_new_index e, v_new_weight e)) l.

Definition products (entries : list (binary64 * binary64)) : list binary64 :=
  List.map (fun p => mul (fst p) (snd p)) entries.

(** The arithmetic of one period is exact: none of the operations of the
    formula rounds, overflows or meets [nan]. *)
Definition exact_arithmetic (index weight : binary64)
    (entries : list (binary64 * binary64)) : Prop :=
  exact mul Qmult index weight /\
  Forall (fun p => exact mul Qmult (fst p) (snd p)) entries /\
  exact_sum zero (products entries) /\
  exact_sum zero (List.map snd entries) /\
  exact sub Qminus (mul index weight) (sum (products entries)) /\
  exact sub Qminus weight (sum (List.map snd entries)) /\
  exact div Qdiv (sub (mul index weight) (sum (products entries)))
    (sub weight (sum (List.map snd entries))).

(** The rational number of a finite float (0 for the others). *)
Definition number (x : binary64) : Q :=
  match value x with
  | Some q => q
  | None => 0
  end.

(** The aggregate [sum of index x weight] of the entries, as a rational. *)
Definition weighted (entries : list (binary64 * binary64)) : Q :=
  fold_right (fun p acc => number (fst p) * number (snd p) + acc) 0 entries.

End Core.

(** ** The direct index calculator of the dashboard engine
    [CPIEngine._calculate_laspeyres], [get_headline_index],
    [get_index_with_exclusions] *)

Module Engine.
Import Float.

(** A row of [items.csv], with the columns that the calculation reads. *)
Record item_row : Type := {
  Item_Code : string;
  Weight : Q
}.

(** The price table: the [Item_Code] column and the month columns, each
    month column holding one price relative per row. *)
Record price_table : Type := {
  price_codes : list string;
  price_columns : list (string * list Q)
}.

(** A [Series] indexed by item code. *)
Definition series : Type := list (string * float64).

(** The nested dict built by [_build_hierarchy]. *)
Record class_entry : Type := {
  class_name : string;
  class_weight : Q;
  items : list string
}.

Record group_entry : Type := {
  group_name : string;
  group_weight : Q;
  classes : list (string * class_entry)
}.

Record division_entry : Type := {
  division_name : string;
  division_weight : Q;
  groups : list (string * group_entry)
}.

(** The attributes of [CPIEngine] that the calculation reads;
    [prices_df] is [None] until [load_prices] has run.  The dicts of the
    hierarchy are association lists with one entry per key. *)
Record CPIEngine : Type := {
  items_df : list item_row;
  prices_df : option price_table;
  months : list string;
  hierarchy : list (string * division_entry)
}.

(** A series all of whose values are finite. *)
Definition finite_series (s : list (string * Q)) : series :=
  List.map (fun cq => (fst cq, Fin (snd cq))) s.

(** [d.get(key)] and [key in d] on a dict kept as an association list. *)
Definition dict_get {V : Type} (d : list (string * V)) (key : string) : option V :=
  snd <$> List.find (fun kv => String.eqb (fst kv) key) d.

(** [df[col].isin(values)] for one cell. *)
Definition isin (code : string) (values : list string) : bool :=
  bool_decide (code ∈ values).

(** [df[df['Item_Code'].isin(item_codes)]] on the price table: the rows
    whose mask bit is set, in every column. *)
Fixpoint mask_rows {A : Type} (mask : list bool) (col : list A) : list A :=
  match mask, col with
  | b :: mask', x :: col' =>
      if b then x :: mask_rows mask' col' else mask_rows mask' col'
  | _, _ => []
  end.

Definition filter_prices (prices : price_table) (item_codes : list string) : price_table :=
  let mask := List.map (fun c => isin c item_codes) (price_codes prices) in
  {| price_codes := mask_rows mask (price_codes prices);
     price_columns :=
       List.map (fun col => (fst col, mask_rows mask (snd col))) (price_columns prices) |}.

(** [prices_data.set_index('Item_Code')[month]]; a month that is not a
    column raises [KeyError]. *)
Definition month_column (prices : price_table) (month : string) : outcome series :=
  match dict_get (price_columns prices) month with
  | Some cells => Return (zip (price_codes prices) (List.map Fin cells))
  | None => Raise KeyError
  end.

(** [s[labels]]: the rows at the given labels, in the order of the labels;
    a label that the index repeats gives all its rows. *)
Definition loc (s : series) (labels : list string) : series :=
  List.concat
    (List.map (fun c => List.filter (fun kv => String.eqb (fst kv) c) s) labels).

(** [a * b] on two series.  pandas aligns the rows on the index: when the
    two indexes are equal the rows are multiplied one by one; otherwise the
    indexes are joined, a label that both series carry gives one row for
    every pair of its rows, and a label that only one carries gives [nan]. *)
Definition mul_aligned (a b : series) : list float64 :=
  if bool_decide (List.map fst a = List.map fst b)
  then zip_with mul (List.map snd a) (List.map snd b)
  else
    List.concat
      (List.map (fun ka =>
         match List.filter (fun kb => String.eqb (fst kb) (fst ka)) b with
         | [] => [NaN]
         | rows => List.map (fun kb => mul (snd ka) (snd kb)) rows
         end) a)
    ++ List.map (fun _ => NaN)
         (List.filter (fun kb => negb (isin (fst kb) (List.map fst a))) b).

Definition index_set (s : series) : gset string := list_to_set (List.map fst s).

Record month_entry : Type := {
  Month : string;
  Index : float64;
  MoM_Change : float64
}.

(** The returned dict. *)
Record laspeyres_result : Type := {
  Variant : string;
  Items_Count : nat;
  Total_Weight : Q;
  Weight_Normalized : float64;
  Monthly_Data : list month_entry
}.

(** [(weights / weight_sum) * 100] *)
Definition normalize (weights : list (string * Q)) (weight_sum : Q) : series :=
  List.map (fun cw => (fst cw, mul (div (Fin (snd cw)) (Fin weight_sum)) (Fin 100))) weights.

(** [list(set(month_prices.index) & set(weights_normalized.index))] *)
Definition matched_items (month_prices weights_normalized : series) : list string :=
  elements (index_set month_prices ∩ index_set weights_normalized).

(** [(month_prices[matched_items] * weights_normalized[matched_items]).sum()] *)
Definition weighted_sum (month_prices weights_normalized : series) : float64 :=
  let matched_items := matched_items month_prices weights_normalized in
  nansum (mul_aligned (loc month_prices matched_items)
                      (loc weights_normalized matched_items)).

(** [weights_normalized[matched_items].sum()] *)
Definition weight_total (month_prices weights_normalized : series) : float64 :=
  nansum (List.map snd
            (loc weights_normalized (matched_items month_prices weights_normalized))).

(** [if weight_total > 0: ... else: index_value = 100.0] *)
Definition index_value (weighted_sum weight_total : float64) : float64 :=
  if gtb weight_total (Fin 0)
  then mul (div weighted_sum weight_total) (Fin 100)
  else Fin 100.

(** The body of [for month in self.months]: [None] stands for [continue]. *)
Definition month_index (prices_data : price_table) (weights_normalized : series)
    (month : string) : outcome (option float64) :=
  let* month_prices := month_column prices_data month in
  if (List.length (matched_items month_prices weights_normalized) =? 0)%nat
  then Return None
  else Return (Some (index_value (weighted_sum month_prices weights_normalized)
                                 (weight_total month_prices weights_normalized))).

Fixpoint monthly_indices (prices_data : price_table) (weights_normalized : series)
    (months : list string) : outcome (list (string * float64)) :=
  match months with
  | [] => Return []
  | month :: rest =>
      let* this := month_index prices_data weights_normalized month in
      let* others := monthly_indices prices_data weights_normalized rest in
      Return (match this with
              | Some index_value => (month, index_value) :: others
              | None => others
              end)
  end.

(** The loop [for i, data in enumerate(monthly_data)]; [prev] is
    [monthly_data[i-1]['Index']], and [None] when [i = 0]. *)
Fixpoint mom_changes (prev : option float64) (monthly_data : list (string * float64))
  : outcome (list month_entry) :=
  match monthly_data with
  | [] => Return []
  | (month, index) :: rest =>
      let* mom_change :=
        match prev with
        | Some prev_index =>
            let* d := truediv (sub index prev_index) prev_index in
            Return (mul d (Fin 100))
        | None => Return (Fin 0)
        end in
      let* others := mom_changes (Some index) rest in
      Return ({| Month := month; Index := index; MoM_Change := mom_change |} :: others)
  end.

Definition _calculate_laspeyres (self : CPIEngine) (item_codes : list string)
    (variant_name : string) : outcome (option laspeyres_result) :=
  match item_codes, prices_df self with
  | [], _ | _, None => Return None
  | _ :: _, Some prices =>
      let items_data :=
        List.filter (fun r => isin (Item_Code r) item_codes) (items_df self) in
      let prices_data := filter_prices prices item_codes in
      if ((List.length items_data =? 0) || (List.length (price_codes prices_data) =? 0))%nat
      then Return None
      else
        let weights := List.map (fun r => (Item_Code r, Weight r)) items_data in
        let weight_sum := Qsum (List.map snd weights) in
        let weights_normalized := normalize weights weight_sum in
        let* indices := monthly_indices prices_data weights_normalized (months self) in
        let* monthly_data := mom_changes None indices in
        Return (Some {|
          Variant := variant_name;
          Items_Count := List.length items_data;
          Total_Weight := weight_sum;
          Weight_Normalized := mul (div (Fin weight_sum) (Fin weight_sum)) (Fin 100);
          Monthly_Data := monthly_data
        |})
  end.

(** The locals [weights] and [weights_normalized] of [_calculate_laspeyres]
    for a selection. *)
Definition selected_weights (self : CPIEngine) (item_codes : list string)
  : list (string * Q) :=
  List.map (fun r => (Item_Code r, Weight r))
    (List.filter (fun r => isin (Item_Code r) item_codes) (items_df self)).

Definition selected_weights_normalized (self : CPIEngine) (item_codes : list string)
  : series :=
  normalize (selected_weights self item_codes)
            (Qsum (List.map snd (selected_weights self item_codes))).

(** No item code is repeated, neither in the weight table nor in the price
    table. *)
Definition unique_codes (self : CPIEngine) : Prop :=
  List.NoDup (List.map Item_Code (items_df self)) /\
  forall prices, prices_df self = Some prices -> List.NoDup (price_codes prices).

Definition get_headline_index (self : CPIEngine) : outcome (option laspeyres_result) :=
  let selected_items := List.map Item_Code (items_df self) in
  _calculate_laspeyres self selected_items "Headline CPI".

(** The items below a class, a group and a division of the hierarchy. *)
Definition classes_items (classes_dict : list (string * class_entry)) : list string :=
  List.concat (List.map (fun kv => items (snd kv)) classes_dict).

Definition groups_items (div_groups : list (string * group_entry)) : list string :=
  List.concat (List.map (fun kv => classes_items (classes (snd kv))) div_groups).

(** [for div_code in excluded_divisions: ...] *)
Definition exclude_divisions (self : CPIEngine) (excluded_divisions : list string)
    (excluded_items : gset string) : gset string :=
  fold_left (fun acc div_code =>
    let div_groups :=
      match dict_get (hierarchy self) div_code with
      | Some div_data => groups div_data
      | None => []
      end in
    acc ∪ list_to_set (groups_items div_groups)) excluded_divisions excluded_items.

(** [for grp_code in excluded_groups: for div_code, div_data in ...] *)
Definition exclude_groups (self : CPIEngine) (excluded_groups : list string)
    (excluded_items : gset string) : gset string :=
  fold_left (fun acc grp_code =>
    fold_left (fun acc' div =>
      match dict_get (groups (snd div)) grp_code with
      | Some grp_data => acc' ∪ list_to_set (classes_items (classes grp_data))
      | None => acc'
      end) (hierarchy self) acc) excluded_groups excluded_items.

(** [for cls_code in excluded_classes: for ... for ...] *)
Definition exclude_classes (self : CPIEngine) (excluded_classes : list string)
    (excluded_items : gset string) : gset string :=
  fold_left (fun acc cls_code =>
    fold_left (fun acc' div =>
      fold_left (fun acc'' grp =>
        match dict_get (classes (snd grp)) cls_code with
        | Some cls_data => acc'' ∪ list_to_set (items cls_data)
        | None => acc''
        end) (groups (snd div)) acc') (hierarchy self) acc) excluded_classes excluded_items.

(** The dict returned by [get_index_with_exclusions]: the result of
    [_calculate_laspeyres] with two more keys. *)
Record exclusion_result : Type := {
  base : laspeyres_result;
  excluded_items_count : nat;
  excluded_weight : Q
}.

(** [arg or []] for an argument whose default is [None]. *)
Definition or_empty (arg : option (list string)) : list string :=
  match arg with
  | Some l => l
  | None => []
  end.

(** The set [excluded_items] after the three loops. *)
Definition excluded_items (self : CPIEngine)
    (excluded_divisions excluded_groups excluded_classes : list string) : gset string :=
  exclude_classes self excluded_classes
    (exclude_groups self excluded_groups
       (exclude_divisions self excluded_divisions ∅)).

Definition get_index_with_exclusions (self : CPIEngine)
    (excluded_divisions excluded_groups excluded_classes : option (list string))
  : outcome exclusion_result :=
  let excluded_divisions := or_empty excluded_divisions in
  let excluded_groups := or_empty excluded_groups in
  let excluded_classes := or_empty excluded_classes in
  let all_items : gset string := list_to_set (List.map Item_Code (items_df self)) in
  let excluded_items :=
    excluded_items self excluded_divisions excluded_groups excluded_classes in
  let selected_items := elements (all_items ∖ excluded_items) in
  let excluded_weight :=
    Qsum (List.map Weight
            (List.filter (fun r => bool_decide (Item_Code r ∈ excluded_items))
                         (items_df self))) in
  let* result := _calculate_laspeyres self selected_items "CPI with Exclusions" in
  match result with
  | None => Raise TypeError
  | Some result =>
      Return {| base := result;
                excluded_items_count := size excluded_items;
                excluded_weight := excluded_weight |}
  end.

End Engine.

(** ** The interactive wizard
    [calculate_mom_change], [calculate_yoy_change] and class [CPIWizard] *)

Module Wizard.
Import Float.

(** *** Orders used by [sort_values] and [groupby] *)

Definition then_compare (c : comparison) (next : comparison) : comparison :=
  match c with
  | Eq => next
  | _ => c
  end.

Definition not_greater (c : comparison) : bool :=
  match c with
  | Gt => false
  | _ => true
  end.

(** A stable insertion sort: an element goes after the elements that are
    not greater than it. *)
Fixpoint insert_sorted {A : Type} (cmp : A -> A -> comparison) (x : A) (l : list A) : list A :=
  match l with
  | [] => [x]
  | y :: rest =>
      if not_greater (cmp y x) then y :: insert_sorted cmp x rest
      else x :: y :: rest
  end.

Definition stable_sort {A : Type} (cmp : A -> A -> comparison) (l : list A) : list A :=
  fold_left (fun sorted x => insert_sorted cmp x sorted) l [].

(** What the sort needs of a three-way comparison, and the order it
    sorts by. *)
Record order_compare {A : Type} (cmp : A -> A -> comparison) : Prop := {
  compare_opp : forall a b, cmp b a = CompOpp (cmp a b);
  compare_eq_l : forall a b c, cmp a b = Eq -> cmp a c = cmp b c;
  compare_lt_trans : forall a b c, cmp a b = Lt -> cmp b c = Lt -> cmp a c = Lt
}.

Definition le_of {A : Type} (cmp : A -> A -> comparison) (a b : A) : Prop :=
  not_greater (cmp a b) = true.

(** *** The derived series *)

(** A row of the frame [custom_series]: the five group columns of
    [_calculate_current], the value and the name of the index (the
    ['division'] column). *)
Record series_row : Type := {
  date : Z;
  year : Z;
  month : string;
  state : string;
  sector : string;
  index : float64;
  division : string
}.

(** [group_columns = ['division', 'state', 'sector']] *)
Definition same_group (a b : series_row) : bool :=
  String.eqb (division a) (division b) && String.eqb (state a) (state b)
  && String.eqb (sector a) (sector b).

(** The order of [df.sort_values(group_columns + ['date'])]. *)
Definition compare_rows (a b : series_row) : comparison :=
  then_compare (String.compare (division a) (division b))
    (then_compare (String.compare (state a) (state b))
       (then_compare (String.compare (sector a) (sector b))
          (Z.compare (date a) (date b)))).

(** One value of [x / x.shift(periods) - 1]: [above] holds the values of the
    series above the current one, in order; the result is [nan] where the
    series has no value [periods] places above. *)
Definition pct_at (periods : nat) (above : list float64) (x : float64) : float64 :=
  match (if (periods <=? List.length above)%nat
         then above !! (List.length above - periods)%nat
         else None) with
  | Some prev => sub (div x prev) (Fin 1)
  | None => NaN
  end.

(** [Series.pct_change(periods)] on one series ([above] is empty at the
    start).  [nan] values are not forward-filled: on values without [nan]
    this is pandas' result whatever its [fill_method]. *)
Fixpoint pct_change (periods : nat) (above xs : list float64) : list float64 :=
  match xs with
  | [] => []
  | x :: rest => pct_at periods above x :: pct_change periods (above ++ [x]) rest
  end.

Section Changes.

(** The frame may carry more columns than [series_row] has. *)
Context {A : Type} (row_of : A -> series_row).

Definition sort_values (df : list A) : list A :=
  stable_sort (fun a b => compare_rows (row_of a) (row_of b)) df.

(** The values of the rows of [df] that are in the group of [row]. *)
Definition group_values (row : A) (df : list A) : list float64 :=
  List.map (fun r => index (row_of r))
    (List.filter (fun r => same_group (row_of r) (row_of row)) df).

(** [df.groupby(group_columns)[value_column].pct_change(periods)], row by
    row: each row gets the change inside its own group; [above] holds the
    rows above the current one. *)
Fixpoint groupby_pct_change (periods : nat) (above df : list A) : list float64 :=
  match df with
  | [] => []
  | row :: rest =>
      pct_at periods (group_values row above) (index (row_of row))
      :: groupby_pct_change periods (above ++ [row]) rest
  end.

(** The common body of [calculate_mom_change] and [calculate_yoy_change]:
    the sorted frame with its new column. *)
Definition calculate_change (periods : nat) (df : list A) : list (A * float64) :=
  let df := sort_values df in
  zip df (List.map (fun c => mul c (Fin 100)) (groupby_pct_change periods [] df)).

End Changes.

Definition calculate_mom_change {A : Type} (row_of : A -> series_row) (df : list A)
  : list (A * float64) :=
  calculate_change row_of 1 df.

Definition calculate_yoy_change {A : Type} (row_of : A -> series_row) (df : list A)
  : list (A * float64) :=
  calculate_change row_of 12 df.

(** *** The wizard's state *)

(** A row of [item_map]; the three names come from left merges and are
    missing ([None]) for an item whose class, group or division is unknown. *)
Record item_map_row : Type := {
  Item_Code : string;
  Item_Name : string;
  Division_Name : option string;
  Group_Name : option string;
  Class_Name : option string;
  Weight : Q
}.

(** A row of the main data frame [self.df]. *)
Record data_row : Type := {
  d_date : Z;
  d_year : Z;
  d_month : string;
  d_state : string;
  d_sector : string;
  d_item : string;
  d_code : string;
  d_index : Q
}.

Inductive level : Set :=
| division_level
| group_level
| class_level
| item_level.

#[export] Instance level_eq_dec : EqDecision level.
Proof. solve_decision. Defined.

(** The dict [selected_exclusions]: one list of names per level. *)
Record exclusions : Type := {
  ex_division : list string;
  ex_group : list string;
  ex_class : list string;
  ex_item : list string
}.

Definition selected (ex : exclusions) (lvl : level) : list string :=
  match lvl with
  | division_level => ex_division ex
  | group_level => ex_group ex
  | class_level => ex_class ex
  | item_level => ex_item ex
  end.

Definition set_selected (ex : exclusions) (lvl : level) (l : list string) : exclusions :=
  match lvl with
  | division_level =>
      {| ex_division := l; ex_group := ex_group ex; ex_class := ex_class ex; ex_item := ex_item ex |}
  | group_level =>
      {| ex_division := ex_division ex; ex_group := l; ex_class := ex_class ex; ex_item := ex_item ex |}
  | class_level =>
      {| ex_division := ex_division ex; ex_group := ex_group ex; ex_class := l; ex_item := ex_item ex |}
  | item_level =>
      {| ex_division := ex_division ex; ex_group := ex_group ex; ex_class := ex_class ex; ex_item := l |}
  end.

(** The attributes of [CPIWizard]; [weights] gives, for each level, the
    name column of that level's weight table in row order. *)
Record CPIWizard : Type := {
  df : list data_row;
  weights : level -> list string;
  item_map : list item_map_row;
  selected_exclusions : exclusions;
  generated_indices : list (list ((series_row * float64) * float64))
}.

Definition with_exclusions (self : CPIWizard) (ex : exclusions) : CPIWizard := {|
  df := df self;
  weights := weights self;
  item_map := item_map self;
  selected_exclusions := ex;
  generated_indices := generated_indices self
|}.

(** The state after [__init__], and the reset of choice "0". *)
Definition no_exclusions : exclusions :=
  {| ex_division := []; ex_group := []; ex_class := []; ex_item := [] |}.

(** [col.isin(names)] for one cell; a missing name is in no list. *)
Definition name_isin (cell : option string) (names : list string) : bool :=
  match cell with
  | Some n => bool_decide (n ∈ names)
  | None => false
  end.

(** [excluded.update(items_full[items_full[col].isin(names)]['Item_Code'])] *)
Definition codes_where (items_full : list item_map_row)
    (col : item_map_row -> option string) (names : list string) : gset string :=
  list_to_set (List.map Item_Code (List.filter (fun r => name_isin (col r) names) items_full)).

Definition _get_excluded_item_codes (self : CPIWizard) : gset string :=
  let items_full := item_map self in
  let ex := selected_exclusions self in
  ((∅ ∪ codes_where items_full Division_Name (ex_division ex))
     ∪ codes_where items_full Group_Name (ex_group ex)
     ∪ codes_where items_full Class_Name (ex_class ex))
     ∪ codes_where items_full (fun r => Some (Item_Name r)) (ex_item ex).

(** [l.remove(x)]: the first occurrence goes. *)
Fixpoint remove_first (x : string) (l : list string) : list string :=
  match l with
  | [] => []
  | y :: rest => if String.eqb y x then rest else y :: remove_first x rest
  end.

(** The [if name in ...: remove / else: append] of [_pick_exclusion]. *)
Definition toggle (name : string) (l : list string) : list string :=
  if bool_decide (name ∈ l) then remove_first name l else l ++ [name].

(** A piece of the typed line after [split(",")]: blank, an integer for
    [int(idx)], or text on which [int] raises [ValueError]. *)
Inductive token : Type :=
| Blank
| Int (z : Z)
| Junk.

(** [w_df.iloc[z][col_name]]: a negative position counts from the end;
    [None] is [IndexError]. *)
Definition iloc (names : list string) (z : Z) : option string :=
  if (0 <=? z)%Z then names !! Z.to_nat z
  else if (0 <=? Z.of_nat (List.length names) + z)%Z
       then names !! Z.to_nat (Z.of_nat (List.length names) + z)
       else None.

(** The loop of [_pick_exclusion] under its [try]: an exception ends the
    loop, the toggles made so far stay. *)
Fixpoint pick_loop (names : list string) (tokens : list token) (sel : list string)
  : list string :=
  match tokens with
  | [] => sel
  | Blank :: rest => pick_loop names rest sel
  | Junk :: _ => sel
  | Int z :: rest =>
      match iloc names z with
      | Some name => pick_loop names rest (toggle name sel)
      | None => sel
      end
  end.

Definition _pick_exclusion (self : CPIWizard) (lvl : level) (indices : list token)
  : CPIWizard :=
  let w_df := weights self lvl in
  with_exclusions self
    (set_selected (selected_exclusions self) lvl
       (pick_loop w_df indices (selected (selected_exclusions self) lvl))).

(** *** [_calculate_current] *)

(** [group_cols = ['date', 'year', 'month', 'state', 'sector']] *)
Definition group_key : Type := Z * Z * string * string * string.

Definition key_of (d : data_row) : group_key :=
  (d_date d, d_year d, d_month d, d_state d, d_sector d).

Definition compare_keys (a b : group_key) : comparison :=
  let '(date_a, year_a, month_a, state_a, sector_a) := a in
  let '(date_b, year_b, month_b, state_b, sector_b) := b in
  then_compare (Z.compare date_a date_b)
    (then_compare (Z.compare year_a year_b)
       (then_compare (String.compare month_a month_b)
          (then_compare (String.compare state_a state_b)
             (String.compare sector_a sector_b)))).

Definition key_eqb (a b : group_key) : bool := bool_decide (a = b).

(** [remaining_items['norm_weight'] = (Weight / total_weight) * 100] *)
Definition norm_weight (total_weight : Q) (r : item_map_row) : float64 :=
  mul (div (Fin (Weight r)) (Fin total_weight)) (Fin 100).

(** The inner merge of the item-level data with [remaining_items] on the
    item code: one row per matching pair, in the order of the data. *)
Definition merge (item_data : list data_row) (remaining_items : list item_map_row)
    (total_weight : Q) : list (data_row * float64) :=
  List.concat
    (List.map (fun d =>
       List.map (fun r => (d, norm_weight total_weight r))
         (List.filter (fun r => String.eqb (d_code d) (Item_Code r)) remaining_items))
       item_data).

(** The lambda applied to each group:
    [(x['index'] * x['norm_weight']).sum() / x['norm_weight'].sum()] *)
Definition group_index (x : list (data_row * float64)) : float64 :=
  div (nansum (List.map (fun dw => mul (Fin (d_index (fst dw))) (snd dw)) x))
      (nansum (List.map snd x)).

(** [merged.groupby(group_cols).apply(...)]: one row per distinct key, in
    the order of the keys.  An empty [merged] gives the empty series here;
    in the source the renaming of its columns then raises [ValueError], see
    [_calculate_current]. *)
Definition grouped (merged : list (data_row * float64)) (index_name : string)
  : list series_row :=
  let keys :=
    stable_sort compare_keys (remove_dups (List.map (fun dw => key_of (fst dw)) merged)) in
  List.map (fun k =>
    let '(date_k, year_k, month_k, state_k, sector_k) := k in
    {| date := date_k; year := year_k; month := month_k;
       state := state_k; sector := sector_k;
       index := group_index (List.filter (fun dw => key_eqb (key_of (fst dw)) k) merged);
       division := index_name |}) keys.

(** [self.item_map[~self.item_map['Item_Code'].isin(excluded_codes)]] *)
Definition remaining_items (self : CPIWizard) : list item_map_row :=
  let excluded_codes := _get_excluded_item_codes self in
  List.filter (fun r => negb (bool_decide (Item_Code r ∈ excluded_codes))) (item_map self).

(** The frame [merged] of [_calculate_current]. *)
Definition merged (self : CPIWizard) : list (data_row * float64) :=
  let remaining_items := remaining_items self in
  let total_weight := Qsum (List.map Weight remaining_items) in
  let item_data := List.filter (fun d => negb (String.eqb (d_item d) "*")) (df self) in
  merge item_data remaining_items total_weight.

(** [index_name] is the name after the default has been filled in.  [None]
    is the [return None] after "ERROR: All items excluded."  [Some []]
    stands for the one call that does not return: when no observation
    matches a remaining item, [merged] is empty and
    [custom_series.columns = group_cols + ['index']] raises [ValueError];
    a returned series is never empty.  [session] ends such a call with
    [OtherException]. *)
Definition _calculate_current (self : CPIWizard) (index_name : string)
  : option (list ((series_row * float64) * float64)) :=
  match remaining_items self with
  | [] => None
  | _ :: _ =>
      let custom_series := grouped (merged self) index_name in
      let custom_series := calculate_mom_change (fun r => r) custom_series in
      let custom_series := calculate_yoy_change fst custom_series in
      Some custom_series
  end.

End Wizard.
(** ** Concrete inputs used by the examples below *)

Module Examples.

(** Inputs of the algebraic calculator.  [num z] is the float [z.0]. *)
Definition num (z : Z) : Core.pyval := Core.PyFloat (Binary64.of_Z z).

Definition entry (n : string) (oi ow ni nw : Z) : Core.exclusion :=
  Core.numeric n (Binary64.of_Z oi) (Binary64.of_Z ow) (Binary64.of_Z ni) (Binary64.of_Z nw).

(** The exclusion of the scenario: "Food", 105.0 -> 130.0, weights 40. *)
Definition food : Core.exclusion := entry "Food" 105 40 130 40.

(** The scenario: headline 100.0 -> 115.45 at weights 100, without "Food". *)
Definition scenario : outcome Core.response :=
  Core.calculate_core_with_manual_exclusions 0
    (num 100) (num 100) (Core.PyFloat (Binary64.decimal 11545 100)) (num 100)
    [food] None.

(** Ten exclusions of weight 0.1 in both periods. *)
Definition tenth : Core.exclusion :=
  Core.numeric "Item" (Binary64.of_Z 90) (Binary64.decimal 1 10)
    (Binary64.of_Z 95) (Binary64.decimal 1 10).

Definition ten_tenths : list Core.exclusion := repeat tenth 10.

(** An entry whose old index is text that is not a number. *)
Definition text_entry : Core.exclusion := {|
  Core.name := Some "Fuel";
  Core.old_index := Some Core.PyStr;
  Core.old_weight := Some (num 10);
  Core.new_index := Some (num 120);
  Core.new_weight := Some (num 10)
|}.

(** An entry whose old index is the [int] [10**400]. *)
Definition huge_entry : Core.exclusion := {|
  Core.name := Some "Fuel";
  Core.old_index := Some (Core.PyInt (10 ^ 400));
  Core.old_weight := Some (num 10);
  Core.new_index := Some (num 120);
  Core.new_weight := Some (num 10)
|}.

Definition item (code : string) (weight : Q) : Engine.item_row :=
  {| Engine.Item_Code := code; Engine.Weight := weight |}.

(** Two items of weights 30 and 10 with prices for two months. *)
Definition two_items : Engine.CPIEngine := {|
  Engine.items_df := [item "01.1.1.1" 30; item "01.1.2.1" 10];
  Engine.prices_df := Some {|
    Engine.price_codes := ["01.1.1.1"; "01.1.2.1"];
    Engine.price_columns := [("2024-01", [1.10; 1.30]); ("2024-02", [1.21; 1.30])] |};
  Engine.months := ["2024-01"; "2024-02"];
  Engine.hierarchy :=
    [("01", {| Engine.division_name := "Food"; Engine.division_weight := 40;
               Engine.groups :=
                 [("01.1", {| Engine.group_name := "Cereals"; Engine.group_weight := 40;
                              Engine.classes :=
                                [("01.1.1", {| Engine.class_name := "Rice";
                                               Engine.class_weight := 30;
                                               Engine.items := ["01.1.1.1"] |});
                                 ("01.1.2", {| Engine.class_name := "Wheat";
                                               Engine.class_weight := 10;
                                               Engine.items := ["01.1.2.1"] |})] |})] |})]
|}.

(** Two items of weights 30 and 10; the price table has two rows for the
    first one. *)
Definition repeated_price : Engine.CPIEngine := {|
  Engine.items_df := [item "a" 30; item "b" 10];
  Engine.prices_df := Some {|
    Engine.price_codes := ["a"; "a"; "b"];
    Engine.price_columns := [("2024-01", [1.25; 1.5; 1])] |};
  Engine.months := ["2024-01"];
  Engine.hierarchy := []
|}.

(** One item, of weight zero, with a price. *)
Definition zero_weight : Engine.CPIEngine := {|
  Engine.items_df := [item "01.1.1.1" 0];
  Engine.prices_df := Some {|
    Engine.price_codes := ["01.1.1.1"];
    Engine.price_columns := [("2024-01", [1.10])] |};
  Engine.months := ["2024-01"];
  Engine.hierarchy := []
|}.

(** An item of weight zero with a price, and an item of weight 10 that has
    no row in the price table. *)
Definition unmatched_weight : Engine.CPIEngine := {|
  Engine.items_df := [item "01.1.1.1" 0; item "01.1.2.1" 10];
  Engine.prices_df := Some {|
    Engine.price_codes := ["01.1.1.1"];
    Engine.price_columns := [("2024-01", [1.20])] |};
  Engine.months := ["2024-01"];
  Engine.hierarchy := []
|}.

Definition map_row (code name division : string) (weight : Q) : Wizard.item_map_row := {|
  Wizard.Item_Code := code; Wizard.Item_Name := name;
  Wizard.Division_Name := Some division; Wizard.Group_Name := Some "Group";
  Wizard.Class_Name := Some "Class"; Wizard.Weight := weight
|}.

Definition data (date : Z) (state code : string) (index : Q) : Wizard.data_row := {|
  Wizard.d_date := date; Wizard.d_year := 2024; Wizard.d_month := "January";
  Wizard.d_state := state; Wizard.d_sector := "Combined";
  Wizard.d_item := "Item"; Wizard.d_code := code; Wizard.d_index := index
|}.

Definition division_names (lvl : Wizard.level) : list string :=
  match lvl with
  | Wizard.division_level => ["Food"; "Fuel"]
  | _ => []
  end.

(** Two items, two states, two dates. *)
Definition wizard_two_states : Wizard.CPIWizard := {|
  Wizard.df :=
    [data 2 "Goa" "01.1.1.1" 121; data 1 "Assam" "01.1.1.1" 110;
     data 1 "Assam" "02.1.1.1" 130; data 2 "Assam" "01.1.1.1" 121;
     data 2 "Assam" "02.1.1.1" 130; data 1 "Goa" "01.1.1.1" 100];
  Wizard.weights := division_names;
  Wizard.item_map := [map_row "01.1.1.1" "Rice" "Food" 30; map_row "02.1.1.1" "Petrol" "Fuel" 10];
  Wizard.selected_exclusions := Wizard.no_exclusions;
  Wizard.generated_indices := []
|}.

(** One item, of weight zero, with one observation. *)
Definition wizard_zero_weight : Wizard.CPIWizard := {|
  Wizard.df := [data 1 "Goa" "01.1.1.1" 110];
  Wizard.weights := division_names;
  Wizard.item_map := [map_row "01.1.1.1" "Rice" "Food" 0];
  Wizard.selected_exclusions := Wizard.no_exclusions;
  Wizard.generated_indices := []
|}.

End Examples.

(** ** The weighted average of custom indices
    [CPIEngine.calculate_custom_index] and [CPIEngine.validate_custom_indices]

    Strings are ASCII; the floats are binary64 values. *)

Module Custom.
Import Binary64.

(** ASCII white space, as [str.isspace] sees it. *)
Definition is_space (c : Ascii.ascii) : bool :=
  let n := Ascii.N_of_ascii c in
  ((9 <=? n) && (n <=? 13) || (28 <=? n) && (n <=? 32))%N.

Fixpoint lstrip (s : string) : string :=
  match s with
  | String c rest => if is_space c then lstrip rest else s
  | EmptyString => EmptyString
  end.

Fixpoint rstrip (s : string) : string :=
  match s with
  | EmptyString => EmptyString
  | String c rest =>
      match rstrip rest with
      | EmptyString => if is_space c then EmptyString else String c EmptyString
      | kept => String c kept
      end
  end.

(** [s.strip()] *)
Definition strip (s : string) : string := rstrip (lstrip s).

(** The value under the key ['name']: a [str], or something that is not a
    [str] and has no [strip] method ([None], a number, a list). *)
Inductive name_value : Type :=
| Str (s : string)
| NotStr.

(** One entry of [index_configs]: a dict whose three keys may be absent. *)
Record index_config : Type := {
  name : option name_value;
  value : option Core.pyval;
  weight : option Core.pyval
}.

(** The messages of [calculate_custom_index]; the name is the one that the
    source formats into the text ([idx_config['name']], not stripped). *)
Inductive message : Type :=
| MissingName
| InvalidValues (config_name : string)
| ValueNotPositive (config_name : string)
| WeightNegative (config_name : string)
| TotalWeightZero.

(** An entry of [indices_data].  The keys ['normalized_weight'],
    ['difference'] and ['difference_pct'] are added by the later loops. *)
Record index_data : Type := {
  d_name : string;
  d_value : binary64;
  d_weight : binary64;
  contribution : binary64;
  normalized_weight : option binary64;
  difference : option binary64;
  difference_pct : option binary64
}.

Record loop_state : Type := {
  validation_errors : list message;
  total_weight : binary64;
  indices_data : list index_data
}.

Definition initial_state : loop_state :=
  {| validation_errors := []; total_weight := zero; indices_data := [] |}.

(** [validation_errors.append(msg); continue] *)
Definition reject (st : loop_state) (msg : message) : loop_state :=
  {| validation_errors := validation_errors st ++ [msg];
     total_weight := total_weight st;
     indices_data := indices_data st |}.

(** [idx_config[key]] *)
Definition item {A : Type} (field : option A) : outcome A :=
  match field with
  | Some v => Return v
  | None => Raise KeyError
  end.

(** The two statements of the [try] block:
    [value = float(idx_config['value'])] and
    [weight = float(idx_config['weight'])]. *)
Definition convert (idx_config : index_config) : outcome (binary64 * binary64) :=
  let* raw_value := item (value idx_config) in
  let* value := Core.float raw_value in
  let* raw_weight := item (weight idx_config) in
  let* weight := Core.float raw_weight in
  Return (value, weight).

(** The body of [for idx_config in index_configs].  The handler catches
    [ValueError] and [TypeError]; a [KeyError] and an [OverflowError] leave
    the method. *)
Definition loop_body (st : loop_state) (idx_config : index_config) : outcome loop_state :=
  match name idx_config with
  | Some (Str config_name) =>
      if String.eqb (strip config_name) ""
      then Return (reject st MissingName)
      else
        match convert idx_config with
        | Raise e =>
            if Core.caught e
            then Return (reject st (InvalidValues config_name))
            else Raise e
        | Return (value, weight) =>
            if leb value zero
            then Return (reject st (ValueNotPositive config_name))
            else if ltb weight zero
            then Return (reject st (WeightNegative config_name))
            else Return {|
              validation_errors := validation_errors st;
              total_weight := add (total_weight st) weight;
              indices_data :=
                indices_data st ++
                [ {| d_name := strip config_name;
                     d_value := value;
                     d_weight := weight;
                     contribution := zero;
                     normalized_weight := None;
                     difference := None;
                     difference_pct := None |} ]
            |}
        end
  | _ => Return (reject st MissingName)
  end.

Fixpoint run_loop (st : loop_state) (index_configs : list index_config)
  : outcome loop_state :=
  match index_configs with
  | [] => Return st
  | idx_config :: rest =>
      let* st' := loop_body st idx_config in
      run_loop st' rest
  end.

(** The loop that normalises: each entry gets its ['normalized_weight'] and
    its ['contribution'], and [weighted_sum] collects the contributions. *)
Fixpoint contributions (total_weight weighted_sum : binary64)
    (indices_data : list index_data) : outcome (binary64 * list index_data) :=
  match indices_data with
  | [] => Return (weighted_sum, [])
  | idx :: rest =>
      let* share := truediv (d_weight idx) total_weight in
      let normalized_weight := mul share Core.hundred in
      let* contribution := truediv (mul (d_value idx) normalized_weight) Core.hundred in
      let* others := contributions total_weight (add weighted_sum contribution) rest in
      Return (fst others,
              {| d_name := d_name idx;
                 d_value := d_value idx;
                 d_weight := d_weight idx;
                 contribution := contribution;
                 normalized_weight := Some normalized_weight;
                 difference := difference idx;
                 difference_pct := difference_pct idx |} :: snd others)
  end.

(** The loop that compares every entry with [indices_data[0]]; the division
    stands behind the test [indices_data[0]['value'] != 0]. *)
Definition differences (indices_data : list index_data) : list index_data :=
  match indices_data with
  | [] => []
  | first :: _ =>
      List.map (fun idx =>
        {| d_name := d_name idx;
           d_value := d_value idx;
           d_weight := d_weight idx;
           contribution := contribution idx;
           normalized_weight := normalized_weight idx;
           difference := Some (sub (d_value idx) (d_value first));
           difference_pct :=
             Some (if negb (eqb (d_value first) zero)
                   then mul (div (sub (d_value idx) (d_value first)) (d_value first))
                          Core.hundred
                   else zero) |}) indices_data
  end.

(** The dict returned with ['success': True]. *)
Record custom_result : Type := {
  weighted_average : binary64;
  total_weight_original : binary64;
  weight_imbalance : bool;
  indices : list index_data
}.

(** The two shapes of the returned dict; a failure carries its ['errors']
    and ['indices': []]. *)
Inductive response : Type :=
| Failure (errors : list message)
| Success (r : custom_result).

Definition calculate_custom_index (index_configs : list index_config)
  : outcome (option response) :=
  match index_configs with
  | [] => Return None
  | _ :: _ =>
      let* st := run_loop initial_state index_configs in
      match validation_errors st with
      | _ :: _ => Return (Some (Failure (validation_errors st)))
      | [] =>
          if eqb (total_weight st) zero
          then Return (Some (Failure [TotalWeightZero]))
          else
            let weight_imbalance :=
              gtb (SFabs (sub (total_weight st) Core.hundred)) (decimal 1 100) in
            let* normalised := contributions (total_weight st) zero (indices_data st) in
            Return (Some (Success {|
              weighted_average := fst normalised;
              total_weight_original := total_weight st;
              weight_imbalance := weight_imbalance;
              indices := differences (snd normalised) |}))
      end
  end.

(** The messages of [validate_custom_indices]. *)
Inductive complaint : Type :=
| EmptyName
| InvalidValue (config_name : name_value)
| InvalidWeight (config_name : name_value).

(** An exception that [validate_custom_indices] does not catch:
    [AttributeError] comes from [.strip()] on a name that is not a [str]. *)
Inductive uncaught : Set :=
| Uncaught (e : exn)
| AttributeError.

Definition check_name (idx_config : index_config) (errors : list complaint)
  : uncaught + list complaint :=
  match name idx_config with
  | None => inr (errors ++ [EmptyName])
  | Some NotStr => inl AttributeError
  | Some (Str config_name) =>
      inr (if String.eqb (strip config_name) "" then errors ++ [EmptyName] else errors)
  end.

(** One [try: float(idx_config[key]) except (ValueError, TypeError): ...]:
    a missing key is a [KeyError], also for ['name'] inside the handler, and
    an [OverflowError] is not caught. *)
Definition check_number (idx_config : index_config) (field : option Core.pyval)
    (msg : name_value -> complaint) (errors : list complaint)
  : uncaught + list complaint :=
  match field with
  | None => inl (Uncaught KeyError)
  | Some raw =>
      match Core.float raw with
      | Return _ => inr errors
      | Raise e =>
          if Core.caught e then
            match name idx_config with
            | Some config_name => inr (errors ++ [msg config_name])
            | None => inl (Uncaught KeyError)
            end
          else inl (Uncaught e)
      end
  end.

Definition validate_body (errors : list complaint) (idx_config : index_config)
  : uncaught + list complaint :=
  match check_name idx_config errors with
  | inl e => inl e
  | inr errors =>
      match check_number idx_config (value idx_config) InvalidValue errors with
      | inl e => inl e
      | inr errors => check_number idx_config (weight idx_config) InvalidWeight errors
      end
  end.

Fixpoint validate_loop (errors : list complaint) (index_configs : list index_config)
  : uncaught + list complaint :=
  match index_configs with
  | [] => inr errors
  | idx_config :: rest =>
      match validate_body errors idx_config with
      | inl e => inl e
      | inr errors => validate_loop errors rest
      end
  end.

Definition validate_custom_indices (index_configs : list index_config)
  : uncaught + bool * list complaint :=
  match validate_loop [] index_configs with
  | inl e => inl e
  | inr errors => inr ((List.length errors =? 0)%nat, errors)
  end.

End Custom.

(** *** Predicates used in the statements about [Custom] *)

Module CustomSpec.
Import Binary64 Custom.

(** The three keys hold a name that is not blank and two values that
    [float] converts, to [v] and [w]. *)
Definition holds (idx_config : index_config) (v w : binary64) : Prop :=
  exists config_name,
    name idx_config = Some (Str config_name) /\
    strip config_name <> "" /\
    convert idx_config = Return (v, w).

Definition well_formed (idx_config : index_config) : Prop :=
  exists v w, holds idx_config v w.

(** The config passes the loop of [calculate_custom_index]: it is well
    formed, its value is not [<= 0] and its weight is not [< 0]. *)
Definition passes (idx_config : index_config) : Prop :=
  exists v w, holds idx_config v w /\ leb v zero = false /\ ltb w zero = false.

(** The entry [d] of [indices_data] is what the loop makes of a config. *)
Definition accepted (idx_config : index_config) (d : index_data) : Prop :=
  exists config_name,
    name idx_config = Some (Str config_name) /\
    strip config_name <> "" /\
    d_name d = strip config_name /\
    convert idx_config = Return (d_value d, d_weight d) /\
    leb (d_value d) zero = false /\ ltb (d_weight d) zero = false.

(** The loop leaves the method on this config: the name is accepted and a
    conversion raises an exception that the handler does not catch. *)
Definition escapes (idx_config : index_config) (e : exn) : Prop :=
  exists config_name,
    name idx_config = Some (Str config_name) /\
    strip config_name <> "" /\
    convert idx_config = Raise e /\ Core.caught e = false.

(** A config on which [validate_custom_indices] raises: the name is not a
    [str], or a number key is absent, or an [int] is too large for a float,
    or a number is invalid and the message cannot be made because the key
    ['name'] is absent. *)
Definition unchecked (idx_config : index_config) : Prop :=
  name idx_config = Some NotStr \/
  value idx_config = None \/
  weight idx_config = None \/
  (exists raw, (value idx_config = Some raw \/ weight idx_config = Some raw) /\
               Core.float raw = Raise OverflowError) \/
  (name idx_config = None /\
   exists raw e, (value idx_config = Some raw \/ weight idx_config = Some raw) /\
                 Core.float raw = Raise e /\ Core.caught e = true).

(** The weight and the value of a config, as the loop converts them
    ([0.0] when they do not convert). *)
Definition weight_of (idx_config : index_config) : binary64 :=
  match convert idx_config with
  | Return (_, w) => w
  | Raise _ => zero
  end.

Definition value_of (idx_config : index_config) : binary64 :=
  match convert idx_config with
  | Return (v, _) => v
  | Raise _ => zero
  end.

(** What the normalising loop makes of an entry. *)
Definition normalised_entry (total : binary64) (idx : index_data) : index_data :=
  {| d_name := d_name idx;
     d_value := d_value idx;
     d_weight := d_weight idx;
     contribution :=
       div (mul (d_value idx) (mul (div (d_weight idx) total) Core.hundred))
         Core.hundred;
     normalized_weight := Some (mul (div (d_weight idx) total) Core.hundred);
     difference := difference idx;
     difference_pct := difference_pct idx |}.

End CustomSpec.

(** ** Loading the price table
    [CPIEngine.load_prices]; the table is the frame that [read_excel]
    returns: the column of the item codes and columns of numbers. *)

Module Prices.
Import Engine.

(** [sub in s] on two strings. *)
Fixpoint contains (sub s : string) : bool :=
  if String.prefix sub s then true
  else match s with
       | EmptyString => false
       | String _ rest => contains sub rest
       end.

(** ['-' in str(col) and ('20' in str(col) or '21' in str(col))] *)
Definition is_month_column (col : string) : bool :=
  contains "-" col && (contains "20" col || contains "21" col).

(** [self.prices_df.columns] *)
Definition columns (prices : price_table) : list string :=
  "Item_Code" :: List.map fst (price_columns prices).

(** [sorted(month_cols)] *)
Definition sorted (l : list string) : list string :=
  Wizard.stable_sort String.compare l.

Definition load_prices (self : CPIEngine) (prices : price_table) : CPIEngine :=
  let month_cols := List.filter is_month_column (columns prices) in
  {| items_df := items_df self;
     prices_df := Some prices;
     months := sorted month_cols;
     hierarchy := hierarchy self |}.

End Prices.

(** ** The wizard's status display
    [CPIWizard._show_current_status]: the three numbers of the impact
    summary, before they are formatted. *)

Module Status.
Import Float Wizard.

Record impact_summary : Type := {
  items_excluded : nat;
  weight_removed : Q;
  weight_remaining : Q
}.

Definition _show_current_status (self : CPIWizard) : impact_summary :=
  let excluded_codes := _get_excluded_item_codes self in
  let total_weight := Qsum (List.map Weight (item_map self)) in
  let excluded_weight :=
    Qsum (List.map Weight
            (List.filter (fun r => bool_decide (Item_Code r ∈ excluded_codes))
                         (item_map self))) in
  {| items_excluded := size excluded_codes;
     weight_removed := excluded_weight;
     weight_remaining := total_weight - excluded_weight |}.

End Status.

(** *** Predicates used in the statements about the wizard *)

Module WizardSpec.
Import Float Wizard.

(** An observation that [_calculate_current] can use: an item-level row
    whose code is the code of an item that is not excluded. *)
Definition counts (self : CPIWizard) (d : data_row) : bool :=
  negb (String.eqb (d_item d) "*")
  && bool_decide (d_code d ∈ List.map Item_Code (remaining_items self)).

End WizardSpec.

(** ** The weight tables and the hierarchy built from them
    [CPIEngine._load_weights] and [CPIEngine._build_hierarchy]

    The codes of the tables are given as [str] makes them.  The frame
    [items_in_cls], which the source computes and never reads, is left
    out. *)

Module Tables.

Record division_row : Type := {
  Division_Code : string;
  Division_Name : string;
  Division_Weight : Q
}.

Record group_row : Type := {
  Group_Code : string;
  Group_Name : string;
  Group_Division_Code : string;
  Group_Weight : Q
}.

Record class_row : Type := {
  Class_Code : string;
  Class_Name : string;
  Class_Group_Code : string;
  Class_Weight : Q
}.

Record subclass_row : Type := {
  Subclass_Code : string;
  Subclass_Class_Code : string
}.

Record item_row : Type := {
  Item_Code : string;
  Item_Subclass_Code : string;
  Item_Weight : Q
}.

(** The five frames that [_load_weights] reads. *)
Record weight_tables : Type := {
  items_df : list item_row;
  subclasses_df : list subclass_row;
  classes_df : list class_row;
  groups_df : list group_row;
  divisions_df : list division_row
}.

(** [d[key] = v] on a dict kept as an association list: the value of a
    key that is there is replaced in place, a new key goes to the end. *)
Fixpoint dict_set {V : Type} (d : list (string * V)) (key : string) (v : V)
  : list (string * V) :=
  match d with
  | [] => [(key, v)]
  | (k, old) :: rest =>
      if String.eqb k key then (k, v) :: rest else (k, old) :: dict_set rest key v
  end.

(** The list [item_list] of a class: for each subclass row of the class,
    the item codes of the rows of [items_df] with that subclass code. *)
Definition class_items (t : weight_tables) (cls_code : string) : list string :=
  let subclasses_in_cls :=
    List.filter (fun s => String.eqb (Subclass_Class_Code s) cls_code) (subclasses_df t) in
  fold_left (fun item_list sub_row =>
    let sub_code := Custom.strip (Subclass_Code sub_row) in
    let items :=
      List.map Item_Code
        (List.filter (fun i => String.eqb (Item_Subclass_Code i) sub_code) (items_df t)) in
    item_list ++ items) subclasses_in_cls [].

(** The dict ['classes'] of a group after the loop over [classes_in_grp]. *)
Definition build_classes (t : weight_tables) (grp_code : string)
  : list (string * Engine.class_entry) :=
  let classes_in_grp :=
    List.filter (fun c => String.eqb (Class_Group_Code c) grp_code) (classes_df t) in
  fold_left (fun classes_dict cls_row =>
    let cls_code := Custom.strip (Class_Code cls_row) in
    dict_set classes_dict cls_code
      {| Engine.class_name := Class_Name cls_row;
         Engine.class_weight := Class_Weight cls_row;
         Engine.items := class_items t cls_code |}) classes_in_grp [].

(** The dict ['groups'] of a division after the loop over [groups_in_div]. *)
Definition build_groups (t : weight_tables) (div_code : string)
  : list (string * Engine.group_entry) :=
  let groups_in_div :=
    List.filter (fun g => String.eqb (Group_Division_Code g) div_code) (groups_df t) in
  fold_left (fun groups_dict grp_row =>
    let grp_code := Custom.strip (Group_Code grp_row) in
    dict_set groups_dict grp_code
      {| Engine.group_name := Group_Name grp_row;
         Engine.group_weight := Group_Weight grp_row;
         Engine.classes := build_classes t grp_code |}) groups_in_div [].

Definition _build_hierarchy (t : weight_tables) : list (string * Engine.division_entry) :=
  fold_left (fun hierarchy div_row =>
    let div_code := Custom.strip (Division_Code div_row) in
    dict_set hierarchy div_code
      {| Engine.division_name := Division_Name div_row;
         Engine.division_weight := Division_Weight div_row;
         Engine.groups := build_groups t div_code |}) (divisions_df t) [].

(** The engine after [__init__]: the tables are read and the hierarchy is
    built; there are no prices yet ([months], which is [None] then, is not
    read before [load_prices] has set it). *)
Definition _load_weights (t : weight_tables) : Engine.CPIEngine :=
  {| Engine.items_df :=
       List.map (fun i => {| Engine.Item_Code := Item_Code i;
                             Engine.Weight := Item_Weight i |}) (items_df t);
     Engine.prices_df := None;
     Engine.months := [];
     Engine.hierarchy := _build_hierarchy t |}.

(** *** Predicates used in the statements about the hierarchy *)

(** The item code [x] hangs below the class [ccode], the group [gcode] and
    the division [dcode] through rows of the five tables. *)
Definition chain (t : weight_tables) (x dcode gcode ccode : string) : Prop :=
  exists d g c s i,
    d ∈ divisions_df t /\ Custom.strip (Division_Code d) = dcode /\
    g ∈ groups_df t /\ Group_Division_Code g = dcode /\
    Custom.strip (Group_Code g) = gcode /\
    c ∈ classes_df t /\ Class_Group_Code c = gcode /\
    Custom.strip (Class_Code c) = ccode /\
    s ∈ subclasses_df t /\ Subclass_Class_Code s = ccode /\
    i ∈ items_df t /\ Item_Subclass_Code i = Custom.strip (Subclass_Code s) /\
    Item_Code i = x.

(** No two rows of the division, group and class tables have the same
    code. *)
Definition unique_codes (t : weight_tables) : Prop :=
  NoDup (List.map (fun d => Custom.strip (Division_Code d)) (divisions_df t)) /\
  NoDup (List.map (fun g => Custom.strip (Group_Code g)) (groups_df t)) /\
  NoDup (List.map (fun c => Custom.strip (Class_Code c)) (classes_df t)).

End Tables.

(** ** The wizard's item map
    [CPIWizard._build_item_map]: the item table with the names of the
    class, the group and the division of every item, found by three left
    merges.  A missing cell ([NaN]) is [None]; as in pandas, two missing keys
    match each other. *)

Module ItemMap.
Import Stdlib.Strings.Ascii.

Record items_row : Type := {
  Item_Code : string;
  Item_Name : string;
  Weight : Q
}.

Record classes_row : Type := {
  Class_Code : option string;
  Class_Name : option string;
  Class_Group_Code : option string
}.

Record groups_row : Type := {
  Group_Code : option string;
  Group_Name : option string;
  Group_Division_Code : option string
}.

Record divisions_row : Type := {
  Division_Code : option string;
  Division_Name : option string
}.

(** The dict [self.weights], with the columns that the merges read. *)
Record weight_frames : Type := {
  item : list items_row;
  class : list classes_row;
  group : list groups_row;
  division : list divisions_row
}.

Definition is_digit (c : Ascii.ascii) : bool :=
  let n := Ascii.N_of_ascii c in ((48 <=? n) && (n <=? 57))%N.

(** The longest run of digits at the start of a string, and what follows. *)
Fixpoint digits (s : string) : string * string :=
  match s with
  | String c rest =>
      if is_digit c
      then let '(run, after) := digits rest in (String c run, after)
      else (EmptyString, s)
  | EmptyString => (EmptyString, EmptyString)
  end.

(** A dot, then digits: the piece [\.\d+]. *)
Definition dot_digits (s : string) : option (string * string) :=
  match s with
  | String "."%char rest =>
      match digits rest with
      | (EmptyString, _) => None
      | (run, after) => Some (String "."%char run, after)
      end
  | _ => None
  end.

(** [str.extract(r'^(\d+\.\d+\.\d+)')] on one cell. *)
Definition extract (code : string) : option string :=
  match digits code with
  | (EmptyString, _) => None
  | (first, after) =>
      match dot_digits after with
      | None => None
      | Some (second, after) =>
          match dot_digits after with
          | None => None
          | Some (third, _) => Some (first ++ second ++ third)%string
          end
      end
  end.

Definition key_eqb (a b : option string) : bool := bool_decide (a = b).

(** [left.merge(right, how='left')] on one key: every left row with each
    of its matches in the order of [right], or once with missing cells. *)
Definition merge_left {L R : Type} (left_on : L -> option string)
    (right_on : R -> option string) (left : list L) (right : list R)
  : list (L * option R) :=
  List.concat
    (List.map (fun l =>
       match List.filter (fun r => key_eqb (left_on l) (right_on r)) right with
       | [] => [(l, None)]
       | matches => List.map (fun r => (l, Some r)) matches
       end) left).

(** A cell of a column that came with the right frame. *)
Definition cell {R : Type} (col : R -> option string) (row : option R) : option string :=
  match row with
  | Some r => col r
  | None => None
  end.

Definition _build_item_map (weights : weight_frames) : list Wizard.item_map_row :=
  let res := item weights in
  let res := merge_left (fun i => extract (Item_Code i)) Class_Code res (class weights) in
  let res := merge_left (fun r => cell Class_Group_Code (snd r)) Group_Code res (group weights) in
  let res :=
    merge_left (fun r => cell Group_Division_Code (snd r)) Division_Code res
      (division weights) in
  List.map (fun r =>
    let '(((i, c), g), d) := r in
    {| Wizard.Item_Code := Item_Code i;
       Wizard.Item_Name := Item_Name i;
       Wizard.Division_Name := cell Division_Name d;
       Wizard.Group_Name := cell Group_Name g;
       Wizard.Class_Name := cell Class_Name c;
       Wizard.Weight := Weight i |}) res.

(** *** Predicates used in the statements about the item map *)

(** No key occurs twice in the class, group and division frames. *)
Definition unique_keys (weights : weight_frames) : Prop :=
  NoDup (List.map Class_Code (class weights)) /\
  NoDup (List.map Group_Code (group weights)) /\
  NoDup (List.map Division_Code (division weights)).

(** No key is missing in the class, group and division frames. *)
Definition keys_present (weights : weight_frames) : Prop :=
  Forall (fun c => Class_Code c <> None) (class weights) /\
  Forall (fun g => Group_Code g <> None) (group weights) /\
  Forall (fun d => Division_Code d <> None) (division weights).

(** What the item map says about an item beside its names. *)
Definition item_of (r : Wizard.item_map_row) : string * string * Q :=
  (Wizard.Item_Code r, Wizard.Item_Name r, Wizard.Weight r).

End ItemMap.

(** ** A session of the wizard
    [CPIWizard.run] and [CPIWizard._save_results], driven by the lines that
    [input] returns.  What is printed is left out.  The lines are ASCII. *)

Module Session.
Import Stdlib.Strings.Ascii.
Import Float Wizard.

(** [s.lower()] *)
Definition lower_char (c : ascii) : ascii :=
  let n := N_of_ascii c in
  if ((65 <=? n) && (n <=? 90))%N then ascii_of_N (n + 32) else c.

Fixpoint lower (s : string) : string :=
  match s with
  | EmptyString => EmptyString
  | String c rest => String (lower_char c) (lower rest)
  end.

(** [s.split(",")] *)
Fixpoint split_comma (s : string) : list string :=
  match s with
  | EmptyString => [EmptyString]
  | String c rest =>
      let pieces := split_comma rest in
      if (c =? ",")%char then EmptyString :: pieces
      else match pieces with
           | piece :: others => String c piece :: others
           | [] => [String c EmptyString]
           end
  end.

Definition digit_value (c : ascii) : Z := Z.of_N (N_of_ascii c) - 48.

(** Decimal digits with single underscores between them, as [int] reads. *)
Fixpoint digits_value (s : string) (acc : Z) (after_digit : bool) : option Z :=
  match s with
  | EmptyString => if after_digit then Some acc else None
  | String c rest =>
      if ItemMap.is_digit c then digits_value rest (10 * acc + digit_value c) true
      else if (c =? "_")%char && after_digit then digits_value rest acc false
      else None
  end.

(** [int(s)]; [None] is [ValueError]. *)
Definition int (s : string) : option Z :=
  match Custom.strip s with
  | String "+" rest => digits_value rest 0 false
  | String "-" rest => Z.opp <$> digits_value rest 0 false
  | stripped => digits_value stripped 0 false
  end.

(** The pieces of the typed line as the loop of [_pick_exclusion] sees
    them. *)
Definition tokenize (line : string) : list token :=
  List.map (fun idx =>
    if String.eqb (Custom.strip idx) "" then Blank
    else match int idx with
         | Some z => Int z
         | None => Junk
         end) (split_comma (Custom.strip line)).

(** [s.endswith(suffix)] *)
Definition endswith (s suffix : string) : bool :=
  String.eqb
    (String.substring (String.length s - String.length suffix) (String.length suffix) s)
    suffix
  && (String.length suffix <=? String.length s)%nat.

Definition custom_series : Type := list ((series_row * float64) * float64).

(** What [_save_results] writes. *)
Inductive save_action : Type :=
| AppendToMain (main : list data_row) (all_custom : custom_series)
| SaveStandalone (filename : string) (all_custom : custom_series)
| Discard.

(** How a session ends: [_save_results] has run, or no index was
    generated, or [input] met the end of the input, or another exception
    came up ([...['division'].iloc[0]] on an empty series, in [run] or in
    the summary of [_save_results]).
    [OutOfFuel] is not an end of the program, see [run]. *)
Inductive ended : Type :=
| Saved (self : CPIWizard) (action : save_action) (unread : list string)
| NothingGenerated (self : CPIWizard) (unread : list string)
| EOFError
| OtherException
| OutOfFuel.

(** [for k in self.selected_exclusions: self.selected_exclusions[k] = []] *)
Definition reset (self : CPIWizard) : CPIWizard := with_exclusions self no_exclusions.

(** [self.generated_indices.append(custom_series)] *)
Definition append_index (self : CPIWizard) (series : custom_series) : CPIWizard :=
  {| df := df self;
     weights := weights self;
     item_map := item_map self;
     selected_exclusions := selected_exclusions self;
     generated_indices := generated_indices self ++ [series] |}.

(** The inner [while True] of [run], up to the choice "5"; [None] is the
    end of the input. *)
Fixpoint menu (self : CPIWizard) (inputs : list string)
  : option (CPIWizard * list string) :=
  match inputs with
  | [] => None
  | line :: rest =>
      let choice := Custom.strip line in
      if String.eqb choice "5" then Some (self, rest)
      else if String.eqb choice "0" then menu (reset self) rest
      else
        let level :=
          if String.eqb choice "1" then Some division_level
          else if String.eqb choice "2" then Some group_level
          else if String.eqb choice "3" then Some class_level
          else if String.eqb choice "4" then Some item_level
          else None in
        match level with
        | Some level =>
            match rest with
            | [] => None
            | indices :: rest' => menu (_pick_exclusion self level (tokenize indices)) rest'
            end
        | None => menu self rest
        end
  end.

Section Clock.
(** [strftime n fmt] is [datetime.now().strftime(fmt)] at the [n]-th
    reading of the clock. *)
Variable strftime : nat -> string -> string.

Definition _save_results (self : CPIWizard) (ticks : nat) (inputs : list string) : ended :=
  let all_custom := List.concat (generated_indices self) in
  if existsb (fun series : custom_series => (List.length series =? 0)%nat)
       (generated_indices self)
  then OtherException
  else
  match inputs with
  | [] => EOFError
  | line :: rest =>
      let save_choice := Custom.strip line in
      if String.eqb save_choice "1"
      then Saved self (AppendToMain (df self) all_custom) rest
      else if String.eqb save_choice "2"
      then
        let default_name :=
          ("custom_cpi_batch_" ++ strftime ticks "%Y%m%d_%H%M%S" ++ ".csv")%string in
        match rest with
        | [] => EOFError
        | line' :: rest' =>
            let filename :=
              if String.eqb (Custom.strip line') "" then default_name
              else Custom.strip line' in
            let filename :=
              if endswith filename ".csv" then filename else (filename ++ ".csv")%string in
            Saved self (SaveStandalone filename all_custom) rest'
        end
      else Saved self Discard rest
  end.

(** The outer [while True] of [run] and what follows it.  Every round
    reads at least four lines, so a fuel above the number of lines is
    never used up. *)
Fixpoint session (fuel : nat) (self : CPIWizard) (ticks : nat) (inputs : list string)
  : ended :=
  match fuel with
  | O => OutOfFuel
  | S fuel' =>
      match menu self inputs with
      | None => EOFError
      | Some (self, []) => EOFError
      | Some (self, line :: inputs) =>
          let typed := Custom.strip line in
          let index_name :=
            if String.eqb typed ""
            then ("Custom Index (" ++ strftime ticks "%H%M%S" ++ ")")%string
            else typed in
          let ticks := if String.eqb typed "" then S ticks else ticks in
          match _calculate_current self index_name with
          | Some [] => OtherException
          | result =>
              let self :=
                match result with
                | Some series => append_index self series
                | None => self
                end in
              match inputs with
              | [] => EOFError
              | clear_ex :: [] => EOFError
              | clear_ex :: next_step :: inputs =>
                  let self :=
                    if String.eqb (lower (Custom.strip clear_ex)) "n"
                    then self else reset self in
                  if String.eqb (lower (Custom.strip next_step)) "y"
                  then session fuel' self ticks inputs
                  else
                    match generated_indices self with
                    | [] => NothingGenerated self inputs
                    | _ :: _ => _save_results self ticks inputs
                    end
              end
          end
      end
  end.

Definition run (self : CPIWizard) (inputs : list string) : ended :=
  session (S (List.length inputs)) self O inputs.

End Clock.

(** *** Predicates used in the statements about a session *)

(** The wizard at the end of a session that has ended in the regular
    way. *)
Definition final_state (e : ended) : option CPIWizard :=
  match e with
  | Saved self _ _ | NothingGenerated self _ => Some self
  | _ => None
  end.

(** The data of the wizard [b] are the data of [a]. *)
Definition same_data (a b : CPIWizard) : Prop :=
  df b = df a /\ weights b = weights a /\ item_map b = item_map a.

(** The series is not empty and [_calculate_current] has made it out of
    the data of [self]. *)
Definition generated_by (self : CPIWizard) (series : custom_series) : Prop :=
  series <> [] /\
  exists w index_name, same_data self w /\ _calculate_current w index_name = Some series.

(** Every list of selected names is free of duplicates. *)
Definition tidy (self : CPIWizard) : Prop :=
  forall l, NoDup (selected (selected_exclusions self) l).

End Session.

(** ** More concrete inputs *)

Module MoreExamples.

Definition config (n : string) (v w : Binary64.binary64) : Custom.index_config :=
  {| Custom.name := Some (Custom.Str n);
     Custom.value := Some (Core.PyFloat v);
     Custom.weight := Some (Core.PyFloat w) |}.

(** Two custom indices, 115.45 and 110.0, whose weights sum to 80. *)
Definition two_configs : list Custom.index_config :=
  [config "Headline" (Binary64.decimal 11545 100) (Binary64.of_Z 60);
   config " Core " (Binary64.of_Z 110) (Binary64.of_Z 20)].

(** A config without the key ['value']. *)
Definition no_value : Custom.index_config :=
  {| Custom.name := Some (Custom.Str "Food");
     Custom.value := None;
     Custom.weight := Some (Core.PyFloat (Binary64.of_Z 10)) |}.

(** A config whose value is the [int] [10**400]. *)
Definition huge_value : Custom.index_config :=
  {| Custom.name := Some (Custom.Str "Food");
     Custom.value := Some (Core.PyInt (10 ^ 400));
     Custom.weight := Some (Core.PyFloat (Binary64.of_Z 10)) |}.

(** A config whose value is [nan]. *)
Definition nan_value : Custom.index_config :=
  config "Food" Binary64.nan (Binary64.of_Z 10).

(** The two items of [Examples.two_items] with a month that the price
    table does not have. *)
Definition missing_month : Engine.CPIEngine := {|
  Engine.items_df := Engine.items_df Examples.two_items;
  Engine.prices_df := Engine.prices_df Examples.two_items;
  Engine.months := ["2024-01"; "2024-03"];
  Engine.hierarchy := Engine.hierarchy Examples.two_items
|}.

(** A price table whose month columns are not in order, with a column
    that is no month. *)
Definition unordered_prices : Engine.price_table := {|
  Engine.price_codes := ["01.1.1.1"; "01.1.2.1"];
  Engine.price_columns :=
    [("2024-02", [1.21; 1.30]); ("Base", [1; 1]); ("2024-01", [1.10; 1.30])]
|}.

(** [Examples.wizard_two_states] with two more rows in the data: an
    aggregate (item ["*"]) and an observation of an unknown item. *)
Definition wizard_with_aggregates : Wizard.CPIWizard := {|
  Wizard.df :=
    {| Wizard.d_date := 1; Wizard.d_year := 2024; Wizard.d_month := "January";
       Wizard.d_state := "Goa"; Wizard.d_sector := "Combined";
       Wizard.d_item := "*"; Wizard.d_code := "01.1.1.1"; Wizard.d_index := 500 |}
    :: Examples.data 1 "Goa" "09.9.9.9" 700
    :: Wizard.df Examples.wizard_two_states;
  Wizard.weights := Wizard.weights Examples.wizard_two_states;
  Wizard.item_map := Wizard.item_map Examples.wizard_two_states;
  Wizard.selected_exclusions := Wizard.selected_exclusions Examples.wizard_two_states;
  Wizard.generated_indices := []
|}.

(** Weight tables with one division, one group, two classes and an item
    whose subclass is in no table; the codes of the class table carry
    blanks. *)
Definition small_tables : Tables.weight_tables := {|
  Tables.items_df :=
    [ {| Tables.Item_Code := "01.1.1.1"; Tables.Item_Subclass_Code := "01.1.1.1";
         Tables.Item_Weight := 30 |};
      {| Tables.Item_Code := "01.1.2.1"; Tables.Item_Subclass_Code := "01.1.2.1";
         Tables.Item_Weight := 10 |};
      {| Tables.Item_Code := "09.9.9.9"; Tables.Item_Subclass_Code := "09.9.9.9";
         Tables.Item_Weight := 5 |} ];
  Tables.subclasses_df :=
    [ {| Tables.Subclass_Code := "01.1.1.1"; Tables.Subclass_Class_Code := "01.1.1" |};
      {| Tables.Subclass_Code := "01.1.2.1"; Tables.Subclass_Class_Code := "01.1.2" |} ];
  Tables.classes_df :=
    [ {| Tables.Class_Code := "01.1.1 "; Tables.Class_Name := "Rice";
         Tables.Class_Group_Code := "01.1"; Tables.Class_Weight := 30 |};
      {| Tables.Class_Code := " 01.1.2"; Tables.Class_Name := "Wheat";
         Tables.Class_Group_Code := "01.1"; Tables.Class_Weight := 10 |} ];
  Tables.groups_df :=
    [ {| Tables.Group_Code := "01.1"; Tables.Group_Name := "Cereals";
         Tables.Group_Division_Code := "01"; Tables.Group_Weight := 40 |} ];
  Tables.divisions_df :=
    [ {| Tables.Division_Code := "01"; Tables.Division_Name := "Food";
         Tables.Division_Weight := 40 |} ]
|}.

(** The frames of the wizard for two items; the second item has a code
    that names no class. *)
Definition small_frames : ItemMap.weight_frames := {|
  ItemMap.item :=
    [ {| ItemMap.Item_Code := "01.1.1.1.01"; ItemMap.Item_Name := "Rice";
         ItemMap.Weight := 30 |};
      {| ItemMap.Item_Code := "X1"; ItemMap.Item_Name := "Other";
         ItemMap.Weight := 10 |} ];
  ItemMap.class :=
    [ {| ItemMap.Class_Code := Some "01.1.1"; ItemMap.Class_Name := Some "Cereals";
         ItemMap.Class_Group_Code := Some "01.1" |} ];
  ItemMap.group :=
    [ {| ItemMap.Group_Code := Some "01.1"; ItemMap.Group_Name := Some "Food";
         ItemMap.Group_Division_Code := Some "01" |} ];
  ItemMap.division :=
    [ {| ItemMap.Division_Code := Some "01";
         ItemMap.Division_Name := Some "Food and beverages" |} ]
|}.

(** A clock that stands still. *)
Definition clock (n : nat) (format : string) : string := "000000".

(** A session: exclude the first division, calculate an index called
    "Core", clear the exclusions, stop and discard. *)
Definition typed_lines : list string :=
  ["1"; " 0 "; "5"; "Core"; "y"; "n"; "3"].

End MoreExamples.

(** * Properties *)

(** ** Arithmetic helpers *)

Lemma Qle_bool_false (a b : Q) : Qle_bool a b = false <-> b < a.
Proof.
  split; intros H.
  - apply Qnot_le_lt. intros Hle. apply Qle_bool_iff in Hle. congruence.
  - destruct (Qle_bool a b) eqn:E; [|reflexivity].
    apply Qle_bool_iff in E. lra.
Qed.

Lemma Qgtb_true (a b : Q) : Qgtb a b = true <-> b < a.
Proof. unfold Qgtb. rewrite negb_true_iff. apply Qle_bool_false. Qed.

(** ** Binary64 arithmetic *)

Section BinaryFacts.
Import Binary64.
#[local] Open Scope Z_scope.

Lemma digits2_size (m : positive) : digits2_pos m = Pos.size m.
Proof. induction m; simpl; congruence. Qed.

Lemma digits2_log2 (m : positive) : Zpos (digits2_pos m) = Z.log2 (Zpos m) + 1.
Proof.
  rewrite digits2_size. destruct m; simpl; try reflexivity; lia.
Qed.

Lemma Zdigits2_log2 (m : Z) : 0 < m -> Zdigits2 m = Z.log2 m + 1.
Proof. destruct m; try lia. intros _. apply digits2_log2. Qed.

Lemma iter_pos_iter {A : Type} (f : A -> A) (p : positive) :
  forall x, SpecFloat.iter_pos f p x = Pos.iter f x p.
Proof.
  induction p; intros x; simpl.
  - rewrite !IHp, !Pos.iter_swap. reflexivity.
  - now rewrite !IHp.
  - reflexivity.
Qed.

Lemma shr_1_m (r : shr_record) :
  0 <= shr_m r -> 0 <= shr_m (shr_1 r) /\ shr_m (shr_1 r) = Z.div2 (shr_m r).
Proof.
  destruct r as [m r s]. simpl. destruct m as [|[p|p|]|p]; simpl; intros; split; try reflexivity; lia.
Qed.

Lemma shr_iter_m (p : positive) (r : shr_record) :
  0 <= shr_m r -> shr_m (SpecFloat.iter_pos shr_1 p r) = Z.shiftr (shr_m r) (Zpos p).
Proof.
  intros H. rewrite iter_pos_iter.
  change (Z.shiftr (shr_m r) (Z.pos p)) with (Pos.iter Z.div2 (shr_m r) p).
  revert r H. induction p using Pos.peano_ind; intros r H.
  - simpl. now apply shr_1_m.
  - rewrite !Pos.iter_succ_r. destruct (shr_1_m r H) as [H1 H2].
    rewrite IHp by exact H1. now rewrite H2.
Qed.

(** The two cases of [shr_fexp] on a positive mantissa. *)
Lemma shr_fexp_spec (m e : Z) (l : location) :
  0 < m ->
  let k := fexp prec emax (Zdigits2 m + e) - e in
  let '(mrs, e') := shr_fexp prec emax m e l in
  (k <= 0 -> mrs = shr_record_of_loc m l /\ e' = e) /\
  (0 < k -> shr_m mrs = Z.shiftr m k /\ e' = e + k).
Proof.
  intros Hm k. unfold shr_fexp. fold k. unfold shr.
  destruct k as [|p|p] eqn:E; (split; [intros Hk|intros Hk]); try lia; try (split; reflexivity).
  split; [|reflexivity]. rewrite shr_iter_m.
  - destruct l as [|[]]; reflexivity.
  - destruct l as [|[]]; simpl; lia.
Qed.

Lemma fexp_eq (x : Z) : fexp prec emax x = Z.max (x - 53) (-1074).
Proof. reflexivity. Qed.

Lemma Zdigits2_pos (m : Z) : 0 < m -> 0 < Zdigits2 m.
Proof. intros H. rewrite Zdigits2_log2 by exact H. pose proof (Z.log2_nonneg m). lia. Qed.

Lemma Zdigits2_shiftr (m k : Z) :
  0 < m -> 0 <= k -> k < Zdigits2 m ->
  0 < Z.shiftr m k /\ Zdigits2 (Z.shiftr m k) = Zdigits2 m - k.
Proof.
  intros Hm Hk Hlt. rewrite Zdigits2_log2 in Hlt by exact Hm.
  assert (Hpos : 0 < Z.shiftr m k).
  { destruct (Z.shiftr_nonneg m k) as [_ H]. specialize (H ltac:(lia)).
    assert (Z.shiftr m k <> 0); [|lia].
    intros E. apply Z.shiftr_eq_0_iff in E as [E|[_ E]]; lia. }
  split; [exact Hpos|].
  rewrite !Zdigits2_log2 by assumption. rewrite Z.log2_shiftr by exact Hm. lia.
Qed.

Lemma shiftr_small (m k : Z) : 0 < m -> Zdigits2 m <= k -> Z.shiftr m k = 0.
Proof.
  intros Hm Hk. rewrite Zdigits2_log2 in Hk by exact Hm.
  apply Z.shiftr_eq_0; lia.
Qed.

Lemma Zdigits2_succ (m : Z) :
  0 < m -> Zdigits2 m <= Zdigits2 (m + 1) <= Zdigits2 m + 1.
Proof.
  intros Hm. rewrite !Zdigits2_log2 by lia.
  pose proof (Z.log2_le_mono m (m + 1) ltac:(lia)).
  pose proof (Z.log2_succ_le m). unfold Z.succ in *. lia.
Qed.

Lemma round_nearest_even_cases (m : Z) (l : location) :
  round_nearest_even m l = m \/ round_nearest_even m l = m + 1.
Proof.
  destruct l as [|[]]; simpl; auto. destruct (Z.even m); auto.
Qed.

Lemma loc_of_shr_record_of_loc (m : Z) (l : location) :
  loc_of_shr_record (shr_record_of_loc m l) = l /\ shr_m (shr_record_of_loc m l) = m.
Proof. destruct l as [|[]]; split; reflexivity. Qed.

(** The first shift of [binary_round_aux]: what is left of a mantissa that
    has at least the digits of its exponent. *)
Lemma shift_step (m e : Z) (l : location) :
  0 < m -> e <= fexp prec emax (Zdigits2 m + e) ->
  let m1 := shr_m (fst (shr_fexp prec emax m e l)) in
  let e1 := snd (shr_fexp prec emax m e l) in
  0 <= m1 /\ -1074 <= e1 /\
  (0 < m1 -> fexp prec emax (Zdigits2 m1 + e1) = e1) /\
  (m1 = 0 -> e1 = -1074) /\
  (-1074 <= e -> 0 < m1).
Proof.
  intros Hm He m1 e1. subst m1 e1.
  pose proof (shr_fexp_spec m e l Hm) as H. cbv zeta in H.
  destruct (shr_fexp prec emax m e l) as [mrs e1]. cbn [fst snd].
  destruct H as [H0 H1]. rewrite fexp_eq in *.
  pose proof (Zdigits2_pos m Hm) as Hd.
  destruct (Z.eq_dec (Z.max (Zdigits2 m + e - 53) (-1074) - e) 0) as [E|E].
  - destruct H0 as [-> ->]; [lia|].
    rewrite (proj2 (loc_of_shr_record_of_loc m l)).
    repeat split; try lia. 
  - destruct H1 as [-> ->]; [lia|].
    set (k := Z.max (Zdigits2 m + e - 53) (-1074) - e) in *.
    destruct (Z_lt_le_dec k (Zdigits2 m)) as [Hlt|Hge].
    + destruct (Zdigits2_shiftr m k Hm ltac:(lia) Hlt) as [Hp Hdg].
      rewrite Hdg. repeat split; try lia.
    + rewrite (shiftr_small m k Hm Hge). repeat split; lia.
Qed.

Lemma shr_fexp_zero (e : Z) : shr_m (fst (shr_fexp prec emax 0 e loc_Exact)) = 0.
Proof.
  unfold shr_fexp, shr.
  destruct (fexp prec emax (Zdigits2 0 + e) - e) as [|p|p]; try reflexivity.
  cbn [fst]. rewrite shr_iter_m by (simpl; lia). apply Z.shiftr_0_l.
Qed.

(** Rounding a positive mantissa gives a valid float, and never zero when
    the exponent is in range. *)
Lemma binary_round_aux_valid (s : bool) (m e : Z) (l : location) :
  0 < m -> e <= fexp prec emax (Zdigits2 m + e) ->
  let r := binary_round_aux prec emax s m e l in
  valid r = true /\
  (-1074 <= e -> r = S754_infinity s \/ exists m' e', r = S754_finite s m' e').
Proof.
  intros Hm He r. subst r. unfold binary_round_aux.
  pose proof (shift_step m e l Hm He) as H. cbv zeta in H.
  destruct (shr_fexp prec emax m e l) as [mrs e1]. cbn [fst snd] in H.
  destruct H as (H0 & He1 & Hc & Hz & Hp).
  set (m1 := shr_m mrs) in *.
  set (m2 := round_nearest_even m1 (loc_of_shr_record mrs)).
  assert (Hm2 : m2 = m1 \/ m2 = m1 + 1) by apply round_nearest_even_cases.
  destruct (Z.eq_dec m2 0) as [E|E].
  - rewrite E. pose proof (shr_fexp_zero e1) as Hs.
    destruct (shr_fexp prec emax 0 e1 loc_Exact) as [mrs2 e2]. cbn [fst] in Hs.
    rewrite Hs. split; [reflexivity|]. intros Hin. specialize (Hp Hin). lia.
  - assert (Hpos : 0 < m2) by lia.
    assert (He2 : e1 <= fexp prec emax (Zdigits2 m2 + e1)).
    { destruct (Z.eq_dec m1 0) as [Em|Em].
      - rewrite (Hz Em). rewrite fexp_eq. lia.
      - assert (Hm1 : 0 < m1) by lia. specialize (Hc Hm1).
        rewrite fexp_eq in *.
        assert (Zdigits2 m1 <= Zdigits2 m2); [|lia].
        destruct Hm2 as [->| ->]; [lia|]. apply Zdigits2_succ. exact Hm1. }
    pose proof (shift_step m2 e1 loc_Exact Hpos He2) as H. cbv zeta in H.
    destruct (shr_fexp prec emax m2 e1 loc_Exact) as [mrs2 e2]. cbn [fst snd] in H.
    destruct H as (_ & _ & Hc2 & _ & Hp2). specialize (Hp2 He1). specialize (Hc2 Hp2).
    destruct (shr_m mrs2) as [|m3|m3] eqn:E3; try lia.
    destruct (Z.leb e2 (emax - prec)) eqn:Eb.
    + split; [|right; eauto].
      unfold valid, valid_binary, bounded, canonical_mantissa.
      rewrite Eb, andb_true_r. apply Z.eqb_eq. exact Hc2.
    + split; [reflexivity|left; reflexivity].
Qed.

Lemma digits2_iter_xO (m d : positive) :
  Zpos (digits2_pos (Pos.iter xO m d)) = Zpos (digits2_pos m) + Zpos d.
Proof.
  induction d using Pos.peano_ind.
  - simpl. lia.
  - rewrite Pos.iter_succ. simpl digits2_pos. lia.
Qed.

Lemma binary_round_valid (s : bool) (m : positive) (e : Z) :
  let r := binary_round prec emax s m e in
  valid r = true /\
  (-1074 <= e -> r = S754_infinity s \/ exists m' e', r = S754_finite s m' e').
Proof.
  intros r. subst r. unfold binary_round, shl_align.
  destruct (fexp prec emax (Zpos (digits2_pos m) + e) - e) as [|p|p] eqn:E.
  - destruct (binary_round_aux_valid s (Zpos m) e loc_Exact) as [H1 H2];
      [lia|simpl Zdigits2; lia|]. split; assumption.
  - destruct (binary_round_aux_valid s (Zpos m) e loc_Exact) as [H1 H2];
      [lia|simpl Zdigits2; lia|]. split; assumption.
  - set (e' := fexp prec emax (Zpos (digits2_pos m) + e)) in *.
    destruct (binary_round_aux_valid s (Zpos (Pos.iter xO m p)) e' loc_Exact) as [H1 H2].
    + lia.
    + simpl Zdigits2. rewrite digits2_iter_xO.
      replace (Zpos (digits2_pos m) + Zpos p + e') with (Zpos (digits2_pos m) + e) by lia.
      fold e'. lia.
    + split; [exact H1|]. intros _. apply H2. unfold e'. rewrite fexp_eq. lia.
Qed.

Lemma binary_normalize_valid (m e : Z) (sz : bool) :
  valid (binary_normalize prec emax m e sz) = true.
Proof.
  destruct m as [|p|p]; [reflexivity| |]; apply binary_round_valid.
Qed.

Lemma add_valid (x y : binary64) :
  valid x = true -> valid y = true -> valid (add x y) = true.
Proof.
  intros Hx Hy. destruct x as [[]|[]| |sx mx ex], y as [[]|[]| |sy my ey];
    try reflexivity; try assumption.
  apply binary_normalize_valid.
Qed.

Lemma sub_valid (x y : binary64) :
  valid x = true -> valid y = true -> valid (sub x y) = true.
Proof.
  intros Hx Hy. destruct x as [[]|[]| |sx mx ex], y as [[]|[]| |sy my ey];
    try reflexivity; try assumption.
  apply binary_normalize_valid.
Qed.

Lemma SFcompare_antisym (x y : binary64) (c : comparison) :
  SFcompare x y = Some c -> SFcompare y x = Some (CompOpp c).
Proof.
  destruct x as [[]|[]| |[] mx ex], y as [[]|[]| |[] my ey]; simpl;
    intros [= <-]; try reflexivity.
  - rewrite (Z.compare_antisym ex ey). destruct (ex ?= ey); simpl; try reflexivity.
    change (PosDef.Pos.compare_cont Eq my mx) with (my ?= mx)%positive.
    now rewrite (Pos.compare_antisym mx my).
  - rewrite (Z.compare_antisym ex ey). destruct (ex ?= ey); simpl; try reflexivity.
    change (PosDef.Pos.compare_cont Eq my mx) with (my ?= mx)%positive.
    now rewrite (Pos.compare_antisym mx my).
Qed.

Lemma iter_xO_pow (m d : positive) : Zpos (Pos.iter xO m d) = Zpos m * 2 ^ Zpos d.
Proof.
  induction d using Pos.peano_ind.
  - simpl. lia.
  - rewrite Pos.iter_succ, Pos2Z.inj_succ, Z.pow_succ_r by lia.
    change (Zpos (Pos.iter xO m d)~0) with (2 * Zpos (Pos.iter xO m d)). lia.
Qed.

Lemma shl_align_value (m : positive) (e ez : Z) :
  ez <= e -> Zpos (fst (shl_align m e ez)) = Zpos m * 2 ^ (e - ez).
Proof.
  intros H. unfold shl_align. destruct (ez - e) as [|p|p] eqn:E; try lia.
  - replace (e - ez) with 0 by lia. simpl. lia.
  - cbn [fst]. rewrite iter_xO_pow. f_equal. f_equal. lia.
Qed.

(** Of two valid floats, the one with the smaller exponent has the smaller
    mantissa, also once the mantissas are aligned. *)
Lemma aligned_lt (m1 m2 : positive) (e1 e2 : Z) :
  valid (S754_finite false m1 e1) = true -> valid (S754_finite false m2 e2) = true ->
  e1 < e2 -> Zpos m1 < Zpos m2 * 2 ^ (e2 - e1).
Proof.
  unfold valid, valid_binary, bounded, canonical_mantissa.
  rewrite !andb_true_iff, !Z.eqb_eq, !fexp_eq, !digits2_log2.
  intros [H1 _] [H2 _] Hlt.
  apply Z.log2_lt_cancel. rewrite Z.log2_mul_pow2 by lia. lia.
Qed.

Lemma valid_exponent (s : bool) (m : positive) (e : Z) :
  valid (S754_finite s m e) = true -> -1074 <= e.
Proof.
  unfold valid, valid_binary, bounded, canonical_mantissa.
  rewrite andb_true_iff, Z.eqb_eq, fexp_eq. lia.
Qed.

Lemma binary_normalize_pos (d e : Z) :
  0 < d -> -1074 <= e ->
  SFltb (S754_zero false) (binary_normalize prec emax d e false) = true.
Proof.
  intros Hd He. destruct d as [|p|p]; try lia. simpl binary_normalize.
  destruct (binary_round_valid false p e) as [_ H].
  destruct (H He) as [-> |(m' & e' & ->)]; reflexivity.
Qed.

(** [x - y] is positive when [y < x]: the subtraction of two valid floats
    cannot round to zero. *)
Lemma sub_pos (x y : binary64) :
  valid x = true -> valid y = true -> SFltb y x = true ->
  SFltb (S754_zero false) (sub x y) = true.
Proof.
  intros Hx Hy Hlt.
  destruct x as [[]|[]| |sx mx ex], y as [[]|[]| |sy my ey];
    try discriminate; try reflexivity;
    try (destruct sx; try discriminate; reflexivity);
    try (destruct sy; try discriminate; reflexivity).
  pose proof (valid_exponent _ _ _ Hx) as Ex.
  pose proof (valid_exponent _ _ _ Hy) as Ey.
  unfold sub, SFsub. apply binary_normalize_pos; [|lia].
  rewrite !shl_align_value by lia.
  unfold SFltb in Hlt. simpl in Hlt.
  destruct sx, sy; simpl cond_Zopp; try discriminate.
  - destruct (ey ?= ex) eqn:E; try discriminate.
    + apply Z.compare_eq in E. subst ey. rewrite Z.min_id, Z.sub_diag.
      change (PosDef.Pos.compare_cont Eq my mx) with (my ?= mx)%positive in Hlt.
      destruct (my ?= mx)%positive eqn:E2; try discriminate.
      pose proof (proj1 (Pos.compare_gt_iff _ _) E2). rewrite Z.pow_0_r. lia.
    + apply Z.compare_gt_iff in E.
      rewrite Z.min_l by lia. rewrite Z.sub_diag.
      pose proof (aligned_lt mx my ex ey Hx Hy E). rewrite Z.pow_0_r. lia.
  - assert (0 < 2 ^ (ex - Z.min ex ey)) by (apply Z.pow_pos_nonneg; lia).
    assert (0 < 2 ^ (ey - Z.min ex ey)) by (apply Z.pow_pos_nonneg; lia).
    nia.
  - destruct (ey ?= ex) eqn:E; try discriminate.
    + apply Z.compare_eq in E. subst ey. rewrite Z.min_id, Z.sub_diag.
      change (PosDef.Pos.compare_cont Eq my mx) with (my ?= mx)%positive in Hlt.
      destruct (my ?= mx)%positive eqn:E2; try discriminate.
      pose proof (proj1 (Pos.compare_lt_iff _ _) E2). rewrite Z.pow_0_r. lia.
    + change (ey < ex) in E.
      rewrite Z.min_r by lia. rewrite Z.sub_diag.
      pose proof (aligned_lt my mx ey ex Hy Hx E). rewrite Z.pow_0_r. lia.
Qed.

Lemma of_int_valid (z : Z) (f : binary64) : of_int z = Return f -> valid f = true.
Proof.
  unfold of_int. pose proof (binary_normalize_valid z 0 false) as H.
  fold (of_Z z) in H. destruct (of_Z z); intros [= <-]; exact H.
Qed.

Lemma sum_valid_from (l : list binary64) :
  forall acc, valid acc = true -> Forall (fun x => valid x = true) l ->
  valid (fold_left add l acc) = true.
Proof.
  induction l as [|x l IH]; intros acc Hacc Hl; [exact Hacc|].
  inversion Hl; subst. cbn [fold_left]. apply IH; [now apply add_valid|assumption].
Qed.

Lemma ltb_geb (x y : binary64) : ltb x y = true -> geb x y = false.
Proof.
  unfold ltb, geb, SFltb, SFleb. destruct (SFcompare x y) as [c|] eqn:E; [|discriminate].
  rewrite (SFcompare_antisym _ _ _ E). now destruct c.
Qed.

Lemma SFcompare_defined (x y : binary64) :
  is_nan x = false -> is_nan y = false -> exists c, SFcompare x y = Some c.
Proof.
  destruct x as [[]|[]| |[] mx ex], y as [[]|[]| |[] my ey]; simpl;
    intros Hx Hy; try discriminate; eauto.
Qed.

Lemma geb_false_ltb (x y : binary64) :
  is_nan x = false -> is_nan y = false -> geb x y = false -> ltb x y = true.
Proof.
  intros Hx Hy. destruct (SFcompare_defined y x Hy Hx) as [c E].
  unfold geb, ltb, SFleb, SFltb. rewrite E.
  apply SFcompare_antisym in E. rewrite E. now destruct c.
Qed.

Lemma gtb_zero_eqb (x : binary64) : gtb x zero = true -> eqb x zero = false.
Proof. destruct x as [[]|[]| |[] m e]; simpl; intros H; try discriminate; reflexivity. Qed.

Lemma leb_zero_eqb (x : binary64) : leb x zero = false -> eqb x zero = false.
Proof. destruct x as [[]|[]| |[] m e]; simpl; intros H; try discriminate; reflexivity. Qed.

(** The remaining weight behind a passed guard: strictly positive. *)
Lemma remaining_pos (weight total : binary64) :
  valid weight = true -> valid total = true -> ltb total weight = true ->
  gtb (sub weight total) zero = true /\ eqb (sub weight total) zero = false.
Proof.
  intros Hw Ht Hlt. pose proof (sub_pos weight total Hw Ht Hlt) as H.
  split; [exact H|]. apply gtb_zero_eqb. exact H.
Qed.

Lemma truediv_nonzero (x y : binary64) :
  eqb y zero = false -> truediv x y = Return (div x y).
Proof. intros H. unfold truediv. now rewrite H. Qed.

Lemma truediv_zero (x y : binary64) :
  eqb y zero = true -> truediv x y = Raise ZeroDivisionError.
Proof. intros H. unfold truediv. now rewrite H. Qed.

End BinaryFacts.

(** ** The algebraic core-index calculator *)

Section CoreFacts.
Import Binary64 Core.

Lemma append_if_app cond msg errs :
  append_if cond msg errs = errs ++ (if cond then [msg] else []).
Proof. unfold append_if. destruct cond; [reflexivity|]. now rewrite app_nil_r. Qed.

(** One round of the loop, by the three ways [parse] can end. *)
Lemma loop_body_spec st excl st' :
  loop_body st excl = Return st' ->
  valid_exclusions st' = valid_exclusions st ++ keep excl /\
  errors st' = errors st ++ parse_error excl /\
  total_excluded_old_weight st'
    = fold_left add (List.map v_old_weight (keep excl)) (total_excluded_old_weight st) /\
  total_excluded_new_weight st'
    = fold_left add (List.map v_new_weight (keep excl)) (total_excluded_new_weight st) /\
  weighted_sum_old_exclusions st'
    = fold_left add (List.map old_product (keep excl)) (weighted_sum_old_exclusions st) /\
  weighted_sum_new_exclusions st'
    = fold_left add (List.map new_product (keep excl)) (weighted_sum_new_exclusions st).
Proof.
  unfold loop_body, keep, parse_error.
  destruct (parse excl) as [[[[oi ow] ni] nw]|e].
  - intros [= <-]. destruct (skipped ow nw).
    + cbn [List.map fold_left]. now rewrite !app_nil_r.
    + cbn [List.map fold_left valid_exclusions errors total_excluded_old_weight
           total_excluded_new_weight weighted_sum_old_exclusions
           weighted_sum_new_exclusions v_old_weight v_new_weight].
      rewrite app_nil_r. repeat split; reflexivity.
  - destruct (caught e); [|discriminate]. intros [= <-].
    cbn [List.map fold_left valid_exclusions errors total_excluded_old_weight
         total_excluded_new_weight weighted_sum_old_exclusions
         weighted_sum_new_exclusions].
    rewrite app_nil_r. repeat split; reflexivity.
Qed.

Lemma run_loop_spec xs : forall st st',
  run_loop st xs = Return st' ->
  valid_exclusions st' = valid_exclusions st ++ kept xs /\
  errors st' = errors st ++ parse_errors xs /\
  total_excluded_old_weight st'
    = fold_left add (List.map v_old_weight (kept xs)) (total_excluded_old_weight st) /\
  total_excluded_new_weight st'
    = fold_left add (List.map v_new_weight (kept xs)) (total_excluded_new_weight st) /\
  weighted_sum_old_exclusions st'
    = fold_left add (List.map old_product (kept xs)) (weighted_sum_old_exclusions st) /\
  weighted_sum_new_exclusions st'
    = fold_left add (List.map new_product (kept xs)) (weighted_sum_new_exclusions st).
Proof.
  induction xs as [|x xs IH]; intros st st' H.
  - injection H as <-. cbn. now rewrite !app_nil_r.
  - cbn [run_loop] in H. destruct (loop_body st x) as [st1|e] eqn:E; [|discriminate].
    cbn [bind] in H. apply IH in H as (H1 & H2 & H3 & H4 & H5 & H6).
    apply loop_body_spec in E as (E1 & E2 & E3 & E4 & E5 & E6).
    unfold kept, parse_errors in *. cbn [flat_map].
    rewrite !List.map_app, !fold_left_app, !app_assoc.
    rewrite H1, H2, H3, H4, H5, H6, E1, E2, E3, E4, E5, E6.
    repeat split; reflexivity.
Qed.

Lemma loop_body_returns st excl :
  convertible excl -> exists st', loop_body st excl = Return st'.
Proof.
  intros H. unfold loop_body. destruct (parse excl) as [[[[oi ow] ni] nw]|e] eqn:E.
  - eauto.
  - rewrite (H e E). eauto.
Qed.

Lemma run_loop_returns xs :
  Forall convertible xs -> forall st, exists st', run_loop st xs = Return st'.
Proof.
  induction 1 as [|x xs Hx _ IH]; intros st; [now exists st|].
  destruct (loop_body_returns st x Hx) as [st1 E].
  cbn [run_loop]. rewrite E. apply IH.
Qed.

(** The loop raises what the first conversion that is not caught raises. *)
Lemma run_loop_raises xs : forall st e,
  run_loop st xs = Raise e ->
  caught e = false /\ exists x, In x xs /\ parse x = Raise e.
Proof.
  induction xs as [|x xs IH]; intros st e H; [discriminate|].
  cbn [run_loop] in H. destruct (loop_body st x) as [st1|e1] eqn:E.
  - cbn [bind] in H. apply IH in H as (Hc & y & Hy & Hp).
    split; [exact Hc|]. exists y. split; [now right|exact Hp].
  - cbn [bind] in H. injection H as <-.
    unfold loop_body in E. destruct (parse x) as [[[[oi ow] ni] nw]|e2] eqn:Ep;
      [discriminate|].
    destruct (caught e2) eqn:Ec; [discriminate|]. injection E as <-.
    split; [exact Ec|]. exists x. split; [now left|exact Ep].
Qed.

Lemma run_loop_overflow xs : forall st x e,
  In x xs -> parse x = Raise e -> caught e = false ->
  exists e', run_loop st xs = Raise e' /\ caught e' = false.
Proof.
  induction xs as [|y xs IH]; intros st x e Hin Hp Hc; [destruct Hin|].
  cbn [run_loop]. destruct (loop_body st y) as [st1|e1] eqn:E.
  - cbn [bind]. destruct Hin as [->|Hin].
    + unfold loop_body in E. rewrite Hp, Hc in E. discriminate.
    + apply (IH st1 x e Hin Hp Hc).
  - cbn [bind]. exists e1. split; [reflexivity|].
    unfold loop_body in E. destruct (parse y) as [[[[oi ow] ni] nw]|e2]; [discriminate|].
    destruct (caught e2) eqn:Ec; [discriminate|]. now injection E as <-.
Qed.

(** The validation computes the error list of the specification, and the
    accumulators that the loop leaves are the sums over the kept entries. *)
Lemma validate_spec ho how hn hnw xs st errs :
  validate ho how hn hnw xs = Return (st, errs) ->
  errs = validation_errors ho how hn hnw xs /\
  valid_exclusions st = kept xs /\
  total_excluded_old_weight st = sum_old_weight (kept xs) /\
  total_excluded_new_weight st = sum_new_weight (kept xs) /\
  weighted_sum_old_exclusions st = sum_old_weighted (kept xs) /\
  weighted_sum_new_exclusions st = sum_new_weighted (kept xs).
Proof.
  unfold validate.
  destruct (run_loop _ xs) as [st1|e] eqn:E; [|discriminate].
  cbn [bind]. intros [= <- <-].
  apply run_loop_spec in E as (H1 & H2 & H3 & H4 & H5 & H6).
  cbn [initial_state valid_exclusions errors total_excluded_old_weight
       total_excluded_new_weight weighted_sum_old_exclusions
       weighted_sum_new_exclusions app] in H1, H2, H3, H4, H5, H6.
  unfold sum_old_weight, sum_new_weight, sum_old_weighted, sum_new_weighted, sum.
  split; [|now repeat split].
  unfold validation_errors. rewrite !append_if_app, H1, H2, H3, H4, !append_if_app.
  cbn [app]. rewrite <- !app_assoc.
  unfold sum_old_weight, sum_new_weight, sum.
  now destruct (kept xs).
Qed.

Lemma validate_returns ho how hn hnw xs :
  Forall convertible xs -> exists st errs, validate ho how hn hnw xs = Return (st, errs).
Proof.
  intros H. unfold validate.
  destruct (run_loop_returns xs H
              (initial_state (append_if (leb how zero || leb hnw zero)
                 HeadlineWeightNotPositive
                 (append_if (leb ho zero || leb hn zero) HeadlineIndexNotPositive []))))
    as [st E].
  rewrite E. cbn [bind]. eauto.
Qed.

Lemma validate_raises ho how hn hnw xs e :
  validate ho how hn hnw xs = Raise e ->
  caught e = false /\ exists x, In x xs /\ parse x = Raise e.
Proof.
  unfold validate. destruct (run_loop _ xs) as [st1|e1] eqn:E; [discriminate|].
  cbn [bind]. intros [= <-]. now apply run_loop_raises in E.
Qed.

Lemma percent_change_returns old new :
  eqb old zero = false ->
  percent_change old new = Return (mul (div (sub new old) old) hundred).
Proof. intros H. unfold percent_change. now rewrite truediv_nonzero. Qed.

Lemma percent_change_raises old new :
  eqb old zero = true -> percent_change old new = Raise ZeroDivisionError.
Proof. intros H. unfold percent_change. now rewrite truediv_zero. Qed.

Lemma exclusion_inflation_total e :
  exists r, exclusion_inflation e = Return r /\ entry r = e.
Proof.
  unfold exclusion_inflation. destruct (gtb (v_old_index e) zero) eqn:E.
  - rewrite percent_change_returns by (now apply gtb_zero_eqb). cbn [bind]. eauto.
  - eauto.
Qed.

Lemma exclusion_inflations_total l :
  exists rs, exclusion_inflations l = Return rs /\ List.map entry rs = l.
Proof.
  induction l as [|e l (rs & Hrs & Hmap)]; [now exists []|].
  destruct (exclusion_inflation_total e) as (r & Hr & He).
  exists (r :: rs). cbn [exclusion_inflations]. rewrite Hr, Hrs. cbn [bind List.map].
  now rewrite He, Hmap.
Qed.

End CoreFacts.

Section CoreClaims.
Import Binary64 Core.

Lemma float_valid v f : is_float v = true -> float v = Return f -> valid f = true.
Proof.
  destruct v as [g|z| |]; cbn [is_float float]; intros Hv H; try discriminate.
  - now injection H as <-.
  - now apply of_int_valid in H.
Qed.

Lemma float_raises v e : float v = Raise e -> caught e = true \/ e = OverflowError.
Proof.
  destruct v as [g|z| |]; cbn [float]; intros H; try discriminate.
  - unfold of_int in H. destruct (of_Z z); try discriminate. injection H as <-. now right.
  - injection H as <-. now left.
  - injection H as <-. now left.
Qed.

Lemma headline_floats_inv a b c d ho how hn hnw :
  headline_floats a b c d = Return (ho, how, hn, hnw) ->
  float a = Return ho /\ float b = Return how /\
  float c = Return hn /\ float d = Return hnw.
Proof.
  unfold headline_floats.
  destruct (float a) as [x|]; [|discriminate]. cbn [bind].
  destruct (float c) as [y|]; [|discriminate]. cbn [bind].
  destruct (float b) as [z|]; [|discriminate]. cbn [bind].
  destruct (float d) as [w|]; [|discriminate]. cbn [bind].
  intros [= <- <- <- <-]. repeat split.
Qed.

Lemma headline_floats_raises a b c d e :
  headline_floats a b c d = Raise e -> caught e = true \/ e = OverflowError.
Proof.
  unfold headline_floats.
  destruct (float a) as [x|e1] eqn:E1;
    [|cbn [bind]; intros [= <-]; now apply float_raises in E1].
  cbn [bind].
  destruct (float c) as [y|e2] eqn:E2;
    [|cbn [bind]; intros [= <-]; now apply float_raises in E2].
  cbn [bind].
  destruct (float b) as [z|e3] eqn:E3;
    [|cbn [bind]; intros [= <-]; now apply float_raises in E3].
  cbn [bind].
  destruct (float d) as [w|e4] eqn:E4;
    [|cbn [bind]; intros [= <-]; now apply float_raises in E4].
  discriminate.
Qed.

Lemma parse_valid x oi ow ni nw :
  floats x = true -> parse x = Return (oi, ow, ni, nw) ->
  valid oi = true /\ valid ow = true /\ valid ni = true /\ valid nw = true.
Proof.
  unfold floats, parse. rewrite !andb_true_iff. intros [[[H1 H2] H3] H4].
  destruct (float (get (old_index x) _)) as [a|] eqn:E1; [|discriminate]. cbn [bind].
  destruct (float (get (old_weight x) _)) as [b|] eqn:E2; [|discriminate]. cbn [bind].
  destruct (float (get (new_index x) _)) as [c|] eqn:E3; [|discriminate]. cbn [bind].
  destruct (float (get (new_weight x) _)) as [d|] eqn:E4; [|discriminate]. cbn [bind].
  intros [= <- <- <- <-].
  split; [exact (float_valid _ _ H1 E1)|].
  split; [exact (float_valid _ _ H2 E2)|].
  split; [exact (float_valid _ _ H3 E3)|exact (float_valid _ _ H4 E4)].
Qed.

Lemma kept_valid xs :
  Forall (fun x => floats x = true) xs ->
  Forall (fun e => valid (v_old_weight e) = true /\ valid (v_new_weight e) = true)
    (kept xs).
Proof.
  induction 1 as [|x xs Hx _ IH]; [constructor|].
  unfold kept. cbn [flat_map]. apply Forall_app. split; [|exact IH].
  unfold keep. destruct (parse x) as [[[[oi ow] ni] nw]|e] eqn:E; [|constructor].
  destruct (skipped ow nw); [constructor|].
  apply parse_valid in E as (_ & H2 & _ & H4); [|exact Hx].
  constructor; [|constructor]. now split.
Qed.

Lemma sums_valid xs :
  Forall (fun x => floats x = true) xs ->
  valid (sum_old_weight (kept xs)) = true /\ valid (sum_new_weight (kept xs)) = true.
Proof.
  intros H. apply kept_valid in H.
  unfold sum_old_weight, sum_new_weight, sum.
  split; (apply sum_valid_from; [reflexivity|]); apply Forall_map;
    (eapply Forall_impl; [exact H|]); cbn; tauto.
Qed.

(** Behind a passed guard the remaining weight is not zero: it is [nan] when
    a weight is, and positive otherwise. *)
Lemma remaining_nonzero weight total :
  valid weight = true -> valid total = true -> geb total weight = false ->
  eqb (sub weight total) zero = false /\
  (is_nan weight = false -> is_nan total = false ->
   gtb (sub weight total) zero = true).
Proof.
  intros Hw Ht Hg.
  assert (Hpos : is_nan weight = false -> is_nan total = false ->
                 gtb (sub weight total) zero = true).
  { intros N1 N2. apply remaining_pos; try assumption. now apply geb_false_ltb. }
  split; [|exact Hpos].
  destruct (is_nan weight) eqn:N1; [now destruct weight|].
  destruct (is_nan total) eqn:N2;
    [destruct total; try discriminate; now destruct weight as [[]|[]| |]|].
  apply gtb_zero_eqb. now apply Hpos.
Qed.

Lemma numbers_parse_errors xs : Forall numbers xs -> parse_errors xs = [].
Proof.
  induction 1 as [|x xs [t Hx] _ IH]; [reflexivity|].
  unfold parse_errors in *. cbn [flat_map]. unfold parse_error at 1.
  now rewrite Hx, IH.
Qed.

Lemma numbers_convertible xs : Forall numbers xs -> Forall convertible xs.
Proof.
  intros H. eapply Forall_impl; [exact H|].
  intros x [t Hx] e He. rewrite Hx in He. discriminate.
Qed.

(** The call on headline values that convert, by the error list of the
    specification. *)
Lemma call_unfold items_count a b c d ho how hn hnw xs scenario :
  headline_floats a b c d = Return (ho, how, hn, hnw) ->
  Forall convertible xs ->
  exists st,
    valid_exclusions st = kept xs /\
    total_excluded_old_weight st = sum_old_weight (kept xs) /\
    total_excluded_new_weight st = sum_new_weight (kept xs) /\
    weighted_sum_old_exclusions st = sum_old_weighted (kept xs) /\
    weighted_sum_new_exclusions st = sum_new_weighted (kept xs) /\
    calculate_core_with_manual_exclusions items_count a b c d xs scenario
    = match validation_errors ho how hn hnw xs with
      | [] => calculate items_count ho how hn hnw st scenario
      | _ :: _ =>
          Return (Failure (validation_errors ho how hn hnw xs)
                    (name_or scenario "Unknown"))
      end.
Proof.
  intros Hh Hc. unfold calculate_core_with_manual_exclusions. rewrite Hh.
  destruct (validate_returns ho how hn hnw xs Hc) as (st & errs & Hv).
  rewrite Hv. cbn [bind fst snd].
  apply validate_spec in Hv as (-> & H1 & H2 & H3 & H4 & H5).
  exists st. repeat split; assumption.
Qed.

Lemma call_caught items_count a b c d xs scenario e :
  headline_floats a b c d = Raise e -> caught e = true ->
  calculate_core_with_manual_exclusions items_count a b c d xs scenario
  = Return (Failure [InvalidHeadline] (name_or scenario "Unknown")).
Proof.
  intros Hh Hc. unfold calculate_core_with_manual_exclusions. now rewrite Hh, Hc.
Qed.

(** The calculation after the validation: it raises exactly when a divisor
    is zero, and returns the values of the formula otherwise. *)
Lemma calculate_spec items_count ho how hn hnw st scenario :
  eqb ho zero = false ->
  eqb (sub how (total_excluded_old_weight st)) zero = false ->
  eqb (sub hnw (total_excluded_new_weight st)) zero = false ->
  let ex_old := ex_index ho how (weighted_sum_old_exclusions st)
                  (total_excluded_old_weight st) in
  let ex_new := ex_index hn hnw (weighted_sum_new_exclusions st)
                  (total_excluded_new_weight st) in
  let call := calculate items_count ho how hn hnw st scenario in
  (eqb ex_old zero = true -> call = Raise ZeroDivisionError) /\
  (eqb ex_old zero = false ->
   exists r, call = Return (Success r) /\
     headline_old_index r = ho /\ headline_old_weight r = how /\
     headline_new_index r = hn /\ headline_new_weight r = hnw /\
     r_old_index r = ex_old /\ r_new_index r = ex_new /\
     remaining_old_weight r = sub how (total_excluded_old_weight st) /\
     remaining_new_weight r = sub hnw (total_excluded_new_weight st) /\
     headline_inflation r = mul (div (sub hn ho) ho) hundred /\
     inflation_rate r = mul (div (sub ex_new ex_old) ex_old) hundred /\
     difference_from_headline r = sub (inflation_rate r) (headline_inflation r) /\
     List.map entry (exclusions r) = valid_exclusions st).
Proof.
  intros Hho Ho Hn ex_old ex_new call. subst call. unfold calculate.
  rewrite (truediv_nonzero _ _ Ho), (truediv_nonzero _ _ Hn). cbn [bind].
  rewrite (percent_change_returns ho hn Hho). cbn [bind].
  fold (ex_index ho how (weighted_sum_old_exclusions st) (total_excluded_old_weight st)).
  fold (ex_index hn hnw (weighted_sum_new_exclusions st) (total_excluded_new_weight st)).
  fold ex_old ex_new.
  split; intros Hz.
  - now rewrite (percent_change_raises _ _ Hz).
  - rewrite (percent_change_returns _ _ Hz). cbn [bind].
    destruct (exclusion_inflations_total (valid_exclusions st)) as (rs & Hrs & Hmap).
    rewrite Hrs. cbn [bind]. eexists. split; [reflexivity|].
    cbn. repeat split; try reflexivity. exact Hmap.
Qed.

(** What a returned result says about the call. *)
Lemma calculate_inv items_count ho how hn hnw st scenario r :
  calculate items_count ho how hn hnw st scenario = Return (Success r) ->
  eqb (sub how (total_excluded_old_weight st)) zero = false /\
  eqb (sub hnw (total_excluded_new_weight st)) zero = false /\
  headline_old_index r = ho /\ headline_old_weight r = how /\
  headline_new_index r = hn /\ headline_new_weight r = hnw /\
  r_old_index r = ex_index ho how (weighted_sum_old_exclusions st)
                    (total_excluded_old_weight st) /\
  r_new_index r = ex_index hn hnw (weighted_sum_new_exclusions st)
                    (total_excluded_new_weight st) /\
  remaining_old_weight r = sub how (total_excluded_old_weight st) /\
  remaining_new_weight r = sub hnw (total_excluded_new_weight st) /\
  List.map entry (exclusions r) = valid_exclusions st.
Proof.
  unfold calculate, truediv at 1 2.
  destruct (eqb (sub how _) zero) eqn:Ho; [discriminate|]. cbn [bind].
  destruct (eqb (sub hnw _) zero) eqn:Hn; [discriminate|]. cbn [bind].
  destruct (percent_change ho hn) as [h|]; [|discriminate]. cbn [bind].
  destruct (percent_change _ _) as [i|]; [|discriminate]. cbn [bind].
  destruct (exclusion_inflations_total (valid_exclusions st)) as (rs & Hrs & Hmap).
  rewrite Hrs. cbn [bind]. intros [= <-]. cbn. repeat split; try reflexivity.
  exact Hmap.
Qed.

Lemma success_inv items_count a b c d xs scenario r :
  calculate_core_with_manual_exclusions items_count a b c d xs scenario
    = Return (Success r) ->
  exists ho how hn hnw st,
    headline_floats a b c d = Return (ho, how, hn, hnw) /\
    validation_errors ho how hn hnw xs = [] /\
    valid_exclusions st = kept xs /\
    total_excluded_old_weight st = sum_old_weight (kept xs) /\
    total_excluded_new_weight st = sum_new_weight (kept xs) /\
    weighted_sum_old_exclusions st = sum_old_weighted (kept xs) /\
    weighted_sum_new_exclusions st = sum_new_weighted (kept xs) /\
    calculate items_count ho how hn hnw st scenario = Return (Success r).
Proof.
  unfold calculate_core_with_manual_exclusions.
  destruct (headline_floats a b c d) as [[[[ho how] hn] hnw]|e];
    [|destruct (caught e); discriminate].
  destruct (validate ho how hn hnw xs) as [[st errs]|e] eqn:Hv; [|discriminate].
  cbn [bind fst snd].
  apply validate_spec in Hv as (-> & H1 & H2 & H3 & H4 & H5).
  destruct (validation_errors ho how hn hnw xs) eqn:E; [|discriminate].
  intros H. exists ho, how, hn, hnw, st. repeat split; assumption.
Qed.

(** The conditions behind an empty error list. *)
Lemma validation_errors_nil ho how hn hnw xs :
  validation_errors ho how hn hnw xs = [] <->
  leb ho zero || leb hn zero = false /\ leb how zero || leb hnw zero = false /\
  parse_errors xs = [] /\ kept xs <> [] /\
  geb (sum_old_weight (kept xs)) how = false /\
  geb (sum_new_weight (kept xs)) hnw = false.
Proof.
  unfold validation_errors. split.
  - intros H.
    apply app_eq_nil in H as [H1 H]. apply app_eq_nil in H as [H2 H].
    apply app_eq_nil in H as [H3 H]. apply app_eq_nil in H as [H4 H].
    apply app_eq_nil in H as [H5 H6].
    split; [now destruct (leb ho zero || leb hn zero)|].
    split; [now destruct (leb how zero || leb hnw zero)|].
    split; [exact H3|].
    split; [now destruct (kept xs)|].
    split; [now destruct (geb _ how)|now destruct (geb _ hnw)].
  - intros (H1 & H2 & H3 & H4 & H5 & H6). rewrite H1, H2, H3, H5, H6.
    now destruct (kept xs).
Qed.

End CoreClaims.

Section CoreTheorems.
Import Binary64 Core.

Lemma gtb_zero_leb (x : binary64) : gtb x zero = true -> leb x zero = false.
Proof. intros H. apply (ltb_geb zero x H). Qed.

(** C1, as amended: on every valid input (headline indices and weights that
    are floats above 0, exclusions whose values all convert and of which at
    least one is kept, the float total of the kept weights below the headline
    weight in both periods; the entries whose two weights are both [<= 0] are
    skipped and do not count) the ex-items index of each period is the float
    (headline index x headline weight - sum of index x weight of the kept
    exclusions) / (headline weight - sum of the weights of the kept
    exclusions), every operation rounded and the sums accumulated from 0.0 in
    the order of the list.  The call returns these values, with the two
    inflation rates and their difference, whenever this old ex-items index is
    not 0.0, and raises [ZeroDivisionError] when it is.  In the scenario
    headline 100.0 -> 115.45 (weights 100), one exclusion 105.0 -> 130.0
    (weights 40), the ex-items indices are the floats of
    (100x100 - 105x40)/(100-40) and (115.45x100 - 130x40)/(100-40), the
    headline inflation is 15.45 up to rounding and the difference of the
    inflations is about -6.05 percentage points. *)
Theorem core_index_formula (items_count : nat) (scenario : option string) :
  (forall a b c d ho how hn hnw xs,
     headline_floats a b c d = Return (ho, how, hn, hnw) ->
     is_float b = true -> is_float d = true ->
     Forall (fun x => floats x = true) xs ->
     gtb ho zero = true -> gtb hn zero = true ->
     gtb how zero = true -> gtb hnw zero = true ->
     Forall numbers xs -> kept xs <> [] ->
     ltb (sum_old_weight (kept xs)) how = true ->
     ltb (sum_new_weight (kept xs)) hnw = true ->
     let ex_old :=
       ex_index ho how (sum_old_weighted (kept xs)) (sum_old_weight (kept xs)) in
     let ex_new :=
       ex_index hn hnw (sum_new_weighted (kept xs)) (sum_new_weight (kept xs)) in
     let call :=
       calculate_core_with_manual_exclusions items_count a b c d xs scenario in
     (eqb ex_old zero = true -> call = Raise ZeroDivisionError) /\
     (eqb ex_old zero = false ->
      exists r, call = Return (Success r) /\
        r_old_index r = ex_old /\ r_new_index r = ex_new /\
        headline_inflation r = mul (div (sub hn ho) ho) hundred /\
        inflation_rate r = mul (div (sub ex_new ex_old) ex_old) hundred /\
        difference_from_headline r
        = sub (inflation_rate r) (headline_inflation r)))
  /\
  (exists r,
     calculate_core_with_manual_exclusions items_count
       (Examples.num 100) (Examples.num 100)
       (PyFloat (decimal 11545 100)) (Examples.num 100)
       [Examples.food] scenario = Return (Success r) /\
     r_old_index r
     = div (sub (mul (of_Z 100) (of_Z 100)) (mul (of_Z 105) (of_Z 40)))
           (sub (of_Z 100) (of_Z 40)) /\
     r_new_index r
     = div (sub (mul (decimal 11545 100) (of_Z 100)) (mul (of_Z 130) (of_Z 40)))
           (sub (of_Z 100) (of_Z 40)) /\
     ltb (decimal 15449999 1000000) (headline_inflation r) = true /\
     ltb (headline_inflation r) (decimal 15450001 1000000) = true /\
     ltb (decimal (-6055) 1000) (difference_from_headline r) = true /\
     ltb (difference_from_headline r) (decimal (-6045) 1000) = true).
Proof.
  split.
  - intros a b c d ho how hn hnw xs Hh Fb Fd Fxs Hho Hhn Hhow Hhnw Hnum Hk Hso Hsn
      ex_old ex_new call.
    destruct (call_unfold items_count a b c d ho how hn hnw xs scenario Hh
                (numbers_convertible xs Hnum))
      as (st & Hv & T1 & T2 & W1 & W2 & Hcall).
    fold call in Hcall.
    assert (Hpass : validation_errors ho how hn hnw xs = []).
    { apply validation_errors_nil.
      rewrite (gtb_zero_leb _ Hho), (gtb_zero_leb _ Hhn),
        (gtb_zero_leb _ Hhow), (gtb_zero_leb _ Hhnw).
      repeat split; try reflexivity; try assumption;
        [now apply numbers_parse_errors|now apply ltb_geb|now apply ltb_geb]. }
    rewrite Hpass in Hcall.
    destruct (headline_floats_inv _ _ _ _ _ _ _ _ Hh) as (_ & Eb & _ & Ed).
    destruct (sums_valid xs Fxs) as [Vo Vn].
    destruct (remaining_pos how _ (float_valid _ _ Fb Eb) Vo Hso) as [_ Ro].
    destruct (remaining_pos hnw _ (float_valid _ _ Fd Ed) Vn Hsn) as [_ Rn].
    rewrite <- T1 in Ro. rewrite <- T2 in Rn.
    destruct (calculate_spec items_count ho how hn hnw st scenario
                (gtb_zero_eqb _ Hho) Ro Rn) as [Hz Hnz].
    rewrite T1, W1 in Hz. rewrite T1, T2, W1, W2 in Hnz.
    fold ex_old in Hz. fold ex_old ex_new in Hnz.
    rewrite <- Hcall in Hz, Hnz.
    split; [exact Hz|]. intros H.
    destruct (Hnz H) as (r & Hr & _ & _ & _ & _ & E1 & E2 & _ & _ & E3 & E4 & E5 & _).
    exists r. repeat split; assumption.
  - destruct scenario as [s|]; eexists; (split; [vm_compute; reflexivity|]);
      vm_compute; repeat split; reflexivity.
Qed.

(** The formula on two inputs: the scenario of the specification, and
    headline 128.2 at weight 100 with one exclusion 320.5 at weight 40, where
    the float products differ by one unit in the last place
    (12819.999999999998 against 12820.0) and the old ex-items index is a
    small negative number and not zero. *)
Lemma core_index_formula_witness :
  (exists r,
     Examples.scenario = Return (Success r) /\
     r_old_index r
     = ex_index (of_Z 100) (of_Z 100) (mul (of_Z 105) (of_Z 40)) (of_Z 40)) /\
  (exists r,
     calculate_core_with_manual_exclusions 0
       (PyFloat (decimal 1282 10)) (Examples.num 100)
       (PyFloat (decimal 1400 10)) (Examples.num 100)
       [numeric "Housing" (decimal 3205 10) (of_Z 40) (of_Z 330) (of_Z 40)] None
     = Return (Success r) /\
     ltb (r_old_index r) zero = true).
Proof.
  split.
  - destruct (proj1 (core_index_formula 0 None)
                (Examples.num 100) (Examples.num 100)
                (PyFloat (decimal 11545 100)) (Examples.num 100)
                (of_Z 100) (of_Z 100) (decimal 11545 100) (of_Z 100)
                [Examples.food]) as [_ H].
    + reflexivity.
    + vm_compute; reflexivity.
    + vm_compute; reflexivity.
    + repeat constructor.
    + vm_compute; reflexivity.
    + vm_compute; reflexivity.
    + vm_compute; reflexivity.
    + vm_compute; reflexivity.
    + repeat constructor. eexists. reflexivity.
    + vm_compute. discriminate.
    + vm_compute; reflexivity.
    + vm_compute; reflexivity.
    + destruct H as (r & Hr & Hold & _); [vm_compute; reflexivity|].
      exists r. split; [exact Hr|]. rewrite Hold. vm_compute. reflexivity.
  - destruct (proj1 (core_index_formula 0 None)
                (PyFloat (decimal 1282 10)) (Examples.num 100)
                (PyFloat (decimal 1400 10)) (Examples.num 100)
                (decimal 1282 10) (of_Z 100) (decimal 1400 10) (of_Z 100)
                [numeric "Housing" (decimal 3205 10) (of_Z 40) (of_Z 330) (of_Z 40)])
      as [_ H].
    + reflexivity.
    + vm_compute; reflexivity.
    + vm_compute; reflexivity.
    + repeat constructor.
    + vm_compute; reflexivity.
    + vm_compute; reflexivity.
    + vm_compute; reflexivity.
    + vm_compute; reflexivity.
    + repeat constructor. eexists. reflexivity.
    + vm_compute. discriminate.
    + vm_compute; reflexivity.
    + vm_compute; reflexivity.
    + destruct H as (r & Hr & Hold & _); [vm_compute; reflexivity|].
      exists r. split; [exact Hr|]. rewrite Hold. vm_compute. reflexivity.
Defined.

(** C1 as stated fails on its own scenario: the difference of the two
    inflation rates is below -5.23 (it is about -6.05), more than one
    percentage point away from -4.23.  And a valid input need not return an
    index at all: headline 100 at weight 100 with one exclusion of index 200
    at weight 50 has the old ex-items index (10000 - 10000)/50 = 0.0, by which
    the ex-items inflation divides. *)
Lemma scenario_difference_is_not_minus_4_23 :
  (exists r,
     Examples.scenario = Return (Success r) /\
     ltb (difference_from_headline r) (decimal (-523) 100) = true) /\
  calculate_core_with_manual_exclusions 0
    (Examples.num 100) (Examples.num 100) (Examples.num 110) (Examples.num 100)
    [Examples.entry "Housing" 200 50 130 50] None
  = Raise ZeroDivisionError.
Proof.
  split.
  - eexists. split; [vm_compute; reflexivity|]. vm_compute. reflexivity.
  - vm_compute. reflexivity.
Qed.

End CoreTheorems.

Section CoreValidation.
Import Binary64 Core.

Lemma In_validation_errors ho how hn hnw xs e :
  In e (validation_errors ho how hn hnw xs) <->
  (leb ho zero || leb hn zero = true /\ e = HeadlineIndexNotPositive) \/
  (leb how zero || leb hnw zero = true /\ e = HeadlineWeightNotPositive) \/
  In e (parse_errors xs) \/
  (kept xs = [] /\ e = NoValidExclusions) \/
  (geb (sum_old_weight (kept xs)) how = true /\
   e = ExcludedOldWeightTooLarge (sum_old_weight (kept xs)) how) \/
  (geb (sum_new_weight (kept xs)) hnw = true /\
   e = ExcludedNewWeightTooLarge (sum_new_weight (kept xs)) hnw).
Proof.
  unfold validation_errors. rewrite !in_app_iff.
  assert (I1 : forall (c : bool) (m : error),
            In e (if c then [m] else []) <-> c = true /\ e = m).
  { intros [] m; cbn; split; try tauto; try (intros [? ?]; discriminate).
    - intros [<-|[]]. now split.
    - intros [_ ->]. now left. }
  rewrite !I1.
  assert (I2 : In e (match kept xs with [] => [NoValidExclusions] | _ :: _ => [] end)
               <-> kept xs = [] /\ e = NoValidExclusions).
  { destruct (kept xs); cbn; split; try tauto; try (intros [? ?]; discriminate).
    - intros [<-|[]]. now split.
    - intros [_ ->]. now left. }
  rewrite I2. tauto.
Qed.

Lemma parse_errors_shape e xs :
  In e (parse_errors xs) <->
  exists x err, In x xs /\ parse x = Raise err /\
                e = InvalidExclusion (get (name x) "Unknown").
Proof.
  unfold parse_errors. rewrite in_flat_map. split.
  - intros (x & Hx & He). unfold parse_error in He.
    destruct (parse x) as [t|err] eqn:E; [destruct He|].
    destruct He as [<-|[]]. eauto.
  - intros (x & err & Hx & Hp & ->). exists x. split; [exact Hx|].
    unfold parse_error. rewrite Hp. now left.
Qed.

(** C2, as amended: the excluded weight of a period is the float sum of the
    kept weights, accumulated from 0.0 in the order of the list.  When this
    float reaches or exceeds the headline weight of the period (and the
    values convert), the call returns the failing dict, whose errors name the
    period.  A successful call has passed both guards, its remaining weights
    are the float differences headline weight - excluded weight, and such a
    difference is strictly positive unless one of its two operands is [nan]:
    the subtraction of a smaller float from a larger one never rounds to
    zero, so the two divisions by the remaining weight never raise. *)
Theorem excluded_weight_must_stay_below_headline
    (items_count : nat) (scenario : option string) :
  (forall xs a b c d ho how hn hnw,
     headline_floats a b c d = Return (ho, how, hn, hnw) ->
     Forall convertible xs ->
     geb (sum_old_weight (kept xs)) how = true \/
     geb (sum_new_weight (kept xs)) hnw = true ->
     exists errs,
       calculate_core_with_manual_exclusions items_count a b c d xs scenario
       = Return (Failure errs (name_or scenario "Unknown")) /\
       (geb (sum_old_weight (kept xs)) how = true ->
        In (ExcludedOldWeightTooLarge (sum_old_weight (kept xs)) how) errs) /\
       (geb (sum_new_weight (kept xs)) hnw = true ->
        In (ExcludedNewWeightTooLarge (sum_new_weight (kept xs)) hnw) errs))
  /\
  (forall xs a b c d r,
     calculate_core_with_manual_exclusions items_count a b c d xs scenario
       = Return (Success r) ->
     let how := headline_old_weight r in
     let hnw := headline_new_weight r in
     let old_total := sum_old_weight (kept xs) in
     let new_total := sum_new_weight (kept xs) in
     float b = Return how /\ float d = Return hnw /\
     geb old_total how = false /\ geb new_total hnw = false /\
     remaining_old_weight r = sub how old_total /\
     remaining_new_weight r = sub hnw new_total /\
     (is_float b = true -> is_float d = true ->
      Forall (fun x => floats x = true) xs ->
      (is_nan how = false -> is_nan old_total = false ->
       gtb (remaining_old_weight r) zero = true) /\
      (is_nan hnw = false -> is_nan new_total = false ->
       gtb (remaining_new_weight r) zero = true) /\
      eqb (remaining_old_weight r) zero = false /\
      eqb (remaining_new_weight r) zero = false)).
Proof.
  split.
  - intros xs a b c d ho how hn hnw Hh Hc Hover.
    destruct (call_unfold items_count a b c d ho how hn hnw xs scenario Hh Hc)
      as (st & _ & _ & _ & _ & _ & Hcall).
    assert (Hin := In_validation_errors ho how hn hnw xs).
    destruct (validation_errors ho how hn hnw xs) as [|e errs] eqn:E.
    + exfalso. destruct Hover as [H|H].
      * apply (proj2 (Hin (ExcludedOldWeightTooLarge (sum_old_weight (kept xs)) how))).
        tauto.
      * apply (proj2 (Hin (ExcludedNewWeightTooLarge (sum_new_weight (kept xs)) hnw))).
        tauto.
    + exists (e :: errs). split; [exact Hcall|].
      split; intros H; apply Hin; tauto.
  - intros xs a b c d r Hr how hnw old_total new_total.
    apply success_inv in Hr
      as (ho & how' & hn & hnw' & st & Hh & Hpass & _ & T1 & T2 & _ & _ & Hr).
    apply calculate_inv in Hr
      as (_ & _ & _ & Ew1 & _ & Ew2 & _ & _ & R1 & R2 & _).
    apply validation_errors_nil in Hpass as (_ & _ & _ & _ & Go & Gn).
    destruct (headline_floats_inv _ _ _ _ _ _ _ _ Hh) as (_ & Eb & _ & Ed).
    subst how hnw old_total new_total. rewrite Ew1, Ew2, R1, R2, T1, T2.
    repeat (split; [assumption || reflexivity|]).
    intros Fb Fd Fxs.
    destruct (sums_valid xs Fxs) as [Vo Vn].
    destruct (remaining_nonzero how' _ (float_valid _ _ Fb Eb) Vo Go) as [Zo Po].
    destruct (remaining_nonzero hnw' _ (float_valid _ _ Fd Ed) Vn Gn) as [Zn Pn].
    repeat split; assumption.
Qed.

(** Headline weight 100 with one exclusion of weight 100 fails; the
    scenario of the specification succeeds with a positive remaining weight. *)
Lemma excluded_weight_must_stay_below_headline_witness :
  (exists errs,
     calculate_core_with_manual_exclusions 0
       (Examples.num 100) (Examples.num 100) (Examples.num 115) (Examples.num 100)
       [Examples.entry "Food" 105 100 130 40] None
     = Return (Failure errs "Unknown") /\
     In (ExcludedOldWeightTooLarge (of_Z 100) (of_Z 100)) errs) /\
  (forall r,
     Examples.scenario = Return (Success r) ->
     gtb (remaining_old_weight r) zero = true).
Proof.
  split.
  - destruct (proj1 (excluded_weight_must_stay_below_headline 0 None)
                [Examples.entry "Food" 105 100 130 40]
                (Examples.num 100) (Examples.num 100)
                (Examples.num 115) (Examples.num 100)
                (of_Z 100) (of_Z 100) (of_Z 115) (of_Z 100))
      as (errs & H & Hold & _).
    + reflexivity.
    + repeat constructor. intros e He. vm_compute in He. discriminate He.
    + left. vm_compute. reflexivity.
    + exists errs. split; [exact H|]. apply Hold. vm_compute. reflexivity.
  - intros r Hr.
    destruct (proj2 (excluded_weight_must_stay_below_headline 0 None)
                _ _ _ _ _ r Hr) as (_ & _ & _ & _ & _ & _ & H).
    destruct H as (H & _).
    + vm_compute. reflexivity.
    + vm_compute. reflexivity.
    + repeat constructor.
    + apply H.
      * assert (E : Examples.scenario
                    = Return (Success r) -> is_nan (headline_old_weight r) = false).
        { vm_compute. intros [= <-]. reflexivity. }
        exact (E Hr).
      * vm_compute. reflexivity.
Defined.

(** C2 as stated fails in three ways.  Ten exclusions of weight 0.1 (the
    float nearest to it) against a headline weight of 1.0: the exact sum of
    the ten weights is above 1, but their float sum is 0.9999999999999999,
    the guard passes and the call succeeds, with a remaining weight of
    [2^-53].  A headline weight [nan] passes every check: the call succeeds
    with a remaining weight that is [nan], not positive.  And an excluded
    weight at the headline weight next to an [int] too large for a float
    raises [OverflowError] instead of failing. *)
Lemma ten_tenths_pass_the_guard :
  (exists r,
     calculate_core_with_manual_exclusions 0
       (Examples.num 100) (Examples.num 1) (Examples.num 110) (Examples.num 1)
       Examples.ten_tenths None = Return (Success r) /\
     (1 <= Float.Qsum (List.map (fun e => number (v_old_weight e))
                         (kept Examples.ten_tenths)))%Q /\
     (number (headline_old_weight r) == 1)%Q /\
     (number (remaining_old_weight r) == 1 # 9007199254740992)%Q) /\
  (exists r,
     calculate_core_with_manual_exclusions 0
       (Examples.num 100) (PyFloat nan) (Examples.num 110) (Examples.num 100)
       [Examples.food] None = Return (Success r) /\
     remaining_old_weight r = nan /\
     gtb (remaining_old_weight r) zero = false) /\
  calculate_core_with_manual_exclusions 0
    (Examples.num 100) (Examples.num 100) (Examples.num 110) (Examples.num 100)
    [Examples.entry "Food" 105 100 130 100; Examples.huge_entry] None
  = Raise OverflowError.
Proof.
  split; [|split].
  - eexists. split; [vm_compute; reflexivity|].
    split; [vm_compute; discriminate|].
    split; vm_compute; reflexivity.
  - eexists. split; [vm_compute; reflexivity|].
    split; vm_compute; reflexivity.
  - vm_compute. reflexivity.
Qed.

End CoreValidation.

Section CoreAccumulation.
Import Binary64 Core.

Lemma parse_raises x e : parse x = Raise e -> caught e = true \/ e = OverflowError.
Proof.
  unfold parse.
  destruct (float (get (old_index x) _)) as [a|e1] eqn:E1;
    [|cbn [bind]; intros [= <-]; now apply float_raises in E1].
  cbn [bind].
  destruct (float (get (old_weight x) _)) as [b|e2] eqn:E2;
    [|cbn [bind]; intros [= <-]; now apply float_raises in E2].
  cbn [bind].
  destruct (float (get (new_index x) _)) as [c|e3] eqn:E3;
    [|cbn [bind]; intros [= <-]; now apply float_raises in E3].
  cbn [bind].
  destruct (float (get (new_weight x) _)) as [d|e4] eqn:E4;
    [|cbn [bind]; intros [= <-]; now apply float_raises in E4].
  discriminate.
Qed.

Lemma uncaught_overflow e :
  caught e = false -> caught e = true \/ e = OverflowError -> e = OverflowError.
Proof. intros H [H'|H']; [congruence|exact H']. Qed.

(** C4, as amended: once the four headline values have been converted, the
    validation does not stop at the first problem.  The error list is the one
    of the specification: one message for each violated condition (a
    headline index that is [<= 0], a headline weight that is [<= 0], each
    exclusion with a value that is not a number, no exclusion kept, excluded
    weight at or above the headline weight in the old or in the new period),
    in the order of the checks; whenever it is not empty the call returns
    one failing dict that carries all of it.  A headline value on which
    [float] raises [ValueError] or [TypeError] ends the call at once with the
    single message "Invalid headline index or weight values", and an [int]
    too large for a float, among the headline values or in an exclusion,
    makes the call raise [OverflowError]. *)
Theorem validation_errors_accumulate
    (items_count : nat) (xs : list exclusion) (scenario : option string) :
  (forall a b c d ho how hn hnw,
     headline_floats a b c d = Return (ho, how, hn, hnw) ->
     Forall convertible xs ->
     let errs := validation_errors ho how hn hnw xs in
     (errs <> [] ->
      calculate_core_with_manual_exclusions items_count a b c d xs scenario
      = Return (Failure errs (name_or scenario "Unknown"))) /\
     (leb ho zero = true \/ leb hn zero = true <-> In HeadlineIndexNotPositive errs) /\
     (leb how zero = true \/ leb hnw zero = true <->
      In HeadlineWeightNotPositive errs) /\
     (forall x, In x xs -> ~ numbers x ->
      In (InvalidExclusion (get (name x) "Unknown")) errs) /\
     (kept xs = [] <-> In NoValidExclusions errs) /\
     (geb (sum_old_weight (kept xs)) how = true <->
      exists total, In (ExcludedOldWeightTooLarge total how) errs) /\
     (geb (sum_new_weight (kept xs)) hnw = true <->
      exists total, In (ExcludedNewWeightTooLarge total hnw) errs))
  /\
  (forall a b c d e,
     headline_floats a b c d = Raise e -> caught e = true ->
     calculate_core_with_manual_exclusions items_count a b c d xs scenario
     = Return (Failure [InvalidHeadline] (name_or scenario "Unknown")))
  /\
  (forall a b c d,
     headline_floats a b c d = Raise OverflowError \/
     (exists t, headline_floats a b c d = Return t) /\
     (exists x, In x xs /\ parse x = Raise OverflowError) ->
     calculate_core_with_manual_exclusions items_count a b c d xs scenario
     = Raise OverflowError).
Proof.
  split; [|split].
  - intros a b c d ho how hn hnw Hh Hc errs.
    destruct (call_unfold items_count a b c d ho how hn hnw xs scenario Hh Hc)
      as (st & _ & _ & _ & _ & _ & Hcall).
    assert (Hin := In_validation_errors ho how hn hnw xs). fold errs in Hin, Hcall.
    assert (Hshape := fun e => proj1 (parse_errors_shape e xs)).
    split; [intros Hne; destruct errs; [congruence|exact Hcall]|].
    split.
    { rewrite Hin, <- orb_true_iff. split; [intros H; left; now split|].
      intros [H|[H|[H|[H|[H|H]]]]]; try tauto; try (destruct H; discriminate).
      apply Hshape in H as (x & err & _ & _ & H). discriminate. }
    split.
    { rewrite Hin, <- orb_true_iff. split; [intros H; right; left; now split|].
      intros [H|[H|[H|[H|[H|H]]]]]; try tauto; try (destruct H; discriminate).
      apply Hshape in H as (x & err & _ & _ & H). discriminate. }
    split.
    { intros x Hx Hn. apply Hin. right. right. left.
      apply parse_errors_shape. destruct (parse x) as [t|err] eqn:E.
      - exfalso. apply Hn. now exists t.
      - now exists x, err. }
    split.
    { rewrite Hin. split; [intros H; right; right; right; left; now split|].
      intros [H|[H|[H|[H|[H|H]]]]]; try tauto; try (destruct H; discriminate).
      apply Hshape in H as (x & err & _ & _ & H). discriminate. }
    split.
    { split.
      - intros H. exists (sum_old_weight (kept xs)). apply Hin.
        right; right; right; right; left. now split.
      - intros [total H]. apply Hin in H.
        destruct H as [H|[H|[H|[H|[H|H]]]]]; try tauto; try (destruct H; discriminate).
        apply Hshape in H as (x & err & _ & _ & H). discriminate. }
    { split.
      - intros H. exists (sum_new_weight (kept xs)). apply Hin.
        right; right; right; right; right. now split.
      - intros [total H]. apply Hin in H.
        destruct H as [H|[H|[H|[H|[H|H]]]]]; try tauto; try (destruct H; discriminate).
        apply Hshape in H as (x & err & _ & _ & H). discriminate. }
  - intros a b c d e Hh Hc. now apply (call_caught items_count a b c d xs scenario e).
  - intros a b c d [Hh|[[[[[ho how] hn] hnw] Hh] (x & Hx & Hp)]];
      unfold calculate_core_with_manual_exclusions; rewrite Hh; [reflexivity|].
    unfold validate.
    destruct (run_loop_overflow xs
                (initial_state (append_if (leb how zero || leb hnw zero)
                   HeadlineWeightNotPositive
                   (append_if (leb ho zero || leb hn zero)
                      HeadlineIndexNotPositive [])))
                x OverflowError Hx Hp eq_refl) as (e' & He' & Hc').
    rewrite He'. cbn [bind]. f_equal.
    apply run_loop_raises in He' as (_ & y & _ & Hy).
    apply (uncaught_overflow e' Hc'). now apply parse_raises in Hy.
Qed.

(** An input that breaks all five numeric conditions at once gets all five
    messages; an exclusion that is not a number, next to a valid one, is
    reported although every numeric condition holds. *)
Lemma validation_errors_accumulate_witness :
  (exists errs,
     calculate_core_with_manual_exclusions 0
       (Examples.num 0) (Examples.num 0) (Examples.num 115) (Examples.num 0)
       [Examples.entry "Food" 105 0 130 0] None
     = Return (Failure errs "Unknown") /\
     In HeadlineIndexNotPositive errs /\ In HeadlineWeightNotPositive errs /\
     In NoValidExclusions errs /\
     (exists total, In (ExcludedOldWeightTooLarge total zero) errs) /\
     (exists total, In (ExcludedNewWeightTooLarge total zero) errs)) /\
  calculate_core_with_manual_exclusions 0
    (Examples.num 100) (Examples.num 100) (Examples.num 115) (Examples.num 100)
    [Examples.text_entry; Examples.food] None
  = Return (Failure [InvalidExclusion "Fuel"] "Unknown").
Proof.
  split.
  - destruct (proj1 (validation_errors_accumulate 0
                       [Examples.entry "Food" 105 0 130 0] None)
                (Examples.num 0) (Examples.num 0) (Examples.num 115) (Examples.num 0)
                zero zero (of_Z 115) zero)
      as (H & C1 & C2 & _ & C3 & C4 & C5).
    + reflexivity.
    + repeat constructor. intros e He. vm_compute in He. discriminate He.
    + eexists. split; [apply H; vm_compute; discriminate|].
      split; [apply C1; left; reflexivity|].
      split; [apply C2; left; reflexivity|].
      split; [apply C3; reflexivity|].
      split; [apply C4|apply C5]; vm_compute; reflexivity.
  - destruct (proj1 (validation_errors_accumulate 0
                       [Examples.text_entry; Examples.food] None)
                (Examples.num 100) (Examples.num 100)
                (Examples.num 115) (Examples.num 100)
                (of_Z 100) (of_Z 100) (of_Z 115) (of_Z 100))
      as (H & _).
    + reflexivity.
    + repeat constructor; intros e He; vm_compute in He;
        try discriminate He; now injection He as <-.
    + rewrite H; [vm_compute; reflexivity|vm_compute; discriminate].
Defined.

(** C4 as stated fails when a headline value is not a number: with a
    headline weight of 0 and no exclusion, two of the conditions are violated
    (and the excluded weight 0 reaches the headline weight 0), but the only
    message returned is the one about the invalid headline.  And with the
    [int] [10**400] as headline index nothing is returned at all: the call
    raises [OverflowError]. *)
Lemma invalid_headline_hides_the_other_errors :
  (exists errs,
     calculate_core_with_manual_exclusions 0
       PyStr (Examples.num 0) (Examples.num 115) (Examples.num 100) [] None
     = Return (Failure errs "Unknown") /\
     errs = [InvalidHeadline] /\
     leb zero zero = true /\ kept [] = [] /\
     ~ In HeadlineWeightNotPositive errs /\
     ~ In NoValidExclusions errs /\
     ~ (exists total, In (ExcludedOldWeightTooLarge total zero) errs)) /\
  calculate_core_with_manual_exclusions 0
    (PyInt (10 ^ 400)) (Examples.num 0) (Examples.num 115) (Examples.num 100) [] None
  = Raise OverflowError.
Proof.
  split; [|vm_compute; reflexivity].
  eexists. split; [reflexivity|]. split; [reflexivity|].
  split; [reflexivity|]. split; [reflexivity|].
  repeat split.
  - intros [H|[]]. discriminate.
  - intros [H|[]]. discriminate.
  - intros [total [H|[]]]. discriminate.
Qed.

End CoreAccumulation.

Section CoreReconstruction.
Import Binary64 Core.

Lemma exact_number op qop x y :
  exact op qop x y ->
  number (op x y) == qop (number x) (number y) /\
  exists q, value (op x y) = Some q.
Proof.
  unfold exact, number.
  destruct (value x), (value y), (value (op x y)) as [r|]; try tauto.
  intros H. split; [exact H|now exists r].
Qed.

Lemma exact_sum_number l : forall acc,
  exact_sum acc l ->
  number (fold_left add l acc)
  == number acc + fold_right (fun x s => number x + s) 0 l.
Proof.
  induction l as [|x l IH]; intros acc H; cbn [fold_left fold_right].
  - ring.
  - destruct H as [H1 H2]. rewrite (IH _ H2).
    rewrite (proj1 (exact_number _ _ _ _ H1)). ring.
Qed.

Lemma number_zero : number zero == 0.
Proof. reflexivity. Qed.

Lemma products_weighted entries :
  Forall (fun p => exact mul Qmult (fst p) (snd p)) entries ->
  fold_right (fun x s => number x + s) 0 (products entries) == weighted entries.
Proof.
  induction 1 as [|p l Hp _ IH]; cbn [products List.map fold_right weighted].
  - reflexivity.
  - fold (products l). fold (weighted l). rewrite IH.
    now rewrite (proj1 (exact_number _ _ _ _ Hp)).
Qed.

(** A finite float that is not zero stands for a number that is not zero. *)
Lemma value_nonzero x q : value x = Some q -> eqb x zero = false -> ~ q == 0.
Proof.
  destruct x as [s|s| |s m e]; cbn [value]; intros [= <-] Hz; try discriminate.
  intros H. apply Qmult_integral in H as [H|H].
  - destruct s; discriminate H.
  - revert H. apply Qpower_not_0. discriminate.
Qed.

(** The algebra of one period: the formula is the inverse of the weighted
    aggregation whenever its operations are exact. *)
Lemma period_reconstructible index weight entries :
  exact_arithmetic index weight entries ->
  eqb (sub weight (sum (List.map snd entries))) zero = false ->
  number (ex_index index weight (sum (products entries)) (sum (List.map snd entries)))
  * number (sub weight (sum (List.map snd entries)))
  + weighted entries
  == number index * number weight.
Proof.
  intros (Hm & Hp & Hs & Hw & Hn & Hr & Hd) Hz. unfold ex_index.
  destruct (exact_number _ _ _ _ Hm) as [Em _].
  destruct (exact_number _ _ _ _ Hn) as [En _].
  destruct (exact_number _ _ _ _ Hr) as [Er [q Hq]].
  destruct (exact_number _ _ _ _ Hd) as [Ed _].
  assert (Es := exact_sum_number _ _ Hs). fold (sum (products entries)) in Es.
  rewrite number_zero, (products_weighted _ Hp) in Es.
  assert (Hq0 : ~ number (sub weight (sum (List.map snd entries))) == 0).
  { unfold number. rewrite Hq. exact (value_nonzero _ _ Hq Hz). }
  rewrite Ed, En, Em, Es. field. exact Hq0.
Qed.

Lemma products_old l : products (old_entries l) = List.map old_product l.
Proof. unfold products, old_entries. now rewrite List.map_map. Qed.

Lemma products_new l : products (new_entries l) = List.map new_product l.
Proof. unfold products, new_entries. now rewrite List.map_map. Qed.

Lemma weights_old l : List.map snd (old_entries l) = List.map v_old_weight l.
Proof. unfold old_entries. now rewrite List.map_map. Qed.

Lemma weights_new l : List.map snd (new_entries l) = List.map v_new_weight l.
Proof. unfold new_entries. now rewrite List.map_map. Qed.

(** C10: a successful call lets the headline aggregate that was passed in be
    rebuilt from its output.  The returned exclusions are the kept entries of
    the argument, the remaining weight is the headline weight that was passed
    in minus their weights, and in each period
    ex-items index x remaining weight + the sum of index x weight over the
    kept exclusions = headline index x headline weight, as an identity of
    rational numbers, whenever the arithmetic of the period is exact (none of
    its float operations rounds). *)
Theorem headline_reconstructible
    (items_count : nat) (a b c d : pyval) (xs : list exclusion)
    (scenario : option string) (r : core_result) :
  calculate_core_with_manual_exclusions items_count a b c d xs scenario
    = Return (Success r) ->
  exists ho how hn hnw,
    headline_floats a b c d = Return (ho, how, hn, hnw) /\
    List.map entry (exclusions r) = kept xs /\
    remaining_old_weight r = sub how (sum_old_weight (kept xs)) /\
    remaining_new_weight r = sub hnw (sum_new_weight (kept xs)) /\
    (exact_arithmetic ho how (old_entries (kept xs)) ->
     number (r_old_index r) * number (remaining_old_weight r)
     + weighted (old_entries (kept xs))
     == number ho * number how) /\
    (exact_arithmetic hn hnw (new_entries (kept xs)) ->
     number (r_new_index r) * number (remaining_new_weight r)
     + weighted (new_entries (kept xs))
     == number hn * number hnw).
Proof.
  intros Hr.
  apply success_inv in Hr
    as (ho & how & hn & hnw & st & Hh & _ & Hv & T1 & T2 & W1 & W2 & Hr).
  apply calculate_inv in Hr
    as (Zo & Zn & _ & _ & _ & _ & I1 & I2 & R1 & R2 & Hmap).
  exists ho, how, hn, hnw.
  rewrite I1, I2, R1, R2, Hmap, Hv, W1, W2, T1, T2. rewrite T1 in Zo. rewrite T2 in Zn.
  unfold sum_old_weight, sum_new_weight, sum_old_weighted, sum_new_weighted in *.
  rewrite <- products_old, <- products_new, <- weights_old, <- weights_new in *.
  split; [exact Hh|]. split; [reflexivity|].
  split; [reflexivity|]. split; [reflexivity|].
  split; intros H; now apply period_reconstructible.
Qed.

(** Headline 100 -> 110 at weights 100 with one exclusion 120 -> 130 at
    weights 50: every operation is exact, the ex-items indices are 80 and 90,
    and 80 x 50 + 120 x 50 = 100 x 100. *)
Lemma headline_reconstructible_witness :
  exists r,
    calculate_core_with_manual_exclusions 0
      (Examples.num 100) (Examples.num 100) (Examples.num 110) (Examples.num 100)
      [Examples.entry "Food" 120 50 130 50] None = Return (Success r) /\
    number (r_old_index r) * number (remaining_old_weight r)
    + weighted (old_entries (kept [Examples.entry "Food" 120 50 130 50]))
    == number (of_Z 100) * number (of_Z 100).
Proof.
  destruct (calculate_core_with_manual_exclusions 0
              (Examples.num 100) (Examples.num 100) (Examples.num 110) (Examples.num 100)
              [Examples.entry "Food" 120 50 130 50] None) as [[errs s|r]|e] eqn:E;
    [vm_compute in E; discriminate E| |vm_compute in E; discriminate E].
  exists r. split; [reflexivity|].
  destruct (headline_reconstructible 0 _ _ _ _ _ _ r E)
    as (ho & how & hn & hnw & Hh & _ & _ & _ & Hold & _).
  vm_compute in Hh. injection Hh as <- <- <- <-.
  apply Hold.
  replace (old_entries (kept [Examples.entry "Food" 120 50 130 50]))
    with [(of_Z 120, of_Z 50)] by (vm_compute; reflexivity).
  unfold exact_arithmetic. cbn [products List.map fst snd exact_sum].
  split; [vm_compute; reflexivity|].
  split; [constructor; [vm_compute; reflexivity|constructor]|].
  split; [split; [vm_compute; reflexivity|exact I]|].
  split; [split; [vm_compute; reflexivity|exact I]|].
  split; [vm_compute; reflexivity|].
  split; vm_compute; reflexivity.
Defined.

End CoreReconstruction.

(** ** The direct index calculator of the engine *)

Section EngineFacts.
Import Float Engine.

(** *** The selection matters only through membership *)

Lemma isin_ext c l1 l2 :
  (forall x, x ∈ l1 <-> x ∈ l2) -> isin c l1 = isin c l2.
Proof. intros H. unfold isin. apply bool_decide_ext, H. Qed.

Lemma filter_prices_ext prices l1 l2 :
  (forall x, x ∈ l1 <-> x ∈ l2) -> filter_prices prices l1 = filter_prices prices l2.
Proof.
  intros H. unfold filter_prices.
  now rewrite (List.map_ext _ _ (fun c => isin_ext c l1 l2 H)).
Qed.

Lemma calculate_laspeyres_ext self l1 l2 v1 v2 :
  (forall x, x ∈ l1 <-> x ∈ l2) ->
  _calculate_laspeyres self l1 v1 =
  match _calculate_laspeyres self l2 v2 with
  | Return (Some r) =>
      Return (Some {| Variant := v1;
                      Items_Count := Items_Count r;
                      Total_Weight := Total_Weight r;
                      Weight_Normalized := Weight_Normalized r;
                      Monthly_Data := Monthly_Data r |})
  | other => other
  end.
Proof.
  intros H. unfold _calculate_laspeyres.
  destruct l1 as [|a l1], l2 as [|b l2].
  - reflexivity.
  - exfalso. apply (not_elem_of_nil b), H. left.
  - exfalso. apply (not_elem_of_nil a), H. left.
  - destruct (prices_df self) as [prices|]; [|reflexivity].
    rewrite (filter_prices_ext prices _ _ H).
    rewrite (List.filter_ext _ _ (fun r => isin_ext (Item_Code r) _ _ H)).
    destruct (_ || _); [reflexivity|].
    destruct (monthly_indices _ _ _) as [indices|e]; [|reflexivity]. cbn [bind].
    destruct (mom_changes None indices); reflexivity.
Qed.

Lemma no_exclusions_no_items self : excluded_items self [] [] [] = ∅.
Proof. reflexivity. Qed.

Lemma Qsum_none_excluded (rows : list item_row) :
  List.filter (fun r => bool_decide (Item_Code r ∈ (∅ : gset string))) rows = [].
Proof.
  induction rows as [|r rows IH]; [reflexivity|]. cbn [List.filter].
  rewrite bool_decide_eq_false_2 by apply not_elem_of_empty. exact IH.
Qed.

(** C6: with all three exclusion arguments empty ([None] or an empty list),
    [get_index_with_exclusions] returns the monthly series, the item count
    and the total weight of [get_headline_index], with nothing excluded; when
    the headline calculation has no result ([None]), the call with exclusions
    has none either (it raises [TypeError]). *)
Theorem zero_exclusions_reproduce_headline
    (self : CPIEngine)
    (excluded_divisions excluded_groups excluded_classes : option (list string)) :
  or_empty excluded_divisions = [] ->
  or_empty excluded_groups = [] ->
  or_empty excluded_classes = [] ->
  match get_headline_index self with
  | Return (Some headline) =>
      exists r,
        get_index_with_exclusions self
          excluded_divisions excluded_groups excluded_classes = Return r /\
        Monthly_Data (base r) = Monthly_Data headline /\
        Items_Count (base r) = Items_Count headline /\
        Total_Weight (base r) = Total_Weight headline /\
        Weight_Normalized (base r) = Weight_Normalized headline /\
        excluded_items_count r = 0%nat /\ excluded_weight r = 0
  | Return None =>
      get_index_with_exclusions self
        excluded_divisions excluded_groups excluded_classes = Raise TypeError
  | Raise e =>
      get_index_with_exclusions self
        excluded_divisions excluded_groups excluded_classes = Raise e
  end.
Proof.
  intros Hd Hg Hc. unfold get_index_with_exclusions, get_headline_index.
  rewrite Hd, Hg, Hc, no_exclusions_no_items. cbv zeta.
  rewrite (calculate_laspeyres_ext self _ (List.map Item_Code (items_df self))
             "CPI with Exclusions" "Headline CPI").
  2: { intros x. rewrite elem_of_elements, elem_of_difference, elem_of_list_to_set.
       split; [tauto|]. intros Hx. split; [exact Hx|apply not_elem_of_empty]. }
  destruct (_calculate_laspeyres self _ "Headline CPI") as [[headline|]|e];
    cbn [bind]; try reflexivity.
  eexists. split; [reflexivity|]. cbn.
  rewrite Qsum_none_excluded. repeat split; reflexivity.
Qed.

End EngineFacts.

Section EngineMonths.
Import Float Engine.

(** *** Sums and products of finite values stay finite *)

Lemma fold_add_Fin l : forall a,
  fold_left add (List.map Fin l) (Fin a) = Fin (fold_left Qplus l a).
Proof. induction l as [|x l IH]; intros a; simpl; [reflexivity|apply IH]. Qed.

Lemma filter_not_nan_Fin l :
  List.filter (fun x => negb (is_nan x)) (List.map Fin l) = List.map Fin l.
Proof. induction l as [|x l IH]; simpl; [reflexivity|now rewrite IH]. Qed.

Lemma nansum_Fin l : nansum (List.map Fin l) = Fin (Qsum l).
Proof. unfold nansum, Qsum. rewrite filter_not_nan_Fin. apply fold_add_Fin. Qed.

Lemma zip_with_mul_Fin ps : forall ws,
  zip_with mul (List.map Fin ps) (List.map Fin ws) = List.map Fin (zip_with Qmult ps ws).
Proof.
  induction ps as [|p ps IH]; intros [|w ws]; simpl; try reflexivity.
  now rewrite IH.
Qed.

Lemma div_Fin a b : ~ b == 0 -> div (Fin a) (Fin b) = Fin (a / b).
Proof.
  intros Hb. simpl. destruct (Qeq_bool b 0) eqn:E; [|reflexivity].
  apply Qeq_bool_eq in E. contradiction.
Qed.

Lemma Qsum_from l : forall a, fold_left Qplus l a == a + Qsum l.
Proof.
  unfold Qsum. induction l as [|x l IH]; intros a; simpl; [ring|].
  rewrite IH, (IH (0 + x)). ring.
Qed.

Lemma Qsum_cons x l : Qsum (x :: l) == x + Qsum l.
Proof. unfold Qsum at 1. simpl. rewrite Qsum_from. ring. Qed.

(** *** Renormalisation *)

Lemma normalize_finite weights S :
  ~ S == 0 ->
  normalize weights S = List.map (fun cw => (fst cw, Fin (snd cw / S * 100))) weights.
Proof.
  intros HS. unfold normalize. apply List.map_ext. intros [c w].
  cbn [fst snd]. now rewrite div_Fin.
Qed.

Lemma Qsum_scaled (l : list Q) (S : Q) :
  Qsum (List.map (fun w => w / S * 100) l) == Qsum l / S * 100.
Proof.
  induction l as [|w l IH].
  - unfold Qsum. simpl. unfold Qdiv. ring.
  - cbn [List.map]. rewrite !Qsum_cons, IH. unfold Qdiv. ring.
Qed.

Lemma normalized_sum_100 (weights : list (string * Q)) :
  let S := Qsum (List.map snd weights) in
  ~ S == 0 ->
  exists total,
    nansum (List.map snd (normalize weights S)) = Fin total /\ total == 100.
Proof.
  intros S HS. rewrite normalize_finite by exact HS.
  rewrite List.map_map. cbn [snd].
  rewrite <- (List.map_map (fun cw : string * Q => snd cw / S * 100) Fin).
  rewrite nansum_Fin. eexists. split; [reflexivity|].
  rewrite <- (List.map_map snd (fun w => w / S * 100)).
  rewrite Qsum_scaled. fold S. field. exact HS.
Qed.

(** *** The index of one month *)

Lemma index_value_default ws wt :
  gtb wt (Fin 0) = false -> index_value ws wt = Fin 100.
Proof. intros H. unfold index_value. now rewrite H. Qed.

Lemma index_value_finite (ps ws : list Q) :
  0 < Qsum ws ->
  index_value (nansum (zip_with mul (List.map Fin ps) (List.map Fin ws)))
              (nansum (List.map Fin ws))
  = Fin (Qsum (zip_with Qmult ps ws) / Qsum ws * 100).
Proof.
  intros Hpos. rewrite zip_with_mul_Fin, !nansum_Fin. unfold index_value.
  cbn [gtb]. rewrite (proj2 (Qgtb_true _ _) Hpos).
  rewrite div_Fin by lra. reflexivity.
Qed.

(** The entries of [monthly_data] are the months that have matched items,
    each with the index of the loop body. *)
Lemma monthly_indices_entries prices_data wn months : forall l,
  monthly_indices prices_data wn months = Return l ->
  forall month index, In (month, index) l ->
  exists month_prices,
    month_column prices_data month = Return month_prices /\
    matched_items month_prices wn <> [] /\
    index = index_value (weighted_sum month_prices wn) (weight_total month_prices wn).
Proof.
  induction months as [|m months IH]; intros l Hl month index Hin; simpl in Hl.
  - injection Hl as <-. destruct Hin.
  - unfold month_index in Hl.
    destruct (month_column prices_data m) as [mp|] eqn:Hm; [|discriminate].
    cbn [bind] in Hl.
    destruct (monthly_indices prices_data wn months) as [others|] eqn:Ho;
      [|destruct (_ =? _)%nat; discriminate].
    destruct (matched_items mp wn) as [|c cs] eqn:Hmatch; cbn in Hl;
      injection Hl as <-.
    + eapply IH; [reflexivity|exact Hin].
    + destruct Hin as [[= <- <-]|Hin].
      * exists mp. rewrite Hmatch. repeat split; [exact Hm|discriminate].
      * eapply IH; [reflexivity|exact Hin].
Qed.

Lemma mom_changes_entries monthly_data : forall prev entries,
  mom_changes prev monthly_data = Return entries ->
  List.map (fun e => (Month e, Index e)) entries = monthly_data.
Proof.
  induction monthly_data as [|[m i] rest IH]; intros prev entries H; simpl in H.
  - now injection H as <-.
  - destruct (match prev with Some _ => _ | None => _ end) as [mom|]; [|discriminate].
    cbn [bind] in H.
    destruct (mom_changes (Some i) rest) as [others|] eqn:Ho; [|discriminate].
    injection H as <-. simpl. f_equal. eapply IH, Ho.
Qed.

(** What a returned result tells about the call. *)
Lemma calculate_laspeyres_inv self item_codes v r :
  _calculate_laspeyres self item_codes v = Return (Some r) ->
  exists prices indices,
    prices_df self = Some prices /\
    item_codes <> [] /\
    Total_Weight r = Qsum (List.map snd (selected_weights self item_codes)) /\
    Items_Count r = List.length (selected_weights self item_codes) /\
    Items_Count r <> 0%nat /\
    monthly_indices (filter_prices prices item_codes)
      (selected_weights_normalized self item_codes) (months self) = Return indices /\
    mom_changes None indices = Return (Monthly_Data r).
Proof.
  unfold _calculate_laspeyres, selected_weights_normalized, selected_weights.
  destruct item_codes as [|c cs]; [discriminate|].
  destruct (prices_df self) as [prices|]; [|discriminate].
  set (items_data := List.filter _ (items_df self)).
  destruct (_ || _) eqn:Hlen; [discriminate|].
  destruct (monthly_indices _ _ _) as [indices|] eqn:Hi; [|discriminate].
  cbn [bind]. destruct (mom_changes None indices) as [md|] eqn:Hmd; [|discriminate].
  intros [= <-]. exists prices, indices. cbn.
  rewrite List.length_map.
  apply orb_false_iff in Hlen as [Hlen _]. apply Nat.eqb_neq in Hlen.
  repeat split; try reflexivity; try assumption. discriminate.
Qed.

End EngineMonths.

Section EngineClaims.
Import Float Engine.

Lemma zero_exclusions_reproduce_headline_witness :
  exists headline r,
    get_headline_index Examples.two_items = Return (Some headline) /\
    get_index_with_exclusions Examples.two_items None (Some []) None = Return r /\
    Monthly_Data (base r) = Monthly_Data headline.
Proof.
  assert (H := zero_exclusions_reproduce_headline Examples.two_items
                 None (Some []) None eq_refl eq_refl eq_refl).
  remember (get_headline_index Examples.two_items) as call eqn:E.
  destruct call as [[headline|]|e]; [|vm_compute in E; discriminate E..].
  destruct H as (r & Hr & Hm & _). exists headline, r. auto.
Defined.

(** C7, as amended: a period whose matched items have a weight total that is
    not positive is not reported.  The loop body gives that period the
    default index 100.0, and every result that [_calculate_laspeyres]
    returns carries 100.0 for each such period. *)
Theorem nonpositive_weight_total_defaults_to_100 :
  (forall prices_data weights_normalized month month_prices,
     month_column prices_data month = Return month_prices ->
     matched_items month_prices weights_normalized <> [] ->
     gtb (weight_total month_prices weights_normalized) (Fin 0) = false ->
     month_index prices_data weights_normalized month = Return (Some (Fin 100)))
  /\
  (forall self item_codes variant_name r,
     _calculate_laspeyres self item_codes variant_name = Return (Some r) ->
     forall e, In e (Monthly_Data r) ->
     exists prices month_prices,
       prices_df self = Some prices /\
       month_column (filter_prices prices item_codes) (Month e) = Return month_prices /\
       (gtb (weight_total month_prices (selected_weights_normalized self item_codes))
            (Fin 0) = false ->
        Index e = Fin 100)).
Proof.
  split.
  - intros prices_data wn month mp Hm Hmatch Hwt. unfold month_index.
    rewrite Hm. cbn [bind].
    destruct (matched_items mp wn); [contradiction|]. cbn.
    now rewrite index_value_default.
  - intros self item_codes v r Hr e He.
    apply calculate_laspeyres_inv in Hr
      as (prices & indices & Hp & _ & _ & _ & _ & Hi & Hmom).
    apply mom_changes_entries in Hmom.
    assert (Hin : In (Month e, Index e) indices).
    { rewrite <- Hmom. apply (List.in_map (fun e => (Month e, Index e))), He. }
    destruct (monthly_indices_entries _ _ _ _ Hi _ _ Hin) as (mp & Hm & _ & Hv).
    exists prices, mp. repeat split; try assumption.
    intros Hwt. rewrite Hv. now apply index_value_default.
Qed.

Lemma nonpositive_weight_total_defaults_to_100_witness :
  month_index
    {| price_codes := ["01.1.1.1"]; price_columns := [("2024-01", [1.20])] |}
    [("01.1.1.1", Fin 0); ("01.1.2.1", Fin 100)] "2024-01"
  = Return (Some (Fin 100)).
Proof.
  apply (proj1 nonpositive_weight_total_defaults_to_100 _ _ _
           [("01.1.1.1", Fin 1.20)]).
  - vm_compute. reflexivity.
  - vm_compute. discriminate.
  - vm_compute. reflexivity.
Defined.

(** C7 as stated fails: the only month of this input has matched weight
    total 0, and the call returns the index 100.0 for it instead of an
    error (the price relative of the matched item is 1.20). *)
Lemma unmatched_weight_gets_default_index :
  exists r month_prices,
    _calculate_laspeyres Examples.unmatched_weight ["01.1.1.1"; "01.1.2.1"] "Example"
      = Return (Some r) /\
    month_column
      (filter_prices {| price_codes := ["01.1.1.1"];
                        price_columns := [("2024-01", [1.20])] |}
                     ["01.1.1.1"; "01.1.2.1"]) "2024-01" = Return month_prices /\
    (exists total,
       weight_total month_prices
         (selected_weights_normalized Examples.unmatched_weight
            ["01.1.1.1"; "01.1.2.1"]) = Fin total /\ total == 0) /\
    List.map (fun e => (Month e, Index e)) (Monthly_Data r) = [("2024-01", Fin 100)].
Proof.
  do 2 eexists. split; [vm_compute; reflexivity|].
  split; [vm_compute; reflexivity|].
  split; [|vm_compute; reflexivity].
  eexists. split; vm_compute; reflexivity.
Qed.

End EngineClaims.

(** ** The wizard *)

Section WizardToggle.
Import Float Wizard.

(** *** Toggling *)

Lemma remove_first_absent x l : x ∉ l -> remove_first x l = l.
Proof.
  induction l as [|y l IH]; intros Hx; simpl; [reflexivity|].
  apply not_elem_of_cons in Hx as [Hne Hx].
  destruct (String.eqb_spec y x) as [->|_]; [contradiction|].
  now rewrite IH.
Qed.

Lemma remove_first_last x l : x ∉ l -> remove_first x (l ++ [x]) = l.
Proof.
  induction l as [|y l IH]; intros Hx; simpl.
  - now rewrite String.eqb_refl.
  - apply not_elem_of_cons in Hx as [Hne Hx].
    destruct (String.eqb_spec y x) as [->|_]; [contradiction|].
    now rewrite IH.
Qed.

Lemma remove_first_perm x l : x ∈ l -> x :: remove_first x l ≡ₚ l.
Proof.
  induction l as [|y l IH]; intros Hx; simpl.
  - now apply elem_of_nil in Hx.
  - destruct (String.eqb_spec y x) as [->|Hne]; [reflexivity|].
    apply elem_of_cons in Hx as [->|Hx]; [contradiction|].
    rewrite Permutation_swap. now rewrite IH.
Qed.

Lemma toggle_absent x l : x ∉ l -> toggle x l = l ++ [x].
Proof. intros H. unfold toggle. now rewrite bool_decide_eq_false_2. Qed.

Lemma toggle_present x l : x ∈ l -> toggle x l = remove_first x l.
Proof. intros H. unfold toggle. now rewrite bool_decide_eq_true_2. Qed.

Lemma toggle_NoDup x l : NoDup l -> NoDup (toggle x l).
Proof.
  intros Hl. destruct (decide (x ∈ l)) as [Hx|Hx].
  - rewrite toggle_present by exact Hx.
    rewrite <- (remove_first_perm x l Hx) in Hl. now apply NoDup_cons in Hl as [_ ?].
  - rewrite toggle_absent by exact Hx.
    apply NoDup_app. repeat split; [exact Hl| |apply NoDup_singleton].
    intros y Hy Hy'. apply list_elem_of_singleton in Hy' as ->. contradiction.
Qed.

Lemma toggle_flips x l : NoDup l -> (x ∈ toggle x l <-> x ∉ l).
Proof.
  intros Hl. destruct (decide (x ∈ l)) as [Hx|Hx].
  - rewrite toggle_present by exact Hx.
    rewrite <- (remove_first_perm x l Hx) in Hl. apply NoDup_cons in Hl as [Hn _].
    tauto.
  - rewrite toggle_absent by exact Hx. rewrite elem_of_app, list_elem_of_singleton.
    tauto.
Qed.

Lemma toggle_twice_absent x l : x ∉ l -> toggle x (toggle x l) = l.
Proof.
  intros Hx. rewrite (toggle_absent x l Hx).
  rewrite toggle_present by (apply elem_of_app; right; now left).
  now apply remove_first_last.
Qed.

Lemma toggle_twice_perm x l : NoDup l -> toggle x (toggle x l) ≡ₚ l.
Proof.
  intros Hl. destruct (decide (x ∈ l)) as [Hx|Hx].
  - assert (Hn : x ∉ toggle x l) by (rewrite toggle_flips; tauto).
    rewrite (toggle_absent _ _ Hn), (toggle_present _ _ Hx).
    rewrite <- (remove_first_perm x l Hx) at 2.
    now rewrite Permutation_app_comm.
  - now rewrite toggle_twice_absent.
Qed.

(** The lists stay free of duplicates along every typed line. *)
Lemma pick_loop_NoDup names tokens : forall sel,
  NoDup sel -> NoDup (pick_loop names tokens sel).
Proof.
  induction tokens as [|[| z |] tokens IH]; intros sel Hsel; simpl; auto.
  destruct (iloc names z); auto using toggle_NoDup.
Qed.

Lemma set_selected_same ex lvl : set_selected ex lvl (selected ex lvl) = ex.
Proof. destruct ex, lvl; reflexivity. Qed.

Lemma selected_set_same ex lvl l : selected (set_selected ex lvl l) lvl = l.
Proof. destruct lvl; reflexivity. Qed.

Lemma selected_set_other ex lvl lvl' l :
  lvl' <> lvl -> selected (set_selected ex lvl l) lvl' = selected ex lvl'.
Proof. destruct lvl, lvl'; intros H; try reflexivity; contradiction. Qed.

Lemma no_exclusions_NoDup lvl : NoDup (selected no_exclusions lvl).
Proof. destruct lvl; apply NoDup_nil; exact I. Qed.

Lemma pick_exclusion_NoDup self lvl tokens :
  (forall l, NoDup (selected (selected_exclusions self) l)) ->
  forall l, NoDup (selected (selected_exclusions (_pick_exclusion self lvl tokens)) l).
Proof.
  intros H l. unfold _pick_exclusion. cbn [selected_exclusions with_exclusions].
  destruct (decide (l = lvl)) as [->|Hne].
  - rewrite selected_set_same. apply pick_loop_NoDup, H.
  - rewrite selected_set_other by exact Hne. apply H.
Qed.

(** *** The excluded codes depend on the names as a set *)

Lemma codes_where_ext items col l1 l2 :
  (forall x, x ∈ l1 <-> x ∈ l2) -> codes_where items col l1 = codes_where items col l2.
Proof.
  intros H. unfold codes_where. f_equal. f_equal.
  apply List.filter_ext. intros r. unfold name_isin.
  destruct (col r); [|reflexivity]. apply bool_decide_ext, H.
Qed.

Lemma excluded_codes_ext self1 self2 :
  item_map self1 = item_map self2 ->
  (forall lvl x, x ∈ selected (selected_exclusions self1) lvl
                 <-> x ∈ selected (selected_exclusions self2) lvl) ->
  _get_excluded_item_codes self1 = _get_excluded_item_codes self2.
Proof.
  intros Hmap H. unfold _get_excluded_item_codes. rewrite Hmap.
  rewrite (codes_where_ext _ Division_Name _ _ (H division_level)).
  rewrite (codes_where_ext _ Group_Name _ _ (H group_level)).
  rewrite (codes_where_ext _ Class_Name _ _ (H class_level)).
  rewrite (codes_where_ext _ (fun r => Some (Item_Name r)) _ _ (H item_level)).
  reflexivity.
Qed.

(** C9: picking the same row of a level twice brings the exclusions back.
    The first pick adds the name when it was absent and removes it when it
    was present; after the second pick every level holds the same set of
    names as before (the very same list when the name was absent before; the
    same names, the toggled one moved to the end, when it was present), and
    the excluded item codes are those of the start.  Picking the row twice
    in one typed line is the same as picking it in two lines. *)
Theorem toggling_twice_restores_the_exclusions
    (self : CPIWizard) (lvl : level) (position : Z) (name : string) :
  NoDup (selected (selected_exclusions self) lvl) ->
  iloc (weights self lvl) position = Some name ->
  let before := selected_exclusions self in
  let once := _pick_exclusion self lvl [Int position] in
  let twice := _pick_exclusion once lvl [Int position] in
  let after := selected_exclusions twice in
  (name ∈ selected (selected_exclusions once) lvl <-> name ∉ selected before lvl) /\
  (forall l, list_to_set (selected after l) =@{gset string} list_to_set (selected before l)) /\
  (forall l, selected after l ≡ₚ selected before l) /\
  (name ∉ selected before lvl -> after = before) /\
  _get_excluded_item_codes twice = _get_excluded_item_codes self /\
  NoDup (selected after lvl) /\
  _pick_exclusion self lvl [Int position; Int position] = twice.
Proof.
  intros Hnd Hloc before once twice after.
  assert (Honce : selected_exclusions once
                  = set_selected before lvl (toggle name (selected before lvl))).
  { unfold once, _pick_exclusion. simpl. now rewrite Hloc. }
  assert (Hafter : after
                   = set_selected before lvl
                       (toggle name (toggle name (selected before lvl)))).
  { unfold after, twice, _pick_exclusion. cbn [selected_exclusions with_exclusions weights].
    fold once. rewrite Honce. simpl. rewrite Hloc, selected_set_same.
    destruct before, lvl; reflexivity. }
  assert (Hperm : forall l, selected after l ≡ₚ selected before l).
  { intros l. rewrite Hafter. destruct (decide (l = lvl)) as [->|Hne].
    - rewrite selected_set_same. now apply toggle_twice_perm.
    - now rewrite selected_set_other. }
  repeat split.
  - rewrite Honce, selected_set_same. now apply toggle_flips.
  - rewrite Honce, selected_set_same. now apply toggle_flips.
  - intros l. apply set_eq. intros x. rewrite !elem_of_list_to_set.
    now rewrite (Hperm l).
  - exact Hperm.
  - intros Habs. rewrite Hafter, toggle_twice_absent by exact Habs.
    apply set_selected_same.
  - apply excluded_codes_ext; [reflexivity|].
    intros l x. fold after. fold before. now rewrite (Hperm l).
  - rewrite Hafter, selected_set_same. now do 2 apply toggle_NoDup.
  - unfold twice, once, _pick_exclusion.
    cbn [selected_exclusions with_exclusions weights df item_map generated_indices].
    simpl. rewrite Hloc, selected_set_same. fold before.
    f_equal. destruct before, lvl; reflexivity.
Qed.

Lemma toggling_twice_restores_the_exclusions_witness :
  let once := _pick_exclusion Examples.wizard_two_states division_level [Int 0] in
  let twice := _pick_exclusion once division_level [Int 0] in
  selected (selected_exclusions once) division_level = ["Food"] /\
  selected_exclusions twice = selected_exclusions Examples.wizard_two_states.
Proof.
  intros once twice. split; [reflexivity|].
  apply (toggling_twice_restores_the_exclusions
           Examples.wizard_two_states division_level 0 "Food").
  - apply NoDup_nil. exact I.
  - reflexivity.
  - apply not_elem_of_nil.
Defined.

End WizardToggle.

Section ChangeFacts.
Import Float Wizard.

(** *** The engine's month-over-month loop *)

Lemma truediv_inv x y d :
  truediv x y = Return d -> d = div x y /\ (forall b, y = Fin b -> ~ b == 0).
Proof.
  unfold truediv. destruct y as [b| | |].
  - destruct (Qeq_bool b 0) eqn:E; [discriminate|].
    intros [= <-]. split; [reflexivity|]. intros b' [= <-] Hb.
    rewrite (Qeq_eq_bool _ _ Hb) in E. discriminate.
  - intros [= <-]. split; [reflexivity|discriminate].
  - intros [= <-]. split; [reflexivity|discriminate].
  - intros [= <-]. split; [reflexivity|discriminate].
Qed.

Lemma mom_changes_lookup monthly_data : forall prev entries,
  Engine.mom_changes prev monthly_data = Return entries ->
  (forall e, entries !! 0%nat = Some e ->
     match prev with
     | None => Engine.MoM_Change e = Fin 0
     | Some p =>
         Engine.MoM_Change e = mul (div (sub (Engine.Index e) p) p) (Fin 100) /\
         (forall a, p = Fin a -> ~ a == 0)
     end) /\
  (forall t before current,
     entries !! t = Some before -> entries !! S t = Some current ->
     Engine.MoM_Change current
       = mul (div (sub (Engine.Index current) (Engine.Index before))
                  (Engine.Index before)) (Fin 100) /\
     (forall a, Engine.Index before = Fin a -> ~ a == 0)).
Proof.
  induction monthly_data as [|[m i] rest IH]; intros prev entries H; simpl in H.
  - injection H as <-. split; intros; discriminate.
  - destruct (match prev with Some _ => _ | None => _ end) as [mom|] eqn:Hmom;
      [|discriminate].
    cbn [bind] in H.
    destruct (Engine.mom_changes (Some i) rest) as [others|] eqn:Ho; [|discriminate].
    injection H as <-. destruct (IH _ _ Ho) as [IH0 IHS]. split.
    + intros e [= <-]. cbn. destruct prev as [p|].
      * destruct (truediv (sub i p) p) as [d|] eqn:Hd; [|discriminate].
        injection Hmom as <-. apply truediv_inv in Hd as [-> Hp]. auto.
      * now injection Hmom as <-.
    + intros [|t] before current Hb Hc.
      * injection Hb as <-. cbn. apply (IH0 current Hc).
      * apply (IHS t before current Hb Hc).
Qed.

Lemma mom_changes_total (xs : list (string * Q)) : forall prev,
  Forall (fun mx => ~ snd mx == 0) xs ->
  match prev with Some p => exists a, p = Fin a /\ ~ a == 0 | None => True end ->
  exists entries,
    Engine.mom_changes prev (List.map (fun mx => (fst mx, Fin (snd mx))) xs)
      = Return entries.
Proof.
  induction xs as [|[m x] xs IH]; intros prev Hxs Hprev; simpl; [eauto|].
  apply Forall_cons in Hxs as [Hx Hxs]. cbn [snd] in Hx.
  destruct (IH (Some (Fin x)) Hxs) as [others Ho]; [eauto|].
  destruct prev as [p|].
  - destruct Hprev as (a & -> & Ha). cbn [truediv].
    destruct (Qeq_bool a 0) eqn:E; [apply Qeq_bool_eq in E; contradiction|].
    cbn [bind]. rewrite Ho. cbn [bind]. eauto.
  - cbn [bind]. rewrite Ho. cbn [bind]. eauto.
Qed.

Lemma mom_formula a b :
  ~ a == 0 ->
  exists m, mul (div (sub (Fin b) (Fin a)) (Fin a)) (Fin 100) = Fin m /\
            m == (b - a) / a * 100.
Proof.
  intros Ha. cbn [sub neg add]. rewrite div_Fin by exact Ha. cbn [mul].
  eexists. split; [reflexivity|]. unfold Qminus. reflexivity.
Qed.

(** *** Percentage changes within groups *)

Context {A : Type} (row_of : A -> series_row).

Lemma same_group_trans a b c :
  same_group b c = true -> same_group a b = same_group a c.
Proof.
  unfold same_group. rewrite !andb_true_iff, !String.eqb_eq.
  intros [[-> ->] ->]. reflexivity.
Qed.

Lemma same_group_sym a b : same_group a b = same_group b a.
Proof.
  unfold same_group.
  now rewrite (String.eqb_sym (division a)), (String.eqb_sym (state a)),
    (String.eqb_sym (sector a)).
Qed.

Lemma group_values_same row g above :
  same_group (row_of row) g = true ->
  group_values row_of row above
  = List.map (fun r => index (row_of r))
      (List.filter (fun r => same_group (row_of r) g) above).
Proof.
  intros Hg. unfold group_values. f_equal. apply List.filter_ext.
  intros r. now apply same_group_trans.
Qed.

Lemma filter_snoc {B : Type} (f : B -> bool) l x :
  List.filter f (l ++ [x]) = List.filter f l ++ (if f x then [x] else []).
Proof. rewrite List.filter_app. reflexivity. Qed.

(** The changes of the rows of one group are the changes of the group's own
    series. *)
Lemma groupby_pct_change_group periods g df : forall above,
  List.map snd
    (List.filter (fun rc => same_group (row_of (fst rc)) g)
       (zip df (groupby_pct_change row_of periods above df)))
  = pct_change periods
      (List.map (fun r => index (row_of r))
         (List.filter (fun r => same_group (row_of r) g) above))
      (List.map (fun r => index (row_of r))
         (List.filter (fun r => same_group (row_of r) g) df)).
Proof.
  induction df as [|row df IH]; intros above; [reflexivity|].
  cbn [groupby_pct_change zip zip_with List.filter fst].
  specialize (IH (above ++ [row])). rewrite filter_snoc in IH.
  destruct (same_group (row_of row) g) eqn:Hg.
  - cbn [List.map pct_change snd]. rewrite IH, List.map_app.
    now rewrite (group_values_same row g above Hg).
  - rewrite IH. now rewrite app_nil_r.
Qed.

Lemma length_groupby_pct_change periods df : forall above,
  List.length (groupby_pct_change row_of periods above df) = List.length df.
Proof. induction df as [|row df IH]; intros above; simpl; [|rewrite IH]; reflexivity. Qed.

Lemma map_fst_zip {B C : Type} (l : list B) : forall (k : list C),
  List.length l = List.length k -> List.map fst (zip l k) = l.
Proof.
  induction l as [|x l IH]; intros [|y k] H; simpl in *; try discriminate; [reflexivity|].
  f_equal. apply IH. lia.
Qed.

Lemma filter_zip_map {B C D : Type} (f : B -> bool) (h : C -> D) (l : list B) :
  forall (k : list C),
  List.map snd (List.filter (fun bc => f (fst bc)) (zip l (List.map h k)))
  = List.map h (List.map snd (List.filter (fun bc => f (fst bc)) (zip l k))).
Proof.
  induction l as [|x l IH]; intros [|y k]; simpl; try reflexivity.
  destruct (f x); simpl; now rewrite IH.
Qed.

Lemma calculate_change_rows periods df :
  List.map fst (calculate_change row_of periods df) = sort_values row_of df.
Proof.
  unfold calculate_change. apply map_fst_zip.
  now rewrite List.length_map, length_groupby_pct_change.
Qed.

Lemma calculate_change_group periods g df :
  List.map snd
    (List.filter (fun rc => same_group (row_of (fst rc)) g)
       (calculate_change row_of periods df))
  = List.map (fun c => mul c (Fin 100))
      (pct_change periods []
         (List.map (fun r => index (row_of r))
            (List.filter (fun r => same_group (row_of r) g) (sort_values row_of df)))).
Proof.
  unfold calculate_change.
  rewrite (filter_zip_map (fun r => same_group (row_of r) g)).
  now rewrite groupby_pct_change_group.
Qed.

(** A value of [pct_change], by position. *)
Lemma pct_change_lookup periods xs : forall above t v,
  (1 <= periods)%nat ->
  pct_change periods above xs !! t = Some v ->
  exists x, xs !! t = Some x /\
    v = match (if (periods <=? List.length above + t)%nat
               then (above ++ xs) !! (List.length above + t - periods)%nat
               else None) with
        | Some prev => sub (div x prev) (Fin 1)
        | None => NaN
        end.
Proof.
  induction xs as [|x xs IH]; intros above t v Hp H; [discriminate|].
  destruct t as [|t]; cbn [pct_change] in H.
  - injection H as <-. exists x. split; [reflexivity|].
    unfold pct_at. rewrite Nat.add_0_r.
    destruct (periods <=? List.length above)%nat eqn:E; [|reflexivity].
    apply Nat.leb_le in E.
    rewrite lookup_app_l by lia. reflexivity.
  - apply IH in H as (y & Hy & ->); [|exact Hp]. exists y. split; [exact Hy|].
    rewrite List.length_app, <- app_assoc. cbn [List.length app].
    replace (List.length above + 1 + t)%nat with (List.length above + S t)%nat by lia.
    reflexivity.
Qed.

End ChangeFacts.

Section Sorting.
Import Float Wizard.

(** *** The sort *)

Lemma insert_sorted_perm {A : Type} (cmp : A -> A -> comparison) x l :
  insert_sorted cmp x l ≡ₚ x :: l.
Proof.
  induction l as [|y l IH]; simpl; [reflexivity|].
  destruct (not_greater (cmp y x)); [|reflexivity].
  now rewrite IH, Permutation_swap.
Qed.

Lemma stable_sort_perm {A : Type} (cmp : A -> A -> comparison) l :
  stable_sort cmp l ≡ₚ l.
Proof.
  unfold stable_sort.
  enough (H : forall acc, fold_left (fun s x => insert_sorted cmp x s) l acc ≡ₚ acc ++ l)
    by apply (H []).
  induction l as [|x l IH]; intros acc; simpl.
  - now rewrite app_nil_r.
  - rewrite IH, insert_sorted_perm. simpl. apply Permutation_middle.
Qed.

Lemma le_of_total {A : Type} (cmp : A -> A -> comparison) :
  order_compare cmp -> forall a b, not_greater (cmp a b) = false -> le_of cmp b a.
Proof.
  intros H a b Hab. unfold le_of. rewrite (compare_opp cmp H a b).
  destruct (cmp a b); simpl in *; congruence.
Qed.

Lemma le_of_trans {A : Type} (cmp : A -> A -> comparison) :
  order_compare cmp -> forall a b c, le_of cmp a b -> le_of cmp b c -> le_of cmp a c.
Proof.
  intros H a b c Hab Hbc. unfold le_of in *.
  destruct (cmp a b) eqn:E1; try discriminate.
  - now rewrite (compare_eq_l cmp H a b c E1).
  - destruct (cmp b c) eqn:E2; try discriminate.
    + assert (E3 : cmp c b = Eq) by (rewrite (compare_opp cmp H b c), E2; reflexivity).
      assert (E4 := compare_eq_l cmp H c b a E3).
      rewrite (compare_opp cmp H a c), (compare_opp cmp H a b), E1 in E4.
      destruct (cmp a c); simpl in *; congruence.
    + now rewrite (compare_lt_trans cmp H a b c E1 E2).
Qed.

Lemma insert_sorted_sorted {A : Type} (cmp : A -> A -> comparison) x l :
  order_compare cmp ->
  StronglySorted (le_of cmp) l -> StronglySorted (le_of cmp) (insert_sorted cmp x l).
Proof.
  intros H. induction 1 as [|y l Hl IH Hy]; simpl.
  - constructor; constructor.
  - destruct (not_greater (cmp y x)) eqn:E.
    + constructor; [exact IH|].
      rewrite List.Forall_forall. intros z Hz.
      apply (Permutation_in _ (insert_sorted_perm cmp x l)) in Hz.
      destruct Hz as [<-|Hz]; [exact E|].
      rewrite List.Forall_forall in Hy. auto.
    + assert (Hxy : le_of cmp x y) by (apply (le_of_total cmp H); exact E).
      constructor; [constructor; assumption|].
      constructor; [exact Hxy|].
      rewrite List.Forall_forall in Hy |- *. intros z Hz.
      apply (le_of_trans cmp H x y z Hxy). auto.
Qed.

Lemma stable_sort_sorted {A : Type} (cmp : A -> A -> comparison) l :
  order_compare cmp -> StronglySorted (le_of cmp) (stable_sort cmp l).
Proof.
  intros H. unfold stable_sort.
  enough (Hacc : forall acc, StronglySorted (le_of cmp) acc ->
            StronglySorted (le_of cmp) (fold_left (fun s x => insert_sorted cmp x s) l acc))
    by (apply Hacc; constructor).
  induction l as [|x l IH]; intros acc Hs; simpl; [exact Hs|].
  apply IH. now apply insert_sorted_sorted.
Qed.

(** *** The order of the rows *)

Lemma string_compare_order : order_compare String.compare.
Proof.
  split.
  - intros a b. apply String.compare_antisym.
  - intros a b c E. apply String.compare_eq_iff in E. now subst.
  - intros a b c. apply OrdersEx.String_as_OT.lt_strorder.
Qed.

Lemma Z_compare_order : order_compare Z.compare.
Proof.
  split.
  - intros a b. apply Z.compare_antisym.
  - intros a b c E. apply Z.compare_eq in E. now subst.
  - intros a b c. rewrite !Z.compare_lt_iff. lia.
Qed.

(** A comparison on a column, then a comparison on the rest. *)
Lemma then_compare_order {A B : Type} (f : A -> B)
    (first : B -> B -> comparison) (next : A -> A -> comparison) :
  order_compare first -> order_compare next ->
  order_compare (fun a b => then_compare (first (f a) (f b)) (next a b)).
Proof.
  intros H1 H2. split.
  - intros a b. rewrite (compare_opp first H1 (f a) (f b)), (compare_opp next H2 a b).
    destruct (first (f a) (f b)); reflexivity.
  - intros a b c E. destruct (first (f a) (f b)) eqn:E1; simpl in E; try discriminate.
    rewrite (compare_eq_l first H1 _ _ (f c) E1).
    now rewrite (compare_eq_l next H2 a b c E).
  - intros a b c Eab Ebc.
    destruct (first (f a) (f b)) eqn:E1; simpl in Eab; try discriminate.
    + rewrite (compare_eq_l first H1 _ _ (f c) E1).
      destruct (first (f b) (f c)) eqn:E2; simpl in *; try discriminate; [|reflexivity].
      apply (compare_lt_trans next H2 a b c Eab Ebc).
    + destruct (first (f b) (f c)) eqn:E2; simpl in Ebc; try discriminate.
      * assert (E3 : first (f c) (f b) = Eq)
          by (rewrite (compare_opp first H1 (f b) (f c)), E2; reflexivity).
        assert (E4 := compare_eq_l first H1 _ _ (f a) E3).
        rewrite (compare_opp first H1 (f a) (f c)), (compare_opp first H1 (f a) (f b)), E1
          in E4.
        destruct (first (f a) (f c)); simpl in *; congruence.
      * now rewrite (compare_lt_trans first H1 _ _ _ E1 E2).
Qed.

Lemma column_order {A B : Type} (f : A -> B) (cmp : B -> B -> comparison) :
  order_compare cmp -> order_compare (fun a b => cmp (f a) (f b)).
Proof.
  intros H. split; intros; [apply (compare_opp cmp H)|now apply (compare_eq_l cmp H)
                           |eapply (compare_lt_trans cmp H); eassumption].
Qed.

Lemma compare_rows_order : order_compare compare_rows.
Proof.
  unfold compare_rows.
  apply (then_compare_order division _ _ string_compare_order).
  apply (then_compare_order state _ _ string_compare_order).
  apply (then_compare_order sector _ _ string_compare_order).
  apply (column_order date _ Z_compare_order).
Qed.

Lemma string_compare_refl s : String.compare s s = Eq.
Proof.
  assert (H := String.compare_antisym s s).
  destruct (String.compare s s); simpl in H; congruence.
Qed.

Lemma compare_rows_in_group a b :
  same_group a b = true -> compare_rows a b = Z.compare (date a) (date b).
Proof.
  unfold same_group, compare_rows. rewrite !andb_true_iff, !String.eqb_eq.
  intros [[-> ->] ->].
  now rewrite !string_compare_refl.
Qed.

Context {A : Type} (row_of : A -> series_row).

Lemma sort_values_perm df : sort_values row_of df ≡ₚ df.
Proof. apply stable_sort_perm. Qed.

Lemma sort_values_sorted df :
  StronglySorted (fun a b => le_of compare_rows (row_of a) (row_of b))
    (sort_values row_of df).
Proof.
  apply (stable_sort_sorted (fun a b => compare_rows (row_of a) (row_of b))).
  apply (column_order row_of _ compare_rows_order).
Qed.

Lemma StronglySorted_filter {B : Type} (R : B -> B -> Prop) (f : B -> bool) l :
  StronglySorted R l -> StronglySorted R (List.filter f l).
Proof.
  induction 1 as [|x l Hl IH Hx]; simpl; [constructor|].
  destruct (f x); [|exact IH]. constructor; [exact IH|].
  rewrite List.Forall_forall in Hx |- *. intros y Hy.
  apply List.filter_In in Hy as [Hy _]. auto.
Qed.

(** Inside a group the sorted frame is in the order of the dates. *)
Lemma sort_values_group_by_date df g :
  StronglySorted (fun a b => (date (row_of a) <= date (row_of b))%Z)
    (List.filter (fun r => same_group (row_of r) g) (sort_values row_of df)).
Proof.
  assert (H := StronglySorted_filter _ (fun r => same_group (row_of r) g) _
                 (sort_values_sorted df)).
  set (l := List.filter _ _) in *.
  assert (Hin : forall r, In r l -> same_group (row_of r) g = true)
    by (intros r Hr; apply List.filter_In in Hr; tauto).
  clearbody l. induction H as [|x l Hl IH Hx]; [constructor|].
  constructor.
  - apply IH. intros r Hr. apply Hin. now right.
  - rewrite List.Forall_forall in Hx |- *. intros y Hy.
    specialize (Hx y Hy). unfold le_of in Hx.
    rewrite compare_rows_in_group in Hx.
    + destruct (Z.compare_spec (date (row_of x)) (date (row_of y)));
        simpl in Hx; lia || discriminate.
    + rewrite (same_group_trans _ (row_of y) g) by (apply Hin; now right).
      apply Hin. now left.
Qed.

End Sorting.

Section MonthOverMonth.
Import Float Wizard.

Lemma lookup_map {B C : Type} (f : B -> C) (l : list B) (i : nat) :
  List.map f l !! i = f <$> l !! i.
Proof. revert i. induction l as [|x l IH]; intros [|i]; simpl; auto. Qed.

Lemma filter_zip_fst {B C : Type} (f : B -> bool) (l : list B) : forall (k : list C),
  List.length l = List.length k ->
  List.map fst (List.filter (fun bc => f (fst bc)) (zip l k)) = List.filter f l.
Proof.
  induction l as [|x l IH]; intros [|y k] H; simpl in *; try discriminate; [reflexivity|].
  destruct (f x); simpl; rewrite IH by lia; reflexivity.
Qed.

Lemma pct_formula a b :
  ~ a == 0 ->
  exists m, mul (sub (div (Fin b) (Fin a)) (Fin 1)) (Fin 100) = Fin m /\
            m == (b - a) / a * 100.
Proof.
  intros Ha. rewrite div_Fin by exact Ha. cbn [sub neg add mul].
  eexists. split; [reflexivity|]. field. exact Ha.
Qed.

(** The rows of one group in the frame that [calculate_change] returns. *)
Lemma calculate_change_series {A : Type} (row_of : A -> series_row)
    (periods : nat) (df : list A) (g : series_row) :
  (1 <= periods)%nat ->
  let series :=
    List.filter (fun rc => same_group (row_of (fst rc)) g)
      (calculate_change row_of periods df) in
  List.map fst series
    = List.filter (fun r => same_group (row_of r) g) (sort_values row_of df) /\
  forall t current, series !! t = Some current ->
    snd current =
    mul (match (if (periods <=? t)%nat then series !! (t - periods)%nat else None) with
         | Some before =>
             sub (div (index (row_of (fst current))) (index (row_of (fst before)))) (Fin 1)
         | None => NaN
         end) (Fin 100).
Proof.
  intros Hp series.
  assert (Hfst : List.map fst series
                 = List.filter (fun r => same_group (row_of r) g) (sort_values row_of df)).
  { unfold series, calculate_change.
    apply (filter_zip_fst (fun r => same_group (row_of r) g)).
    now rewrite List.length_map, length_groupby_pct_change. }
  split; [exact Hfst|].
  intros t current Ht.
  assert (Hsnd := calculate_change_group row_of periods g df). fold series in Hsnd.
  assert (Hv : List.map snd series !! t = Some (snd current))
    by (rewrite lookup_map, Ht; reflexivity).
  rewrite Hsnd, lookup_map in Hv.
  destruct (pct_change periods [] _ !! t) as [v|] eqn:Hpct; [|discriminate].
  injection Hv as <-.
  apply pct_change_lookup in Hpct as (x & Hx & ->); [|exact Hp].
  cbn [List.length Nat.add app] in *.
  rewrite <- Hfst, List.map_map, lookup_map, Ht in Hx. injection Hx as <-.
  destruct (periods <=? t)%nat; [|reflexivity].
  rewrite <- Hfst, List.map_map, lookup_map.
  destruct (series !! (t - periods)%nat); reflexivity.
Qed.

(** C8, as amended.  Engine: in the monthly data that [_calculate_laspeyres]
    builds, the first month has the month-over-month change 0.0 and every
    later month has (index[t] - index[t-1]) / index[t-1] x 100; the loop
    returns whenever no index is zero.  Wizard: [calculate_mom_change] sorts
    the frame by group and date and gives each row the change against the
    previous row of its own group, (index[t] - index[t-1]) / index[t-1] x 100
    when index[t-1] is not zero; the first row of each group gets [nan], and
    [calculate_yoy_change] gives [nan] to the first 12 rows of each group. *)
Theorem month_over_month_within_groups :
  (forall indices entries,
     Engine.mom_changes None indices = Return entries ->
     List.map (fun e => (Engine.Month e, Engine.Index e)) entries = indices /\
     (forall e, entries !! 0%nat = Some e -> Engine.MoM_Change e = Fin 0) /\
     (forall t before current a b,
        entries !! t = Some before -> entries !! S t = Some current ->
        Engine.Index before = Fin a -> Engine.Index current = Fin b ->
        ~ a == 0 /\
        exists m, Engine.MoM_Change current = Fin m /\ m == (b - a) / a * 100))
  /\
  (forall xs : list (string * Q),
     Forall (fun mx => ~ snd mx == 0) xs ->
     exists entries,
       Engine.mom_changes None (List.map (fun mx => (fst mx, Fin (snd mx))) xs)
         = Return entries)
  /\
  (forall (A : Type) (row_of : A -> series_row) (df : list A) (g : series_row),
     let frame := calculate_mom_change row_of df in
     let series := List.filter (fun rc => same_group (row_of (fst rc)) g) frame in
     List.map fst frame ≡ₚ df /\
     StronglySorted (fun r r' => (date (row_of r) <= date (row_of r'))%Z)
       (List.map fst series) /\
     (forall first, series !! 0%nat = Some first -> snd first = NaN) /\
     (forall t before current,
        series !! t = Some before -> series !! S t = Some current ->
        snd current
          = mul (sub (div (index (row_of (fst current))) (index (row_of (fst before))))
                     (Fin 1)) (Fin 100) /\
        forall a b,
          index (row_of (fst before)) = Fin a -> index (row_of (fst current)) = Fin b ->
          ~ a == 0 ->
          exists m, snd current = Fin m /\ m == (b - a) / a * 100))
  /\
  (forall (A : Type) (row_of : A -> series_row) (df : list A) (g : series_row)
          (t : nat) (row : A * float64),
     (t < 12)%nat ->
     List.filter (fun rc => same_group (row_of (fst rc)) g)
       (calculate_yoy_change row_of df) !! t = Some row ->
     snd row = NaN).
Proof.
  split; [|split; [|split]].
  - intros indices entries H.
    split; [now apply mom_changes_entries in H|].
    destruct (mom_changes_lookup _ _ _ H) as [H0 HS].
    split; [exact H0|].
    intros t before current a b Hb Hc Ha Hb'.
    destruct (HS t before current Hb Hc) as [Hm Hnz].
    split; [now apply Hnz|].
    rewrite Hm, Ha, Hb'. apply mom_formula. now apply Hnz.
  - intros xs Hxs. now apply mom_changes_total.
  - intros A row_of df g frame series.
    destruct (calculate_change_series row_of 1 df g (le_n 1)) as [Hfst Hval].
    fold (calculate_mom_change row_of df) in Hfst, Hval. fold frame in Hfst, Hval.
    fold series in Hfst, Hval.
    split; [unfold frame, calculate_mom_change;
            rewrite calculate_change_rows; apply sort_values_perm|].
    split; [rewrite Hfst; apply sort_values_group_by_date|].
    split.
    + intros first H0. rewrite (Hval 0%nat first H0). reflexivity.
    + intros t before current Hb Hc.
      assert (Hcur := Hval (S t) current Hc).
      cbn [Nat.leb] in Hcur. replace (S t - 1)%nat with t in Hcur by lia.
      rewrite Hb in Hcur.
      split; [exact Hcur|].
      intros a b Ha Hb' Hnz. rewrite Hcur, Ha, Hb'. now apply pct_formula.
  - intros A row_of df g t row Ht Hrow.
    destruct (calculate_change_series row_of 12 df g) as [_ Hval]; [lia|].
    rewrite (Hval t row Hrow).
    destruct (12 <=? t)%nat eqn:E; [apply Nat.leb_le in E; lia|reflexivity].
Qed.

Lemma month_over_month_within_groups_witness :
  exists entries,
    Engine.mom_changes None [("2024-01", Fin 115); ("2024-02", Fin 120)]
      = Return entries /\
    List.map (fun e => (Engine.Month e, Engine.Index e)) entries
      = [("2024-01", Fin 115); ("2024-02", Fin 120)].
Proof.
  destruct (proj1 (proj2 month_over_month_within_groups)
              [("2024-01", 115); ("2024-02", 120)]) as [entries H].
  - repeat constructor; vm_compute; discriminate.
  - exists entries. split; [exact H|].
    now apply (proj1 month_over_month_within_groups) in H as [H _].
Defined.

(** C8 as stated fails in the wizard: the first row of the series that
    [_calculate_current] returns carries [nan] as its month-over-month change
    (and as its year-over-year change), not zero and not a marked value. *)
Lemma wizard_first_period_is_nan :
  exists series first,
    _calculate_current Examples.wizard_two_states "Custom" = Some series /\
    series !! 0%nat = Some first /\
    snd (fst first) = NaN /\ snd first = NaN /\
    snd (fst first) <> Fin 0.
Proof.
  do 2 eexists. split; [vm_compute; reflexivity|].
  split; [reflexivity|]. repeat split. discriminate.
Qed.

End MonthOverMonth.

Section EmptySelection.
Import Float.

(** C3, as amended: an empty selection gives no result.
    [_calculate_laspeyres] returns [None] on an empty list of item codes;
    when the exclusions cover every item code, [get_index_with_exclusions]
    yields no result either (the [None] of [_calculate_laspeyres] makes it
    raise [TypeError]) and the wizard's [_calculate_current] returns [None]
    ("All items excluded").  Nothing is said about a non-empty selection
    whose weights sum to zero or less: it is not rejected. *)
Theorem empty_selection_has_no_result :
  (forall self variant_name,
     Engine._calculate_laspeyres self [] variant_name = Return None)
  /\
  (forall self excluded_divisions excluded_groups excluded_classes,
     (forall row, In row (Engine.items_df self) ->
        Engine.Item_Code row ∈
          Engine.excluded_items self (Engine.or_empty excluded_divisions)
            (Engine.or_empty excluded_groups) (Engine.or_empty excluded_classes)) ->
     Engine.get_index_with_exclusions self
       excluded_divisions excluded_groups excluded_classes = Raise TypeError)
  /\
  (forall self index_name,
     (forall row, In row (Wizard.item_map self) ->
        Wizard.Item_Code row ∈ Wizard._get_excluded_item_codes self) ->
     Wizard._calculate_current self index_name = None).
Proof.
  split; [|split].
  - intros self v. unfold Engine._calculate_laspeyres.
    destruct (Engine.prices_df self); reflexivity.
  - intros self d g c Hall. unfold Engine.get_index_with_exclusions. cbv zeta.
    set (excluded := Engine.excluded_items self _ _ _) in *.
    assert (Hempty : list_to_set (List.map Engine.Item_Code (Engine.items_df self))
                       ∖ excluded = (∅ : gset string)).
    { apply set_eq. intros x. rewrite elem_of_difference, elem_of_list_to_set.
      split; [|intros Hx; now apply not_elem_of_empty in Hx].
      intros [Hx Hn]. exfalso. apply Hn.
      apply list_elem_of_In, List.in_map_iff in Hx as (row & <- & Hrow). auto. }
    rewrite Hempty, elements_empty.
    unfold Engine._calculate_laspeyres.
    destruct (Engine.prices_df self); reflexivity.
  - intros self name Hall. unfold Wizard._calculate_current.
    assert (Hnil : Wizard.remaining_items self = []); [|now rewrite Hnil].
    unfold Wizard.remaining_items. cbv zeta.
    induction (Wizard.item_map self) as [|row rows IH]; [reflexivity|].
    cbn [List.filter].
    rewrite bool_decide_eq_true_2 by (apply Hall; now left). cbn [negb].
    apply IH. intros r Hr. apply Hall. now right.
Qed.

Lemma empty_selection_has_no_result_witness :
  Engine.get_index_with_exclusions Examples.two_items (Some ["01"]) None None
  = Raise TypeError.
Proof.
  apply (proj1 (proj2 empty_selection_has_no_result)).
  intros row [<-|[<-|[]]]; apply (bool_decide_unpack _); vm_compute; exact I.
Defined.

(** C3 as stated fails: a non-empty selection whose weights sum to zero is
    not rejected.  The engine returns a result (index 100.0, normalised
    weight [nan]) and the wizard returns a series (index [nan]). *)
Lemma zero_weight_selection_returns_a_result :
  (exists r,
     Engine._calculate_laspeyres Examples.zero_weight ["01.1.1.1"] "Example"
       = Return (Some r) /\
     Engine.Total_Weight r <= 0 /\
     Engine.Weight_Normalized r = NaN /\
     List.map Engine.Index (Engine.Monthly_Data r) = [Fin 100])
  /\
  (exists series,
     Wizard._calculate_current Examples.wizard_zero_weight "Custom" = Some series /\
     Qsum (List.map Wizard.Weight (Wizard.remaining_items Examples.wizard_zero_weight)) <= 0 /\
     List.map (fun row => Wizard.index (fst (fst row))) series = [NaN]).
Proof.
  split; eexists; (split; [vm_compute; reflexivity|]); split;
    try (vm_compute; discriminate); try split; reflexivity.
Qed.

End EmptySelection.

Section Renormalisation.
Import Float.

(** *** Finite series *)

Lemma dict_get_finite s key :
  Engine.dict_get (Engine.finite_series s) key = Fin <$> Engine.dict_get s key.
Proof.
  unfold Engine.dict_get, Engine.finite_series.
  induction s as [|[c q] s IH]; [reflexivity|]. cbn [List.map List.find fst snd].
  destruct (String.eqb c key); [reflexivity|exact IH].
Qed.

Lemma zip_finite (codes : list string) : forall cells,
  zip codes (List.map Fin cells) = Engine.finite_series (zip codes cells).
Proof.
  induction codes as [|c codes IH]; intros [|q cells]; try reflexivity.
  cbn. f_equal. apply IH.
Qed.

Lemma month_column_finite prices month month_prices :
  Engine.month_column prices month = Return month_prices ->
  exists relatives, month_prices = Engine.finite_series relatives.
Proof.
  unfold Engine.month_column.
  destruct (Engine.dict_get _ month) as [cells|]; [|discriminate].
  intros [= <-]. eexists. apply zip_finite.
Qed.

(** *** Rows by label *)

Lemma filter_label_absent (s : Engine.series) c :
  ~ In c (List.map fst s) -> List.filter (fun kv => String.eqb (fst kv) c) s = [].
Proof.
  induction s as [|[k v] s IH]; [reflexivity|]. cbn [List.map List.filter fst].
  intros H. destruct (String.eqb k c) eqn:E.
  - apply String.eqb_eq in E. exfalso. apply H. now left.
  - apply IH. intros Hin. apply H. now right.
Qed.

(** In a series without repeated labels a label has at most one row. *)
Lemma filter_label_unique (s : Engine.series) c :
  List.NoDup (List.map fst s) ->
  List.filter (fun kv => String.eqb (fst kv) c) s
  = match Engine.dict_get s c with
    | Some v => [(c, v)]
    | None => []
    end.
Proof.
  unfold Engine.dict_get.
  induction s as [|[k v] s IH]; [reflexivity|]. cbn [List.map List.filter List.find fst].
  intros Hnd. inversion Hnd as [|? ? Hk Hs]; subst.
  destruct (String.eqb k c) eqn:E.
  - apply String.eqb_eq in E. subst k. cbn. f_equal. now apply filter_label_absent.
  - now apply IH.
Qed.

Lemma loc_values (s : Engine.series) labels :
  List.NoDup (List.map fst s) ->
  List.map snd (Engine.loc s labels) = omap (Engine.dict_get s) labels.
Proof.
  intros Hnd. unfold Engine.loc. induction labels as [|c labels IH]; [reflexivity|].
  change (omap ?f (c :: labels))
    with (match f c with Some y => y :: omap f labels | None => omap f labels end).
  cbn [List.map List.concat]. rewrite List.map_app, IH, (filter_label_unique s c Hnd).
  destruct (Engine.dict_get s c); reflexivity.
Qed.

Lemma loc_labels (s : Engine.series) labels :
  List.NoDup (List.map fst s) ->
  (forall c, In c labels -> In c (List.map fst s)) ->
  List.map fst (Engine.loc s labels) = labels.
Proof.
  intros Hnd. unfold Engine.loc. induction labels as [|c labels IH]; intros Hin;
    [reflexivity|].
  cbn [List.map List.concat]. rewrite List.map_app, IH by (intros; apply Hin; now right).
  rewrite (filter_label_unique s c Hnd).
  destruct (Engine.dict_get s c) as [v|] eqn:E; [reflexivity|].
  exfalso. specialize (Hin c (or_introl eq_refl)).
  apply List.in_map_iff in Hin as ([k v] & Hk & Hkv). cbn [fst] in Hk. subst k.
  unfold Engine.dict_get in E.
  destruct (List.find _ s) as [kv|] eqn:F; [discriminate|].
  apply (List.find_none _ _ F) in Hkv. cbn [fst] in Hkv.
  now rewrite String.eqb_refl in Hkv.
Qed.

(** Two series whose rows carry the same labels are multiplied row by row. *)
Lemma mul_aligned_same (a b : Engine.series) :
  List.map fst a = List.map fst b ->
  Engine.mul_aligned a b = zip_with mul (List.map snd a) (List.map snd b).
Proof.
  intros H. unfold Engine.mul_aligned. now rewrite bool_decide_eq_true_2.
Qed.

Lemma finite_series_labels s : List.map fst (Engine.finite_series s) = List.map fst s.
Proof. unfold Engine.finite_series. now rewrite List.map_map. Qed.

Lemma omap_finite s labels :
  omap (Engine.dict_get (Engine.finite_series s)) labels
  = List.map Fin (omap (Engine.dict_get s) labels).
Proof.
  induction labels as [|c labels IH]; [reflexivity|].
  change (omap ?f (c :: labels))
    with (match f c with Some y => y :: omap f labels | None => omap f labels end).
  rewrite dict_get_finite, IH.
  destruct (Engine.dict_get s c); reflexivity.
Qed.

(** Without repeated labels the two sums of a month are the sums over the
    matched labels, one row each. *)
Lemma month_sums_unique (relatives weights : list (string * Q)) :
  List.NoDup (List.map fst relatives) -> List.NoDup (List.map fst weights) ->
  let month_prices := Engine.finite_series relatives in
  let normalized := Engine.finite_series weights in
  let labels := Engine.matched_items month_prices normalized in
  List.map snd (Engine.loc month_prices labels)
    = List.map Fin (omap (Engine.dict_get relatives) labels) /\
  List.map snd (Engine.loc normalized labels)
    = List.map Fin (omap (Engine.dict_get weights) labels) /\
  Engine.weighted_sum month_prices normalized
    = nansum (zip_with mul (List.map Fin (omap (Engine.dict_get relatives) labels))
                           (List.map Fin (omap (Engine.dict_get weights) labels))) /\
  Engine.weight_total month_prices normalized
    = nansum (List.map Fin (omap (Engine.dict_get weights) labels)).
Proof.
  intros Hr Hw mp wn labels.
  assert (Hr' : List.NoDup (List.map fst mp))
    by (unfold mp; now rewrite finite_series_labels).
  assert (Hw' : List.NoDup (List.map fst wn))
    by (unfold wn; now rewrite finite_series_labels).
  assert (Hin : forall c, In c labels ->
                  In c (List.map fst mp) /\ In c (List.map fst wn)).
  { intros c Hc. apply list_elem_of_In in Hc. unfold labels, Engine.matched_items in Hc.
    rewrite elem_of_elements, elem_of_intersection in Hc. unfold Engine.index_set in Hc.
    rewrite !elem_of_list_to_set in Hc. destruct Hc as [H1 H2].
    split; now apply list_elem_of_In. }
  assert (V1 := loc_values mp labels Hr'). assert (V2 := loc_values wn labels Hw').
  unfold mp in V1 at 2. unfold wn in V2 at 2. rewrite omap_finite in V1, V2.
  split; [exact V1|]. split; [exact V2|].
  unfold Engine.weighted_sum, Engine.weight_total. fold labels.
  rewrite mul_aligned_same, V1, V2; [split; reflexivity|].
  rewrite !loc_labels; try assumption; try reflexivity; intros c Hc; now apply Hin.
Qed.

(** *** The tables of a month without repeated codes *)

Lemma NoDup_mask_rows {A : Type} (mask : list bool) : forall col : list A,
  List.NoDup col -> List.NoDup (Engine.mask_rows mask col).
Proof.
  assert (Hin : forall (mask : list bool) (col : list A) x,
            In x (Engine.mask_rows mask col) -> In x col).
  { intros m. induction m as [|b m IH]; intros [|y col] x; cbn [Engine.mask_rows In];
      try tauto.
    destruct b; cbn [In]; intros H; [destruct H as [H|H]; [auto|]|]; right; eauto. }
  induction mask as [|b mask IH]; intros [|y col] H; cbn [Engine.mask_rows];
    try constructor.
  inversion H as [|? ? Hy Hcol]; subst. destruct b.
  - constructor; [|now apply IH]. intros Hy'. apply Hy. eapply Hin, Hy'.
  - now apply IH.
Qed.

Lemma NoDup_zip_labels {B : Type} (codes : list string) : forall cells : list B,
  List.NoDup codes -> List.NoDup (List.map fst (zip codes cells)).
Proof.
  assert (Hin : forall (codes : list string) (cells : list B) c,
            In c (List.map fst (zip codes cells)) -> In c codes).
  { intros l. induction l as [|k l IH]; intros [|x cells] c; cbn [zip zip_with List.map In fst];
      try tauto.
    intros [H|H]; [auto|]. right. eauto. }
  induction codes as [|k codes IH]; intros [|x cells] H; cbn; try constructor.
  - inversion H as [|? ? Hk Hc]; subst. intros Hk'. apply Hk. eapply Hin, Hk'.
  - inversion H; subst. now apply IH.
Qed.

Lemma month_column_unique prices item_codes month month_prices :
  List.NoDup (Engine.price_codes prices) ->
  Engine.month_column (Engine.filter_prices prices item_codes) month
    = Return month_prices ->
  exists relatives,
    month_prices = Engine.finite_series relatives /\
    List.NoDup (List.map fst relatives).
Proof.
  intros Hnd. unfold Engine.month_column.
  destruct (Engine.dict_get _ month) as [cells|]; [|discriminate].
  intros [= <-]. eexists. split; [apply zip_finite|].
  apply NoDup_zip_labels. cbn [Engine.filter_prices Engine.price_codes].
  now apply NoDup_mask_rows.
Qed.

Lemma selected_weights_unique self item_codes :
  List.NoDup (List.map Engine.Item_Code (Engine.items_df self)) ->
  List.NoDup (List.map fst (Engine.selected_weights self item_codes)).
Proof.
  unfold Engine.selected_weights. rewrite List.map_map. cbn [fst].
  induction (Engine.items_df self) as [|r rows IH]; cbn [List.map List.filter];
    [constructor|].
  intros H. inversion H as [|? ? Hr Hrows]; subst.
  destruct (Engine.isin (Engine.Item_Code r) item_codes); [|now apply IH].
  cbn [List.map]. constructor; [|now apply IH].
  intros Hin. apply Hr. apply List.in_map_iff in Hin as (r' & <- & Hr').
  apply List.in_map. now apply List.filter_In in Hr' as [Hr' _].
Qed.

(** *** The same mean under the original weights *)

Lemma dict_get_scaled (weights : list (string * Q)) (f : Q -> Q) c :
  Engine.dict_get (List.map (fun cw => (fst cw, f (snd cw))) weights) c
  = f <$> Engine.dict_get weights c.
Proof.
  unfold Engine.dict_get.
  induction weights as [|[k w] weights IH]; [reflexivity|].
  cbn [List.map List.find fst snd]. destruct (String.eqb k c); [reflexivity|exact IH].
Qed.

Lemma omap_scaled (weights : list (string * Q)) (f : Q -> Q) labels :
  omap (Engine.dict_get (List.map (fun cw => (fst cw, f (snd cw))) weights)) labels
  = List.map f (omap (Engine.dict_get weights) labels).
Proof.
  induction labels as [|c labels IH]; [reflexivity|].
  change (omap ?g (c :: labels))
    with (match g c with Some y => y :: omap g labels | None => omap g labels end).
  rewrite dict_get_scaled, IH.
  destruct (Engine.dict_get weights c); reflexivity.
Qed.

Lemma Qsum_zip_scaled (S : Q) (ps : list Q) : forall ws,
  Qsum (zip_with Qmult ps (List.map (fun w => w / S * 100) ws))
  == Qsum (zip_with Qmult ps ws) / S * 100.
Proof.
  induction ps as [|p ps IH]; intros [|w ws]; cbn [List.map zip_with];
    try (unfold Qsum; cbn; unfold Qdiv; ring).
  rewrite !Qsum_cons, IH. unfold Qdiv. ring.
Qed.

(** Renormalising the weights does not change the mean. *)
Lemma renormalised_mean_same (S : Q) (ps ws : list Q) :
  ~ S == 0 -> ~ Qsum ws == 0 ->
  Qsum (zip_with Qmult ps (List.map (fun w => w / S * 100) ws))
    / Qsum (List.map (fun w => w / S * 100) ws) * 100
  == Qsum (zip_with Qmult ps ws) / Qsum ws * 100.
Proof.
  intros HS Hw. rewrite Qsum_zip_scaled, Qsum_scaled. field. split; assumption.
Qed.

Lemma normalize_finite_series weights S :
  ~ S == 0 ->
  Engine.normalize weights S
  = Engine.finite_series (List.map (fun cw => (fst cw, snd cw / S * 100)) weights).
Proof.
  intros HS. rewrite normalize_finite by exact HS.
  unfold Engine.finite_series. now rewrite List.map_map.
Qed.

(** *** The wizard's group mean *)

Lemma group_index_finite (x : list (Wizard.data_row * Q)) :
  ~ Qsum (List.map snd x) == 0 ->
  Wizard.group_index (List.map (fun dw => (fst dw, Fin (snd dw))) x)
  = Fin (Qsum (List.map (fun dw => Wizard.d_index (fst dw) * snd dw) x)
         / Qsum (List.map snd x)).
Proof.
  intros Hw. unfold Wizard.group_index. rewrite !List.map_map. cbn [fst snd mul].
  rewrite <- (List.map_map (fun dw => Wizard.d_index (fst dw) * snd dw) Fin).
  rewrite <- (List.map_map snd Fin).
  rewrite !nansum_Fin. now apply div_Fin.
Qed.

Lemma norm_weight_finite total r :
  ~ total == 0 -> Wizard.norm_weight total r = Fin (Wizard.Weight r / total * 100).
Proof. intros H. unfold Wizard.norm_weight. now rewrite div_Fin. Qed.

(** The rows of the series that [_calculate_current] returns are the rows
    of the grouped frame. *)
Lemma calculate_current_rows self index_name series row :
  Wizard._calculate_current self index_name = Some series ->
  In row series ->
  In (fst (fst row)) (Wizard.grouped (Wizard.merged self) index_name).
Proof.
  unfold Wizard._calculate_current.
  destruct (Wizard.remaining_items self); [discriminate|].
  intros [= <-] Hrow.
  apply (List.in_map fst) in Hrow.
  unfold Wizard.calculate_yoy_change in Hrow.
  rewrite calculate_change_rows in Hrow.
  apply (Permutation_in _ (sort_values_perm _ _)) in Hrow.
  apply (List.in_map fst) in Hrow.
  unfold Wizard.calculate_mom_change in Hrow.
  rewrite calculate_change_rows in Hrow.
  apply (Permutation_in _ (sort_values_perm _ _)) in Hrow.
  exact Hrow.
Qed.

Lemma grouped_index merged index_name row :
  In row (Wizard.grouped merged index_name) ->
  Wizard.index row
  = Wizard.group_index
      (List.filter
         (fun dw => Wizard.key_eqb (Wizard.key_of (fst dw))
            (Wizard.date row, Wizard.year row, Wizard.month row,
             Wizard.state row, Wizard.sector row))
         merged).
Proof.
  unfold Wizard.grouped. rewrite List.in_map_iff.
  intros ([[[[d y] m] st] se] & <- & _). reflexivity.
Qed.

(** C5, as amended.  For a selection whose raw weights have a non-zero sum
    [S] (in particular a positive one), each selected weight is renormalised
    to weight / S x 100 and the renormalised weights sum to exactly 100, in
    the engine and in the wizard.  In the wizard the index of a period and
    group is the weighted arithmetic mean of the matched rows' index values
    under the renormalised weights.  In the engine, when no item code is
    repeated in the weight table or in the price table, the index of a month
    is 100 times the weighted arithmetic mean of the matched price relatives
    under the renormalised weights, whenever the matched weights have a
    positive total; since the renormalisation multiplies every weight by the
    same factor, this is the same number as 100 times the mean under the
    original weights of the matched items. *)
Theorem renormalised_weighted_mean :
  (forall self item_codes,
     let weights := Engine.selected_weights self item_codes in
     let S := Qsum (List.map snd weights) in
     ~ S == 0 ->
     Engine.selected_weights_normalized self item_codes
       = Engine.finite_series (List.map (fun cw => (fst cw, snd cw / S * 100)) weights) /\
     (exists total,
        nansum (List.map snd (Engine.selected_weights_normalized self item_codes))
          = Fin total /\ total == 100) /\
     Qsum (List.map (fun cw => snd cw / S * 100) weights) == 100)
  /\
  (forall self item_codes variant_name r,
     Engine._calculate_laspeyres self item_codes variant_name = Return (Some r) ->
     0 < Engine.Total_Weight r ->
     Engine.unique_codes self ->
     let S := Engine.Total_Weight r in
     let normalized := Engine.selected_weights_normalized self item_codes in
     forall e, In e (Engine.Monthly_Data r) ->
     exists prices month_prices relatives originals,
       Engine.prices_df self = Some prices /\
       Engine.month_column (Engine.filter_prices prices item_codes) (Engine.Month e)
         = Return month_prices /\
       let matched := Engine.matched_items month_prices normalized in
       let weights := List.map (fun w => w / S * 100) originals in
       originals = omap (Engine.dict_get (Engine.selected_weights self item_codes)) matched /\
       List.map snd (Engine.loc month_prices matched) = List.map Fin relatives /\
       List.map snd (Engine.loc normalized matched) = List.map Fin weights /\
       (0 < Qsum originals ->
        Engine.Index e
          = Fin (Qsum (zip_with Qmult relatives weights) / Qsum weights * 100) /\
        Qsum (zip_with Qmult relatives weights) / Qsum weights * 100
          == Qsum (zip_with Qmult relatives originals) / Qsum originals * 100))
  /\
  (forall self,
     let remaining := Wizard.remaining_items self in
     let total := Qsum (List.map Wizard.Weight remaining) in
     ~ total == 0 ->
     (forall r, Wizard.norm_weight total r = Fin (Wizard.Weight r / total * 100)) /\
     Qsum (List.map (fun r => Wizard.Weight r / total * 100) remaining) == 100)
  /\
  (forall self index_name series row,
     Wizard._calculate_current self index_name = Some series ->
     In row series ->
     let period :=
       (Wizard.date (fst (fst row)), Wizard.year (fst (fst row)),
        Wizard.month (fst (fst row)), Wizard.state (fst (fst row)),
        Wizard.sector (fst (fst row))) in
     let matched :=
       List.filter (fun dw => Wizard.key_eqb (Wizard.key_of (fst dw)) period)
         (Wizard.merged self) in
     Wizard.index (fst (fst row)) = Wizard.group_index matched /\
     forall x : list (Wizard.data_row * Q),
       matched = List.map (fun dw => (fst dw, Fin (snd dw))) x ->
       ~ Qsum (List.map snd x) == 0 ->
       Wizard.index (fst (fst row))
       = Fin (Qsum (List.map (fun dw => Wizard.d_index (fst dw) * snd dw) x)
              / Qsum (List.map snd x))).
Proof.
  split; [|split; [|split]].
  - intros self item_codes weights S HS. split; [|split].
    + unfold Engine.selected_weights_normalized. fold weights. fold S.
      now apply normalize_finite_series.
    + apply (normalized_sum_100 weights HS).
    + rewrite <- (List.map_map snd (fun w => w / S * 100)).
      rewrite Qsum_scaled. fold S. field. exact HS.
  - intros self item_codes v r Hr Hpos [Hitems Hprices] S normalized e He.
    apply calculate_laspeyres_inv in Hr
      as (prices & indices & Hp & _ & HS & _ & _ & Hi & Hmom).
    apply mom_changes_entries in Hmom.
    assert (Hin : In (Engine.Month e, Engine.Index e) indices).
    { rewrite <- Hmom.
      apply (List.in_map (fun e => (Engine.Month e, Engine.Index e))), He. }
    fold normalized in Hi.
    destruct (monthly_indices_entries _ _ _ _ Hi _ _ Hin) as (mp & Hm & _ & Hv).
    destruct (month_column_unique _ _ _ _ (Hprices prices Hp) Hm) as (rel & Hrel & Hnd).
    set (selected := Engine.selected_weights self item_codes) in *.
    set (ws := List.map (fun cw => (fst cw, snd cw / S * 100)) selected).
    assert (HS0 : ~ S == 0) by (unfold S; lra).
    assert (Hws : normalized = Engine.finite_series ws).
    { unfold normalized, Engine.selected_weights_normalized. fold selected.
      rewrite <- HS. fold S. now apply normalize_finite_series. }
    assert (Hwnd : List.NoDup (List.map fst ws)).
    { unfold ws. rewrite List.map_map. cbn [fst].
      now apply (selected_weights_unique self item_codes). }
    assert (Hscaled : forall labels,
              omap (Engine.dict_get ws) labels
              = List.map (fun w => w / S * 100) (omap (Engine.dict_get selected) labels))
      by (intros labels; unfold ws;
          apply (omap_scaled selected (fun w => w / S * 100))).
    destruct (month_sums_unique rel ws Hnd Hwnd) as (V1 & V2 & Hsum & Htot).
    cbv zeta in V1, V2, Hsum, Htot.
    rewrite Hscaled in V2, Hsum, Htot.
    rewrite <- Hrel, <- Hws in V1, V2, Hsum, Htot.
    exists prices, mp.
    exists (omap (Engine.dict_get rel) (Engine.matched_items mp normalized)).
    exists (omap (Engine.dict_get selected) (Engine.matched_items mp normalized)).
    split; [exact Hp|]. split; [exact Hm|]. cbv zeta.
    split; [reflexivity|]. split; [exact V1|]. split; [exact V2|].
    intros Hw. split.
    + rewrite Hv, Hsum, Htot. apply index_value_finite.
      rewrite Qsum_scaled. apply Qmult_lt_0_compat; [|reflexivity].
      apply Qlt_shift_div_l; [exact Hpos|]. lra.
    + apply renormalised_mean_same; [exact HS0|lra].
  - intros self remaining total Ht. split.
    + intros r. now apply norm_weight_finite.
    + rewrite <- (List.map_map Wizard.Weight (fun w => w / total * 100)).
      rewrite Qsum_scaled. fold total. field. exact Ht.
  - intros self name series row Hs Hrow period matched.
    assert (Hidx : Wizard.index (fst (fst row)) = Wizard.group_index matched).
    { apply (grouped_index (Wizard.merged self) name).
      eapply calculate_current_rows; eassumption. }
    split; [exact Hidx|].
    intros x Hx Hw. rewrite Hidx, Hx. now apply group_index_finite.
Qed.

Lemma renormalised_weighted_mean_witness :
  (let weights :=
     Engine.selected_weights Examples.two_items ["01.1.1.1"; "01.1.2.1"] in
   let S := Qsum (List.map snd weights) in
   Qsum (List.map (fun cw => snd cw / S * 100) weights) == 100) /\
  (exists r e,
     Engine.get_headline_index Examples.two_items = Return (Some r) /\
     Engine.Monthly_Data r !! 0%nat = Some e /\
     exists relatives originals,
       Engine.Index e
       = Fin (Qsum (zip_with Qmult relatives
                      (List.map (fun w => w / Engine.Total_Weight r * 100) originals))
              / Qsum (List.map (fun w => w / Engine.Total_Weight r * 100) originals)
              * 100)).
Proof.
  split.
  - intros weights S.
    apply (fun H => proj2 (proj2 (proj1 renormalised_weighted_mean
                                    Examples.two_items ["01.1.1.1"; "01.1.2.1"] H))).
    vm_compute. discriminate.
  - destruct (Engine.get_headline_index Examples.two_items) as [[r|]|err] eqn:E;
      try (vm_compute in E; discriminate E).
    destruct (Engine.Monthly_Data r !! 0%nat) as [e|] eqn:He;
      [|vm_compute in E; injection E as <-; discriminate He].
    exists r, e. split; [reflexivity|]. split; [exact He|].
    destruct (proj1 (proj2 renormalised_weighted_mean)
                Examples.two_items _ _ r E) with (e := e)
      as (prices & mp & relatives & originals & Hp & Hm & Ho & _ & _ & Hidx).
    + vm_compute in E. injection E as <-. reflexivity.
    + split; [repeat constructor; cbn; intuition discriminate|].
      intros prices [= <-]. repeat constructor; cbn; intuition discriminate.
    + apply list_elem_of_In. eapply list_elem_of_lookup_2, He.
    + exists relatives, originals. apply Hidx.
      assert (Hmonth : Engine.Month e = "2024-01")
        by (vm_compute in E; injection E as <-; now injection He as <-).
      rewrite Hmonth in Hm. injection Hp as <-.
      vm_compute in Hm. injection Hm as <-. rewrite Ho. vm_compute. reflexivity.
Defined.

(** C5 as stated fails in three ways.  The engine's index is on the scale
    of 100: with weights 30 and 10 (renormalised to 75 and 25) and price
    relatives 1.10 and 1.30, the weighted arithmetic mean of the relatives
    is 1.15, and the index of the month is 115.  The renormalisation does
    not set it apart from the mean under the original weights: 115 is also
    100 x (1.10 x 30 + 1.30 x 10) / (30 + 10), and in the wizard the index
    110 x 75 + 130 x 25 over 100 is 110 x 30 + 130 x 10 over 40.  And with an
    item code on two rows of the price table the engine's index is no mean:
    relatives 1.25, 1.5 (both for the first item) and 1.0 with weights 30
    and 10 give 231.25, above 100 times every relative. *)
Lemma engine_index_is_100_times_the_mean :
  (exists r e q,
     Engine.get_headline_index Examples.two_items = Return (Some r) /\
     Engine.Monthly_Data r !! 0%nat = Some e /\
     Engine.Index e = Fin q /\
     q == 115 /\
     ~ q == (1.10 * 75 + 1.30 * 25) / (75 + 25) /\
     q == (1.10 * 30 + 1.30 * 10) / (30 + 10) * 100) /\
  (exists series row q,
     Wizard._calculate_current Examples.wizard_two_states "Custom" = Some series /\
     series !! 0%nat = Some row /\
     Wizard.index (fst (fst row)) = Fin q /\
     q == (110 * 75 + 130 * 25) / (75 + 25) /\
     q == (110 * 30 + 130 * 10) / (30 + 10)) /\
  (exists r e q,
     Engine.get_headline_index Examples.repeated_price = Return (Some r) /\
     Engine.Monthly_Data r !! 0%nat = Some e /\
     Engine.Index e = Fin q /\
     q == 231.25 /\ 1.5 * 100 < q).
Proof.
  split; [|split].
  - do 3 eexists. split; [vm_compute; reflexivity|].
    split; [reflexivity|]. split; [reflexivity|].
    split; [vm_compute; reflexivity|]. split; vm_compute; [discriminate|reflexivity].
  - do 3 eexists. split; [vm_compute; reflexivity|].
    split; [reflexivity|]. split; [reflexivity|].
    split; vm_compute; reflexivity.
  - do 3 eexists. split; [vm_compute; reflexivity|].
    split; [reflexivity|]. split; [reflexivity|].
    split; vm_compute; reflexivity.
Qed.

End Renormalisation.

(** * Further properties *)

(** ** The algebraic core-index calculator *)

Section CoreMore.
Import Binary64 Core.

Lemma run_loop_app xs ys : forall st,
  run_loop st (xs ++ ys) = let* st' := run_loop st xs in run_loop st' ys.
Proof.
  induction xs as [|x xs IH]; intros st; [reflexivity|].
  cbn [app run_loop]. destruct (loop_body st x) as [st1|e]; [|reflexivity].
  cbn [bind]. apply IH.
Qed.

Lemma loop_body_skipped st e oi ow ni nw :
  parse e = Return (oi, ow, ni, nw) -> leb ow zero = true -> leb nw zero = true ->
  loop_body st e = Return st.
Proof.
  intros Hp Ho Hn. unfold loop_body, skipped. now rewrite Hp, Ho, Hn.
Qed.

(** X1.  An exclusion that carries no positive weight never changes the outcome
    of the call, wherever it stands in the list. *)
Theorem weightless_exclusion_is_ineffective
    (items_count : nat) (a b c d : pyval) (before after : list exclusion)
    (e : exclusion) (scenario : option string) (oi ow ni nw : binary64) :
  parse e = Return (oi, ow, ni, nw) -> leb ow zero = true -> leb nw zero = true ->
  calculate_core_with_manual_exclusions items_count a b c d
    (before ++ e :: after) scenario
  = calculate_core_with_manual_exclusions items_count a b c d
      (before ++ after) scenario.
Proof.
  intros Hp Ho Hn.
  assert (Hloop : forall st, run_loop st (before ++ e :: after)
                             = run_loop st (before ++ after)).
  { intros st. rewrite !run_loop_app.
    destruct (run_loop st before) as [st1|err]; [|reflexivity].
    cbn [bind run_loop].
    now rewrite (loop_body_skipped _ e oi ow ni nw Hp Ho Hn). }
  unfold calculate_core_with_manual_exclusions, validate.
  destruct (headline_floats a b c d) as [[[[ho how] hn] hnw]|err]; [|reflexivity].
  now rewrite Hloop.
Qed.

Lemma weightless_exclusion_is_ineffective_witness :
  calculate_core_with_manual_exclusions 0
    (Examples.num 100) (Examples.num 100)
    (PyFloat (decimal 11545 100)) (Examples.num 100)
    ([Examples.food] ++ Examples.entry "Empty" 90 0 95 0 :: []) None
  = calculate_core_with_manual_exclusions 0
      (Examples.num 100) (Examples.num 100)
      (PyFloat (decimal 11545 100)) (Examples.num 100)
      ([Examples.food] ++ []) None.
Proof.
  apply (weightless_exclusion_is_ineffective 0 _ _ _ _ _ _ _ _
           (of_Z 90) (of_Z 0) (of_Z 95) (of_Z 0)).
  - reflexivity.
  - reflexivity.
  - reflexivity.
Defined.

(** X2.  The call raises nothing but [OverflowError] and [ZeroDivisionError]: the
    first when an [int] too large for a float is converted, among the
    headline values or in an exclusion; the second only after the validation
    has passed, when the old ex-items index is the float 0.0 (the remaining
    weights are never zero there). *)
Theorem core_call_raises_on_overflow_or_zero_old_index
    (items_count : nat) (a b c d : pyval) (xs : list exclusion)
    (scenario : option string) (e : exn) :
  is_float b = true -> is_float d = true ->
  Forall (fun x => floats x = true) xs ->
  calculate_core_with_manual_exclusions items_count a b c d xs scenario = Raise e ->
  (e = OverflowError /\
   (headline_floats a b c d = Raise OverflowError \/
    (exists t, headline_floats a b c d = Return t) /\
    (exists x, In x xs /\ parse x = Raise OverflowError)))
  \/
  (e = ZeroDivisionError /\
   exists ho how hn hnw,
     headline_floats a b c d = Return (ho, how, hn, hnw) /\
     validation_errors ho how hn hnw xs = [] /\
     eqb (ex_index ho how (sum_old_weighted (kept xs)) (sum_old_weight (kept xs)))
       zero = true).
Proof.
  intros Fb Fd Fxs. unfold calculate_core_with_manual_exclusions.
  destruct (headline_floats a b c d) as [[[[ho how] hn] hnw]|e0] eqn:Hh.
  - destruct (validate ho how hn hnw xs) as [[st errs]|e1] eqn:Hv.
    + cbn [bind fst snd].
      apply validate_spec in Hv as (-> & _ & T1 & T2 & W1 & W2).
      destruct (validation_errors ho how hn hnw xs) eqn:Hpass; [|discriminate].
      intros H. right.
      destruct (proj1 (validation_errors_nil ho how hn hnw xs) Hpass)
        as (Hi & _ & _ & _ & Go & Gn).
      apply orb_false_iff in Hi as [Hi _].
      destruct (headline_floats_inv _ _ _ _ _ _ _ _ Hh) as (_ & Eb & _ & Ed).
      destruct (sums_valid xs Fxs) as [Vo Vn].
      destruct (remaining_nonzero how _ (float_valid _ _ Fb Eb) Vo Go) as [Zo _].
      destruct (remaining_nonzero hnw _ (float_valid _ _ Fd Ed) Vn Gn) as [Zn _].
      rewrite <- T1 in Zo. rewrite <- T2 in Zn.
      destruct (calculate_spec items_count ho how hn hnw st scenario
                  (leb_zero_eqb _ Hi) Zo Zn) as [Hz Hnz].
      rewrite T1, W1 in Hz, Hnz.
      destruct (eqb (ex_index ho how _ _) zero) eqn:Ez.
      * rewrite (Hz eq_refl) in H. injection H as <-.
        split; [reflexivity|]. exists ho, how, hn, hnw. repeat split; assumption.
      * destruct (Hnz eq_refl) as (r & Hr & _). rewrite Hr in H. discriminate.
    + cbn [bind]. intros [= <-]. left.
      apply validate_raises in Hv as (Hc & x & Hx & Hp).
      assert (e1 = OverflowError) as ->
          by (apply (uncaught_overflow e1 Hc); now apply parse_raises in Hp).
      split; [reflexivity|]. right. split; [eauto|]. now exists x.
  - destruct (caught e0) eqn:Hc; [discriminate|]. intros [= <-]. left.
    assert (e0 = OverflowError) as ->
        by (apply (uncaught_overflow e0 Hc); now apply headline_floats_raises in Hh).
    split; [reflexivity|]. now left.
Qed.

Lemma core_call_raises_on_overflow_or_zero_old_index_witness :
  calculate_core_with_manual_exclusions 0
    (Examples.num 100) (Examples.num 100) (Examples.num 115) (Examples.num 100)
    [Examples.entry "Food" 200 50 130 40] None = Raise ZeroDivisionError /\
  calculate_core_with_manual_exclusions 0
    (Examples.num 100) (Examples.num 100) (Examples.num 115) (Examples.num 100)
    [Examples.food; Examples.huge_entry] None = Raise OverflowError.
Proof.
  split.
  - destruct (calculate_core_with_manual_exclusions 0
      (Examples.num 100) (Examples.num 100) (Examples.num 115) (Examples.num 100)
      [Examples.entry "Food" 200 50 130 40] None) as [r|e] eqn:E.
    + vm_compute in E. discriminate E.
    + f_equal.
      destruct (core_call_raises_on_overflow_or_zero_old_index 0
                  (Examples.num 100) (Examples.num 100)
                  (Examples.num 115) (Examples.num 100)
                  [Examples.entry "Food" 200 50 130 40] None e
                  ltac:(vm_compute; reflexivity) ltac:(vm_compute; reflexivity)
                  ltac:(repeat constructor) E)
        as [[-> [H|[_ (x & [<-|[]] & H)]]]|[-> _]];
        [vm_compute in H; discriminate H|vm_compute in H; discriminate H|reflexivity].
  - destruct (calculate_core_with_manual_exclusions 0
      (Examples.num 100) (Examples.num 100) (Examples.num 115) (Examples.num 100)
      [Examples.food; Examples.huge_entry] None) as [r|e] eqn:E.
    + vm_compute in E. discriminate E.
    + f_equal.
      destruct (core_call_raises_on_overflow_or_zero_old_index 0
                  (Examples.num 100) (Examples.num 100)
                  (Examples.num 115) (Examples.num 100)
                  [Examples.food; Examples.huge_entry] None e
                  ltac:(vm_compute; reflexivity) ltac:(vm_compute; reflexivity)
                  ltac:(repeat constructor) E)
        as [[-> _]|[-> (ho & how & hn & hnw & Hh & Hp & _)]]; [reflexivity|].
      vm_compute in Hh. injection Hh as <- <- <- <-.
      vm_compute in Hp. discriminate Hp.
Defined.

End CoreMore.

(** ** The exclusions of the engine *)

Section EngineExclusions.
Import Float Engine.

Lemma elem_of_fold_union {A : Type} (f : A -> gset string) (l : list A) :
  forall (init : gset string) x,
  x ∈ fold_left (fun acc a => acc ∪ f a) l init <-> x ∈ init \/ exists a, a ∈ l /\ x ∈ f a.
Proof.
  induction l as [|a l IH]; intros init x; cbn [fold_left].
  - split; [tauto|]. intros [H|(a & Ha & _)]; [exact H|]. now apply elem_of_nil in Ha.
  - rewrite IH, elem_of_union. split.
    + intros [[H|H]|(b & Hb & Hx)]; [tauto| |].
      * right. exists a. split; [left|exact H].
      * right. exists b. split; [now right|exact Hx].
    + intros [H|(b & Hb & Hx)]; [tauto|].
      apply elem_of_cons in Hb as [->|Hb]; [tauto|].
      right. eauto.
Qed.

Lemma elem_of_fold_union_opt {A B : Type} (g : A -> option B) (h : B -> gset string)
    (l : list A) :
  forall (init : gset string) x,
  x ∈ fold_left (fun acc a => match g a with Some b => acc ∪ h b | None => acc end) l init
  <-> x ∈ init \/ exists a b, a ∈ l /\ g a = Some b /\ x ∈ h b.
Proof.
  induction l as [|a l IH]; intros init x; cbn [fold_left].
  - split; [tauto|]. intros [H|(a & s & Ha & _)]; [exact H|]. now apply elem_of_nil in Ha.
  - rewrite IH. split.
    + intros [H|(b & s & Hb & Hf & Hx)].
      * destruct (g a) as [s|] eqn:Hf; [|tauto].
        apply elem_of_union in H as [H|H]; [tauto|].
        right. exists a, s. split; [left|]. tauto.
      * right. exists b, s. split; [now right|]. tauto.
    + intros [H|(b & s & Hb & Hf & Hx)].
      * left. destruct (g a); [apply elem_of_union|]; tauto.
      * apply elem_of_cons in Hb as [->|Hb].
        -- left. rewrite Hf. apply elem_of_union. tauto.
        -- right. eauto 6.
Qed.

Lemma exclude_divisions_spec self ds init x :
  x ∈ exclude_divisions self ds init <->
  x ∈ init \/
  exists d div_data, d ∈ ds /\ dict_get (hierarchy self) d = Some div_data /\
                     x ∈ groups_items (groups div_data).
Proof.
  unfold exclude_divisions.
  rewrite (elem_of_fold_union
             (fun d => list_to_set (groups_items
                         match dict_get (hierarchy self) d with
                         | Some div_data => groups div_data
                         | None => []
                         end))).
  split; (intros [H|H]; [tauto|right]).
  - destruct H as (d & Hd & Hx). rewrite elem_of_list_to_set in Hx.
    destruct (dict_get (hierarchy self) d) as [div_data|] eqn:E.
    + eauto.
    + now apply elem_of_nil in Hx.
  - destruct H as (d & div_data & Hd & E & Hx). exists d. split; [exact Hd|].
    rewrite E. now apply elem_of_list_to_set.
Qed.

Lemma exclude_groups_spec self gs init x :
  x ∈ exclude_groups self gs init <->
  x ∈ init \/
  exists g div grp, g ∈ gs /\ div ∈ hierarchy self /\
                    dict_get (groups (snd div)) g = Some grp /\
                    x ∈ classes_items (classes grp).
Proof.
  unfold exclude_groups. revert init.
  induction gs as [|g gs IH]; intros init; cbn [fold_left].
  - split; [tauto|]. intros [H|(g & ? & ? & Hg & _)]; [exact H|].
    now apply elem_of_nil in Hg.
  - rewrite IH.
    rewrite (elem_of_fold_union_opt
               (fun div : string * division_entry => dict_get (groups (snd div)) g)
               (fun grp => list_to_set (classes_items (classes grp)))).
    split.
    + intros [[H|(div & grp & Hd & Hg & Hx)]|(g' & div & grp & Hg' & H)]; [tauto| |].
      * right. exists g, div, grp. rewrite elem_of_list_to_set in Hx.
        split; [left|]. tauto.
      * right. exists g', div, grp. split; [now right|]. tauto.
    + intros [H|(g' & div & grp & Hg' & Hd & Hg & Hx)]; [tauto|].
      apply elem_of_cons in Hg' as [->|Hg'].
      * left. right. exists div, grp. rewrite elem_of_list_to_set. tauto.
      * right. eauto 8.
Qed.

Lemma exclude_classes_spec self cs init x :
  x ∈ exclude_classes self cs init <->
  x ∈ init \/
  exists c div grp cls, c ∈ cs /\ div ∈ hierarchy self /\ grp ∈ groups (snd div) /\
                        dict_get (classes (snd grp)) c = Some cls /\
                        x ∈ items cls.
Proof.
  unfold exclude_classes. revert init.
  induction cs as [|c cs IH]; intros init; cbn [fold_left].
  - split; [tauto|]. intros [H|(c & ? & ? & ? & Hc & _)]; [exact H|].
    now apply elem_of_nil in Hc.
  - rewrite IH. clear IH.
    assert (Hinner : forall (divs : list (string * division_entry)) init0,
      x ∈ fold_left (fun (acc' : gset string) (div : string * division_entry) =>
            fold_left (fun (acc'' : gset string) (grp : string * group_entry) =>
              match dict_get (classes (snd grp)) c with
              | Some cls_data => acc'' ∪ list_to_set (items cls_data)
              | None => acc''
              end) (groups (snd div)) acc') divs init0
      <-> x ∈ init0 \/
          exists div grp cls, div ∈ divs /\ grp ∈ groups (snd div) /\
                              dict_get (classes (snd grp)) c = Some cls /\
                              x ∈ items cls).
    { induction divs as [|div divs IHd]; intros init0; cbn [fold_left].
      - split; [tauto|]. intros [H|(? & ? & ? & Hd & _)]; [exact H|].
        now apply elem_of_nil in Hd.
      - rewrite IHd.
        rewrite (elem_of_fold_union_opt
                   (fun grp : string * group_entry => dict_get (classes (snd grp)) c)
                   (fun cls => list_to_set (items cls))).
        split.
        + intros [[H|(grp & cls & Hg & Hc & Hx)]|(div' & grp & cls & Hd & H)]; [tauto| |].
          * right. exists div, grp, cls. rewrite elem_of_list_to_set in Hx.
            split; [left|]. tauto.
          * right. exists div', grp, cls. split; [now right|]. tauto.
        + intros [H|(div' & grp & cls & Hd & Hg & Hc & Hx)]; [tauto|].
          apply elem_of_cons in Hd as [->|Hd].
          * left. right. exists grp, cls. rewrite elem_of_list_to_set. tauto.
          * right. eauto 8. }
    rewrite Hinner. split.
    + intros [[H|(div & grp & cls & H)]|(c' & div & grp & cls & Hc' & H)]; [tauto| |].
      * right. exists c, div, grp, cls. split; [left|]. tauto.
      * right. exists c', div, grp, cls. split; [now right|]. tauto.
    + intros [H|(c' & div & grp & cls & Hc' & H)]; [tauto|].
      apply elem_of_cons in Hc' as [->|Hc'].
      * left. right. eauto 8.
      * right. eauto 10.
Qed.

(** X5.  What [get_index_with_exclusions] excludes: an item is excluded exactly
    when it stands below an excluded division that the hierarchy knows, or
    below a group with an excluded code in any division, or in a class with
    an excluded code in any group. *)
Theorem excluded_items_by_level
    (self : CPIEngine) (ds gs cs : list string) (x : string) :
  x ∈ excluded_items self ds gs cs <->
  (exists d div_data, d ∈ ds /\ dict_get (hierarchy self) d = Some div_data /\
                      x ∈ groups_items (groups div_data)) \/
  (exists g div grp, g ∈ gs /\ div ∈ hierarchy self /\
                     dict_get (groups (snd div)) g = Some grp /\
                     x ∈ classes_items (classes grp)) \/
  (exists c div grp cls, c ∈ cs /\ div ∈ hierarchy self /\ grp ∈ groups (snd div) /\
                         dict_get (classes (snd grp)) c = Some cls /\
                         x ∈ items cls).
Proof.
  unfold excluded_items.
  rewrite exclude_classes_spec, exclude_groups_spec, exclude_divisions_spec.
  rewrite elem_of_empty. tauto.
Qed.

Lemma excluded_items_by_level_witness :
  "01.1.1.1" ∈ excluded_items Examples.two_items ["01"] [] [].
Proof.
  apply (proj2 (excluded_items_by_level Examples.two_items ["01"] [] [] "01.1.1.1")).
  left. do 2 eexists. split; [left|]. split; [reflexivity|].
  cbn. left.
Defined.

(** X6.  The exclusion lists count as sets: two calls whose lists have the same
    members (in any order, with any repetition) return the same result, and
    more exclusions never exclude fewer items. *)
Theorem exclusion_lists_are_sets
    (self : CPIEngine) (d g c d' g' c' : option (list string)) :
  (forall x, x ∈ or_empty d -> x ∈ or_empty d') ->
  (forall x, x ∈ or_empty g -> x ∈ or_empty g') ->
  (forall x, x ∈ or_empty c -> x ∈ or_empty c') ->
  excluded_items self (or_empty d) (or_empty g) (or_empty c)
    ⊆ excluded_items self (or_empty d') (or_empty g') (or_empty c') /\
  ((forall x, x ∈ or_empty d' -> x ∈ or_empty d) ->
   (forall x, x ∈ or_empty g' -> x ∈ or_empty g) ->
   (forall x, x ∈ or_empty c' -> x ∈ or_empty c) ->
   get_index_with_exclusions self d g c = get_index_with_exclusions self d' g' c').
Proof.
  intros Hd Hg Hc.
  assert (Hsub : forall ds gs cs ds' gs' cs',
            (forall x, x ∈ ds -> x ∈ ds') -> (forall x, x ∈ gs -> x ∈ gs') ->
            (forall x, x ∈ cs -> x ∈ cs') ->
            excluded_items self ds gs cs ⊆ excluded_items self ds' gs' cs').
  { intros ds gs cs ds' gs' cs' H1 H2 H3 x. rewrite !excluded_items_by_level.
    intros [(a & b & H & Hr)|[(a & b & e & H & Hr)|(a & b & e & f & H & Hr)]].
    - left. exists a, b. split; [auto|exact Hr].
    - right. left. exists a, b, e. split; [auto|exact Hr].
    - right. right. exists a, b, e, f. split; [auto|exact Hr]. }
  split; [now apply Hsub|].
  intros Hd' Hg' Hc'.
  assert (Heq : excluded_items self (or_empty d) (or_empty g) (or_empty c)
                = excluded_items self (or_empty d') (or_empty g') (or_empty c')).
  { apply set_eq. intros x. split; apply Hsub; assumption. }
  unfold get_index_with_exclusions. cbv zeta. now rewrite Heq.
Qed.

Lemma exclusion_lists_are_sets_witness :
  get_index_with_exclusions Examples.two_items (Some ["01"; "01"]) None (Some ["01.1.2"; "x"])
  = get_index_with_exclusions Examples.two_items (Some ["01"]) None (Some ["x"; "01.1.2"; "x"]).
Proof.
  apply exclusion_lists_are_sets; cbn [or_empty]; intros x;
    rewrite ?elem_of_cons, ?elem_of_nil; tauto.
Defined.

End EngineExclusions.

Section EngineAccounting.
Import Float Engine.

Lemma Qsum_filter_split {A : Type} (w : A -> Q) (p : A -> bool) (l : list A) :
  Qsum (List.map w (List.filter p l))
  + Qsum (List.map w (List.filter (fun a => negb (p a)) l))
  == Qsum (List.map w l).
Proof.
  induction l as [|a l IH]; [reflexivity|].
  cbn [List.filter List.map]. destruct (p a); cbn [negb List.map];
    rewrite !Qsum_cons, <- IH; ring.
Qed.

Lemma selected_complement self (excluded : gset string) r :
  r ∈ items_df self ->
  isin (Item_Code r)
    (elements (list_to_set (List.map Item_Code (items_df self)) ∖ excluded))
  = negb (bool_decide (Item_Code r ∈ excluded)).
Proof.
  intros Hr. unfold isin.
  destruct (bool_decide (Item_Code r ∈ excluded)) eqn:E; cbn [negb].
  - apply bool_decide_eq_true in E. apply bool_decide_eq_false.
    rewrite elem_of_elements, elem_of_difference. tauto.
  - apply bool_decide_eq_false in E. apply bool_decide_eq_true.
    rewrite elem_of_elements, elem_of_difference, elem_of_list_to_set.
    split; [|exact E]. apply list_elem_of_In, List.in_map, list_elem_of_In, Hr.
Qed.

Lemma filter_ext_elem_of {A : Type} (p q : A -> bool) (l : list A) :
  (forall a, a ∈ l -> p a = q a) -> List.filter p l = List.filter q l.
Proof.
  intros H. apply List.filter_ext_in. intros a Ha. apply H, list_elem_of_In, Ha.
Qed.

(** X7.  Nothing is lost and nothing counted twice: in every result of
    [get_index_with_exclusions] the weight of the selection and the
    excluded weight add up to the weight of all items, and the number of
    selected rows and of excluded rows to the number of all rows. *)
Theorem selected_and_excluded_weight_add_up
    (self : CPIEngine) (d g c : option (list string)) (r : exclusion_result) :
  get_index_with_exclusions self d g c = Return r ->
  Total_Weight (base r) + excluded_weight r == Qsum (List.map Weight (items_df self)) /\
  (Items_Count (base r)
   + List.length (List.filter
       (fun row => bool_decide
          (Item_Code row ∈ excluded_items self (or_empty d) (or_empty g) (or_empty c)))
       (items_df self)))%nat
  = List.length (items_df self).
Proof.
  unfold get_index_with_exclusions. cbv zeta.
  set (excluded := excluded_items self (or_empty d) (or_empty g) (or_empty c)).
  set (selected := elements (_ ∖ excluded)).
  destruct (_calculate_laspeyres self selected _) as [[res|]|e] eqn:Hres;
    cbn [bind]; try discriminate.
  intros [= <-]. cbn [base excluded_weight].
  apply calculate_laspeyres_inv in Hres
    as (_ & _ & _ & _ & HW & HC & _).
  rewrite HW, HC. unfold selected_weights.
  rewrite List.length_map, List.map_map. cbn [snd].
  rewrite (filter_ext_elem_of _ (fun r => negb (bool_decide (Item_Code r ∈ excluded))))
    by (intros a Ha; now apply selected_complement).
  split.
  - rewrite Qplus_comm. apply (Qsum_filter_split Weight).
  - rewrite Nat.add_comm.
    rewrite <- (List.filter_length (fun row => bool_decide (Item_Code row ∈ excluded))
                  (items_df self)).
    reflexivity.
Qed.

Lemma selected_and_excluded_weight_add_up_witness :
  exists r,
    get_index_with_exclusions Examples.two_items None None (Some ["01.1.2"]) = Return r /\
    Total_Weight (base r) + excluded_weight r
    == Qsum (List.map Weight (items_df Examples.two_items)).
Proof.
  remember (get_index_with_exclusions Examples.two_items None None (Some ["01.1.2"]))
    as call eqn:E.
  destruct call as [r|e]; [|vm_compute in E; discriminate E].
  exists r. split; [reflexivity|].
  apply (selected_and_excluded_weight_add_up
           Examples.two_items None None (Some ["01.1.2"]) r).
  symmetry. exact E.
Defined.

End EngineAccounting.

Section EngineExceptions.
Import Float Engine.

Lemma month_index_raise prices_data wn month e :
  month_index prices_data wn month = Raise e <->
  e = KeyError /\ dict_get (price_columns prices_data) month = None.
Proof.
  unfold month_index, month_column.
  destruct (dict_get (price_columns prices_data) month) as [cells|]; cbn [bind].
  - destruct (_ =? _)%nat; split; [discriminate| |discriminate|];
      intros [_ H]; discriminate H.
  - split; [intros [= <-]; auto|]. now intros [-> _].
Qed.

Lemma monthly_indices_raise prices_data wn months e :
  monthly_indices prices_data wn months = Raise e <->
  e = KeyError /\
  exists month, month ∈ months /\ dict_get (price_columns prices_data) month = None.
Proof.
  induction months as [|m months IH]; cbn [monthly_indices].
  - split; [discriminate|]. intros [_ (month & H & _)]. now apply elem_of_nil in H.
  - destruct (month_index prices_data wn m) as [this|e'] eqn:Hm; cbn [bind].
    + assert (Hcol : dict_get (price_columns prices_data) m <> None).
      { intros Hnone.
        assert (H : month_index prices_data wn m = Raise KeyError)
          by (apply month_index_raise; auto).
        rewrite H in Hm. discriminate Hm. }
      destruct (monthly_indices prices_data wn months) as [others|e'']; cbn [bind].
      * split; [discriminate|]. intros [He (month & Hin & Hnone)].
        apply elem_of_cons in Hin as [->|Hin]; [contradiction|].
        assert (H : Raise e = Raise e :> outcome (list (string * float64)))
          by reflexivity.
        exfalso. assert (Return others = Raise e :> outcome (list (string * float64))).
        { apply IH. eauto. }
        discriminate.
      * split.
        -- intros [= <-]. destruct (proj1 IH eq_refl) as [-> (month & Hin & Hnone)].
           split; [reflexivity|]. exists month. split; [now right|exact Hnone].
        -- intros [-> (month & Hin & Hnone)].
           apply elem_of_cons in Hin as [->|Hin]; [contradiction|].
           f_equal. assert (H : Raise e'' = Raise KeyError :> outcome (list (string * float64))).
           { apply IH. eauto. }
           now injection H.
    + apply month_index_raise in Hm as [-> Hnone]. split.
      * intros [= <-]. split; [reflexivity|]. exists m. split; [left|exact Hnone].
      * now intros [-> _].
Qed.

Lemma truediv_raise x y e :
  truediv x y = Raise e <-> e = ZeroDivisionError /\ exists b, y = Fin b /\ b == 0.
Proof.
  unfold truediv. destruct y as [b| | |].
  - destruct (Qeq_bool b 0) eqn:E.
    + apply Qeq_bool_eq in E. split; [intros [= <-]; eauto|now intros [-> _]].
    + split; [discriminate|]. intros [_ (b' & [= <-] & Hb)].
      apply Qeq_eq_bool in Hb. congruence.
  - split; [discriminate|]. intros [_ (b' & H & _)]. discriminate H.
  - split; [discriminate|]. intros [_ (b' & H & _)]. discriminate H.
  - split; [discriminate|]. intros [_ (b' & H & _)]. discriminate H.
Qed.

(** The loop over [monthly_data] fails exactly when an index that has a
    successor is zero. *)
Lemma mom_changes_raise monthly_data : forall prev e,
  mom_changes prev monthly_data = Raise e <->
  e = ZeroDivisionError /\
  ((exists b, prev = Some (Fin b) /\ b == 0 /\ monthly_data <> []) \/
   (exists t month b, monthly_data !! t = Some (month, Fin b) /\ b == 0 /\
                     is_Some (monthly_data !! S t))).
Proof.
  induction monthly_data as [|[m i] rest IH]; intros prev e; cbn [mom_changes].
  - split; [discriminate|].
    intros [_ [(b & _ & _ & H)|(t & month & b & H & _)]]; [now contradiction H|].
    discriminate H.
  - assert (Hrest : forall e',
      mom_changes (Some i) rest = Raise e' <->
      e' = ZeroDivisionError /\
      exists t month b, ((m, i) :: rest) !! t = Some (month, Fin b) /\ b == 0 /\
                        is_Some (((m, i) :: rest) !! S t)).
    { intros e'. rewrite IH. split.
      - intros [-> [(b & [= ->] & Hb & Hne)|(t & month & b & Ht & Hb & Hs)]];
          (split; [reflexivity|]).
        + exists 0%nat, m, b. repeat split; [exact Hb|].
          destruct rest; [contradiction|]. cbn. eauto.
        + exists (S t), month, b. auto.
      - intros [-> (t & month & b & Ht & Hb & Hs)]. split; [reflexivity|].
        destruct t as [|t].
        + injection Ht as <- ->. left. exists b. repeat split; [exact Hb|].
          intros ->. destruct Hs as [? Hs]. discriminate Hs.
        + right. exists t, month, b. auto. }
    destruct prev as [p|].
    + destruct (truediv (sub i p) p) as [dv|e'] eqn:Hd; cbn [bind].
      * assert (Hp : ~ exists b, p = Fin b /\ b == 0).
        { intros Hz.
          assert (H : truediv (sub i p) p = Raise ZeroDivisionError)
            by (apply truediv_raise; auto).
          rewrite H in Hd. discriminate Hd. }
        destruct (mom_changes (Some i) rest) as [others|e''] eqn:Ho; cbn [bind].
        -- split; [discriminate|].
           intros [He [(b & [= ->] & Hb & _)|H]]; [exfalso; eauto|].
           assert (Hx : Return others = Raise e :> outcome (list month_entry)).
           { apply Hrest. auto. }
           discriminate Hx.
        -- split.
           ++ intros [= <-]. destruct (proj1 (Hrest e'') eq_refl) as [-> H]. auto.
           ++ intros [-> _]. destruct (proj1 (Hrest e'') eq_refl) as [-> _]. reflexivity.
      * apply truediv_raise in Hd as [-> (b & -> & Hb)]. split.
        -- intros [= <-]. split; [reflexivity|]. left. exists b.
           repeat split; [exact Hb|discriminate].
        -- now intros [-> _].
    + cbn [bind].
      destruct (mom_changes (Some i) rest) as [others|e''] eqn:Ho; cbn [bind].
      * split; [discriminate|].
        intros [He [(b & H & _)|H]]; [discriminate H|].
        assert (Hx : Return others = Raise e :> outcome (list month_entry)).
        { apply Hrest. auto. }
        discriminate Hx.
      * split.
        -- intros [= <-]. destruct (proj1 (Hrest e'') eq_refl) as [-> H]. auto.
        -- intros [-> _]. destruct (proj1 (Hrest e'') eq_refl) as [-> _]. reflexivity.
Qed.

Lemma dict_get_map_snd {V W : Type} (f : string * V -> W) (d : list (string * V)) key :
  dict_get (List.map (fun kv => (fst kv, f kv)) d) key
  = (fun v => f v) <$> List.find (fun kv => String.eqb (fst kv) key) d.
Proof.
  unfold dict_get. induction d as [|[k v] d IH]; [reflexivity|].
  cbn [List.map List.find fst snd]. destruct (String.eqb k key); [reflexivity|exact IH].
Qed.

Lemma filter_prices_columns prices item_codes month :
  dict_get (price_columns (filter_prices prices item_codes)) month = None <->
  dict_get (price_columns prices) month = None.
Proof.
  unfold filter_prices. cbn [price_columns]. rewrite dict_get_map_snd.
  unfold dict_get. destruct (List.find _ (price_columns prices)); cbn; split;
    (discriminate || reflexivity).
Qed.

Lemma calculate_laspeyres_raise self item_codes variant_name e :
  _calculate_laspeyres self item_codes variant_name = Raise e ->
  e = ZeroDivisionError \/
  e = KeyError /\
  exists prices month,
    prices_df self = Some prices /\ month ∈ months self /\
    dict_get (price_columns prices) month = None.
Proof.
  unfold _calculate_laspeyres.
  destruct item_codes as [|c cs]; [discriminate|].
  destruct (prices_df self) as [prices|]; [|discriminate].
  destruct (_ || _); [discriminate|].
  destruct (monthly_indices _ _ (months self)) as [indices|e'] eqn:Hmi; cbn [bind].
  - destruct (mom_changes None indices) as [md|e''] eqn:Hmom; cbn [bind]; [discriminate|].
    intros [= <-]. left. now apply mom_changes_raise in Hmom as [-> _].
  - intros [= <-]. right.
    apply monthly_indices_raise in Hmi as [-> (month & Hin & Hnone)].
    apply filter_prices_columns in Hnone. eauto 6.
Qed.

(** X8.  The exceptions of [_calculate_laspeyres].  A call raises nothing but
    [KeyError], exactly when the calculation is reached and some month of
    [self.months] is not a column of the price table, and
    [ZeroDivisionError], exactly when every month is a column and a month
    whose index is zero is followed by another reported month. *)
Theorem calculate_laspeyres_exceptions
    (self : CPIEngine) (item_codes : list string) (variant_name : string) (e : exn) :
  _calculate_laspeyres self item_codes variant_name = Raise e <->
  exists prices,
    prices_df self = Some prices /\
    item_codes <> [] /\
    selected_weights self item_codes <> [] /\
    price_codes (filter_prices prices item_codes) <> [] /\
    ((e = KeyError /\
      exists month, month ∈ months self /\ dict_get (price_columns prices) month = None) \/
     (e = ZeroDivisionError /\
      exists indices t month b,
        monthly_indices (filter_prices prices item_codes)
          (selected_weights_normalized self item_codes) (months self) = Return indices /\
        indices !! t = Some (month, Fin b) /\ b == 0 /\ is_Some (indices !! S t))).
Proof.
  unfold _calculate_laspeyres, selected_weights_normalized, selected_weights.
  destruct item_codes as [|c cs].
  { split; [discriminate|]. intros (? & _ & H & _). now contradiction H. }
  destruct (prices_df self) as [prices|].
  2: { split; [discriminate|]. intros (? & H & _). discriminate H. }
  set (codes := c :: cs).
  set (items_data := List.filter _ (items_df self)).
  set (wn := normalize _ _).
  destruct (_ || _) eqn:Hlen.
  { split; [discriminate|]. intros (? & [= <-] & _ & Hi & Hp & _). exfalso.
    apply orb_true_iff in Hlen as [Hlen|Hlen]; apply Nat.eqb_eq in Hlen.
    - apply Hi. apply List.length_zero_iff_nil in Hlen. now rewrite Hlen.
    - apply Hp. now apply List.length_zero_iff_nil in Hlen. }
  apply orb_false_iff in Hlen as [Hi Hp]. apply Nat.eqb_neq in Hi, Hp.
  assert (Hguard : List.map (fun r => (Item_Code r, Weight r)) items_data <> [] /\
                   price_codes (filter_prices prices codes) <> []).
  { split.
    - intros H. apply Hi. apply (f_equal (@List.length _)) in H.
      now rewrite List.length_map in H.
    - intros H. apply Hp. now rewrite H. }
  destruct (monthly_indices (filter_prices prices codes) wn (months self))
    as [indices|e'] eqn:Hmi; cbn [bind].
  - destruct (mom_changes None indices) as [md|e''] eqn:Hmom; cbn [bind].
    + split; [discriminate|].
      intros (? & [= <-] & _ & _ & _ & [[-> (month & Hin & Hnone)]|[-> H]]).
      * assert (Hx : Return indices = Raise KeyError :> outcome (list (string * float64))).
        { rewrite <- Hmi. apply monthly_indices_raise. split; [reflexivity|].
          exists month. split; [exact Hin|]. now apply filter_prices_columns. }
        discriminate Hx.
      * destruct H as (indices' & t & month & b & Hmi' & Ht & Hb & Hs).
        assert (indices' = indices) as -> by congruence.
        assert (Hx : Return md = Raise ZeroDivisionError :> outcome (list month_entry)).
        { rewrite <- Hmom. apply mom_changes_raise. split; [reflexivity|].
          right. eauto 8. }
        discriminate Hx.
    + apply mom_changes_raise in Hmom
        as [-> [(b & H & _)|(t & month & b & Ht & Hb & Hs)]]; [discriminate H|].
      split.
      * intros [= <-]. exists prices. repeat split; try tauto; try discriminate.
        right. split; [reflexivity|]. exists indices, t, month, b. auto.
      * intros (? & [= <-] & _ & _ & _ & [[-> (mo & Hin & Hnone)]|[-> _]]); [|reflexivity].
        assert (Hx : Return indices = Raise KeyError :> outcome (list (string * float64))).
        { rewrite <- Hmi. apply monthly_indices_raise. split; [reflexivity|].
          exists mo. split; [exact Hin|]. now apply filter_prices_columns. }
        discriminate Hx.
  - apply monthly_indices_raise in Hmi as [-> (month & Hin & Hnone)].
    apply filter_prices_columns in Hnone. split.
    + intros [= <-]. exists prices. repeat split; try tauto; try discriminate.
      left. eauto.
    + intros (? & [= <-] & _ & _ & _ & [[-> _]|[-> H]]); [reflexivity|].
      destruct H as (indices & _ & _ & _ & Hx & _).
      assert (Hy : monthly_indices (filter_prices prices codes) wn (months self)
                   = Raise KeyError).
      { apply monthly_indices_raise. split; [reflexivity|]. exists month.
        split; [exact Hin|]. now apply filter_prices_columns. }
      rewrite Hy in Hx. discriminate Hx.
Qed.

Lemma calculate_laspeyres_exceptions_witness :
  _calculate_laspeyres MoreExamples.missing_month ["01.1.1.1"; "01.1.2.1"] "Example"
  = Raise KeyError.
Proof.
  apply (proj2 (calculate_laspeyres_exceptions MoreExamples.missing_month
                  ["01.1.1.1"; "01.1.2.1"] "Example" KeyError)).
  eexists. split; [reflexivity|]. split; [discriminate|].
  split; [vm_compute; discriminate|]. split; [vm_compute; discriminate|].
  left. split; [reflexivity|]. exists "2024-03".
  split; [|vm_compute; reflexivity].
  right. left.
Defined.

Lemma monthly_indices_sublist prices_data wn months : forall l,
  monthly_indices prices_data wn months = Return l ->
  sublist (List.map fst l) months.
Proof.
  induction months as [|m months IH]; intros l Hl; cbn [monthly_indices] in Hl.
  - injection Hl as <-. constructor.
  - destruct (month_index prices_data wn m) as [this|]; [|discriminate Hl].
    cbn [bind] in Hl.
    destruct (monthly_indices prices_data wn months) as [others|]; [|discriminate Hl].
    cbn [bind] in Hl. injection Hl as <-.
    destruct this; cbn [List.map fst].
    + apply sublist_skip, IH. reflexivity.
    + apply sublist_cons, IH. reflexivity.
Qed.

(** X9.  The reported months keep the order of [self.months]: the months of
    [Monthly_Data] are a subsequence of them (a month without matched items
    is left out), so there are at most as many entries as months. *)
Theorem reported_months_follow_the_months
    (self : CPIEngine) (item_codes : list string) (variant_name : string)
    (r : laspeyres_result) :
  _calculate_laspeyres self item_codes variant_name = Return (Some r) ->
  sublist (List.map Month (Monthly_Data r)) (months self) /\
  (List.length (Monthly_Data r) <= List.length (months self))%nat.
Proof.
  intros Hr.
  apply calculate_laspeyres_inv in Hr as (prices & indices & _ & _ & _ & _ & _ & Hi & Hm).
  apply mom_changes_entries in Hm. apply monthly_indices_sublist in Hi.
  rewrite <- Hm, List.map_map in Hi. cbn [fst] in Hi.
  split; [exact Hi|].
  apply sublist_length in Hi. now rewrite List.length_map in Hi.
Qed.

Lemma reported_months_follow_the_months_witness :
  exists r,
    get_headline_index Examples.two_items = Return (Some r) /\
    sublist (List.map Month (Monthly_Data r)) (months Examples.two_items).
Proof.
  remember (get_headline_index Examples.two_items) as call eqn:E.
  destruct call as [[r|]|e]; try (vm_compute in E; discriminate E).
  exists r. split; [reflexivity|]. symmetry in E.
  apply (reported_months_follow_the_months Examples.two_items _ _ r E).
Defined.

End EngineExceptions.

(** ** The weighted average of custom indices *)

Section WeightedMeans.
Import Float.

Lemma Qsum_app (l1 l2 : list Q) : Qsum (l1 ++ l2) == Qsum l1 + Qsum l2.
Proof.
  induction l1 as [|x l1 IH]; cbn [app].
  - unfold Qsum at 2. cbn. ring.
  - rewrite !Qsum_cons, IH. ring.
Qed.

Lemma Qsum_nil : Qsum [] == 0.
Proof. reflexivity. Qed.

Lemma Qsum_nonnegative (l : list Q) :
  Forall (fun w => 0 <= w) l -> 0 <= Qsum l.
Proof.
  induction 1 as [|w l Hw _ IH]; [apply Qle_refl|]. rewrite Qsum_cons. lra.
Qed.

Lemma Qsum_zero_all_zero (l : list Q) :
  Forall (fun w => 0 <= w) l -> Qsum l == 0 -> Forall (fun w => w == 0) l.
Proof.
  induction 1 as [|w l Hw Hl IH]; intros Hs; constructor.
  - rewrite Qsum_cons in Hs. apply Qsum_nonnegative in Hl. lra.
  - apply IH. rewrite Qsum_cons in Hs. apply Qsum_nonnegative in Hl. lra.
Qed.

(** A weighted sum with weights that are not negative lies between the
    bounds of the values, times the sum of the weights. *)
Lemma weighted_sum_bounds (lo hi : Q) (l : list (Q * Q)) :
  Forall (fun vw => lo <= fst vw <= hi /\ 0 <= snd vw) l ->
  lo * Qsum (List.map snd l) <= Qsum (List.map (fun vw => fst vw * snd vw) l)
  <= hi * Qsum (List.map snd l).
Proof.
  induction 1 as [|[v w] l [[Hlo Hhi] Hw] _ IH]; cbn [List.map fst snd] in *.
  - rewrite Qsum_nil. lra.
  - rewrite !Qsum_cons.
    assert (lo * w <= v * w) by (apply Qmult_le_compat_r; assumption).
    assert (v * w <= hi * w) by (apply Qmult_le_compat_r; assumption).
    lra.
Qed.

Lemma weighted_mean_bounds (lo hi : Q) (l : list (Q * Q)) :
  Forall (fun vw => lo <= fst vw <= hi /\ 0 <= snd vw) l ->
  0 < Qsum (List.map snd l) ->
  lo <= Qsum (List.map (fun vw => fst vw * snd vw) l) / Qsum (List.map snd l) <= hi.
Proof.
  intros Hl Hpos. destruct (weighted_sum_bounds lo hi l Hl) as [H1 H2].
  split.
  - apply Qle_shift_div_l; assumption.
  - apply Qle_shift_div_r; assumption.
Qed.

Lemma Forall_map_iff {A B : Type} (f : A -> B) (P : B -> Prop) (l : list A) :
  Forall P (List.map f l) <-> Forall (fun a => P (f a)) l.
Proof.
  induction l as [|a l IH]; cbn [List.map].
  - split; constructor.
  - rewrite !Forall_cons, IH. reflexivity.
Qed.

End WeightedMeans.

Section CustomFacts.
Import Binary64 Custom CustomSpec.

Lemma custom_loop_body_cases st idx_config st' :
  loop_body st idx_config = Return st' ->
  (exists msg, st' = reject st msg /\ msg <> TotalWeightZero) \/
  (exists d, accepted idx_config d /\
             validation_errors st' = validation_errors st /\
             total_weight st' = add (total_weight st) (d_weight d) /\
             indices_data st' = indices_data st ++ [d]).
Proof.
  unfold loop_body.
  destruct (name idx_config) as [[n|]|] eqn:Hn;
    [|intros [= <-]; left; eexists; split; [reflexivity|discriminate]..].
  destruct (String.eqb (strip n) "") eqn:Hs;
    [intros [= <-]; left; eexists; split; [reflexivity|discriminate]|].
  apply String.eqb_neq in Hs.
  destruct (convert idx_config) as [[v w]|e] eqn:Hc.
  - destruct (leb v zero) eqn:Hpos;
      [intros [= <-]; left; eexists; split; [reflexivity|discriminate]|].
    destruct (ltb w zero) eqn:Hnn;
      [intros [= <-]; left; eexists; split; [reflexivity|discriminate]|].
    intros [= <-]. right. eexists. split; [|cbn; repeat split; reflexivity].
    exists n. cbn. repeat split; try reflexivity; assumption.
  - destruct (Core.caught e); [|discriminate].
    intros [= <-]. left. eexists. split; [reflexivity|discriminate].
Qed.

(** The state after the loop: the messages of the rejected configs are
    appended, and when there is none every config has its entry. *)
Lemma custom_loop_inv index_configs : forall st st',
  run_loop st index_configs = Return st' ->
  exists errs,
    validation_errors st' = validation_errors st ++ errs /\
    (List.length errs <= List.length index_configs)%nat /\
    ~ TotalWeightZero ∈ errs /\
    (errs = [] ->
     exists entries,
       Forall2 accepted index_configs entries /\
       indices_data st' = indices_data st ++ entries /\
       total_weight st'
       = fold_left add (List.map d_weight entries) (total_weight st)).
Proof.
  induction index_configs as [|cfg rest IH]; intros st st' H; cbn [run_loop] in H.
  - injection H as <-. exists []. rewrite app_nil_r.
    split; [reflexivity|]. split; [cbn; lia|]. split; [apply not_elem_of_nil|].
    intros _. exists []. rewrite app_nil_r.
    split; [constructor|]. split; reflexivity.
  - destruct (loop_body st cfg) as [st1|] eqn:Hb; [|discriminate H]. cbn [bind] in H.
    destruct (IH _ _ H) as (errs & He & Hlen & Hno & Hok).
    apply custom_loop_body_cases in Hb
      as [(msg & -> & Hmsg)|(d & Hacc & Herr & Htot & Hdata)].
    + exists (msg :: errs). cbn [reject validation_errors] in He.
      rewrite <- app_assoc in He. cbn [List.length].
      split; [exact He|]. split; [lia|]. split; [|discriminate].
      rewrite elem_of_cons. intros [Heq|Hin]; [now symmetry in Heq|contradiction].
    + exists errs. rewrite Herr in He. cbn [List.length].
      split; [exact He|]. split; [lia|]. split; [exact Hno|].
      intros Hnil. destruct (Hok Hnil) as (entries & Hall & Hd & Ht).
      exists (d :: entries). split; [|split].
      * now constructor.
      * rewrite Hd, Hdata, <- app_assoc. reflexivity.
      * rewrite Ht, Htot. reflexivity.
Qed.

Lemma custom_loop_initial index_configs st' :
  run_loop initial_state index_configs = Return st' ->
  (List.length (validation_errors st') <= List.length index_configs)%nat /\
  ~ TotalWeightZero ∈ validation_errors st' /\
  (validation_errors st' = [] ->
   Forall2 accepted index_configs (indices_data st') /\
   total_weight st' = Core.sum (List.map d_weight (indices_data st'))).
Proof.
  intros H. apply custom_loop_inv in H as (errs & He & Hlen & Hno & Hok).
  cbn [initial_state validation_errors indices_data total_weight app] in *.
  rewrite He. split; [exact Hlen|]. split; [exact Hno|].
  intros Hnil. destruct (Hok Hnil) as (entries & Hall & -> & Ht).
  split; [exact Hall|exact Ht].
Qed.

Lemma hundred_nonzero : eqb Core.hundred zero = false.
Proof. reflexivity. Qed.

(** The normalising loop never raises behind the test [total_weight == 0]. *)
Lemma contributions_total (total : binary64) (l : list index_data) :
  eqb total zero = false ->
  forall acc,
    contributions total acc l
    = Return (fold_left add (List.map contribution (List.map (normalised_entry total) l)) acc,
              List.map (normalised_entry total) l).
Proof.
  intros Ht. induction l as [|d l IH]; intros acc; cbn [contributions List.map].
  - reflexivity.
  - rewrite (truediv_nonzero _ _ Ht). cbn [bind].
    rewrite (truediv_nonzero _ _ hundred_nonzero). cbn [bind].
    rewrite IH. cbn [bind fst snd fold_left]. reflexivity.
Qed.

Lemma differences_map (l : list index_data) :
  exists f : index_data -> index_data,
    differences l = List.map f l /\
    forall d, d_name (f d) = d_name d /\ d_value (f d) = d_value d /\
              d_weight (f d) = d_weight d /\ contribution (f d) = contribution d /\
              normalized_weight (f d) = normalized_weight d.
Proof.
  destruct l as [|first l].
  - exists (fun d => d). split; [reflexivity|]. intros d. repeat split.
  - eexists. split; [reflexivity|]. intros d. repeat split.
Qed.

Lemma accepted_fields idx_config d d' :
  d_name d' = d_name d -> d_value d' = d_value d -> d_weight d' = d_weight d ->
  accepted idx_config d -> accepted idx_config d'.
Proof.
  intros Hn Hv Hw (n & H). exists n. rewrite Hn, Hv, Hw. exact H.
Qed.

Lemma Forall2_accepted_map (f : index_data -> index_data) index_configs l :
  (forall d, d_name (f d) = d_name d /\ d_value (f d) = d_value d /\
             d_weight (f d) = d_weight d) ->
  Forall2 accepted index_configs l -> Forall2 accepted index_configs (List.map f l).
Proof.
  intros Hf. induction 1 as [|cfg d cfgs l Hd _ IH]; cbn [List.map]; constructor.
  - destruct (Hf d) as (Hn & Hv & Hw). now apply (accepted_fields cfg d).
  - exact IH.
Qed.

Lemma accepted_values index_configs l :
  Forall2 accepted index_configs l ->
  List.map d_value l = List.map value_of index_configs /\
  List.map d_weight l = List.map weight_of index_configs /\
  Forall passes index_configs.
Proof.
  induction 1 as [|cfg d cfgs l (n & Hn & Hs & _ & Hc & Hpos & Hnn) _
                    (IHv & IHw & IHf)]; cbn [List.map].
  - repeat split; constructor.
  - assert (Hv : value_of cfg = d_value d).
    { unfold value_of. destruct (convert cfg) as [[a b]|]; [|discriminate].
      injection Hc as Ha Hb. congruence. }
    assert (Hw : weight_of cfg = d_weight d).
    { unfold weight_of. destruct (convert cfg) as [[a b]|]; [|discriminate].
      injection Hc as Ha Hb. congruence. }
    rewrite Hv, Hw, IHv, IHw. split; [reflexivity|]. split; [reflexivity|].
    constructor; [|exact IHf].
    exists (d_value d), (d_weight d). split; [|now split]. now exists n.
Qed.

(** What a successful call tells. *)
Lemma custom_success_inv index_configs r :
  calculate_custom_index index_configs = Return (Some (Success r)) ->
  let total := Core.sum (List.map weight_of index_configs) in
  Forall2 accepted index_configs (indices r) /\
  total_weight_original r = total /\
  eqb total zero = false /\
  List.map contribution (indices r)
    = List.map (fun d => contribution (normalised_entry total d)) (indices r) /\
  List.map normalized_weight (indices r)
    = List.map (fun d => normalized_weight (normalised_entry total d)) (indices r) /\
  weighted_average r = Core.sum (List.map contribution (indices r)) /\
  weight_imbalance r = gtb (SFabs (sub total Core.hundred)) (decimal 1 100).
Proof.
  unfold calculate_custom_index. destruct index_configs as [|cfg cfgs]; [discriminate|].
  destruct (run_loop initial_state (cfg :: cfgs)) as [st|] eqn:Hloop; [|discriminate].
  cbn [bind]. apply custom_loop_initial in Hloop as (_ & _ & Hok).
  destruct (validation_errors st); [|discriminate].
  destruct (Hok eq_refl) as [Hall Htot].
  destruct (eqb (total_weight st) zero) eqn:Hz; [discriminate|].
  rewrite (contributions_total (total_weight st) (indices_data st) Hz zero).
  cbn [bind fst snd]. intros [= <-].
  cbn [indices total_weight_original weighted_average weight_imbalance].
  destruct (differences_map (List.map (normalised_entry (total_weight st)) (indices_data st)))
    as (f & -> & Hf).
  set (g := fun d => f (normalised_entry (total_weight st) d)).
  rewrite List.map_map. fold g.
  assert (Hg : forall d, d_name (g d) = d_name d /\ d_value (g d) = d_value d /\
                         d_weight (g d) = d_weight d).
  { intros d. unfold g. destruct (Hf (normalised_entry (total_weight st) d))
      as (-> & -> & -> & _). repeat split. }
  assert (Hw : total_weight st = Core.sum (List.map weight_of (cfg :: cfgs))).
  { rewrite Htot. f_equal. now apply accepted_values in Hall as (_ & -> & _). }
  cbv zeta. rewrite <- Hw.
  split; [now apply Forall2_accepted_map|].
  split; [reflexivity|]. split; [exact Hz|].
  assert (Hc : List.map contribution (List.map g (indices_data st))
               = List.map contribution
                   (List.map (normalised_entry (total_weight st)) (indices_data st))).
  { rewrite !List.map_map. apply List.map_ext. intros d. unfold g.
    now destruct (Hf (normalised_entry (total_weight st) d)) as (_ & _ & _ & -> & _). }
  split.
  { rewrite !List.map_map. apply List.map_ext. intros d. unfold g.
    destruct (Hf (normalised_entry (total_weight st) d)) as (_ & Hv & Hwt & -> & _).
    cbn [normalised_entry contribution d_value d_weight] in *. now rewrite Hv, Hwt. }
  split.
  { rewrite !List.map_map. apply List.map_ext. intros d. unfold g.
    destruct (Hf (normalised_entry (total_weight st) d)) as (_ & Hv & Hwt & _ & ->).
    cbn [normalised_entry normalized_weight d_value d_weight] in *. now rewrite Hwt. }
  split; [now rewrite Hc|reflexivity].
Qed.

(** *** Exceptions of the loop *)

Lemma convert_raises idx_config e :
  convert idx_config = Raise e ->
  Core.caught e = true \/ e = KeyError \/ e = OverflowError.
Proof.
  unfold convert.
  destruct (value idx_config) as [rv|]; cbn [item bind];
    [|intros [= <-]; auto].
  destruct (Core.float rv) as [v|e1] eqn:E1; cbn [bind];
    [|intros [= <-]; apply float_raises in E1; tauto].
  destruct (weight idx_config) as [rw|]; cbn [item bind];
    [|intros [= <-]; auto].
  destruct (Core.float rw) as [w|e2] eqn:E2; cbn [bind];
    [discriminate|intros [= <-]; apply float_raises in E2; tauto].
Qed.

Lemma custom_loop_body_raise st idx_config e :
  loop_body st idx_config = Raise e <-> escapes idx_config e.
Proof.
  unfold loop_body, escapes.
  destruct (name idx_config) as [[n|]|] eqn:Hn.
  2,3: split; [discriminate|intros (? & H & _); discriminate H].
  destruct (String.eqb (strip n) "") eqn:Hs.
  { apply String.eqb_eq in Hs. split; [discriminate|].
    intros (? & [= <-] & H & _). contradiction. }
  apply String.eqb_neq in Hs.
  destruct (convert idx_config) as [[v w]|e1] eqn:Hc.
  - split.
    + destruct (leb v zero); [discriminate|]. destruct (ltb w zero); discriminate.
    + intros (? & _ & _ & H & _). discriminate H.
  - destruct (Core.caught e1) eqn:Hcaught.
    + split; [discriminate|]. intros (? & _ & _ & [= <-] & H). congruence.
    + split.
      * intros [= <-]. exists n. auto.
      * intros (? & _ & _ & [= <-] & _). reflexivity.
Qed.

Lemma custom_loop_raise index_configs : forall st e,
  run_loop st index_configs = Raise e ->
  Exists (fun c => escapes c e) index_configs.
Proof.
  induction index_configs as [|cfg rest IH]; intros st e; cbn [run_loop];
    [discriminate|].
  destruct (loop_body st cfg) as [st1|e1] eqn:Hb; cbn [bind].
  - intros H. apply Exists_cons_tl. now apply (IH st1).
  - intros [= <-]. apply Exists_cons_hd. now apply (custom_loop_body_raise st).
Qed.

Lemma custom_loop_escapes index_configs : forall st,
  Exists (fun c => exists e, escapes c e) index_configs ->
  exists e, run_loop st index_configs = Raise e.
Proof.
  induction index_configs as [|cfg rest IH]; intros st H; [inversion H|].
  cbn [run_loop]. destruct (loop_body st cfg) as [st1|e1] eqn:Hb; cbn [bind].
  - apply Exists_cons in H as [[e H]|H].
    + apply (custom_loop_body_raise st) in H. congruence.
    + now apply IH.
  - now exists e1.
Qed.

(** *** Configs that pass *)

Lemma custom_loop_accepts index_configs :
  Forall passes index_configs ->
  forall st, exists st',
    run_loop st index_configs = Return st' /\
    validation_errors st' = validation_errors st /\
    total_weight st'
    = fold_left add (List.map weight_of index_configs) (total_weight st).
Proof.
  induction 1 as [|cfg rest (v & w & (n & Hn & Hs & Hc) & Hpos & Hnn) _ IH];
    intros st; cbn [run_loop List.map fold_left].
  - exists st. repeat split.
  - unfold loop_body. rewrite Hn. apply String.eqb_neq in Hs. rewrite Hs, Hc, Hpos, Hnn.
    cbn [bind].
    match goal with |- context [run_loop ?s rest] => destruct (IH s) as (st' & Hr & He & Ht) end.
    exists st'. split; [exact Hr|]. split; [exact He|].
    assert (Hw : weight_of cfg = w) by (unfold weight_of; now rewrite Hc).
    rewrite Ht, Hw. reflexivity.
Qed.

(** *** [validate_custom_indices] *)

Lemma convert_inv idx_config v w :
  convert idx_config = Return (v, w) ->
  exists rv rw, value idx_config = Some rv /\ weight idx_config = Some rw /\
                Core.float rv = Return v /\ Core.float rw = Return w.
Proof.
  unfold convert.
  destruct (value idx_config) as [rv|]; cbn [item bind]; [|discriminate].
  destruct (Core.float rv) as [v'|] eqn:Fv; cbn [bind]; [|discriminate].
  destruct (weight idx_config) as [rw|]; cbn [item bind]; [|discriminate].
  destruct (Core.float rw) as [w'|] eqn:Fw; cbn [bind]; [|discriminate].
  intros [= <- <-]. exists rv, rw. repeat split; assumption.
Qed.

Lemma validate_body_well_formed errors idx_config :
  well_formed idx_config -> validate_body errors idx_config = inr errors.
Proof.
  intros (v & w & n & Hn & Hs & Hc).
  apply convert_inv in Hc as (rv & rw & Hv & Hw & Fv & Fw).
  unfold validate_body, check_name, check_number. rewrite Hn, Hv, Hw, Fv, Fw.
  apply String.eqb_neq in Hs. now rewrite Hs.
Qed.

Lemma validate_body_inv errors idx_config errors' :
  validate_body errors idx_config = inr errors' ->
  exists new, errors' = errors ++ new /\ (new = [] -> well_formed idx_config) /\
              (List.length new <= 3)%nat.
Proof.
  unfold validate_body, check_name, check_number, well_formed, holds, convert.
  destruct (name idx_config) as [[n|]|] eqn:Hn; [|discriminate|].
  - destruct (value idx_config) as [rv|] eqn:Hv; [|discriminate].
    destruct (weight idx_config) as [rw|] eqn:Hw;
      [|destruct (Core.float rv) as [?|e]; [|destruct (Core.caught e)]; discriminate].
    cbn [item bind].
    destruct (Core.float rv) as [v|e1]; [|destruct (Core.caught e1); [|discriminate]];
      (destruct (Core.float rw) as [w|e2]; [|destruct (Core.caught e2); [|discriminate]]);
      destruct (String.eqb (strip n) "") eqn:Hs; intros [= <-];
      rewrite <- ?app_assoc; cbn [app];
      try (eexists; split; [reflexivity|]; split; [discriminate|cbn; lia]).
    exists []. rewrite app_nil_r. split; [reflexivity|]. split; [|cbn; lia].
    intros _. apply String.eqb_neq in Hs. exists v, w, n. auto.
  - destruct (value idx_config) as [rv|]; [|discriminate].
    destruct (Core.float rv) as [v|e1]; [|destruct (Core.caught e1); discriminate].
    destruct (weight idx_config) as [rw|]; [|discriminate].
    destruct (Core.float rw) as [w|e2]; [|destruct (Core.caught e2); discriminate].
    intros [= <-]. exists [EmptyName]. split; [reflexivity|].
    split; [discriminate|cbn; lia].
Qed.

Lemma validate_loop_well_formed index_configs :
  Forall well_formed index_configs ->
  forall errors, validate_loop errors index_configs = inr errors.
Proof.
  induction 1 as [|cfg rest H _ IH]; intros errors; cbn [validate_loop]; [reflexivity|].
  rewrite (validate_body_well_formed _ _ H). apply IH.
Qed.

Lemma validate_loop_inv index_configs : forall errors errors',
  validate_loop errors index_configs = inr errors' ->
  exists new, errors' = errors ++ new /\
              (new = [] -> Forall well_formed index_configs) /\
              (List.length new <= 3 * List.length index_configs)%nat.
Proof.
  induction index_configs as [|cfg rest IH]; intros errors errors' H;
    cbn [validate_loop] in H.
  - injection H as <-. exists []. rewrite app_nil_r.
    split; [reflexivity|]. split; [constructor|cbn; lia].
  - destruct (validate_body errors cfg) as [|errors1] eqn:Hb; [discriminate H|].
    apply validate_body_inv in Hb as (new1 & -> & H1 & L1).
    apply IH in H as (new2 & -> & H2 & L2).
    exists (new1 ++ new2). rewrite app_assoc. split; [reflexivity|]. split.
    + intros Hnil. apply app_eq_nil in Hnil as [-> ->]. constructor; auto.
    + rewrite length_app. cbn [List.length]. lia.
Qed.

Lemma validate_passes_iff index_configs :
  validate_custom_indices index_configs = inr (true, []) <->
  Forall well_formed index_configs.
Proof.
  unfold validate_custom_indices. split.
  - destruct (validate_loop [] index_configs) as [|errors] eqn:Hl; [discriminate|].
    intros [= _ ->]. apply validate_loop_inv in Hl as (new & Hnew & Hok & _).
    cbn [app] in Hnew. symmetry in Hnew. auto.
  - intros H. now rewrite (validate_loop_well_formed _ H).
Qed.

End CustomFacts.

Section CustomTheorems.
Import Binary64 Custom CustomSpec.

(** X10.  On success the call returns what its three loops compute, in floats:
    every config has its entry, the total is the float sum of the weights
    (from 0.0, in the order of the list) and is not zero, each normalised
    weight is [weight / total * 100], each contribution is
    [value * normalised weight / 100], the weighted average is the float sum
    of the contributions, and the imbalance flag says whether the total is
    more than 0.01 away from 100. *)
Theorem custom_average_is_the_sum_of_contributions
    (index_configs : list index_config) (r : custom_result) :
  calculate_custom_index index_configs = Return (Some (Success r)) ->
  let total := Core.sum (List.map weight_of index_configs) in
  Forall2 accepted index_configs (indices r) /\
  total_weight_original r = total /\
  eqb total zero = false /\
  List.map normalized_weight (indices r)
    = List.map (fun d => Some (mul (div (d_weight d) total) Core.hundred)) (indices r) /\
  List.map contribution (indices r)
    = List.map (fun d => div (mul (d_value d) (mul (div (d_weight d) total) Core.hundred))
                           Core.hundred) (indices r) /\
  weighted_average r = Core.sum (List.map contribution (indices r)) /\
  weight_imbalance r = gtb (SFabs (sub total Core.hundred)) (decimal 1 100).
Proof.
  intros Hr total.
  apply custom_success_inv in Hr as (Hall & Htot & Hz & Hc & Hn & Havg & Himb).
  fold total in Htot, Hz, Hc, Hn, Himb.
  repeat split; assumption.
Qed.

(** Two indices, 115.45 at weight 60 and 110 at weight 20: the normalised
    weights are 75 and 25 and the weighted average lies between 114.08 and
    114.09. *)
Lemma custom_average_is_the_sum_of_contributions_witness :
  exists r,
    calculate_custom_index MoreExamples.two_configs = Return (Some (Success r)) /\
    List.map normalized_weight (indices r) = [Some (of_Z 75); Some (of_Z 25)] /\
    weighted_average r = Core.sum (List.map contribution (indices r)) /\
    ltb (decimal 11408 100) (weighted_average r) = true /\
    ltb (weighted_average r) (decimal 11409 100) = true.
Proof.
  destruct (calculate_custom_index MoreExamples.two_configs) as [[[errs|r]|]|e] eqn:E;
    try (vm_compute in E; discriminate E).
  exists r. split; [reflexivity|].
  destruct (custom_average_is_the_sum_of_contributions _ r E)
    as (_ & _ & _ & _ & _ & Havg & _).
  split; [|split; [exact Havg|]];
    vm_compute in E; injection E as <-; vm_compute; split; reflexivity.
Defined.

(** X12.  [validate_custom_indices] does not promise success.  A call of
    [calculate_custom_index] succeeds exactly when the list is not empty,
    [validate_custom_indices] accepts it without a message, no value is
    [<= 0], no weight is [< 0] and the float sum of the weights is not zero.
    The comparisons are those of the floats: a value or a weight that is
    [nan] passes them. *)
Theorem custom_success_needs_more_than_validation
    (index_configs : list index_config) :
  (exists r, calculate_custom_index index_configs = Return (Some (Success r))) <->
  index_configs <> [] /\
  validate_custom_indices index_configs = inr (true, []) /\
  Forall (fun c => leb (value_of c) zero = false /\ ltb (weight_of c) zero = false)
    index_configs /\
  eqb (Core.sum (List.map weight_of index_configs)) zero = false.
Proof.
  rewrite validate_passes_iff. split.
  - intros (r & Hr). split; [intros ->; discriminate Hr|].
    apply custom_success_inv in Hr as (Hall & _ & Hz & _).
    apply accepted_values in Hall as (_ & _ & Hp).
    split; [|split; [|exact Hz]].
    + eapply Forall_impl; [exact Hp|]. intros c (v & w & H & _). now exists v, w.
    + eapply Forall_impl; [exact Hp|].
      intros c (v & w & (n & _ & _ & Hc) & Hv & Hw).
      unfold value_of, weight_of. rewrite Hc. now split.
  - intros (Hne & Hwf & Hvals & Hnz). unfold calculate_custom_index.
    destruct index_configs as [|cfg cfgs]; [contradiction|].
    assert (Hall : Forall passes (cfg :: cfgs)).
    { apply Forall_forall. intros c Hc.
      rewrite Forall_forall in Hwf. rewrite Forall_forall in Hvals.
      destruct (Hwf c Hc) as (v & w & Hh). destruct (Hvals c Hc) as [Hv Hw].
      exists v, w. destruct Hh as (n & Hn & Hs & Hconv).
      unfold value_of, weight_of in Hv, Hw. rewrite Hconv in Hv, Hw.
      split; [now exists n|now split]. }
    destruct (custom_loop_accepts _ Hall initial_state) as (st & -> & He & Ht).
    cbn [bind]. rewrite He. cbn [initial_state validation_errors total_weight] in *.
    fold (Core.sum (List.map weight_of (cfg :: cfgs))) in Ht. rewrite <- Ht in Hnz.
    rewrite Hnz, (contributions_total _ _ Hnz). cbn [bind]. eauto.
Qed.

(** The two configs succeed; a value of 0 passes the validation but not the
    call; a value [nan] passes both. *)
Lemma custom_success_needs_more_than_validation_witness :
  (exists r, calculate_custom_index MoreExamples.two_configs
             = Return (Some (Success r))) /\
  (validate_custom_indices [MoreExamples.config "Headline" (of_Z 0) (of_Z 60)]
   = inr (true, []) /\
   ~ exists r, calculate_custom_index [MoreExamples.config "Headline" (of_Z 0) (of_Z 60)]
               = Return (Some (Success r))) /\
  (exists r, calculate_custom_index [MoreExamples.nan_value]
             = Return (Some (Success r)) /\
             weighted_average r = nan).
Proof.
  split; [|split].
  - apply (proj2 (custom_success_needs_more_than_validation MoreExamples.two_configs)).
    split; [discriminate|]. split; [reflexivity|].
    split; [|reflexivity]. repeat constructor.
  - split; [reflexivity|]. intros H.
    apply (proj1 (custom_success_needs_more_than_validation _)) in H
      as (_ & _ & Hv & _).
    inversion Hv as [|c l [Hc _] _]. discriminate Hc.
  - destruct (proj2 (custom_success_needs_more_than_validation
                       [MoreExamples.nan_value])) as [r Hr].
    + split; [discriminate|]. split; [reflexivity|].
      split; [|reflexivity]. repeat constructor.
    + exists r. split; [exact Hr|].
      vm_compute in Hr. injection Hr as <-. reflexivity.
Defined.

(** X13.  The message "Total weight is zero" comes alone, and only when every
    config has passed the loop and the float sum of the weights is zero; the
    other messages come at most one per config. *)
Theorem zero_total_weight_is_reported_alone
    (index_configs : list index_config) (errs : list message) :
  calculate_custom_index index_configs = Return (Some (Failure errs)) ->
  errs <> [] /\
  (List.length errs <= List.length index_configs)%nat /\
  (TotalWeightZero ∈ errs ->
   errs = [TotalWeightZero] /\
   Forall passes index_configs /\
   eqb (Core.sum (List.map weight_of index_configs)) zero = true).
Proof.
  unfold calculate_custom_index. destruct index_configs as [|cfg cfgs]; [discriminate|].
  destruct (run_loop initial_state (cfg :: cfgs)) as [st|] eqn:Hloop; [|discriminate].
  cbn [bind]. apply custom_loop_initial in Hloop as (Hlen & Hno & Hok).
  destruct (validation_errors st) as [|m ms] eqn:Hv.
  - destruct (Hok eq_refl) as [Hall Htot].
    destruct (eqb (total_weight st) zero) eqn:Hz.
    + intros [= <-]. split; [discriminate|]. split; [cbn; lia|]. intros _.
      split; [reflexivity|].
      apply accepted_values in Hall as (_ & Hw & Hp).
      split; [exact Hp|]. now rewrite <- Hw, <- Htot.
    + rewrite (contributions_total _ _ Hz). discriminate.
  - intros [= <-]. split; [discriminate|]. split; [exact Hlen|].
    intros Hin. contradiction.
Qed.

Lemma zero_total_weight_is_reported_alone_witness :
  calculate_custom_index [MoreExamples.config "Headline" (decimal 11545 100) (of_Z 0)]
    = Return (Some (Failure [TotalWeightZero])) /\
  Forall passes [MoreExamples.config "Headline" (decimal 11545 100) (of_Z 0)].
Proof.
  assert (H : calculate_custom_index
                [MoreExamples.config "Headline" (decimal 11545 100) (of_Z 0)]
              = Return (Some (Failure [TotalWeightZero])))
    by (vm_compute; reflexivity).
  split; [exact H|].
  apply (zero_total_weight_is_reported_alone
           [MoreExamples.config "Headline" (decimal 11545 100) (of_Z 0)]
           [TotalWeightZero] H).
  apply list_elem_of_singleton. reflexivity.
Defined.

(** X14.  The call raises nothing but [KeyError] and [OverflowError], and it does
    so exactly when the loop meets a config with an accepted name on which a
    conversion raises one of the two: the key ['value'] or ['weight'] is
    absent, or holds an [int] too large for a float.  In particular no
    division by zero escapes. *)
Theorem custom_index_raises_key_and_overflow_errors
    (index_configs : list index_config) :
  ((exists e, calculate_custom_index index_configs = Raise e) <->
   Exists (fun c => exists e, escapes c e) index_configs) /\
  (forall e, calculate_custom_index index_configs = Raise e ->
     (e = KeyError \/ e = OverflowError) /\
     Exists (fun c => escapes c e) index_configs).
Proof.
  assert (Hraise : forall e, calculate_custom_index index_configs = Raise e ->
                             run_loop initial_state index_configs = Raise e).
  { intros e. unfold calculate_custom_index.
    destruct index_configs as [|cfg cfgs]; [discriminate|].
    destruct (run_loop initial_state (cfg :: cfgs)) as [st|e'] eqn:Hloop;
      cbn [bind]; [|now intros [= <-]].
    destruct (validation_errors st); [|discriminate].
    destruct (eqb (total_weight st) zero) eqn:Hz; [discriminate|].
    rewrite (contributions_total _ _ Hz). discriminate. }
  split; [split|].
  - intros [e H]. apply Hraise, custom_loop_raise in H.
    eapply Exists_impl; [exact H|]. intros c Hc. now exists e.
  - intros H. destruct (custom_loop_escapes _ initial_state H) as [e He].
    exists e. unfold calculate_custom_index.
    destruct index_configs as [|cfg cfgs]; [inversion H|]. now rewrite He.
  - intros e H. apply Hraise, custom_loop_raise in H. split; [|exact H].
    apply Exists_exists in H as (c & _ & n & _ & _ & Hc & Hcaught).
    apply convert_raises in Hc as [Hc|Hc]; [congruence|exact Hc].
Qed.

Lemma custom_index_raises_key_and_overflow_errors_witness :
  calculate_custom_index
    [MoreExamples.config "Headline" (decimal 11545 100) (of_Z 60); MoreExamples.no_value]
  = Raise KeyError /\
  calculate_custom_index
    [MoreExamples.config "Headline" (decimal 11545 100) (of_Z 60); MoreExamples.huge_value]
  = Raise OverflowError.
Proof.
  split.
  - destruct (proj2 (proj1 (custom_index_raises_key_and_overflow_errors
                [MoreExamples.config "Headline" (decimal 11545 100) (of_Z 60);
                 MoreExamples.no_value]))) as [e He].
    + apply Exists_cons_tl, Exists_cons_hd. exists KeyError, "Food".
      repeat split. discriminate.
    + rewrite He. vm_compute in He. symmetry. exact He.
  - destruct (proj2 (proj1 (custom_index_raises_key_and_overflow_errors
                [MoreExamples.config "Headline" (decimal 11545 100) (of_Z 60);
                 MoreExamples.huge_value]))) as [e He].
    + apply Exists_cons_tl, Exists_cons_hd. exists OverflowError, "Food".
      repeat split. discriminate.
    + rewrite He. vm_compute in He. symmetry. exact He.
Defined.

Lemma check_number_escapes idx_config field msg errors :
  (exists e, check_number idx_config field msg errors = inl e) <->
  field = None \/
  (exists raw, field = Some raw /\ Core.float raw = Raise OverflowError) \/
  (name idx_config = None /\
   exists raw e, field = Some raw /\ Core.float raw = Raise e /\ Core.caught e = true).
Proof.
  unfold check_number. destruct field as [raw|].
  2: { split; [auto|]. intros _. eauto. }
  destruct (Core.float raw) as [v|e] eqn:Hf.
  - split; [intros [e H]; discriminate H|].
    intros [H|[(r & [= <-] & H)|(_ & r & e & [= <-] & H & _)]]; congruence.
  - destruct (Core.caught e) eqn:Hc.
    + destruct (name idx_config) as [n|] eqn:Hn.
      * split; [intros [e' H]; discriminate H|].
        intros [H|[(r & [= <-] & H)|(H & _)]]; try discriminate.
        rewrite Hf in H. injection H as ->. discriminate Hc.
      * split; [|eauto]. intros _. right. right. split; [reflexivity|].
        now exists raw, e.
    + split; [|eauto]. intros _. right. left. exists raw. split; [reflexivity|].
      rewrite Hf. f_equal. apply (uncaught_overflow e Hc). now apply float_raises in Hf.
Qed.

Lemma validate_body_escapes (errors : list complaint) idx_config :
  (exists e, validate_body errors idx_config = inl e) <-> unchecked idx_config.
Proof.
  unfold validate_body, unchecked.
  destruct (check_name idx_config errors) as [e0|errors0] eqn:Hn.
  - unfold check_name in Hn. destruct (name idx_config) as [[n|]|]; try discriminate.
    split; [auto|eauto].
  - assert (Hname : name idx_config <> Some NotStr).
    { unfold check_name in Hn. destruct (name idx_config) as [[n|]|]; discriminate. }
    destruct (check_number idx_config (value idx_config) InvalidValue errors0)
      as [e1|errors1] eqn:Hv.
    + assert (Hx := proj1 (check_number_escapes _ _ _ _) (ex_intro _ e1 Hv)).
      split; [|eauto]. intros _.
      destruct Hx as [Hx|[(raw & Hr & Hf)|(Hnone & raw & e & Hr & Hf & Hc)]].
      * auto.
      * right. right. right. left. exists raw. auto.
      * right. right. right. right. split; [exact Hnone|]. exists raw, e. auto.
    + assert (Hnv : ~ exists e, check_number idx_config (value idx_config)
                                  InvalidValue errors0 = inl e)
        by (rewrite Hv; intros [e H]; discriminate H).
      rewrite check_number_escapes in Hnv.
      rewrite check_number_escapes. split.
      * intros [Hx|[(raw & Hr & Hf)|(Hnone & raw & e & Hr & Hf & Hc)]].
        -- auto.
        -- right. right. right. left. exists raw. auto.
        -- right. right. right. right. split; [exact Hnone|]. exists raw, e. auto.
      * intros [Hx|[Hx|[Hx|[(raw & [Hr|Hr] & Hf)|(Hnone & raw & e & [Hr|Hr] & Hf & Hc)]]]].
        -- contradiction.
        -- exfalso. apply Hnv. auto.
        -- auto.
        -- exfalso. apply Hnv. right. left. now exists raw.
        -- right. left. now exists raw.
        -- exfalso. apply Hnv. right. right. split; [exact Hnone|]. now exists raw, e.
        -- right. right. split; [exact Hnone|]. now exists raw, e.
Qed.

Lemma validate_loop_escapes index_configs : forall errors,
  (exists e, validate_loop errors index_configs = inl e) <->
  Exists unchecked index_configs.
Proof.
  induction index_configs as [|cfg rest IH]; intros errors; cbn [validate_loop].
  - split; [intros [e H]; discriminate H|intros H; inversion H].
  - rewrite Exists_cons, <- (validate_body_escapes errors cfg).
    destruct (validate_body errors cfg) as [e|errors'].
    + split; eauto.
    + rewrite (IH errors'). split; [auto|].
      intros [[e H]|H]; [discriminate H|exact H].
Qed.

(** X16.  [validate_custom_indices] does not catch everything.  It raises instead
    of returning exactly when some config has a name that is not a [str],
    lacks the key ['value'] or ['weight'], holds an [int] too large for a
    float, or has an invalid number and no key ['name'] for the message; it
    raises nothing but [AttributeError], [KeyError] and [OverflowError], and
    when it returns, the flag says whether the list of messages is empty. *)
Theorem validation_does_not_catch_everything (index_configs : list index_config) :
  ((exists e, validate_custom_indices index_configs = inl e) <->
   Exists unchecked index_configs) /\
  (forall e, validate_custom_indices index_configs = inl e ->
     e = AttributeError \/ e = Uncaught KeyError \/ e = Uncaught OverflowError) /\
  (forall ok errors, validate_custom_indices index_configs = inr (ok, errors) ->
     (ok = true <-> errors = []) /\
     (List.length errors <= 3 * List.length index_configs)%nat).
Proof.
  split; [|split].
  - rewrite <- (validate_loop_escapes index_configs []).
    unfold validate_custom_indices.
    destruct (validate_loop [] index_configs) as [e|errors].
    + split; eauto.
    + split; intros [e H]; discriminate H.
  - assert (Hnum : forall cfg field msg errors e,
              check_number cfg field msg errors = inl e ->
              e = Uncaught KeyError \/ e = Uncaught OverflowError).
    { intros cfg field msg errors e. unfold check_number.
      destruct field as [raw|]; [|intros [= <-]; auto].
      destruct (Core.float raw) as [v|e1] eqn:Hf; [discriminate|].
      destruct (Core.caught e1) eqn:Hc.
      - destruct (name cfg); [discriminate|]. intros [= <-]. auto.
      - intros [= <-]. right. f_equal.
        apply (uncaught_overflow e1 Hc). now apply float_raises in Hf. }
    assert (Hbody : forall errors cfg e,
              validate_body errors cfg = inl e ->
              e = AttributeError \/ e = Uncaught KeyError \/ e = Uncaught OverflowError).
    { intros errors cfg e. unfold validate_body.
      destruct (check_name cfg errors) as [e0|errors0] eqn:Hn.
      - unfold check_name in Hn. destruct (name cfg) as [[n|]|]; try discriminate.
        injection Hn as <-. intros [= <-]. auto.
      - destruct (check_number cfg (value cfg) InvalidValue errors0)
          as [e1|errors1] eqn:Hv.
        + intros [= <-]. right. eapply Hnum, Hv.
        + intros H. right. eapply Hnum, H. }
    assert (Hloop : forall cfgs errors e,
              validate_loop errors cfgs = inl e ->
              e = AttributeError \/ e = Uncaught KeyError \/ e = Uncaught OverflowError).
    { induction cfgs as [|cfg rest IH]; intros errors e; cbn [validate_loop];
        [discriminate|].
      destruct (validate_body errors cfg) as [e'|errors'] eqn:Hb.
      - intros [= <-]. eapply Hbody, Hb.
      - apply IH. }
    intros e. unfold validate_custom_indices.
    destruct (validate_loop [] index_configs) as [e'|errors] eqn:Hl;
      [|discriminate].
    intros [= <-]. eapply Hloop, Hl.
  - intros ok errors. unfold validate_custom_indices.
    destruct (validate_loop [] index_configs) as [e'|errors'] eqn:Hl; [discriminate|].
    intros [= <- <-]. split.
    + rewrite Nat.eqb_eq. split; [apply List.length_zero_iff_nil|now intros ->].
    + apply validate_loop_inv in Hl as (new & -> & _ & Hlen). exact Hlen.
Qed.

Lemma validation_does_not_catch_everything_witness :
  (exists e,
     validate_custom_indices
       [MoreExamples.config "Headline" (decimal 11545 100) (of_Z 60);
        MoreExamples.no_value] = inl e) /\
  validate_custom_indices [MoreExamples.huge_value] = inl (Uncaught OverflowError).
Proof.
  split.
  - apply (proj2 (proj1 (validation_does_not_catch_everything
                           [MoreExamples.config "Headline" (decimal 11545 100) (of_Z 60);
                            MoreExamples.no_value]))).
    apply Exists_cons_tl, Exists_cons_hd. right. left. reflexivity.
  - destruct (proj2 (proj1 (validation_does_not_catch_everything
                              [MoreExamples.huge_value]))) as [e He].
    + apply Exists_cons_hd. right. right. right. left.
      exists (Core.PyInt (10 ^ 400)). split; [now left|reflexivity].
    + rewrite He. vm_compute in He. symmetry. exact He.
Defined.

End CustomTheorems.

(** ** Loading the price table *)

Section PricesTheorems.
Import Float Engine Prices.

Lemma dict_get_column {V : Type} (d : list (string * V)) (key : string) :
  key ∈ List.map fst d -> exists v, dict_get d key = Some v.
Proof.
  unfold dict_get. induction d as [|[k v] d IH]; cbn [List.map List.find fst].
  - intros H. now apply elem_of_nil in H.
  - intros H. destruct (String.eqb k key) eqn:E; [cbn; eauto|].
    apply elem_of_cons in H as [->|H]; [|auto].
    rewrite String.eqb_refl in E. discriminate E.
Qed.

Lemma months_are_columns prices month :
  month ∈ sorted (List.filter is_month_column (columns prices)) ->
  is_month_column month = true /\
  exists cells, dict_get (price_columns prices) month = Some cells.
Proof.
  intros H. unfold sorted in H. rewrite (stable_sort_perm String.compare _) in H.
  apply list_elem_of_In, List.filter_In in H as [Hin Hm].
  split; [exact Hm|]. unfold columns in Hin. destruct Hin as [<-|Hin].
  - vm_compute in Hm. discriminate Hm.
  - apply dict_get_column, list_elem_of_In, Hin.
Qed.

Lemma StronglySorted_sublist {A : Type} (R : A -> A -> Prop) (l1 l2 : list A) :
  sublist l1 l2 -> StronglySorted R l2 -> StronglySorted R l1.
Proof.
  induction 1 as [|x l1 l2 Hs IH|x l1 l2 Hs IH]; intros H2.
  - constructor.
  - apply StronglySorted_inv in H2 as [H2 Hx]. constructor; [auto|].
    apply Forall_forall. intros y Hy. rewrite Forall_forall in Hx.
    apply Hx. now apply (elem_of_sublist l1 l2).
  - apply StronglySorted_inv in H2 as [H2 _]. auto.
Qed.

(** X17.  What [load_prices] leaves in [self.months]: the columns whose name has
    a hyphen and "20" or "21", each once per such column, in ascending
    order; every one is a column of the table with prices, and the column
    of the item codes is not among them. *)
Theorem load_prices_finds_the_months (self : CPIEngine) (prices : price_table) :
  months (load_prices self prices)
    ≡ₚ List.filter is_month_column (List.map fst (price_columns prices)) /\
  StronglySorted (Wizard.le_of String.compare) (months (load_prices self prices)) /\
  (forall month, month ∈ months (load_prices self prices) ->
     month <> "Item_Code" /\
     exists cells, dict_get (price_columns prices) month = Some cells).
Proof.
  cbn [load_prices months]. split; [|split].
  - unfold sorted. rewrite (stable_sort_perm String.compare _). reflexivity.
  - apply stable_sort_sorted, string_compare_order.
  - intros month H. apply months_are_columns in H as [Hm Hc]. split; [|exact Hc].
    intros ->. vm_compute in Hm. discriminate Hm.
Qed.

(** X18.  After [load_prices] no calculation fails on a month: a call of
    [_calculate_laspeyres] raises nothing but [ZeroDivisionError], and the
    months of a result are in ascending order, whatever the order of the
    columns in the file. *)
Theorem no_key_error_after_load_prices
    (self : CPIEngine) (prices : price_table)
    (item_codes : list string) (variant_name : string) :
  (forall e, _calculate_laspeyres (load_prices self prices) item_codes variant_name
             = Raise e -> e = ZeroDivisionError) /\
  (forall r, _calculate_laspeyres (load_prices self prices) item_codes variant_name
             = Return (Some r) ->
     StronglySorted (Wizard.le_of String.compare) (List.map Month (Monthly_Data r))).
Proof.
  split.
  - intros e H. apply calculate_laspeyres_raise in H
      as [->|[-> (prices' & month & [= <-] & Hin & Hnone)]]; [reflexivity|].
    apply months_are_columns in Hin as [_ (cells & Hc)]. congruence.
  - intros r H.
    apply calculate_laspeyres_inv in H as (p & indices & _ & _ & _ & _ & _ & Hi & Hm).
    apply mom_changes_entries in Hm. apply monthly_indices_sublist in Hi.
    rewrite <- Hm, List.map_map in Hi. cbn [fst] in Hi.
    eapply StronglySorted_sublist; [exact Hi|].
    apply stable_sort_sorted, string_compare_order.
Qed.

Lemma no_key_error_after_load_prices_witness :
  exists r,
    _calculate_laspeyres (load_prices Examples.zero_weight MoreExamples.unordered_prices)
      ["01.1.1.1"; "01.1.2.1"] "Example" = Return (Some r) /\
    StronglySorted (Wizard.le_of String.compare) (List.map Month (Monthly_Data r)).
Proof.
  remember (_calculate_laspeyres
              (load_prices Examples.zero_weight MoreExamples.unordered_prices)
              ["01.1.1.1"; "01.1.2.1"] "Example") as call eqn:E.
  destruct call as [[r|]|e]; try (vm_compute in E; discriminate E).
  exists r. split; [reflexivity|]. symmetry in E.
  apply (proj2 (no_key_error_after_load_prices Examples.zero_weight
                  MoreExamples.unordered_prices
                  ["01.1.1.1"; "01.1.2.1"] "Example") r E).
Defined.

End PricesTheorems.

(** ** More on the wizard *)

Section WizardPicks.
Import Float Wizard.

Lemma iloc_elem_of names z name : iloc names z = Some name -> name ∈ names.
Proof.
  unfold iloc. destruct (0 <=? z)%Z.
  - apply list_elem_of_lookup_2.
  - destruct (0 <=? _)%Z; [apply list_elem_of_lookup_2|discriminate].
Qed.

Lemma elem_of_remove_first x y l : x <> y -> (x ∈ remove_first y l <-> x ∈ l).
Proof.
  intros Hne. induction l as [|z l IH]; cbn [remove_first]; [reflexivity|].
  destruct (String.eqb_spec z y) as [->|_].
  - rewrite elem_of_cons. tauto.
  - rewrite !elem_of_cons, IH. reflexivity.
Qed.

Lemma elem_of_toggle_other x y l : x <> y -> (x ∈ toggle y l <-> x ∈ l).
Proof.
  intros Hne. unfold toggle. destruct (bool_decide (y ∈ l)).
  - now apply elem_of_remove_first.
  - rewrite elem_of_app, list_elem_of_singleton. tauto.
Qed.

Lemma pick_loop_outside names tokens x : forall sel,
  x ∉ names -> (x ∈ pick_loop names tokens sel <-> x ∈ sel).
Proof.
  induction tokens as [|[|z|] tokens IH]; intros sel Hx; cbn [pick_loop];
    try reflexivity; [now apply IH|].
  destruct (iloc names z) as [name|] eqn:Hz; [|reflexivity].
  rewrite IH by exact Hx. apply elem_of_toggle_other.
  intros ->. apply iloc_elem_of in Hz. contradiction.
Qed.

(** X19.  A typed line touches nothing but the names of its level's table: the
    data, the item map, the tables, the indices made so far and the other
    levels stay as they are, and a name that is not in the table is selected
    afterwards exactly when it was before. *)
Theorem pick_exclusion_touches_only_its_level
    (self : CPIWizard) (lvl : level) (indices : list token) :
  let after := _pick_exclusion self lvl indices in
  df after = df self /\
  weights after = weights self /\
  item_map after = item_map self /\
  generated_indices after = generated_indices self /\
  (forall l, l <> lvl ->
     selected (selected_exclusions after) l = selected (selected_exclusions self) l) /\
  (forall x, x ∉ weights self lvl ->
     (x ∈ selected (selected_exclusions after) lvl
      <-> x ∈ selected (selected_exclusions self) lvl)).
Proof.
  cbv zeta. unfold _pick_exclusion.
  cbn [df weights item_map generated_indices selected_exclusions with_exclusions].
  repeat split; try reflexivity.
  - intros l Hl. now apply selected_set_other.
  - rewrite selected_set_same. now apply pick_loop_outside.
  - rewrite selected_set_same. now apply pick_loop_outside.
Qed.

Lemma pick_loop_stops names bad after before : forall sel,
  (bad = Junk \/ exists z, bad = Int z /\ iloc names z = None) ->
  pick_loop names (before ++ bad :: after) sel = pick_loop names before sel.
Proof.
  induction before as [|[|z|] before IH]; intros sel Hbad; cbn [app pick_loop].
  - destruct Hbad as [->|(z & -> & Hz)]; [reflexivity|]. cbn [pick_loop]. now rewrite Hz.
  - now apply IH.
  - destruct (iloc names z); [now apply IH|reflexivity].
  - reflexivity.
Qed.

Lemma pick_loop_blank names after before : forall sel,
  pick_loop names (before ++ Blank :: after) sel = pick_loop names (before ++ after) sel.
Proof.
  induction before as [|[|z|] before IH]; intros sel; cbn [app pick_loop].
  - reflexivity.
  - apply IH.
  - destruct (iloc names z); [apply IH|reflexivity].
  - reflexivity.
Qed.

(** X20.  The first index that is no number or no row of the table ends the
    line: what was typed after it is ignored, what was toggled before it
    stays toggled.  An empty piece between two commas is skipped. *)
Theorem bad_index_ends_the_line
    (self : CPIWizard) (lvl : level) (before after : list token) (bad : token) :
  (bad = Junk \/ exists z, bad = Int z /\ iloc (weights self lvl) z = None) ->
  _pick_exclusion self lvl (before ++ bad :: after) = _pick_exclusion self lvl before /\
  _pick_exclusion self lvl (before ++ Blank :: after)
  = _pick_exclusion self lvl (before ++ after).
Proof.
  intros Hbad. unfold _pick_exclusion.
  now rewrite pick_loop_stops, pick_loop_blank.
Qed.

Lemma bad_index_ends_the_line_witness :
  _pick_exclusion Examples.wizard_two_states division_level [Int 1; Int 7; Int 0]
  = _pick_exclusion Examples.wizard_two_states division_level [Int 1].
Proof.
  apply (bad_index_ends_the_line Examples.wizard_two_states division_level
           [Int 1] [Int 0] (Int 7)).
  right. exists 7%Z. split; reflexivity.
Defined.

End WizardPicks.

Section WizardSelections.
Import Float Wizard Status WizardSpec.

Lemma elem_of_codes_where items (col : item_map_row -> option string) names code :
  code ∈ codes_where items col names <->
  exists row n, row ∈ items /\ Item_Code row = code /\ col row = Some n /\ n ∈ names.
Proof.
  unfold codes_where. rewrite elem_of_list_to_set, list_elem_of_In, List.in_map_iff.
  split.
  - intros (row & Hc & Hrow). apply List.filter_In in Hrow as [Hin Hn].
    unfold name_isin in Hn. destruct (col row) as [n|] eqn:E; [|discriminate].
    apply bool_decide_eq_true in Hn. exists row, n.
    rewrite list_elem_of_In. auto.
  - intros (row & n & Hin & Hc & Hn & Hnames). exists row. split; [exact Hc|].
    apply List.filter_In. split; [now apply list_elem_of_In|].
    unfold name_isin. rewrite Hn. now apply bool_decide_eq_true.
Qed.

(** X21.  Which items the selections exclude: a code is excluded exactly when
    some row of the item map with that code has a selected division, group,
    class or item name.  All the rows of an excluded code go with it. *)
Theorem excluded_codes_by_name (self : CPIWizard) (code : string) :
  let ex := selected_exclusions self in
  code ∈ _get_excluded_item_codes self <->
  exists row, row ∈ item_map self /\ Item_Code row = code /\
    ((exists n, Division_Name row = Some n /\ n ∈ ex_division ex) \/
     (exists n, Group_Name row = Some n /\ n ∈ ex_group ex) \/
     (exists n, Class_Name row = Some n /\ n ∈ ex_class ex) \/
     Item_Name row ∈ ex_item ex).
Proof.
  cbv zeta. unfold _get_excluded_item_codes. cbv zeta.
  rewrite !elem_of_union, !elem_of_codes_where, elem_of_empty. split.
  - intros [[[[[]|H]|H]|H]|H]; destruct H as (row & n & Hin & Hc & Hn & Hsel);
      exists row; (split; [exact Hin|]); (split; [exact Hc|]); eauto 6.
    injection Hn as ->. auto.
  - intros (row & Hin & Hc & [(n & Hn & Hs)|[(n & Hn & Hs)|[(n & Hn & Hs)|Hs]]]).
    + left. left. left. right. eauto 6.
    + left. left. right. eauto 6.
    + left. right. eauto 6.
    + right. exists row, (Item_Name row). auto.
Qed.

Lemma excluded_codes_by_name_witness :
  "01.1.1.1" ∈ _get_excluded_item_codes
                 (_pick_exclusion Examples.wizard_two_states division_level [Int 0]).
Proof.
  apply (proj2 (excluded_codes_by_name
                  (_pick_exclusion Examples.wizard_two_states division_level [Int 0])
                  "01.1.1.1")).
  eexists. split; [left|]. split; [reflexivity|].
  left. exists "Food". split; [reflexivity|left].
Defined.

(** X22.  The weight that the status display calls remaining is the total by
    which [_calculate_current] renormalises, and the removed and the
    remaining weight add up to the weight of the item map. *)
Theorem status_shows_the_weight_that_is_renormalised (self : CPIWizard) :
  let summary := _show_current_status self in
  weight_remaining summary == Qsum (List.map Weight (remaining_items self)) /\
  weight_removed summary + weight_remaining summary
    == Qsum (List.map Weight (item_map self)) /\
  (remaining_items self = [] -> weight_remaining summary == 0).
Proof.
  cbv zeta. unfold _show_current_status, remaining_items. cbv zeta.
  cbn [weight_remaining weight_removed].
  pose proof (Qsum_filter_split Weight
                (fun r => bool_decide (Item_Code r ∈ _get_excluded_item_codes self))
                (item_map self)) as Hsplit.
  cbv beta in Hsplit.
  split; [|split].
  - rewrite <- Hsplit. ring.
  - ring.
  - intros Hnil. rewrite Hnil in Hsplit. cbn [List.map] in Hsplit.
    rewrite Qsum_nil in Hsplit. rewrite <- Hsplit. ring.
Qed.

End WizardSelections.

Section WizardObservations.
Import Float Wizard WizardSpec.

Lemma concat_map_filter {A B : Type} (f : A -> list B) (p : A -> bool) (l : list A) :
  (forall a, p a = false -> f a = []) ->
  List.concat (List.map f (List.filter p l)) = List.concat (List.map f l).
Proof.
  intros H. induction l as [|a l IH]; [reflexivity|]. cbn [List.filter List.map List.concat].
  destruct (p a) eqn:E; cbn [List.map List.concat].
  - now rewrite IH.
  - now rewrite (H a E), IH.
Qed.

Lemma filter_andb {A : Type} (p q : A -> bool) (l : list A) :
  List.filter (fun a => p a && q a) l = List.filter q (List.filter p l).
Proof.
  induction l as [|a l IH]; [reflexivity|]. cbn [List.filter].
  destruct (p a); cbn [andb List.filter]; [|exact IH].
  destruct (q a); now rewrite IH.
Qed.

Lemma filter_no_match (remaining : list item_map_row) (d : data_row) :
  bool_decide (d_code d ∈ List.map Item_Code remaining) = false ->
  List.filter (fun r => String.eqb (d_code d) (Item_Code r)) remaining = [].
Proof.
  intros H. apply bool_decide_eq_false in H.
  induction remaining as [|r rest IH]; [reflexivity|]. cbn [List.filter].
  destruct (String.eqb_spec (d_code d) (Item_Code r)) as [Heq|_].
  - exfalso. apply H. cbn [List.map]. rewrite Heq. left.
  - apply IH. intros Hin. apply H. cbn [List.map]. now right.
Qed.

Lemma merged_counts self :
  merged self
  = merge (List.filter (counts self) (df self)) (remaining_items self)
      (Qsum (List.map Weight (remaining_items self))).
Proof.
  unfold merged. cbv zeta. unfold counts. rewrite filter_andb. unfold merge.
  symmetry. apply concat_map_filter. intros d Hd.
  now rewrite (filter_no_match _ _ Hd).
Qed.

(** X23.  The result of [_calculate_current] depends on the data only through
    the item-level observations of the items that are not excluded: rows of
    aggregates, of excluded items and of items that the item map does not
    know change nothing. *)
Theorem only_remaining_observations_count
    (self other : CPIWizard) (index_name : string) :
  item_map other = item_map self ->
  selected_exclusions other = selected_exclusions self ->
  List.filter (counts self) (df other) = List.filter (counts self) (df self) ->
  _calculate_current other index_name = _calculate_current self index_name.
Proof.
  intros Hmap Hsel Hdf.
  assert (Hrem : remaining_items other = remaining_items self).
  { unfold remaining_items, _get_excluded_item_codes. now rewrite Hmap, Hsel. }
  assert (Hcounts : forall d, counts other d = counts self d).
  { intros d. unfold counts. now rewrite Hrem. }
  unfold _calculate_current. rewrite Hrem.
  rewrite (merged_counts other), (merged_counts self), Hrem.
  rewrite (List.filter_ext _ _ Hcounts), Hdf. reflexivity.
Qed.

Lemma only_remaining_observations_count_witness :
  _calculate_current MoreExamples.wizard_with_aggregates "Custom"
  = _calculate_current Examples.wizard_two_states "Custom".
Proof.
  apply (only_remaining_observations_count Examples.wizard_two_states
           MoreExamples.wizard_with_aggregates "Custom"); reflexivity.
Defined.

End WizardObservations.

Section WizardBounds.
Import Float Wizard.

Lemma merge_finite (item_data : list data_row) (remaining : list item_map_row) (total : Q) :
  0 < total ->
  Forall (fun r => 0 < Weight r) remaining ->
  exists x : list (data_row * Q),
    merge item_data remaining total = List.map (fun dw => (fst dw, Fin (snd dw))) x /\
    Forall (fun dw => 0 < snd dw /\ In (fst dw) item_data) x.
Proof.
  intros Ht Hrem. unfold merge.
  induction item_data as [|d rest (x & Hx & Hall)]; cbn [List.map List.concat].
  - exists []. split; [reflexivity|constructor].
  - assert (Hd : exists y : list (data_row * Q),
             List.map (fun r => (d, norm_weight total r))
               (List.filter (fun r => String.eqb (d_code d) (Item_Code r)) remaining)
             = List.map (fun dw => (fst dw, Fin (snd dw))) y /\
             Forall (fun dw => 0 < snd dw /\ fst dw = d) y).
    { clear - Ht Hrem. induction Hrem as [|r remaining Hr _ (y & Hy & Hall)];
        cbn [List.filter List.map].
      - exists []. split; [reflexivity|constructor].
      - destruct (String.eqb (d_code d) (Item_Code r)); [|eauto].
        exists ((d, Weight r / total * 100) :: y). cbn [List.map fst snd]. split.
        + rewrite Hy, norm_weight_finite by lra. reflexivity.
        + constructor; [|exact Hall]. cbn [fst snd]. split; [|reflexivity].
          apply Qmult_lt_0_compat; [|reflexivity].
          apply Qlt_shift_div_l; [exact Ht|]. lra. }
    destruct Hd as (y & Hy & Hally). exists (y ++ x).
    rewrite Hx, Hy, List.map_app. split; [reflexivity|].
    apply Forall_app. split.
    + eapply Forall_impl; [exact Hally|]. intros dw [H1 H2].
      split; [exact H1|left; now symmetry].
    + eapply Forall_impl; [exact Hall|]. intros dw [H1 H2].
      split; [exact H1|now right].
Qed.

Lemma filter_map_fst {A B C : Type} (p : A -> bool) (g : B -> C) (x : list (A * B)) :
  List.filter (fun dw => p (fst dw)) (List.map (fun dw => (fst dw, g (snd dw))) x)
  = List.map (fun dw => (fst dw, g (snd dw))) (List.filter (fun dw => p (fst dw)) x).
Proof.
  induction x as [|[a b] x IH]; [reflexivity|]. cbn [List.map List.filter fst snd].
  destruct (p a); cbn [List.map fst snd]; now rewrite IH.
Qed.

Lemma Qsum_positive (l : list Q) :
  l <> [] -> Forall (fun w => 0 < w) l -> 0 < Qsum l.
Proof.
  intros Hne Hall. destruct Hall as [|w l Hw Hl]; [contradiction|].
  rewrite Qsum_cons.
  assert (0 <= Qsum l).
  { apply Qsum_nonnegative. eapply Forall_impl; [exact Hl|]. intros x Hx. cbn in Hx. lra. }
  lra.
Qed.

Lemma grouped_key merged index_name row :
  In row (grouped merged index_name) ->
  exists dw, In dw merged /\
    key_of (fst dw) = (date row, year row, month row, state row, sector row).
Proof.
  unfold grouped. rewrite List.in_map_iff.
  intros ([[[[d y] m] st] se] & <- & Hk). cbn [date year month state sector].
  apply list_elem_of_In in Hk. rewrite (stable_sort_perm compare_keys _) in Hk.
  apply elem_of_remove_dups, list_elem_of_In, List.in_map_iff in Hk
    as (dw & Hkey & Hdw).
  exists dw. auto.
Qed.

(** X24.  With positive weights the custom index of every period and group is a
    finite number between the smallest and the largest index value of the
    data: no [nan] and no [inf] reaches the series. *)
Theorem wizard_index_within_the_observations
    (self : CPIWizard) (index_name : string)
    (series : list ((series_row * float64) * float64)) (lo hi : Q) :
  _calculate_current self index_name = Some series ->
  Forall (fun r => 0 < Weight r) (remaining_items self) ->
  Forall (fun d => lo <= d_index d <= hi) (df self) ->
  forall row, In row series ->
  exists q, index (fst (fst row)) = Fin q /\ lo <= q <= hi.
Proof.
  intros Hs Hw Hrange row Hrow.
  pose proof (calculate_current_rows self index_name series row Hs Hrow) as Hg.
  assert (Hne : remaining_items self <> []).
  { unfold _calculate_current in Hs. destruct (remaining_items self); [discriminate Hs|].
    discriminate. }
  assert (Htotal : 0 < Qsum (List.map Weight (remaining_items self))).
  { apply Qsum_positive.
    - intros H. apply Hne. now apply List.map_eq_nil in H.
    - now apply Forall_map_iff. }
  destruct (merge_finite
              (List.filter (fun d => negb (String.eqb (d_item d) "*")) (df self))
              (remaining_items self) _ Htotal Hw) as (x & Hx & Hall).
  fold (merged self) in Hx.
  rewrite (grouped_index _ _ _ Hg).
  destruct (grouped_key _ _ _ Hg) as (dw & Hdw & Hkey).
  set (k := (date (fst (fst row)), year (fst (fst row)), month (fst (fst row)),
             state (fst (fst row)), sector (fst (fst row)))) in *.
  rewrite Hx in Hdw |- *.
  rewrite (filter_map_fst (fun d => key_eqb (key_of d) k) Fin x).
  set (matched := List.filter (fun dw0 : data_row * Q => key_eqb (key_of (fst dw0)) k) x).
  assert (Hmatched : Forall (fun dw0 => 0 < snd dw0 /\ lo <= d_index (fst dw0) <= hi) matched).
  { apply Forall_forall. intros dw0 Hin. apply list_elem_of_In in Hin.
    apply List.filter_In in Hin as [Hin _].
    rewrite Forall_forall in Hall. destruct (Hall dw0 (proj2 (list_elem_of_In _ _) Hin))
      as [Hpos Hd].
    split; [exact Hpos|]. apply List.filter_In in Hd as [Hd _].
    rewrite Forall_forall in Hrange. apply Hrange, list_elem_of_In, Hd. }
  assert (Hnonempty : matched <> []).
  { apply List.in_map_iff in Hdw as (dq & <- & Hdq). cbn [fst] in Hkey.
    intros Hnil.
    assert (Hin : In dq matched).
    { apply List.filter_In. split; [exact Hdq|]. unfold key_eqb.
      now apply bool_decide_eq_true. }
    rewrite Hnil in Hin. destruct Hin. }
  assert (Hsum : 0 < Qsum (List.map snd matched)).
  { apply Qsum_positive.
    - intros H. apply Hnonempty. now apply List.map_eq_nil in H.
    - apply Forall_map_iff. eapply Forall_impl; [exact Hmatched|]. intros ? H. apply H. }
  rewrite group_index_finite by lra.
  eexists. split; [reflexivity|].
  pose proof (weighted_mean_bounds lo hi
                (List.map (fun dw0 => (d_index (fst dw0), snd dw0)) matched)) as Hb.
  rewrite !List.map_map in Hb. cbn [fst snd] in Hb. apply Hb; [|exact Hsum].
  apply Forall_map_iff. cbn [fst snd].
  eapply Forall_impl; [exact Hmatched|]. intros dw0 [H1 H2]. split; [exact H2|lra].
Qed.

Lemma wizard_index_within_the_observations_witness :
  exists series,
    _calculate_current Examples.wizard_two_states "Custom" = Some series /\
    forall row, In row series ->
    exists q, index (fst (fst row)) = Fin q /\ 100 <= q <= 130.
Proof.
  remember (_calculate_current Examples.wizard_two_states "Custom") as call eqn:E.
  destruct call as [series|]; [|vm_compute in E; discriminate E].
  exists series. split; [reflexivity|]. symmetry in E.
  apply (wizard_index_within_the_observations
           Examples.wizard_two_states "Custom" series 100 130 E).
  - repeat constructor.
  - repeat constructor; cbn; discriminate.
Defined.

End WizardBounds.

(** ** The hierarchy built from the weight tables *)

Section DictFacts.
Import Engine Tables.
Context {R V : Type} (key : R -> string) (val : R -> V).

Lemma dict_set_keys (d : list (string * V)) k v k' :
  k' ∈ List.map fst (dict_set d k v) <-> k' = k \/ k' ∈ List.map fst d.
Proof.
  induction d as [|[k0 v0] d IH]; cbn [dict_set List.map fst].
  - rewrite list_elem_of_singleton, elem_of_nil. tauto.
  - destruct (String.eqb_spec k0 k) as [->|Hne]; cbn [List.map fst].
    + rewrite !elem_of_cons. tauto.
    + rewrite !elem_of_cons, IH. tauto.
Qed.

Lemma dict_set_NoDup (d : list (string * V)) k v :
  NoDup (List.map fst d) -> NoDup (List.map fst (dict_set d k v)).
Proof.
  induction d as [|[k0 v0] d IH]; cbn [dict_set List.map fst]; intros Hd.
  - apply NoDup_singleton.
  - apply NoDup_cons in Hd as [Hk0 Hd].
    destruct (String.eqb_spec k0 k) as [->|Hne]; cbn [List.map fst].
    + now apply NoDup_cons.
    + apply NoDup_cons. split; [|auto].
      rewrite dict_set_keys. intros [?|?]; [congruence|contradiction].
Qed.

Lemma elem_of_dict_set (d : list (string * V)) k v k' v' :
  NoDup (List.map fst d) ->
  (k', v') ∈ dict_set d k v <-> (k' = k /\ v' = v) \/ (k' <> k /\ (k', v') ∈ d).
Proof.
  induction d as [|[k0 v0] d IH]; cbn [dict_set List.map fst]; intros Hd.
  - rewrite list_elem_of_singleton, elem_of_nil. split.
    + intros [= -> ->]. auto.
    + intros [[-> ->]|[_ []]]. reflexivity.
  - apply NoDup_cons in Hd as [Hk0 Hd].
    destruct (String.eqb_spec k0 k) as [->|Hne].
    + rewrite !elem_of_cons. split.
      * intros [[= -> ->]|Hin]; [auto|]. right. split; [|auto].
        intros ->. apply Hk0.
        apply list_elem_of_In, (List.in_map fst), list_elem_of_In in Hin. exact Hin.
      * intros [[-> ->]|[Hk [[= -> _]|Hin]]]; auto. contradiction.
    + rewrite !elem_of_cons, (IH Hd). split.
      * intros [[= -> ->]|[H|H]]; auto. destruct H. auto.
      * intros [H|[Hk [[= -> ->]|Hin]]]; auto.
Qed.

Lemma built_snoc (rows : list R) (r : R) :
  fold_left (fun d r => dict_set d (key r) (val r)) (rows ++ [r]) ([] : list (string * V))
  = dict_set (fold_left (fun d r => dict_set d (key r) (val r)) rows []) (key r) (val r).
Proof. now rewrite fold_left_app. Qed.

Lemma built_NoDup (rows : list R) :
  NoDup (List.map fst
           (fold_left (fun d r => dict_set d (key r) (val r)) rows
              ([] : list (string * V)))).
Proof.
  induction rows as [|r rows IH] using rev_ind.
  - apply NoDup_nil. exact I.
  - rewrite built_snoc. now apply dict_set_NoDup.
Qed.

(** An entry of a dict that a loop has filled comes from a row. *)
Lemma built_sound (rows : list R) k v :
  (k, v) ∈ fold_left (fun d r => dict_set d (key r) (val r)) rows [] ->
  exists r, r ∈ rows /\ key r = k /\ val r = v.
Proof.
  induction rows as [|r rows IH] using rev_ind.
  - intros H. now apply elem_of_nil in H.
  - rewrite built_snoc, (elem_of_dict_set _ _ _ _ _ (built_NoDup rows)).
    intros [[-> ->]|[_ H]].
    + exists r. rewrite elem_of_app, list_elem_of_singleton. auto.
    + destruct (IH H) as (r' & Hr' & Hk & Hv). exists r'.
      rewrite elem_of_app. auto.
Qed.

(** With one row per key, every row has its entry. *)
Lemma built_complete (rows : list R) r :
  NoDup (List.map key rows) -> r ∈ rows ->
  (key r, val r) ∈ fold_left (fun d r => dict_set d (key r) (val r)) rows [].
Proof.
  induction rows as [|r0 rows IH] using rev_ind; intros Hnd Hr.
  - now apply elem_of_nil in Hr.
  - rewrite built_snoc, (elem_of_dict_set _ _ _ _ _ (built_NoDup rows)).
    rewrite List.map_app in Hnd. apply NoDup_app in Hnd as (Hnd & Hdisj & _).
    apply elem_of_app in Hr as [Hr|Hr].
    + right. split; [|now apply IH].
      intros Heq. apply (Hdisj (key r)).
      * apply list_elem_of_In, List.in_map, list_elem_of_In, Hr.
      * cbn [List.map]. rewrite Heq. left.
    + apply list_elem_of_singleton in Hr as ->. auto.
Qed.

End DictFacts.

Section HierarchyFacts.
Import Tables.

Lemma dict_get_elem_of {V : Type} (d : list (string * V)) k v :
  Engine.dict_get d k = Some v -> (k, v) ∈ d.
Proof.
  unfold Engine.dict_get. induction d as [|[k0 v0] d IH]; cbn [List.find fst].
  - discriminate.
  - destruct (String.eqb_spec k0 k) as [->|_].
    + intros [= ->]. left.
    + intros H. right. auto.
Qed.

Lemma elem_of_dict_get {V : Type} (d : list (string * V)) k v :
  NoDup (List.map fst d) -> (k, v) ∈ d -> Engine.dict_get d k = Some v.
Proof.
  unfold Engine.dict_get. induction d as [|[k0 v0] d IH]; cbn [List.find List.map fst].
  - intros _ H. now apply elem_of_nil in H.
  - intros Hnd H. apply NoDup_cons in Hnd as [Hk0 Hnd].
    apply elem_of_cons in H as [[= <- <-]|H].
    + now rewrite String.eqb_refl.
    + destruct (String.eqb_spec k0 k) as [->|_]; [|auto].
      exfalso. apply Hk0.
      apply list_elem_of_In, (List.in_map fst), list_elem_of_In in H. exact H.
Qed.

Lemma elem_of_fold_app {A B : Type} (g : A -> list B) (l : list A) x : forall acc,
  x ∈ fold_left (fun acc a => acc ++ g a) l acc <-> x ∈ acc \/ exists a, a ∈ l /\ x ∈ g a.
Proof.
  induction l as [|a l IH]; intros acc; cbn [fold_left].
  - split; [auto|]. intros [H|(a & H & _)]; [exact H|]. now apply elem_of_nil in H.
  - rewrite IH, elem_of_app. split.
    + intros [[H|H]|(a' & Ha' & Hx)]; [auto| |].
      * right. exists a. split; [left|exact H].
      * right. exists a'. split; [now right|exact Hx].
    + intros [H|(a' & Ha' & Hx)]; [auto|].
      apply elem_of_cons in Ha' as [->|Ha']; [auto|]. right. eauto.
Qed.

Lemma elem_of_filter_list {A : Type} (p : A -> bool) (l : list A) x :
  x ∈ List.filter p l <-> x ∈ l /\ p x = true.
Proof. rewrite !list_elem_of_In. apply List.filter_In. Qed.

Lemma elem_of_map_list {A B : Type} (f : A -> B) (l : list A) y :
  y ∈ List.map f l <-> exists x, x ∈ l /\ f x = y.
Proof.
  rewrite list_elem_of_In, List.in_map_iff. split; intros (x & H1 & H2); exists x.
  - rewrite list_elem_of_In. auto.
  - rewrite <- list_elem_of_In. auto.
Qed.

Lemma elem_of_concat_map {A B : Type} (f : A -> list B) (l : list A) y :
  y ∈ List.concat (List.map f l) <-> exists x, x ∈ l /\ y ∈ f x.
Proof.
  rewrite list_elem_of_In, List.in_concat. split.
  - intros (ys & Hys & Hy). apply List.in_map_iff in Hys as (x & <- & Hx).
    exists x. rewrite !list_elem_of_In. auto.
  - intros (x & Hx & Hy). exists (f x). rewrite <- !list_elem_of_In.
    split; [|exact Hy]. apply elem_of_map_list. eauto.
Qed.

(** The items of a class. *)
Lemma elem_of_class_items t ccode x :
  x ∈ class_items t ccode <->
  exists s i,
    s ∈ subclasses_df t /\ Subclass_Class_Code s = ccode /\
    i ∈ items_df t /\ Item_Subclass_Code i = Custom.strip (Subclass_Code s) /\
    Item_Code i = x.
Proof.
  unfold class_items. cbv zeta. rewrite elem_of_fold_app, elem_of_nil. split.
  - intros [[]|(s & Hs & Hx)].
    apply elem_of_filter_list in Hs as [Hs Hc]. apply String.eqb_eq in Hc.
    apply elem_of_map_list in Hx as (i & Hi & Hcode).
    apply elem_of_filter_list in Hi as [Hi Hsub]. apply String.eqb_eq in Hsub.
    exists s, i. auto.
  - intros (s & i & Hs & Hc & Hi & Hsub & Hx). right. exists s. split.
    + apply elem_of_filter_list. split; [exact Hs|]. now apply String.eqb_eq.
    + apply elem_of_map_list. exists i. split; [|exact Hx].
      apply elem_of_filter_list. split; [exact Hi|]. now apply String.eqb_eq.
Qed.

Lemma NoDup_map_filter {A : Type} (f : A -> string) (p : A -> bool) (l : list A) :
  NoDup (List.map f l) -> NoDup (List.map f (List.filter p l)).
Proof.
  induction l as [|a l IH]; cbn [List.map List.filter]; intros H; [exact H|].
  apply NoDup_cons in H as [Ha H]. destruct (p a) eqn:E; cbn [List.map]; [|auto].
  apply NoDup_cons. split; [|auto].
  intros Hin. apply Ha. apply elem_of_map_list in Hin as (b & Hb & Hf).
  apply elem_of_filter_list in Hb as [Hb _]. apply elem_of_map_list. eauto.
Qed.

(** The entries of classes, groups and divisions come from rows. *)
Lemma classes_sound t gcode ccode ce :
  (ccode, ce) ∈ build_classes t gcode ->
  exists c, c ∈ classes_df t /\ Class_Group_Code c = gcode /\
            Custom.strip (Class_Code c) = ccode /\
            Engine.items ce = class_items t ccode.
Proof.
  unfold build_classes. cbv zeta. intros H.
  apply (built_sound (fun c => Custom.strip (Class_Code c))
           (fun c => {| Engine.class_name := Class_Name c;
                        Engine.class_weight := Class_Weight c;
                        Engine.items := class_items t (Custom.strip (Class_Code c)) |}))
    in H as (c & Hc & Hk & Hv).
  apply elem_of_filter_list in Hc as [Hc Hg]. apply String.eqb_eq in Hg.
  exists c. subst ccode ce. auto.
Qed.

Lemma classes_complete t c :
  NoDup (List.map (fun c => Custom.strip (Class_Code c)) (classes_df t)) ->
  c ∈ classes_df t ->
  exists ce, (Custom.strip (Class_Code c), ce) ∈ build_classes t (Class_Group_Code c) /\
             Engine.items ce = class_items t (Custom.strip (Class_Code c)).
Proof.
  intros Hnd Hc. eexists. split.
  - unfold build_classes. cbv zeta.
    apply (built_complete (fun c => Custom.strip (Class_Code c))
             (fun c => {| Engine.class_name := Class_Name c;
                          Engine.class_weight := Class_Weight c;
                          Engine.items := class_items t (Custom.strip (Class_Code c)) |})).
    + now apply NoDup_map_filter.
    + apply elem_of_filter_list. split; [exact Hc|]. apply String.eqb_refl.
  - reflexivity.
Qed.

Lemma groups_sound t dcode gcode ge :
  (gcode, ge) ∈ build_groups t dcode ->
  exists g, g ∈ groups_df t /\ Group_Division_Code g = dcode /\
            Custom.strip (Group_Code g) = gcode /\
            Engine.classes ge = build_classes t gcode.
Proof.
  unfold build_groups. cbv zeta. intros H.
  apply (built_sound (fun g => Custom.strip (Group_Code g))
           (fun g => {| Engine.group_name := Group_Name g;
                        Engine.group_weight := Group_Weight g;
                        Engine.classes := build_classes t (Custom.strip (Group_Code g)) |}))
    in H as (g & Hg & Hk & Hv).
  apply elem_of_filter_list in Hg as [Hg Hd]. apply String.eqb_eq in Hd.
  exists g. subst gcode ge. auto.
Qed.

Lemma groups_complete t g :
  NoDup (List.map (fun g => Custom.strip (Group_Code g)) (groups_df t)) ->
  g ∈ groups_df t ->
  exists ge, (Custom.strip (Group_Code g), ge) ∈ build_groups t (Group_Division_Code g) /\
             Engine.classes ge = build_classes t (Custom.strip (Group_Code g)).
Proof.
  intros Hnd Hg. eexists. split.
  - unfold build_groups. cbv zeta.
    apply (built_complete (fun g => Custom.strip (Group_Code g))
             (fun g => {| Engine.group_name := Group_Name g;
                          Engine.group_weight := Group_Weight g;
                          Engine.classes := build_classes t (Custom.strip (Group_Code g)) |})).
    + now apply NoDup_map_filter.
    + apply elem_of_filter_list. split; [exact Hg|]. apply String.eqb_refl.
  - reflexivity.
Qed.

Lemma divisions_sound t dcode de :
  (dcode, de) ∈ _build_hierarchy t ->
  exists d, d ∈ divisions_df t /\ Custom.strip (Division_Code d) = dcode /\
            Engine.groups de = build_groups t dcode.
Proof.
  unfold _build_hierarchy. intros H.
  apply (built_sound (fun d => Custom.strip (Division_Code d))
           (fun d => {| Engine.division_name := Division_Name d;
                        Engine.division_weight := Division_Weight d;
                        Engine.groups := build_groups t (Custom.strip (Division_Code d)) |}))
    in H as (d & Hd & Hk & Hv).
  exists d. subst dcode de. auto.
Qed.

Lemma divisions_complete t d :
  NoDup (List.map (fun d => Custom.strip (Division_Code d)) (divisions_df t)) ->
  d ∈ divisions_df t ->
  exists de, (Custom.strip (Division_Code d), de) ∈ _build_hierarchy t /\
             Engine.groups de = build_groups t (Custom.strip (Division_Code d)).
Proof.
  intros Hnd Hd. eexists. split.
  - unfold _build_hierarchy.
    apply (built_complete (fun d => Custom.strip (Division_Code d))
             (fun d => {| Engine.division_name := Division_Name d;
                          Engine.division_weight := Division_Weight d;
                          Engine.groups :=
                            build_groups t (Custom.strip (Division_Code d)) |}));
      assumption.
  - reflexivity.
Qed.

Lemma hierarchy_NoDup t : NoDup (List.map fst (_build_hierarchy t)).
Proof. apply built_NoDup. Qed.

Lemma groups_NoDup t dcode : NoDup (List.map fst (build_groups t dcode)).
Proof. apply built_NoDup. Qed.

Lemma classes_NoDup t gcode : NoDup (List.map fst (build_classes t gcode)).
Proof. apply built_NoDup. Qed.

End HierarchyFacts.

Section HierarchyTheorems.
Import Tables.

Lemma elem_of_classes_items (classes_dict : list (string * Engine.class_entry)) x :
  x ∈ Engine.classes_items classes_dict <->
  exists kv, kv ∈ classes_dict /\ x ∈ Engine.items (snd kv).
Proof. apply elem_of_concat_map. Qed.

Lemma elem_of_groups_items (div_groups : list (string * Engine.group_entry)) x :
  x ∈ Engine.groups_items div_groups <->
  exists kv, kv ∈ div_groups /\ x ∈ Engine.classes_items (Engine.classes (snd kv)).
Proof. apply elem_of_concat_map. Qed.

Lemma in_hierarchy_sound t dcode de gcode ge ccode ce x :
  (dcode, de) ∈ _build_hierarchy t ->
  (gcode, ge) ∈ Engine.groups de ->
  (ccode, ce) ∈ Engine.classes ge ->
  x ∈ Engine.items ce ->
  chain t x dcode gcode ccode.
Proof.
  intros Hd Hg Hc Hx.
  apply divisions_sound in Hd as (d & Hd & Hdk & Hgroups). rewrite Hgroups in Hg.
  apply groups_sound in Hg as (g & Hg & Hgd & Hgk & Hclasses). rewrite Hclasses in Hc.
  apply classes_sound in Hc as (c & Hc & Hcg & Hck & Hitems). rewrite Hitems in Hx.
  apply elem_of_class_items in Hx as (s & i & Hs & Hsc & Hi & His & Hix).
  exists d, g, c, s, i. repeat split; assumption.
Qed.

Lemma in_hierarchy_complete t dcode gcode ccode x :
  unique_codes t -> chain t x dcode gcode ccode ->
  exists de ge ce,
    (dcode, de) ∈ _build_hierarchy t /\
    (gcode, ge) ∈ Engine.groups de /\
    (ccode, ce) ∈ Engine.classes ge /\
    x ∈ Engine.items ce.
Proof.
  intros (Hud & Hug & Huc)
    (d & g & c & s & i & Hd & Hdk & Hg & Hgd & Hgk & Hc & Hcg & Hck & Hs & Hsc & Hi & His & Hix).
  destruct (divisions_complete t d Hud Hd) as (de & Hde & Hgroups).
  destruct (groups_complete t g Hug Hg) as (ge & Hge & Hclasses).
  destruct (classes_complete t c Huc Hc) as (ce & Hce & Hitems).
  rewrite Hdk in Hde, Hgroups. rewrite Hgk in Hge, Hclasses. rewrite Hck in Hce, Hitems.
  rewrite Hgd in Hge. rewrite Hcg in Hce.
  exists de, ge, ce. rewrite Hgroups, Hclasses, Hitems.
  repeat split; try assumption.
  apply elem_of_class_items. exists s, i. auto.
Qed.

(** X25.  The hierarchy follows the tables.  Whatever [get_index_with_exclusions]
    excludes on an engine made by [_load_weights] hangs below an excluded
    code through rows of the five tables: item, subclass, class, group and
    division.  When no two divisions, groups or classes share a code, the
    converse holds as well: every item that hangs below an excluded code is
    excluded. *)
Theorem hierarchy_follows_the_tables
    (t : weight_tables) (ds gs cs : list string) (x : string) :
  let self := _load_weights t in
  (x ∈ Engine.excluded_items self ds gs cs ->
   exists dcode gcode ccode,
     chain t x dcode gcode ccode /\ (dcode ∈ ds \/ gcode ∈ gs \/ ccode ∈ cs)) /\
  (unique_codes t ->
   forall dcode gcode ccode,
     chain t x dcode gcode ccode -> dcode ∈ ds \/ gcode ∈ gs \/ ccode ∈ cs ->
     x ∈ Engine.excluded_items self ds gs cs).
Proof.
  cbv zeta. unfold Engine.excluded_items.
  rewrite exclude_classes_spec, exclude_groups_spec, exclude_divisions_spec.
  cbn [_load_weights Engine.hierarchy]. rewrite elem_of_empty. split.
  - intros [[[[]|H]|H]|H].
    + destruct H as (dcode & de & Hin & Hget & Hx).
      apply dict_get_elem_of in Hget.
      apply elem_of_groups_items in Hx as ([gcode ge] & Hge & Hx).
      apply elem_of_classes_items in Hx as ([ccode ce] & Hce & Hx).
      exists dcode, gcode, ccode. split; [|auto].
      now apply (in_hierarchy_sound t dcode de gcode ge ccode ce).
    + destruct H as (gcode & [dcode de] & ge & Hin & Hde & Hget & Hx).
      apply dict_get_elem_of in Hget.
      apply elem_of_classes_items in Hx as ([ccode ce] & Hce & Hx).
      exists dcode, gcode, ccode. split; [|auto].
      now apply (in_hierarchy_sound t dcode de gcode ge ccode ce).
    + destruct H as (ccode & [dcode de] & [gcode ge] & ce & Hin & Hde & Hge & Hget & Hx).
      apply dict_get_elem_of in Hget.
      exists dcode, gcode, ccode. split; [|auto].
      now apply (in_hierarchy_sound t dcode de gcode ge ccode ce).
  - intros Hu dcode gcode ccode Hchain Hsel.
    destruct (in_hierarchy_complete t dcode gcode ccode x Hu Hchain)
      as (de & ge & ce & Hde & Hge & Hce & Hx).
    assert (Hgn : NoDup (List.map fst (Engine.groups de))).
    { apply divisions_sound in Hde as (d & _ & _ & ->). apply groups_NoDup. }
    assert (Hcn : NoDup (List.map fst (Engine.classes ge))).
    { apply divisions_sound in Hde as (d & _ & _ & Hgroups). rewrite Hgroups in Hge.
      apply groups_sound in Hge as (g & _ & _ & _ & ->). apply classes_NoDup. }
    rewrite exclude_classes_spec, exclude_groups_spec, exclude_divisions_spec.
    cbn [_load_weights Engine.hierarchy].
    destruct Hsel as [Hsel|[Hsel|Hsel]].
    + left. left. right. exists dcode, de. split; [exact Hsel|]. split.
      * apply elem_of_dict_get; [apply hierarchy_NoDup|exact Hde].
      * apply elem_of_groups_items. exists (gcode, ge). split; [exact Hge|].
        apply elem_of_classes_items. exists (ccode, ce). auto.
    + left. right. exists gcode, (dcode, de), ge. split; [exact Hsel|].
      split; [exact Hde|]. split.
      * now apply elem_of_dict_get.
      * apply elem_of_classes_items. exists (ccode, ce). auto.
    + right. exists ccode, (dcode, de), (gcode, ge), ce. split; [exact Hsel|].
      split; [exact Hde|]. split; [exact Hge|]. split; [|exact Hx].
      now apply elem_of_dict_get.
Qed.

Lemma hierarchy_follows_the_tables_witness :
  "01.1.1.1" ∈ Engine.excluded_items (_load_weights MoreExamples.small_tables) [] ["01.1"] [].
Proof.
  apply (proj2 (hierarchy_follows_the_tables MoreExamples.small_tables
                  [] ["01.1"] [] "01.1.1.1")) with (dcode := "01") (gcode := "01.1")
                                                   (ccode := "01.1.1").
  - repeat split; apply (bool_decide_unpack _); vm_compute; exact I.
  - do 5 eexists.
    split; [left|]. split; [reflexivity|].
    split; [left|]. split; [reflexivity|]. split; [reflexivity|].
    split; [left|]. split; [reflexivity|]. split; [reflexivity|].
    split; [left|]. split; [reflexivity|].
    split; [left|]. split; reflexivity.
  - right. left. left.
Defined.

End HierarchyTheorems.

(** ** The wizard's item map *)

Section ItemMapFacts.
Import ItemMap.

Lemma elem_of_merge_left {L R : Type} (left_on : L -> option string)
    (right_on : R -> option string) (left : list L) (right : list R) l r :
  (l, r) ∈ merge_left left_on right_on left right <->
  l ∈ left /\
  match r with
  | Some r' => r' ∈ right /\ left_on l = right_on r'
  | None => forall r', r' ∈ right -> left_on l <> right_on r'
  end.
Proof.
  unfold merge_left. rewrite elem_of_concat_map. split.
  - intros (l0 & Hl0 & Hin).
    destruct (List.filter _ right) as [|m ms] eqn:Hf.
    + apply list_elem_of_singleton in Hin as [= -> ->]. split; [exact Hl0|].
      intros r' Hr' Heq.
      assert (Hx : r' ∈ List.filter (fun r => key_eqb (left_on l0) (right_on r)) right).
      { apply elem_of_filter_list. split; [exact Hr'|]. now apply bool_decide_eq_true. }
      rewrite Hf in Hx. now apply elem_of_nil in Hx.
    + apply elem_of_map_list in Hin as (r' & Hr' & [= -> <-]).
      rewrite <- Hf in Hr'. apply elem_of_filter_list in Hr' as [Hr' Hk].
      apply bool_decide_eq_true in Hk. auto.
  - intros [Hl Hr]. exists l. split; [exact Hl|].
    destruct (List.filter _ right) as [|m ms] eqn:Hf.
    + destruct r as [r'|]; [|left]. exfalso. destruct Hr as [Hr Hk].
      assert (Hx : r' ∈ List.filter (fun r => key_eqb (left_on l) (right_on r)) right).
      { apply elem_of_filter_list. split; [exact Hr|]. now apply bool_decide_eq_true. }
      rewrite Hf in Hx. now apply elem_of_nil in Hx.
    + destruct r as [r'|].
      * destruct Hr as [Hr Hk]. apply elem_of_map_list. exists r'. split; [|reflexivity].
        rewrite <- Hf. apply elem_of_filter_list. split; [exact Hr|].
        now apply bool_decide_eq_true.
      * exfalso. assert (Hm : m ∈ List.filter (fun r => key_eqb (left_on l) (right_on r)) right)
          by (rewrite Hf; left).
        apply elem_of_filter_list in Hm as [Hm Hk]. apply bool_decide_eq_true in Hk.
        now apply (Hr m).
Qed.

(** Every left row survives a left merge. *)
Lemma merge_left_keeps {L R : Type} (left_on : L -> option string)
    (right_on : R -> option string) (left : list L) (right : list R) l :
  l ∈ left -> exists r, (l, r) ∈ merge_left left_on right_on left right.
Proof.
  intros Hl. unfold merge_left.
  destruct (List.filter (fun r => key_eqb (left_on l) (right_on r)) right) as [|m ms] eqn:Hf.
  - exists None. apply elem_of_concat_map. exists l. split; [exact Hl|]. rewrite Hf. left.
  - exists (Some m). apply elem_of_concat_map. exists l. split; [exact Hl|]. rewrite Hf. left.
Qed.

Lemma filter_unique_key {R : Type} (right_on : R -> option string) (right : list R) k :
  NoDup (List.map right_on right) ->
  (List.length (List.filter (fun r => key_eqb k (right_on r)) right) <= 1)%nat.
Proof.
  induction right as [|r right IH]; cbn [List.map List.filter]; intros Hnd; [cbn; lia|].
  apply NoDup_cons in Hnd as [Hr Hnd]. specialize (IH Hnd).
  unfold key_eqb at 1. destruct (bool_decide (k = right_on r)) eqn:E; [|exact IH].
  apply bool_decide_eq_true in E.
  assert (Hnone : List.filter (fun r0 => key_eqb k (right_on r0)) right = []).
  { destruct (List.filter _ right) as [|m ms] eqn:Hf; [reflexivity|]. exfalso.
    assert (Hm : m ∈ List.filter (fun r0 => key_eqb k (right_on r0)) right)
      by (rewrite Hf; left).
    apply elem_of_filter_list in Hm as [Hm Hk]. apply bool_decide_eq_true in Hk.
    apply Hr. rewrite <- E, Hk. apply elem_of_map_list. eauto. }
  rewrite Hnone. cbn. lia.
Qed.

(** With one right row per key a left merge neither drops nor repeats a
    left row. *)
Lemma merge_left_unique {L R : Type} (left_on : L -> option string)
    (right_on : R -> option string) (left : list L) (right : list R) :
  NoDup (List.map right_on right) ->
  List.map fst (merge_left left_on right_on left right) = left.
Proof.
  intros Hnd. unfold merge_left. induction left as [|l left IH]; [reflexivity|].
  rewrite List.map_cons, List.concat_cons, List.map_app, IH.
  pose proof (filter_unique_key right_on right (left_on l) Hnd) as Hlen.
  destruct (List.filter _ right) as [|m [|m' ms]]; cbn in Hlen |- *;
    [reflexivity|reflexivity|lia].
Qed.

End ItemMapFacts.

Section ItemMapTheorems.
Import ItemMap.

(** X26.  The item map keeps the items: every item of the table has a row with
    its code, name and weight, and every row is such a row.  When no key
    occurs twice in the class, group and division frames, the rows are the
    items, once each and in the order of the table, so the weights of the
    item map are the weights of the items. *)
Theorem item_map_keeps_the_items (weights : weight_frames) :
  (forall i, i ∈ item weights ->
     exists row, row ∈ _build_item_map weights /\
                 item_of row = (Item_Code i, Item_Name i, Weight i)) /\
  (forall row, row ∈ _build_item_map weights ->
     exists i, i ∈ item weights /\ item_of row = (Item_Code i, Item_Name i, Weight i)) /\
  (unique_keys weights ->
   List.map item_of (_build_item_map weights)
   = List.map (fun i => (Item_Code i, Item_Name i, Weight i)) (item weights)).
Proof.
  unfold _build_item_map. cbv zeta.
  set (res1 := merge_left (fun i => extract (Item_Code i)) Class_Code
                 (item weights) (class weights)).
  set (res2 := merge_left (fun r => cell Class_Group_Code (snd r)) Group_Code
                 res1 (group weights)).
  set (res3 := merge_left (fun r => cell Group_Division_Code (snd r)) Division_Code
                 res2 (division weights)).
  split; [|split].
  - intros i Hi.
    destruct (merge_left_keeps (fun i => extract (Item_Code i)) Class_Code
                _ (class weights) i Hi) as (c & Hc). fold res1 in Hc.
    destruct (merge_left_keeps (fun r => cell Class_Group_Code (snd r)) Group_Code
                _ (group weights) _ Hc) as (g & Hg). fold res2 in Hg.
    destruct (merge_left_keeps (fun r => cell Group_Division_Code (snd r)) Division_Code
                _ (division weights) _ Hg) as (d & Hd). fold res3 in Hd.
    eexists. split.
    + apply elem_of_map_list. exists (i, c, g, d). split; [exact Hd|reflexivity].
    + reflexivity.
  - intros row Hrow. apply elem_of_map_list in Hrow as ([[[i c] g] d] & Hd & <-).
    apply elem_of_merge_left in Hd as [Hg _].
    apply elem_of_merge_left in Hg as [Hc _].
    apply elem_of_merge_left in Hc as [Hi _].
    exists i. split; [exact Hi|reflexivity].
  - intros (Hc & Hg & Hd).
    assert (H1 : List.map fst res1 = item weights) by now apply merge_left_unique.
    assert (H2 : List.map fst res2 = res1) by now apply merge_left_unique.
    assert (H3 : List.map fst res3 = res2) by now apply merge_left_unique.
    rewrite <- H1, <- H2, <- H3, !List.map_map.
    apply List.map_ext. intros [[[i c] g] d]. reflexivity.
Qed.

Lemma item_map_keeps_the_items_witness :
  List.map item_of (_build_item_map MoreExamples.small_frames)
  = List.map (fun i => (Item_Code i, Item_Name i, Weight i))
      (item MoreExamples.small_frames).
Proof.
  apply (proj2 (proj2 (item_map_keeps_the_items MoreExamples.small_frames))).
  repeat split; apply (bool_decide_unpack _); vm_compute; exact I.
Defined.

(** X27.  The names of the item map follow the codes.  When no key is missing in
    the class, group and division frames, a row that has a division name has
    got it through codes that are all present: the first three numbers of
    the item code are the code of a class, whose group code is the code of a
    group, whose division code is the code of the division of that name;
    the class and group names of the row are those of that class and group. *)
Theorem item_map_names_follow_the_codes
    (weights : weight_frames) (row : Wizard.item_map_row) (n : string) :
  keys_present weights ->
  row ∈ _build_item_map weights ->
  Wizard.Division_Name row = Some n ->
  exists i c g d ccode gcode dcode,
    i ∈ item weights /\ Wizard.Item_Code row = Item_Code i /\
    extract (Item_Code i) = Some ccode /\
    c ∈ class weights /\ Class_Code c = Some ccode /\
    Class_Group_Code c = Some gcode /\
    g ∈ group weights /\ Group_Code g = Some gcode /\
    Group_Division_Code g = Some dcode /\
    d ∈ division weights /\ Division_Code d = Some dcode /\
    Division_Name d = Some n /\
    Wizard.Class_Name row = Class_Name c /\
    Wizard.Group_Name row = Group_Name g.
Proof.
  unfold _build_item_map. cbv zeta. intros (Hkc & Hkg & Hkd) Hrow Hname.
  apply elem_of_map_list in Hrow as ([[[i c] g] d] & Hd & <-).
  cbn [Wizard.Item_Code Wizard.Class_Name Wizard.Group_Name Wizard.Division_Name] in *.
  apply elem_of_merge_left in Hd as [Hg Hdk]. cbn [snd] in Hdk.
  apply elem_of_merge_left in Hg as [Hc Hgk]. cbn [snd] in Hgk.
  apply elem_of_merge_left in Hc as [Hi Hck].
  destruct d as [d|]; [|discriminate Hname]. cbn [cell] in Hname.
  destruct Hdk as [Hd Hdk].
  rewrite Forall_forall in Hkd. pose proof (Hkd d Hd) as Hdcode.
  destruct (Division_Code d) as [dcode|] eqn:Edc; [|contradiction]. clear Hdcode.
  destruct g as [g|]; [|discriminate Hdk]. cbn [cell] in Hdk.
  destruct Hgk as [Hg Hgk].
  rewrite Forall_forall in Hkg. pose proof (Hkg g Hg) as Hgcode.
  destruct (Group_Code g) as [gcode|] eqn:Egc; [|contradiction]. clear Hgcode.
  destruct c as [c|]; [|discriminate Hgk]. cbn [cell] in Hgk.
  destruct Hck as [Hc Hck].
  rewrite Forall_forall in Hkc. pose proof (Hkc c Hc) as Hccode.
  destruct (Class_Code c) as [ccode|] eqn:Ecc; [|contradiction]. clear Hccode.
  exists i, c, g, d, ccode, gcode, dcode. cbn [cell]. repeat split; auto.
Qed.

Lemma item_map_names_follow_the_codes_witness :
  exists row i d,
    row ∈ _build_item_map MoreExamples.small_frames /\
    Wizard.Division_Name row = Some "Food and beverages" /\
    i ∈ item MoreExamples.small_frames /\ Wizard.Item_Code row = Item_Code i /\
    d ∈ division MoreExamples.small_frames /\
    Division_Name d = Some "Food and beverages".
Proof.
  assert (Hrow : {| Wizard.Item_Code := "01.1.1.1.01"; Wizard.Item_Name := "Rice";
                    Wizard.Division_Name := Some "Food and beverages";
                    Wizard.Group_Name := Some "Food";
                    Wizard.Class_Name := Some "Cereals"; Wizard.Weight := 30 |}
                 ∈ _build_item_map MoreExamples.small_frames) by (vm_compute; left).
  destruct (item_map_names_follow_the_codes MoreExamples.small_frames _
              "Food and beverages"
              ltac:(repeat split; repeat constructor; discriminate) Hrow eq_refl)
    as (i & c & g & d & ccode & gcode & dcode & Hi & Hcode & _ & _ & _ & _ & _ & _ & _
        & Hd & _ & Hn & _).
  eexists _, i, d. split; [exact Hrow|]. split; [reflexivity|]. auto.
Defined.

End ItemMapTheorems.

(** ** A session of the wizard *)

Section SessionFacts.
Import Float Wizard Session.
Variable strftime : nat -> string -> string.

(** The menu reads at least one line and leaves the data alone. *)
Lemma menu_inv_bounded n : forall inputs self self' rest,
  (List.length inputs <= n)%nat ->
  menu self inputs = Some (self', rest) ->
  (List.length rest < List.length inputs)%nat /\
  (exists used, inputs = used ++ rest) /\
  same_data self self' /\
  generated_indices self' = generated_indices self /\
  (tidy self -> tidy self').
Proof.
  induction n as [|n IH]; intros inputs self self' rest Hn H;
    (destruct inputs as [|line inputs]; [discriminate H|]); cbn [List.length] in Hn;
    [lia|].
  cbn [menu] in H.
  destruct (String.eqb (Custom.strip line) "5").
  { injection H as <- <-. cbn [List.length].
    split; [lia|]. split; [exists [line]; reflexivity|].
    split; [repeat split|]. split; [reflexivity|auto]. }
  destruct (String.eqb (Custom.strip line) "0").
  { apply IH in H as (Hlen & (used & ->) & Hdata & Hgen & Htidy); [|cbn; lia].
    cbn [List.length]. split; [lia|]. split; [exists (line :: used); reflexivity|].
    split; [exact Hdata|]. split; [exact Hgen|].
    intros _. apply Htidy. intros l. apply no_exclusions_NoDup. }
  match type of H with
  | match ?lv with _ => _ end = _ => destruct lv as [level|]
  end.
  - destruct inputs as [|indices inputs]; [discriminate H|].
    cbn [List.length] in Hn.
    apply IH in H as (Hlen & (used & ->) & Hdata & Hgen & Htidy); [|lia].
    cbn [List.length] in *. split; [lia|].
    split; [exists (line :: indices :: used); reflexivity|].
    split; [exact Hdata|]. split; [exact Hgen|].
    intros Ht. apply Htidy. intros l. now apply pick_exclusion_NoDup.
  - apply IH in H as (Hlen & (used & ->) & Hdata & Hgen & Htidy); [|cbn; lia].
    cbn [List.length]. split; [lia|]. split; [exists (line :: used); reflexivity|].
    auto.
Qed.

Lemma menu_inv inputs self self' rest :
  menu self inputs = Some (self', rest) ->
  (List.length rest < List.length inputs)%nat /\
  (exists used, inputs = used ++ rest) /\
  same_data self self' /\
  generated_indices self' = generated_indices self /\
  (tidy self -> tidy self').
Proof. apply (menu_inv_bounded (List.length inputs)). lia. Qed.

Lemma same_data_trans a b c : same_data a b -> same_data b c -> same_data a c.
Proof.
  intros (H1 & H2 & H3) (H4 & H5 & H6). repeat split; congruence.
Qed.

Lemma generated_by_same a b series :
  same_data a b -> generated_by b series -> generated_by a series.
Proof.
  intros Hab (Hne & w & name & Hbw & Hw). split; [exact Hne|].
  exists w, name. split; [|exact Hw]. now apply (same_data_trans a b w).
Qed.

Lemma substring_all (s : string) : String.substring 0 (String.length s) s = s.
Proof. induction s as [|c s IH]; cbn; [reflexivity|now rewrite IH]. Qed.

Lemma substring_skip (f suffix : string) :
  String.substring (String.length f) (String.length suffix) (f ++ suffix)%string = suffix.
Proof.
  induction f as [|c f IH]; [apply substring_all|].
  change (String c f ++ suffix)%string with (String c (f ++ suffix)%string).
  exact IH.
Qed.

Lemma length_append (f suffix : string) :
  String.length (f ++ suffix)%string = (String.length f + String.length suffix)%nat.
Proof.
  induction f as [|c f IH]; [reflexivity|].
  change (String c f ++ suffix)%string with (String c (f ++ suffix)%string).
  cbn [String.length]. now rewrite IH.
Qed.

Lemma endswith_append (f suffix : string) : endswith (f ++ suffix)%string suffix = true.
Proof.
  unfold endswith. rewrite length_append.
  replace (String.length f + String.length suffix - String.length suffix)%nat
    with (String.length f) by lia.
  rewrite substring_skip, String.eqb_refl. cbn [andb]. apply Nat.leb_le. lia.
Qed.

Lemma save_results_inv self ticks inputs final action unread :
  _save_results strftime self ticks inputs = Saved final action unread ->
  final = self /\
  (List.length unread < List.length inputs)%nat /\
  (exists used, inputs = used ++ unread) /\
  match action with
  | AppendToMain main all_custom =>
      main = df self /\ all_custom = List.concat (generated_indices self)
  | SaveStandalone filename all_custom =>
      endswith filename ".csv" = true /\
      all_custom = List.concat (generated_indices self)
  | Discard => True
  end.
Proof.
  unfold _save_results. destruct (existsb _ _); [discriminate|].
  destruct inputs as [|line rest]; [discriminate|].
  destruct (String.eqb (Custom.strip line) "1").
  { intros [= <- <- <-]. cbn [List.length]. split; [reflexivity|]. split; [lia|].
    split; [exists [line]; reflexivity|auto]. }
  destruct (String.eqb (Custom.strip line) "2").
  - destruct rest as [|line' rest']; [discriminate|].
    intros [= <- <- <-]. cbn [List.length]. split; [reflexivity|]. split; [lia|].
    split; [exists [line; line']; reflexivity|]. split; [|reflexivity].
    match goal with
    | |- endswith (if endswith ?f _ then _ else _) _ = true =>
        destruct (endswith f ".csv") eqn:E; [exact E|apply endswith_append]
    end.
  - intros [= <- <- <-]. cbn [List.length]. split; [reflexivity|]. split; [lia|].
    split; [exists [line]; reflexivity|exact I].
Qed.

(** The rounds of a session: enough fuel is never used up, and a session
    that ends in the regular way has kept the data, has only added series
    that [_calculate_current] made, and has read a part of the input. *)
Lemma session_inv fuel : forall self ticks inputs,
  (List.length inputs < fuel)%nat ->
  session strftime fuel self ticks inputs <> OutOfFuel /\
  forall final,
    final_state (session strftime fuel self ticks inputs) = Some final ->
    same_data self final /\
    (exists new, generated_indices final = generated_indices self ++ new /\
                 Forall (generated_by self) new) /\
    (tidy self -> tidy final) /\
    match session strftime fuel self ticks inputs with
    | Saved _ action unread =>
        (exists used, inputs = used ++ unread /\ (4 <= List.length used)%nat) /\
        generated_indices final <> [] /\
        match action with
        | AppendToMain main all_custom =>
            main = df self /\ all_custom = List.concat (generated_indices final)
        | SaveStandalone filename all_custom =>
            endswith filename ".csv" = true /\
            all_custom = List.concat (generated_indices final)
        | Discard => True
        end
    | NothingGenerated _ unread =>
        (exists used, inputs = used ++ unread /\ (4 <= List.length used)%nat) /\
        generated_indices final = []
    | _ => True
    end.
Proof.
  induction fuel as [|fuel IH]; intros self ticks inputs Hfuel; [lia|].
  cbn [session].
  destruct (menu self inputs) as [[self1 rest1]|] eqn:Hmenu.
  2: { split; [discriminate|]. intros final H. discriminate H. }
  apply menu_inv in Hmenu as (Hlen1 & (used1 & ->) & Hdata1 & Hgen1 & Htidy1).
  destruct rest1 as [|line rest2].
  { split; [discriminate|]. intros final H. discriminate H. }
  set (typed := Custom.strip line).
  set (index_name := if String.eqb typed "" then _ else typed).
  set (ticks' := if String.eqb typed "" then S ticks else ticks).
  destruct (_calculate_current self1 index_name) as [series|] eqn:Hcalc.
  - destruct series as [|row series].
    { split; [discriminate|]. intros final H. discriminate H. }
    destruct rest2 as [|clear_ex [|next_step rest4]];
      try (split; [discriminate|]; intros final H; discriminate H).
    set (self2 := append_index self1 (row :: series)).
    set (self3 := if String.eqb (lower (Custom.strip clear_ex)) "n"
                  then self2 else reset self2).
    assert (Hdata3 : same_data self self3).
    { apply (same_data_trans self self1 self3); [exact Hdata1|].
      unfold self3. destruct (String.eqb _ "n"); repeat split. }
    assert (Hgen3 : generated_indices self3 = generated_indices self ++ [row :: series]).
    { unfold self3. destruct (String.eqb _ "n"); cbn; now rewrite Hgen1. }
    assert (Htidy3 : tidy self -> tidy self3).
    { intros Ht. unfold self3. destruct (String.eqb _ "n").
      - intros l. apply (Htidy1 Ht l).
      - intros l. apply no_exclusions_NoDup. }
    assert (Hby : generated_by self (row :: series)).
    { split; [discriminate|]. exists self1, index_name. auto. }
    assert (Hused : used1 ++ line :: clear_ex :: next_step :: rest4
                    = (used1 ++ [line; clear_ex; next_step]) ++ rest4)
      by now rewrite <- app_assoc.
    rewrite !length_app in Hlen1, Hfuel. cbn [List.length] in Hlen1, Hfuel.
    destruct (String.eqb (lower (Custom.strip next_step)) "y").
    + destruct (IH self3 ticks' rest4 ltac:(lia)) as [Hnot Hfinal].
      split; [exact Hnot|]. intros final Hf.
      destruct (Hfinal final Hf) as (Hd & (new & Hnew & Hall) & Ht & Hend).
      split; [now apply (same_data_trans self self3 final)|].
      split.
      { exists ((row :: series) :: new). rewrite Hnew, Hgen3, <- app_assoc.
        split; [reflexivity|]. constructor; [exact Hby|].
        eapply Forall_impl; [exact Hall|]. intros s Hs.
        now apply (generated_by_same self self3). }
      split; [auto|].
      destruct (session strftime fuel self3 ticks' rest4) as [f a u|f u| | |];
        try exact I.
      * destruct Hend as ((used & -> & Hu) & Hne & Ha). split; [|split; [exact Hne|]].
        -- exists ((used1 ++ [line; clear_ex; next_step]) ++ used).
           split; [now rewrite <- !app_assoc|].
           rewrite !length_app. lia.
        -- destruct a as [main all|f' all|]; [|exact Ha|exact I].
           destruct Ha as [-> ->]. split; [|reflexivity]. apply Hdata3.
      * destruct Hend as ((used & -> & Hu) & Hnil). split; [|exact Hnil].
        exists ((used1 ++ [line; clear_ex; next_step]) ++ used).
        split; [now rewrite <- !app_assoc|].
        rewrite !length_app. lia.
    + rewrite Hgen3.
      destruct (generated_indices self ++ [row :: series]) as [|g gs] eqn:Hg.
      { now apply app_eq_nil in Hg as [_ Hg]. }
      rewrite <- Hg in Hgen3. clear Hg g gs.
      destruct (_save_results strftime self3 ticks' rest4) as [f a u|f u| | |] eqn:Hsave;
        try (split; [discriminate|]; intros final H; discriminate H).
      * apply save_results_inv in Hsave as (-> & Hlen & (used & ->) & Ha).
        split; [discriminate|]. intros final [= <-].
        split; [exact Hdata3|].
        split; [exists [row :: series]; split; [exact Hgen3|]; now constructor|].
        split; [exact Htidy3|]. split; [|split].
        -- exists ((used1 ++ [line; clear_ex; next_step]) ++ used).
           split; [now rewrite <- !app_assoc|].
           rewrite !length_app. cbn [List.length]. lia.
        -- rewrite Hgen3. intros H. now apply app_eq_nil in H as [_ H].
        -- destruct a as [main all|f' all|]; [|exact Ha|exact I].
           destruct Ha as [-> ->]. split; [|reflexivity]. apply Hdata3.
      * exfalso. unfold _save_results in Hsave.
        destruct (existsb _ _); [discriminate Hsave|].
        destruct rest4 as [|l4 r4]; [discriminate Hsave|].
        destruct (String.eqb _ "1"); [discriminate Hsave|].
        destruct (String.eqb _ "2"); [|discriminate Hsave].
        destruct r4; discriminate Hsave.
      * exfalso. unfold _save_results in Hsave.
        destruct (existsb _ _); [discriminate Hsave|].
        destruct rest4 as [|l4 r4]; [discriminate Hsave|].
        destruct (String.eqb _ "1"); [discriminate Hsave|].
        destruct (String.eqb _ "2"); [|discriminate Hsave].
        destruct r4; discriminate Hsave.
  - destruct rest2 as [|clear_ex [|next_step rest4]];
      try (split; [discriminate|]; intros final H; discriminate H).
    set (self3 := if String.eqb (lower (Custom.strip clear_ex)) "n"
                  then self1 else reset self1).
    assert (Hdata3 : same_data self self3).
    { apply (same_data_trans self self1 self3); [exact Hdata1|].
      unfold self3. destruct (String.eqb _ "n"); repeat split. }
    assert (Hgen3 : generated_indices self3 = generated_indices self).
    { unfold self3. destruct (String.eqb _ "n"); cbn; now rewrite Hgen1. }
    assert (Htidy3 : tidy self -> tidy self3).
    { intros Ht. unfold self3. destruct (String.eqb _ "n").
      - intros l. apply (Htidy1 Ht l).
      - intros l. apply no_exclusions_NoDup. }
    assert (Hused : used1 ++ line :: clear_ex :: next_step :: rest4
                    = (used1 ++ [line; clear_ex; next_step]) ++ rest4)
      by now rewrite <- app_assoc.
    rewrite !length_app in Hlen1, Hfuel. cbn [List.length] in Hlen1, Hfuel.
    destruct (String.eqb (lower (Custom.strip next_step)) "y").
    + destruct (IH self3 ticks' rest4 ltac:(lia)) as [Hnot Hfinal].
      split; [exact Hnot|]. intros final Hf.
      destruct (Hfinal final Hf) as (Hd & (new & Hnew & Hall) & Ht & Hend).
      split; [now apply (same_data_trans self self3 final)|].
      split.
      { exists new. rewrite Hnew, Hgen3. split; [reflexivity|].
        eapply Forall_impl; [exact Hall|]. intros s Hs.
        now apply (generated_by_same self self3). }
      split; [auto|].
      destruct (session strftime fuel self3 ticks' rest4) as [f a u|f u| | |];
        try exact I.
      * destruct Hend as ((used & -> & Hu) & Hne & Ha). split; [|split; [exact Hne|]].
        -- exists ((used1 ++ [line; clear_ex; next_step]) ++ used).
           split; [now rewrite <- !app_assoc|].
           rewrite !length_app. lia.
        -- destruct a as [main all|f' all|]; [|exact Ha|exact I].
           destruct Ha as [-> ->]. split; [|reflexivity]. apply Hdata3.
      * destruct Hend as ((used & -> & Hu) & Hnil). split; [|exact Hnil].
        exists ((used1 ++ [line; clear_ex; next_step]) ++ used).
        split; [now rewrite <- !app_assoc|].
        rewrite !length_app. lia.
    + destruct (generated_indices self3) as [|g gs] eqn:Hg.
      * split; [discriminate|]. intros final [= <-].
        split; [exact Hdata3|].
        split; [exists []; rewrite app_nil_r; split; [congruence|constructor]|].
        split; [exact Htidy3|]. split; [|exact Hg].
        exists (used1 ++ [line; clear_ex; next_step]). split; [exact Hused|].
        rewrite length_app. cbn [List.length]. lia.
      * destruct (_save_results strftime self3 ticks' rest4) as [f a u|f u| | |] eqn:Hsave;
          try (split; [discriminate|]; intros final H; discriminate H).
        -- apply save_results_inv in Hsave as (-> & Hlen & (used & ->) & Ha).
           split; [discriminate|]. intros final [= <-].
           split; [exact Hdata3|].
           split; [exists []; rewrite app_nil_r; split; [congruence|constructor]|].
           split; [exact Htidy3|]. split; [|split].
           ++ exists ((used1 ++ [line; clear_ex; next_step]) ++ used).
              split; [now rewrite <- !app_assoc|].
              rewrite !length_app. cbn [List.length]. lia.
           ++ congruence.
           ++ destruct a as [main all|f' all|]; [|exact Ha|exact I].
              destruct Ha as [-> ->]. split; [|reflexivity]. apply Hdata3.
        -- exfalso. unfold _save_results in Hsave.
           destruct (existsb _ _); [discriminate Hsave|].
           destruct rest4 as [|l4 r4]; [discriminate Hsave|].
           destruct (String.eqb _ "1"); [discriminate Hsave|].
           destruct (String.eqb _ "2"); [|discriminate Hsave].
           destruct r4; discriminate Hsave.
        -- exfalso. unfold _save_results in Hsave.
           destruct (existsb _ _); [discriminate Hsave|].
           destruct rest4 as [|l4 r4]; [discriminate Hsave|].
           destruct (String.eqb _ "1"); [discriminate Hsave|].
           destruct (String.eqb _ "2"); [|discriminate Hsave].
           destruct r4; discriminate Hsave.
Qed.

End SessionFacts.

Section SessionTheorems.
Import Float Wizard Session.

(** X28.  A session ends, and it leaves the data alone.  [run] never runs out
    of the fuel of the model; when it ends in the regular way the data
    frame, the weight tables and the item map are those of the start, the
    generated indices are those of the start followed by series that are not
    empty and that [_calculate_current] has made out of these data, and
    lists of selected names that had no duplicates have none. *)
Theorem a_session_ends_and_keeps_the_data
    (strftime : nat -> string -> string) (self : CPIWizard) (inputs : list string) :
  run strftime self inputs <> OutOfFuel /\
  forall final,
    final_state (run strftime self inputs) = Some final ->
    same_data self final /\
    (exists new, generated_indices final = generated_indices self ++ new /\
                 Forall (generated_by self) new) /\
    (tidy self -> tidy final).
Proof.
  unfold run.
  destruct (session_inv strftime (S (List.length inputs)) self 0%nat inputs
              ltac:(lia)) as [Hnot Hfinal].
  split; [exact Hnot|]. intros final Hf.
  destruct (Hfinal final Hf) as (Hd & Hnew & Ht & _). auto.
Qed.

(** X29.  What a session writes.  [_save_results] is reached only with at least
    one generated index and after at least four lines of input; appending
    writes the data frame of the start followed by all the generated series,
    a standalone file holds all the generated series and its name ends with
    ".csv".  A session that ends without saving has generated nothing. *)
Theorem what_a_session_saves
    (strftime : nat -> string -> string) (self : CPIWizard) (inputs : list string) :
  match run strftime self inputs with
  | Saved final action unread =>
      (exists used, inputs = used ++ unread /\ (4 <= List.length used)%nat) /\
      generated_indices final <> [] /\
      match action with
      | AppendToMain main all_custom =>
          main = df self /\ all_custom = List.concat (generated_indices final)
      | SaveStandalone filename all_custom =>
          endswith filename ".csv" = true /\
          all_custom = List.concat (generated_indices final)
      | Discard => True
      end
  | NothingGenerated final unread =>
      (exists used, inputs = used ++ unread /\ (4 <= List.length used)%nat) /\
      generated_indices final = [] /\ generated_indices self = []
  | _ => True
  end.
Proof.
  unfold run.
  destruct (session_inv strftime (S (List.length inputs)) self 0%nat inputs
              ltac:(lia)) as [_ Hfinal].
  destruct (session strftime (S (List.length inputs)) self 0%nat inputs)
    as [final action unread|final unread| | |]; try exact I.
  - destruct (Hfinal final eq_refl) as (_ & _ & _ & Hend). exact Hend.
  - destruct (Hfinal final eq_refl) as (_ & (new & Hnew & _) & _ & Hused & Hnil).
    split; [exact Hused|]. split; [exact Hnil|].
    rewrite Hnil in Hnew. symmetry in Hnew. now apply app_eq_nil in Hnew as [? _].
Qed.

Lemma a_session_ends_and_keeps_the_data_witness :
  exists final,
    final_state (run MoreExamples.clock Examples.wizard_two_states MoreExamples.typed_lines)
    = Some final /\
    same_data Examples.wizard_two_states final.
Proof.
  remember (run MoreExamples.clock Examples.wizard_two_states MoreExamples.typed_lines)
    as e eqn:E.
  destruct e as [final action unread|final unread| | |];
    try (vm_compute in E; discriminate E).
  exists final. split; [reflexivity|].
  apply (proj2 (a_session_ends_and_keeps_the_data MoreExamples.clock
                  Examples.wizard_two_states MoreExamples.typed_lines) final).
  rewrite <- E. reflexivity.
Defined.

End SessionTheorems.

(** ** Bounds of the engine's index *)

Section EngineBounds.
Import Float Engine.

Lemma mask_rows_elem_of {A : Type} (mask : list bool) : forall (col : list A) x,
  x ∈ mask_rows mask col -> x ∈ col.
Proof.
  induction mask as [|b mask IH]; intros [|y col] x; cbn [mask_rows];
    try (intros H; now apply elem_of_nil in H).
  destruct b.
  - rewrite !elem_of_cons. intros [->|H]; auto.
  - intros H. right. auto.
Qed.

Lemma zip_elem_of_snd {A B : Type} (xs : list A) : forall (ys : list B) x y,
  (x, y) ∈ zip xs ys -> y ∈ ys.
Proof.
  induction xs as [|a xs IH]; intros [|b ys] x y; cbn;
    try (intros H; now apply elem_of_nil in H).
  rewrite !elem_of_cons. intros [[= -> ->]|H]; [auto|]. right. eauto.
Qed.

(** The relatives of a month column of the filtered table are cells of a
    column of the table. *)
Lemma month_column_cells prices item_codes month month_prices :
  month_column (filter_prices prices item_codes) month = Return month_prices ->
  exists col relatives,
    col ∈ price_columns prices /\
    month_prices = finite_series relatives /\
    (forall c p, (c, p) ∈ relatives -> p ∈ snd col) /\
    (List.NoDup (price_codes prices) -> List.NoDup (List.map fst relatives)).
Proof.
  unfold month_column, filter_prices. cbn [price_columns price_codes].
  rewrite dict_get_map_snd.
  destruct (List.find _ (price_columns prices)) as [col|] eqn:Hfind; [|discriminate].
  cbn. intros [= <-]. apply List.find_some in Hfind as [Hcol _].
  exists col. eexists. split; [now apply list_elem_of_In|].
  split; [apply zip_finite|]. split.
  - intros c p H. apply zip_elem_of_snd in H. now apply mask_rows_elem_of in H.
  - intros Hnd. now apply NoDup_zip_labels, NoDup_mask_rows.
Qed.

Lemma index_set_finite (s : list (string * Q)) :
  index_set (finite_series s) = list_to_set (List.map fst s).
Proof.
  unfold index_set, finite_series. now rewrite List.map_map.
Qed.

(** The values of two series at labels that both have. *)
Lemma loc_pairs (relatives weights : list (string * Q)) (labels : list string) :
  (forall c, c ∈ labels -> c ∈ List.map fst relatives /\ c ∈ List.map fst weights) ->
  exists pairs : list (Q * Q),
    omap (dict_get relatives) labels = List.map fst pairs /\
    omap (dict_get weights) labels = List.map snd pairs /\
    (labels <> [] -> pairs <> []) /\
    Forall (fun pw => exists c, (c, fst pw) ∈ relatives /\ (c, snd pw) ∈ weights) pairs.
Proof.
  induction labels as [|c labels IH]; intros Hin.
  - exists []. repeat split; [tauto|constructor].
  - destruct IH as (pairs & Hp & Hw & _ & Hall).
    { intros c' Hc'. apply Hin. now right. }
    destruct (Hin c) as [Hr Hwt]; [left|].
    destruct (dict_get_column relatives c Hr) as (p & Hgp).
    destruct (dict_get_column weights c Hwt) as (w & Hgw).
    exists ((p, w) :: pairs).
    change (omap ?f (c :: labels))
      with (match f c with Some y => y :: omap f labels | None => omap f labels end).
    rewrite Hgp, Hgw, Hp, Hw. cbn [List.map fst snd].
    repeat split; [discriminate|]. constructor; [|exact Hall].
    exists c. cbn [fst snd]. split; now apply dict_get_elem_of.
Qed.

Lemma zip_with_pairs (pairs : list (Q * Q)) :
  zip_with Qmult (List.map fst pairs) (List.map snd pairs)
  = List.map (fun pw => fst pw * snd pw) pairs.
Proof. induction pairs as [|[p w] pairs IH]; cbn; [reflexivity|now rewrite IH]. Qed.

(** X30.  With positive weights and no item code repeated in a table, every
    reported index is a finite number between 100 times the smallest and 100
    times the largest price relative of the table: no [nan], no [inf] and no
    default value reaches the result. *)
Theorem engine_index_within_the_relatives
    (self : CPIEngine) (item_codes : list string) (variant_name : string)
    (r : laspeyres_result) (lo hi : Q) :
  _calculate_laspeyres self item_codes variant_name = Return (Some r) ->
  unique_codes self ->
  Forall (fun row => 0 < Weight row) (items_df self) ->
  (forall prices col, prices_df self = Some prices -> col ∈ price_columns prices ->
     Forall (fun p => lo <= p <= hi) (snd col)) ->
  forall e, e ∈ Monthly_Data r ->
  exists q, Index e = Fin q /\ lo * 100 <= q <= hi * 100.
Proof.
  intros Hr [Hitems Hcodes] Hw Hprices e He.
  apply calculate_laspeyres_inv in Hr
    as (prices & indices & Hp & _ & HS & Hcount & Hnz & Hi & Hmom).
  apply mom_changes_entries in Hmom.
  assert (Hin : In (Month e, Index e) indices).
  { rewrite <- Hmom. apply (List.in_map (fun e => (Month e, Index e))).
    now apply list_elem_of_In. }
  destruct (monthly_indices_entries _ _ _ _ Hi _ _ Hin) as (mp & Hm & Hmatched & Hv).
  apply month_column_cells in Hm as (col & relatives & Hcol & -> & Hcells & Hnd).
  specialize (Hnd (Hcodes prices Hp)).
  set (weights := selected_weights self item_codes) in *.
  set (S := Qsum (List.map snd weights)) in *.
  assert (Hwpos : Forall (fun cw => 0 < snd cw) weights).
  { unfold weights, selected_weights. apply Forall_map_iff. cbn [snd].
    apply Forall_forall. intros row Hrow. apply elem_of_filter_list in Hrow as [Hrow _].
    rewrite Forall_forall in Hw. now apply Hw. }
  assert (HSpos : 0 < S).
  { apply Qsum_positive; [|now apply Forall_map_iff].
    intros Hnil. apply Hnz. rewrite Hcount.
    apply List.map_eq_nil in Hnil. now rewrite Hnil. }
  assert (Hnorm : selected_weights_normalized self item_codes
                  = finite_series (List.map (fun cw => (fst cw, snd cw / S * 100)) weights)).
  { unfold selected_weights_normalized. apply normalize_finite_series. fold weights S. lra. }
  rewrite Hnorm in Hv, Hmatched.
  set (normalised := List.map (fun cw => (fst cw, snd cw / S * 100)) weights) in *.
  assert (Hwnd : List.NoDup (List.map fst normalised)).
  { unfold normalised. rewrite List.map_map. cbn [fst].
    now apply (selected_weights_unique self item_codes). }
  set (labels := matched_items (finite_series relatives) (finite_series normalised)) in *.
  destruct (loc_pairs relatives normalised labels) as (pairs & Hrel & Hwts & Hne & Hall).
  { intros c Hc. unfold labels, matched_items in Hc.
    rewrite elem_of_elements, elem_of_intersection, !index_set_finite in Hc.
    rewrite !elem_of_list_to_set in Hc. exact Hc. }
  assert (Hpairs : Forall (fun pw => lo <= fst pw <= hi /\ 0 < snd pw) pairs).
  { eapply Forall_impl; [exact Hall|]. intros [p w] (c & Hcp & Hcw). cbn [fst snd] in *.
    split.
    - specialize (Hprices prices col Hp Hcol). rewrite Forall_forall in Hprices.
      apply Hprices. now apply (Hcells c).
    - apply elem_of_map_list in Hcw as ([c' w'] & Hcw' & [= _ <-]). cbn [snd].
      rewrite Forall_forall in Hwpos. specialize (Hwpos _ Hcw'). cbn [snd] in Hwpos.
      apply Qmult_lt_0_compat; [|reflexivity].
      apply Qlt_shift_div_l; [exact HSpos|]. lra. }
  assert (Hsum : 0 < Qsum (List.map snd pairs)).
  { apply Qsum_positive.
    - intros Hnil. apply List.map_eq_nil in Hnil. now apply Hne.
    - apply Forall_map_iff. eapply Forall_impl; [exact Hpairs|]. intros pw H. apply H. }
  destruct (month_sums_unique relatives normalised Hnd Hwnd) as (_ & _ & Hws & Hwt).
  cbv zeta in Hws, Hwt. fold labels in Hws, Hwt.
  rewrite Hv, Hws, Hwt, Hrel, Hwts, index_value_finite by exact Hsum.
  eexists. split; [reflexivity|].
  rewrite zip_with_pairs.
  destruct (weighted_mean_bounds lo hi pairs) as [Hlo Hhi]; [|exact Hsum|].
  - eapply Forall_impl; [exact Hpairs|]. intros pw [H1 H2]. split; [exact H1|lra].
  - split.
    + apply Qmult_le_compat_r; [exact Hlo|discriminate].
    + apply Qmult_le_compat_r; [exact Hhi|discriminate].
Qed.

Lemma engine_index_within_the_relatives_witness :
  exists r,
    get_headline_index Examples.two_items = Return (Some r) /\
    forall e, e ∈ Monthly_Data r ->
    exists q, Index e = Fin q /\ 1.10 * 100 <= q <= 1.30 * 100.
Proof.
  remember (get_headline_index Examples.two_items) as call eqn:E.
  destruct call as [[r|]|err]; try (vm_compute in E; discriminate E).
  exists r. split; [reflexivity|]. symmetry in E.
  apply (engine_index_within_the_relatives Examples.two_items _ _ r 1.10 1.30 E).
  - split; [repeat constructor; cbn; intuition discriminate|].
    intros prices [= <-]. repeat constructor; cbn; intuition discriminate.
  - repeat constructor.
  - intros prices col [= <-] Hcol.
    apply elem_of_cons in Hcol as [->|Hcol];
      [|apply list_elem_of_singleton in Hcol as ->];
      repeat constructor; cbn; discriminate.
Defined.

End EngineBounds.

